(* ===== verification/_CoqProject ===== *)
-Q . S2P
Prelude.v
LongLong.v
LimbMem.v
Mpn.v
MpnMul.v
MpnDiv.v
MpnTheorems.v
CMonad.v
Tsearch.v
TsearchRep.v
TsearchInsert.v
TsearchDescent.v
TsearchDelete.v
TsearchTheorems.v
CLoop.v
Hsearch.v
HsearchTheorems.v
Buffer.v
Base64.v
Base64Theorems.v
ByteMem.v
Qsort.v
QsortMerge.v
QsortHeap.v
QsortIndirect.v
QsortTheorems.v
Random.v
RandomTheorems.v
CInt.v
Calendar.v
Offtime.v
OfftimeTheorems.v
Tzset.v
TzsetTheorems.v
Mktime.v
MktimeTheorems.v
DomainName.v
DomainWire.v
DomainText.v
DomainPack.v
DomainTheorems.v
Numerals.v
Strtol.v
StrtolTheorems.v
Inet.v
InetText.v
InetPrint.v
InetTheorems.v
Cstr.v
Argz.v
ArgzRep.v
ArgzOps.v
ArgzReplace.v
EnvzRep.v
ArgzTheorems.v
Rand48.v
Rand48Theorems.v
StringWord.v
StringFind.v
StringShift.v
StringSearch.v
StringBack.v
StringCompare.v
StringMemcmp.v
StringMemcmpProof.v
StringTheorems.v
StringSpan.v
StringTokens.v
Interleave.v
Semaphore.v
SemaphoreTheorems.v
LowLevelLock.v
PthreadOnce.v
