(* ===== verification/Prelude.v ===== *)
(** * A verification library for the GNU C Library

    The sources are those of glibc 2.39 under [src/original/].  The library
    models the parts of it that compute: data structures, sorting, number
    arithmetic, number parsing, generators, encodings, calendar time, domain
    names, internet addresses, strings, and the primitives by which threads wait
    for each other.  Each part is translated function by function into executable
    definitions with the names of the source, and proved against an abstract
    description of what it promises.

    ** How C is represented

    - Unsigned integers are [Z] with [wrap] written where they wrap; signed
      operations are checked ([CInt.chk]) where a result might not fit, and
      conversions wrap ([CInt.sint]).  [/] and [%] are [Z.quot] and [Z.rem]
      where an operand may be negative.
    - Undefined behaviour is [None]: a failed check, an access outside an
      object, a failed assertion, a loop that exceeds its budget.  A theorem
      that says a function returns [Some] says that none of this happens.
    - A loop whose length depends on its data is [CLoop.run k step], which runs
      up to [2^k] rounds.  The budgets are [2^17] for the trial division of a
      32-bit number, [2^32] and [2^33] for the probing of a hash table and the
      search for a prime, and [2^64] for everything counted in [size_t] or
      [__time64_t].  The rule [run_spec] proves that the loop ends within its
      budget from a bound on the rounds left.  Other loops are structural, with
      the number of rounds of the source as a [nat].
    - Memory is what the code needs: limbs by address ([LimbMem]), node fields
      by cell ([Tsearch]), bytes by address ([ByteMem]), words by address
      ([Random]), a buffer as a list ([Buffer]), a block of characters as a
      list ([Cstr]), bytes in words of which some are mapped ([StringSearch]).
      Overlap and aliasing are those of the addresses.
    - Threads are a pool ([Interleave]): any thread may take the next step, a
      step is one access to the shared variable with the code up to the next
      one, and a relaxed load may return any value the variable has had.
    - What is outside a part is a parameter: the comparison function of
      [tsearch] and [qsort], the strings behind the keys of [hsearch], the
      answer of [malloc] and [calloc], the conversion function of [mktime], and
      the assembly versions of the double-word primitives, which are a class
      ([LongLong]) with the contract of the C versions.

    ** The parts

    - Multi-precision arithmetic, [stdlib/longlong.h], [gmp.h], [gmp-impl.h],
      [add_n.c], ..., [divrem.c]: files [LongLong] (double words), [LimbMem]
      (memory and values of limb ranges), [Mpn] (linear routines), [MpnMul]
      (schoolbook, Karatsuba, squaring), [MpnDiv] (division), [MpnTheorems].
      The word size is a class with instances for 32 and 64 bits.  The theorems
      give the exact value of every result, the cells written, and that the
      optimised routines agree with the plain ones.  [mpn_divrem] is proved
      for all divisor sizes; two theorems show where its comment promises more
      than the code keeps.
    - Search trees, [misc/tsearch.c]: [CMonad] (stateful code with undefined
      behaviour), [Tsearch] (the code with the colour in the low pointer bit),
      [TsearchRep] (trees and search paths in memory), [TsearchInsert],
      [TsearchDescent], [TsearchDelete], [TsearchTheorems].  Every public
      operation keeps the red-black and ordering invariants and has the effect
      of the operation on a sorted list; the node stack of [tdelete] is not
      overrun below [2^20 - 1] nodes.
    - Hash tables, [misc/hsearch_r.c], [misc/hsearch.c]: [Hsearch],
      [HsearchTheorems].  A sequence of calls refines a finite map; double
      hashing over a prime size reaches every slot.
    - Base 64, [resolv/base64.c]: [Buffer], [Base64], [Base64Theorems].  Encoding,
      decoding (accepting exactly the encodings) and their round trip, within
      the bounds of the buffers.
    - Sorting, [stdlib/qsort.c], [sysdeps/generic/memswap.h]: [ByteMem],
      [Qsort], [QsortMerge], [QsortHeap], [QsortIndirect], [QsortTheorems].
      Stable merge sort, direct and by pointers, and the heap sort used without
      memory.
    - Random numbers, [stdlib/random_r.c], [random.c], [rand_r.c]: [Random],
      [RandomTheorems].  The circular arrays implement the trinomial
      recurrence, switching states resumes a stream, and the compiled-in table
      is the seeded one.
    - Calendar time, [time/offtime.c], [tzset.c], [mktime.c] and their callers:
      [CInt] (checked integers), [Calendar] (the Gregorian calendar by adding
      up years), [Offtime], [OfftimeTheorems], [Tzset], [TzsetTheorems],
      [Mktime], [MktimeTheorems].  A time has one normal [struct tm] and
      [__offtime] finds it; rules choose the daylight saving period; [mktime]
      inverts the conversion it is given.  The class [Zone] is what [mktime]
      needs of a conversion; [fixed_zone_ok] is an instance.

    - Domain names, [resolv/ns_name_*.c], [resolv/ns_samebinaryname.c]:
      [DomainName] (the code), [DomainWire] (names in messages), [DomainText]
      (names as text), [DomainPack] (compression), [DomainTheorems].
      [name_at] says which name a message holds at a position; unpacking finds
      it and ends on every message, parsing agrees with a reference parser,
      and packing keeps the invariant that every name of the list of names can
      be read ([readable]), from which the round trips follow.  Counters and
      sizes of type [int] are checked or converted: two theorems show what that
      means for objects of [2^31] bytes and more.
    - Integers from text, [stdlib/strtol_l.c] and its callers: [Numerals] (the
      digits of a number), [Strtol], [StrtolTheorems].  For every width the
      functions compute the conversion of the standard ([reference]), defined
      with unbounded integers.
    - Internet addresses, [resolv/inet_pton.c], [inet_ntop.c], [inet_addr.c]:
      [Inet], [InetText] (the parsers), [InetPrint] (the printer),
      [InetTheorems].  Printing and parsing are inverse for both families, the
      arrays on the stack are not overrun, and [inet_aton], which calls
      [strtoul], agrees with [inet_pton] on dotted quads.
    - Argument and environment vectors, [string/argz-*.c], [string/envz.c]:
      [Cstr] (what the string functions promise on a block), [Argz] (the code),
      [ArgzRep] (vectors and the lists of strings they hold), [ArgzOps],
      [ArgzReplace], [EnvzRep], [ArgzTheorems].  The allocator is the class
      [Malloc]; it may refuse any request.  Operations have the effect of those
      on lists of strings, and an environment vector refines a map from names
      to values.
    - 48-bit random numbers, [stdlib/drand48-iter.c] and its callers: [Rand48],
      [Rand48Theorems].  The generators compute the congruential recurrence,
      which with the default parameters goes through all [2^48] states.
    - String functions, [string/strlen.c], ..., [memcmp.c] with
      [sysdeps/generic/string-fz*.h]: [StringWord] (the bit tricks), [StringFind]
      and [StringShift] (which bytes they find), [StringSearch] and [StringBack]
      (searching), [StringCompare], [StringMemcmp] and [StringMemcmpProof]
      (comparing), [StringTheorems].  The size of a word and the byte order are
      the class [OpT]; memory is read in aligned words and only mapped ones may
      be read.  The functions agree with searches byte by byte, and read no
      word that has none of the bytes they must look at.
    - Spans and tokens, [string/strspn.c], [strcspn.c], [strpbrk.c],
      [strtok_r.c], [strtok.c], [strsep.c]: [StringSpan] (the code, on the same
      memory, and what the spans measure), [StringTokens].  Calls of [strtok_r]
      give the tokens of the string in order, and end.
    - Waiting, [nptl/sem_*.c], [nptl/lowlevellock.c] with [lowlevellock.h],
      [nptl/pthread_once.c]: [Interleave] (the class [Machine] of a thread's
      steps, pools, reachability, counting), [Semaphore] and
      [SemaphoreTheorems], [LowLevelLock], [PthreadOnce].  The theorems hold in
      every reachable state, for any number of threads within the bounds stated:
      tokens are conserved, one thread owns a lock, an initialisation runs once
      and before any call returns, and a thread sleeps only while somebody is
      bound to wake it or what it waits for has not happened.  One theorem is a
      schedule in which a cancelled waiter takes a wake-up with it.

    ** Theorems

    Each part ends in a file of theorems.  Those marked with a number are the
    properties of the part, each with a witness that instantiates it when it
    has hypotheses; the others are the lemmas they rest on.

    ** Not modelled

    The memory allocator, stdio, locales and character conversion, the
    dynamic loader, the mathematical functions, the queries of the resolver and
    the name services and the kernel interfaces: input and output, generated
    tables, the memory model or numerical analysis would have to be modelled
    first.  Of the threads their creation, mutexes, condition variables and
    read-write locks, the semaphores without 64-bit atomics and the elision of
    locks.  Of the string functions those that copy by words, [strncmp] and the
    search for substrings; code that calls them uses their documented effect
    ([Cstr]).  The assembly versions of the string functions are not modelled:
    the theorems are about the portable ones.  Of the modelled files: the locks
    of [random.c] (the wrappers run to completion), the parsing of [TZ] and the zone files
    behind [tzset.c], the variants for a 32-bit [time_t], digit grouping and wide
    characters in [strtol_l.c]. *)

From Stdlib Require Export ZArith Lia.
From stdpp Require Export base tactics option list list_numbers gmap numbers.

#[global] Set Default Goal Selector "!".
#[global] Set Warnings "-clear-no-such-hyp".
Open Scope Z_scope.

(** ** Fixed-width unsigned arithmetic *)

Definition wrap (w x : Z) : Z := x mod 2 ^ w.

(** The C value of a comparison: [0] or [1]. *)
Definition b2z (b : bool) : Z := if b then 1 else 0.

Lemma pow2_pos w : 0 <= w -> 0 < 2 ^ w.
Proof. intros. apply Z.pow_pos_nonneg; lia. Qed.

Lemma wrap_bounds w x : 0 <= w -> 0 <= wrap w x < 2 ^ w.
Proof. intros. apply Z.mod_pos_bound, pow2_pos; lia. Qed.

Lemma wrap_small w x : 0 <= x < 2 ^ w -> wrap w x = x.
Proof. apply Z.mod_small. Qed.

Lemma b2z_bounds b : 0 <= b2z b <= 1.
Proof. destruct b; simpl; lia. Qed.

(** Turn boolean comparisons in the context and the goal into
    propositions. *)
Ltac bool_cases :=
  repeat match goal with
  | |- context [ ?x <? ?y ] => destruct (Z.ltb_spec x y)
  | |- context [ ?x <=? ?y ] => destruct (Z.leb_spec x y)
  | |- context [ ?x =? ?y ] => destruct (Z.eqb_spec x y)
  end.

(** Bits below [k] of a multiple of [2^k] are clear, so or-ing a [k]-bit
    number into it is an addition. *)
Lemma lor_mul_pow2_add x y k :
  0 <= k -> 0 <= y < 2 ^ k -> Z.lor (x * 2 ^ k) y = x * 2 ^ k + y.
Proof.
  intros Hk Hy.
  assert (D : Z.land (x * 2 ^ k) y = 0).
  { apply Z.bits_inj'. intros n Hn. rewrite Z.land_spec, Z.bits_0.
    destruct (Z.lt_ge_cases n k) as [Hnk|Hnk].
    - by rewrite Z.mul_pow2_bits_low.
    - rewrite <- (Z.mod_small y (2 ^ k)) by lia.
      rewrite Z.mod_pow2_bits_high by lia. apply andb_false_r. }
  rewrite <- Z.lxor_lor by done. symmetry. by apply Z.add_nocarry_lxor.
Qed.

Lemma lor_mul_pow2_add' x y k :
  0 <= k -> 0 <= y < 2 ^ k -> Z.lor y (x * 2 ^ k) = x * 2 ^ k + y.
Proof. intros. rewrite Z.lor_comm. by apply lor_mul_pow2_add. Qed.
