(* ===== verification/LongLong.v ===== *)
(** * Double-word arithmetic: [stdlib/longlong.h], [stdlib/mp_clz_tab.c]

    The C fallbacks of the macros every multi-precision routine is built
    from ([add_ssaaaa], [sub_ddmmss], [umul_ppmm], [__udiv_qrnnd_c],
    [count_leading_zeros]) and the reciprocal division
    [udiv_qrnnd_preinv] of [stdlib/gmp-impl.h].  The class [LongLong] is what
    the multi-precision layer relies on; [longlong_c] shows that the plain C
    macros keep its promises at both word sizes. *)

From S2P Require Import Prelude.

(** The width of [UWtype] and [mp_limb_t]: [__WORDSIZE], 32 or 64. *)
Class LimbWidth := {
  W_TYPE_SIZE : Z;
  W_TYPE_SIZE_cases : W_TYPE_SIZE = 32 \/ W_TYPE_SIZE = 64 }.

#[export] Instance limb32 : LimbWidth :=
  {| W_TYPE_SIZE := 32; W_TYPE_SIZE_cases := or_introl eq_refl |}.
#[export] Instance limb64 : LimbWidth :=
  {| W_TYPE_SIZE := 64; W_TYPE_SIZE_cases := or_intror eq_refl |}.

Section Width.
Context `{LW : LimbWidth}.

(** Arithmetic on [UWtype] wraps. *)
Definition uw (x : Z) : Z := wrap W_TYPE_SIZE x.
(** The base of the limbs, [2^W_TYPE_SIZE]. *)
Definition B : Z := 2 ^ W_TYPE_SIZE.
Definition limb (x : Z) : Prop := 0 <= x < B.

(** ** The macros *)

Definition ll_B : Z := Z.shiftl 1 (W_TYPE_SIZE / 2).
Definition ll_lowpart (t : Z) : Z := Z.land t (ll_B - 1).
Definition ll_highpart (t : Z) : Z := Z.shiftr t (W_TYPE_SIZE / 2).

Definition add_ssaaaa (ah al bh bl : Z) : Z * Z :=
  let x := uw (al + bl) in
  (uw (ah + bh + b2z (x <? al)), x).

Definition sub_ddmmss (ah al bh bl : Z) : Z * Z :=
  let x := uw (al - bl) in
  (uw (ah - bh - b2z (al <? x)), x).

Definition umul_ppmm_c (u v : Z) : Z * Z :=
  let ul := ll_lowpart u in
  let uh := ll_highpart u in
  let vl := ll_lowpart v in
  let vh := ll_highpart v in
  let x0 := uw (ul * vl) in
  let x1 := uw (ul * vh) in
  let x2 := uw (uh * vl) in
  let x3 := uw (uh * vh) in
  let x1 := uw (x1 + ll_highpart x0) in
  let x1 := uw (x1 + x2) in
  let x3 := if x1 <? x2 then uw (x3 + ll_B) else x3 in
  (uw (x3 + ll_highpart x1), uw (ll_lowpart x1 * ll_B + ll_lowpart x0)).

(** One half of [__udiv_qrnnd_c]: divide [n1 * __ll_B + nx] by [d], where
    [nx] is the half word that is brought down. *)
Definition udiv_half (n1 nx d : Z) : Z * Z :=
  let d1 := ll_highpart d in
  let d0 := ll_lowpart d in
  let r1 := n1 mod d1 in
  let q1 := n1 / d1 in
  let m := uw (q1 * d0) in
  let r1 := Z.lor (uw (r1 * ll_B)) nx in
  let '(q1, r1) :=
    if r1 <? m then
      let q1 := uw (q1 - 1) in
      let r1 := uw (r1 + d) in
      if d <=? r1 then
        if r1 <? m then (uw (q1 - 1), uw (r1 + d)) else (q1, r1)
      else (q1, r1)
    else (q1, r1) in
  (q1, uw (r1 - m)).

Definition udiv_qrnnd_c (n1 n0 d : Z) : Z * Z :=
  let '(q1, r1) := udiv_half n1 (ll_highpart n0) d in
  let '(q0, r0) := udiv_half r1 (ll_lowpart n0) d in
  (Z.lor (uw (q1 * ll_B)) q0, r0).

(** [__clz_tab]: entry [x] is the number of bits of the byte [x]. *)
Definition clz_tab : list Z :=
  [0;1;2;2;3;3;3;3] ++ replicate 8 4 ++ replicate 16 5 ++ replicate 32 6
  ++ replicate 64 7 ++ replicate 128 8.

(** The search for the highest non-zero byte: [__a] counts down in steps of
    8 until it reaches 0. *)
Fixpoint clz_byte (fuel : nat) (xr a : Z) : Z :=
  match fuel with
  | O => a
  | S fuel =>
      if 0 <? a then
        if negb (Z.land (Z.shiftr xr a) 255 =? 0) then a
        else clz_byte fuel xr (a - 8)
      else a
  end.

Definition count_leading_zeros_c (xr : Z) : Z :=
  let bits4 := W_TYPE_SIZE / 4 in
  let a :=
    if W_TYPE_SIZE <=? 32 then
      if xr <? Z.shiftl 1 (2 * bits4)
      then (if xr <? Z.shiftl 1 bits4 then 0 else bits4)
      else (if xr <? Z.shiftl 1 (3 * bits4) then 2 * bits4 else 3 * bits4)
    else clz_byte (Z.to_nat W_TYPE_SIZE) xr (W_TYPE_SIZE - 8) in
  W_TYPE_SIZE - (nth (Z.to_nat (Z.shiftr xr a)) clz_tab 0 + a).

(** ** Facts about the width *)

Definition hB : Z := 2 ^ (W_TYPE_SIZE / 2).

Lemma W_pos : 0 < W_TYPE_SIZE.
Proof. destruct W_TYPE_SIZE_cases; lia. Qed.

Lemma B_eq : B = hB * hB.
Proof.
  unfold B, hB. destruct W_TYPE_SIZE_cases as [-> | ->]; reflexivity.
Qed.

Lemma hB_ge : 2 < hB.
Proof. unfold hB. destruct W_TYPE_SIZE_cases as [-> | ->]; reflexivity. Qed.

Lemma hB_even : hB = 2 * (hB / 2).
Proof. unfold hB. destruct W_TYPE_SIZE_cases as [-> | ->]; reflexivity. Qed.

Lemma B_half : B = 2 * 2 ^ (W_TYPE_SIZE - 1).
Proof. unfold B. destruct W_TYPE_SIZE_cases as [-> | ->]; reflexivity. Qed.

Lemma B_ge : 4 < B.
Proof. rewrite B_eq. pose proof hB_ge. nia. Qed.

Lemma uw_limb x : limb (uw x).
Proof. apply wrap_bounds. pose proof W_pos; lia. Qed.

Lemma uw_small x : limb x -> uw x = x.
Proof. apply wrap_small. Qed.

Lemma uw_add_B x k : uw (x + k * B) = uw x.
Proof. apply Z_mod_plus_full. Qed.

(** [uw x] is the limb that differs from [x] by a multiple of [B]. *)
Lemma uw_unique x y k : limb y -> x = y + k * B -> uw x = y.
Proof. intros Hy ->. rewrite uw_add_B. by apply uw_small. Qed.

Lemma uw_repr x : exists k, x = uw x + k * B.
Proof.
  exists (x / B). pose proof B_ge. unfold uw, wrap. fold B.
  rewrite (Z.div_mod x B) at 1 by lia. ring.
Qed.

Lemma ll_B_eq : ll_B = hB.
Proof.
  unfold ll_B. rewrite Z.shiftl_mul_pow2; [unfold hB; lia|].
  pose proof W_pos. apply Z.div_pos; lia.
Qed.

Lemma ll_lowpart_eq t : ll_lowpart t = t mod hB.
Proof.
  unfold ll_lowpart. rewrite ll_B_eq. unfold hB.
  replace (2 ^ (W_TYPE_SIZE / 2) - 1) with (Z.ones (W_TYPE_SIZE / 2))
    by (rewrite Z.ones_equiv; lia).
  apply Z.land_ones. pose proof W_pos. apply Z.div_pos; lia.
Qed.

Lemma ll_highpart_eq t : ll_highpart t = t / hB.
Proof.
  apply Z.shiftr_div_pow2. pose proof W_pos. apply Z.div_pos; lia.
Qed.

Lemma ll_split t : limb t ->
  exists h l, ll_highpart t = h /\ ll_lowpart t = l /\ t = h * hB + l /\
    0 <= h < hB /\ 0 <= l < hB.
Proof.
  intros Ht. unfold limb in Ht. rewrite B_eq in Ht.
  rewrite ll_highpart_eq, ll_lowpart_eq. pose proof hB_ge.
  exists (t / hB), (t mod hB).
  pose proof (Z.div_mod t hB ltac:(lia)).
  pose proof (Z.mod_pos_bound t hB ltac:(lia)).
  repeat split; try lia.
  - apply Z.div_pos; lia.
  - apply Z.div_lt_upper_bound; lia.
Qed.

(** Or-ing a half word into a word whose low half is clear adds it. *)
Lemma lor_half x y : 0 <= x < hB -> 0 <= y < hB ->
  Z.lor (uw (x * ll_B)) y = x * hB + y.
Proof.
  intros Hx Hy. rewrite ll_B_eq. rewrite uw_small.
  2:{ unfold limb. rewrite B_eq. nia. }
  apply lor_mul_pow2_add; [|done]. pose proof W_pos. apply Z.div_pos; lia.
Qed.

(** ** The macros compute what they promise *)

Lemma add_ssaaaa_spec ah al bh bl sh sl :
  limb al -> limb bl -> add_ssaaaa ah al bh bl = (sh, sl) ->
  limb sh /\ limb sl /\
  exists k, ah * B + al + (bh * B + bl) = sh * B + sl + k * (B * B).
Proof.
  unfold add_ssaaaa. intros Hal Hbl [= <- <-].
  set (c := b2z (uw (al + bl) <? al)).
  assert (E : al + bl = uw (al + bl) + c * B).
  { subst c. unfold limb in *. destruct (Z.lt_ge_cases (al + bl) B).
    - rewrite uw_small by (unfold limb; lia). bool_cases; simpl; lia.
    - rewrite (uw_unique (al + bl) (al + bl - B) 1) by (unfold limb; lia).
      bool_cases; simpl; lia. }
  split; [apply uw_limb|split; [apply uw_limb|]].
  exists ((ah + bh + c) / B).
  pose proof (Z.div_mod (ah + bh + c) B ltac:(pose proof B_ge; lia)) as D.
  change ((ah + bh + c) mod B) with (uw (ah + bh + c)) in D. nia.
Qed.

Lemma sub_ddmmss_spec ah al bh bl sh sl :
  limb al -> limb bl -> sub_ddmmss ah al bh bl = (sh, sl) ->
  limb sh /\ limb sl /\
  exists k, ah * B + al - (bh * B + bl) = sh * B + sl + k * (B * B).
Proof.
  unfold sub_ddmmss. intros Hal Hbl [= <- <-].
  set (c := b2z (al <? uw (al - bl))).
  assert (E : al - bl = uw (al - bl) - c * B).
  { subst c. unfold limb in *. destruct (Z.lt_ge_cases al bl).
    - rewrite (uw_unique (al - bl) (al - bl + B) (-1)) by (unfold limb; lia).
      bool_cases; simpl; lia.
    - rewrite uw_small by (unfold limb; lia). bool_cases; simpl; lia. }
  split; [apply uw_limb|split; [apply uw_limb|]].
  exists ((ah - bh - c) / B).
  pose proof (Z.div_mod (ah - bh - c) B ltac:(pose proof B_ge; lia)) as D.
  change ((ah - bh - c) mod B) with (uw (ah - bh - c)) in D. nia.
Qed.

(** Two-word results that fit are exact. *)
Lemma two_limbs_exact h l k x :
  limb h -> limb l -> 0 <= x < B * B -> x = h * B + l + k * (B * B) ->
  x = h * B + l.
Proof.
  unfold limb. intros. assert (0 <= h * B + l < B * B) by nia.
  assert (k = 0) by nia. subst; lia.
Qed.

Lemma add_ssaaaa_exact ah al bh bl sh sl :
  limb al -> limb bl -> 0 <= ah * B + al + (bh * B + bl) < B * B ->
  add_ssaaaa ah al bh bl = (sh, sl) ->
  limb sh /\ limb sl /\ ah * B + al + (bh * B + bl) = sh * B + sl.
Proof.
  intros Ha Hb Hr E. apply add_ssaaaa_spec in E as (? & ? & k & E); [|done..].
  eauto using two_limbs_exact.
Qed.

Lemma sub_ddmmss_exact ah al bh bl sh sl :
  limb al -> limb bl -> 0 <= ah * B + al - (bh * B + bl) < B * B ->
  sub_ddmmss ah al bh bl = (sh, sl) ->
  limb sh /\ limb sl /\ ah * B + al - (bh * B + bl) = sh * B + sl.
Proof.
  intros Ha Hb Hr E. apply sub_ddmmss_spec in E as (? & ? & k & E); [|done..].
  eauto using two_limbs_exact.
Qed.

(** The four partial products of [umul_ppmm] over half words. *)
Lemma umul_halves h ul uh vl vh x1 :
  2 < h -> 0 <= ul < h -> 0 <= uh < h -> 0 <= vl < h -> 0 <= vh < h ->
  x1 = ul * vh + (ul * vl) / h + uh * vl ->
  (uh * h + ul) * (vh * h + vl)
  = (uh * vh + x1 / h) * (h * h) + (x1 mod h) * h + (ul * vl) mod h.
Proof.
  intros Hh ? ? ? ? ->. set (x0 := ul * vl).
  set (x1 := ul * vh + x0 / h + uh * vl).
  pose proof (Z.div_mod x0 h ltac:(lia)). pose proof (Z.div_mod x1 h ltac:(lia)).
  subst x1 x0. nia.
Qed.

Lemma limb_halves x y : 0 <= x < hB -> 0 <= y < hB -> limb (x * hB + y).
Proof. intros. unfold limb. rewrite B_eq. nia. Qed.

Lemma high_word_bound p h l b : p < b * b -> p = h * b + l -> 0 <= l -> 0 < b -> h < b.
Proof. intros. nia. Qed.

(** The sum of the two middle products, with the carry the macro detects. *)
Lemma add_carry x y : limb x -> limb y ->
  x + y = uw (x + y) + b2z (uw (x + y) <? y) * B.
Proof.
  unfold limb. intros. destruct (Z.lt_ge_cases (x + y) B).
  - rewrite uw_small by (unfold limb; lia). bool_cases; simpl; lia.
  - rewrite (uw_unique (x + y) (x + y - B) 1) by (unfold limb; lia).
    bool_cases; simpl; lia.
Qed.

Lemma umul_ppmm_c_spec u v hi lo :
  limb u -> limb v -> umul_ppmm_c u v = (hi, lo) ->
  limb hi /\ limb lo /\ hi * B + lo = u * v.
Proof.
  intros Hu Hv. unfold umul_ppmm_c.
  assert (Hp : u * v < B * B) by (unfold limb in *; nia).
  destruct (ll_split u Hu) as (uh & ul & -> & -> & -> & Huh & Hul).
  destruct (ll_split v Hv) as (vh & vl & -> & -> & -> & Hvh & Hvl).
  pose proof hB_ge as HB. rewrite !ll_highpart_eq, !ll_lowpart_eq, ll_B_eq.
  assert (S : forall a b, 0 <= a < hB -> 0 <= b < hB -> 0 <= a * b <= B - 2 * hB + 1)
    by (rewrite B_eq; intros; nia).
  pose proof (S ul vl Hul Hvl). pose proof (S uh vh Huh Hvh).
  pose proof (S ul vh Hul Hvh). pose proof (S uh vl Huh Hvl).
  rewrite !(uw_small (_ * _)) by (unfold limb; lia). set (x0 := ul * vl) in *.
  assert (Hx0 : 0 <= x0 / hB < hB).
  { rewrite B_eq in *. split; [apply Z.div_pos; lia|apply Z.div_lt_upper_bound; lia]. }
  rewrite (uw_small (ul * vh + x0 / hB)) by (unfold limb; lia).
  set (y := ul * vh + x0 / hB + uh * vl).
  pose proof (umul_halves hB ul uh vl vh y HB Hul Huh Hvl Hvh eq_refl) as E.
  pose proof (add_carry (ul * vh + x0 / hB) (uh * vl)) as C.
  fold x0 in E. fold y in C. specialize (C ltac:(unfold limb; lia) ltac:(unfold limb; lia)).
  set (c := b2z (uw y <? uh * vl)) in *. set (w := uw y) in *.
  assert (Ed : y / hB = w / hB + c * hB)
    by (rewrite C, B_eq, Z.mul_assoc, Z.div_add by lia; done).
  assert (Em : y mod hB = w mod hB)
    by (rewrite C, B_eq, Z.mul_assoc, Z.mod_add by lia; done).
  rewrite Ed, Em, <- B_eq in E. clear Ed Em.
  pose proof (limb_halves (w mod hB) (x0 mod hB)) as Hlo.
  specialize (Hlo ltac:(apply Z.mod_pos_bound; lia) ltac:(apply Z.mod_pos_bound; lia)).
  assert (W3 : 0 <= w / hB) by (apply Z.div_pos; [apply uw_limb|lia]).
  pose proof (b2z_bounds (w <? uh * vl)) as Hc. fold c in Hc.
  assert (Hhi : limb (uh * vh + (w / hB + c * hB))).
  { split; [apply Z.add_nonneg_nonneg; [lia|]; apply Z.add_nonneg_nonneg; nia|].
    eapply high_word_bound; [apply Hp|rewrite E, <- Z.add_assoc; reflexivity|apply Hlo|].
    pose proof B_ge; lia. }
  intros [= <- <-]. rewrite (uw_small (_ mod _ * _ + _)) by done.
  replace (uw _) with (uh * vh + (w / hB + c * hB)); [split_and!; [done..|lia]|].
  unfold limb in Hhi. subst c. destruct (w <? uh * vl); simpl b2z in *.
  - rewrite (uw_small (uh * vh + hB)), uw_small by (unfold limb; lia). lia.
  - rewrite uw_small by (unfold limb; lia). lia.
Qed.

(** [d] has its most significant bit set. *)
Definition normalized (d : Z) : Prop := limb d /\ B <= 2 * d.

(** The correction steps of one half: [q1] over-estimates the quotient by at
    most two, and the comparisons see through the wrap-around of [r1]. *)
Lemma udiv_correct d q1 r m x qf rf :
  normalized d -> 0 <= r < d -> 0 <= m < B -> 0 <= q1 <= B - 1 ->
  0 <= x -> x = q1 * d + (r - m) ->
  (let '(q1, r1) :=
    if r <? m then
      let q1 := uw (q1 - 1) in
      let r1 := uw (r + d) in
      if d <=? r1 then
        if r1 <? m then (uw (q1 - 1), uw (r1 + d)) else (q1, r1)
      else (q1, r1)
    else (q1, r) in (q1, uw (r1 - m))) = (qf, rf) ->
  x = qf * d + rf /\ 0 <= rf < d /\ 0 <= qf <= q1.
Proof.
  intros [Hd Hn] Hr Hm Hq Hx E. unfold limb in Hd. cbv zeta.
  destruct (Z.ltb_spec r m) as [L1|L1].
  2:{ intros [= <- <-]. rewrite uw_small by (unfold limb; lia). lia. }
  assert (0 < q1) by nia. rewrite (uw_small (q1 - 1)) by (unfold limb; lia).
  destruct (Z.lt_ge_cases (r + d) B) as [L2|L2].
  - rewrite (uw_small (r + d)) by (unfold limb; lia).
    destruct (Z.leb_spec d (r + d)) as [L3|L3]; [|lia].
    destruct (Z.ltb_spec (r + d) m) as [L4|L4]; intros [= <- <-].
    + assert (1 < q1) by nia. rewrite (uw_small (q1 - 1 - 1)) by (unfold limb; lia).
      rewrite (uw_unique _ (r + d + d - m) (- ((r + d + d) / B))); [lia|unfold limb; lia|].
      pose proof (Z.div_mod (r + d + d) B ltac:(lia)) as D.
      change ((r + d + d) mod B) with (uw (r + d + d)) in D. lia.
    + rewrite uw_small by (unfold limb; lia). lia.
  - rewrite (uw_unique (r + d) (r + d - B) 1) by (unfold limb; lia).
    destruct (Z.leb_spec d (r + d - B)) as [L3|L3]; [lia|]. intros [= <- <-].
    rewrite (uw_unique _ (r + d - m) (-1)) by (unfold limb; lia). lia.
Qed.

(** The high half of a normalized divisor is at least [hB / 2]. *)
Lemma normalized_high d d1 d0 :
  normalized d -> d = d1 * hB + d0 -> 0 <= d0 < hB -> hB <= 2 * d1.
Proof.
  intros [_ Hd] -> H0. rewrite B_eq in Hd. pose proof hB_ge. pose proof hB_even.
  assert (hB < 2 * d1 + 2) by (apply (Z.mul_lt_mono_pos_r hB); lia). lia.
Qed.

(** The estimate from the high half of the divisor, and its product with the
    low half, stay within a word. *)
Lemma udiv_estimate h n1 d1 d0 :
  2 < h -> h <= 2 * d1 -> 0 <= d0 < h -> d1 < h -> 0 <= n1 < d1 * h + d0 ->
  0 <= n1 / d1 <= h + 1 /\ 0 <= n1 / d1 * d0 < h * h.
Proof.
  intros. assert (Q : 0 <= n1 / d1 <= h + 1).
  { split; [apply Z.div_pos; lia|]. apply Z.lt_succ_r, Z.div_lt_upper_bound; lia. }
  split; [done|]. split; [apply Z.mul_nonneg_nonneg; lia|].
  apply Z.le_lt_trans with ((h + 1) * (h - 1)); [|lia].
  apply Z.mul_le_mono_nonneg; lia.
Qed.

Lemma udiv_half_spec n1 nx d q r :
  normalized d -> 0 <= n1 < d -> 0 <= nx < hB -> udiv_half n1 nx d = (q, r) ->
  n1 * hB + nx = q * d + r /\ 0 <= r < d /\ 0 <= q < hB.
Proof.
  intros Hd Hn Hx. unfold udiv_half.
  destruct (ll_split d (proj1 Hd)) as (d1 & d0 & -> & -> & Ed & Hd1 & Hd0).
  pose proof hB_ge as HB. pose proof (normalized_high d d1 d0 Hd Ed Hd0) as H1.
  destruct (udiv_estimate hB n1 d1 d0) as [Q Hm]; [lia..|].
  pose proof (Z.div_mod n1 d1 ltac:(lia)) as D.
  pose proof (Z.mod_pos_bound n1 d1 ltac:(lia)) as M.
  set (q1 := n1 / d1) in *. set (r1 := n1 mod d1) in *.
  rewrite (uw_small (q1 * d0)), lor_half by (unfold limb; rewrite ?B_eq; lia).
  assert (Hr1 : 0 <= r1 * hB + nx < d1 * hB).
  { split; [apply Z.add_nonneg_nonneg; [apply Z.mul_nonneg_nonneg|]; lia|].
    apply Z.lt_le_trans with (r1 * hB + hB); [lia|].
    replace (r1 * hB + hB) with ((r1 + 1) * hB) by ring.
    apply Z.mul_le_mono_nonneg_r; lia. }
  assert (Hx0 : 0 <= n1 * hB + nx < d * hB).
  { split; [apply Z.add_nonneg_nonneg; [apply Z.mul_nonneg_nonneg|]; lia|].
    apply Z.lt_le_trans with ((n1 + 1) * hB); [lia|].
    apply Z.mul_le_mono_nonneg_r; lia. }
  intros E. eapply (udiv_correct d q1 (r1 * hB + nx) (q1 * d0) (n1 * hB + nx)) in E
    as (E & Hr & Hq); [|rewrite ?B_eq; try lia..].
  - split_and!; [lia..|]. apply (Z.mul_lt_mono_pos_r d); lia.
  - done.
  - assert (3 * hB <= hB * hB) by (apply Z.mul_le_mono_nonneg_r; lia). lia.
Qed.

Lemma udiv_qrnnd_c_spec n1 n0 d q r :
  normalized d -> 0 <= n1 < d -> limb n0 -> udiv_qrnnd_c n1 n0 d = (q, r) ->
  n1 * B + n0 = q * d + r /\ 0 <= r < d /\ limb q.
Proof.
  intros Hd Hn Hn0. unfold udiv_qrnnd_c.
  destruct (ll_split n0 Hn0) as (nh & nl & -> & -> & -> & Hnh & Hnl).
  destruct (udiv_half n1 nh d) as [q1 r1] eqn:E1.
  apply udiv_half_spec in E1 as (E1 & Hr1 & Hq1); [|done..].
  destruct (udiv_half r1 nl d) as [q0 r0] eqn:E0.
  apply udiv_half_spec in E0 as (E0 & Hr0 & Hq0); [|done..].
  intros [= <- <-]. rewrite lor_half by done.
  split; [rewrite B_eq; lia|]. split; [done|by apply limb_halves].
Qed.

(** ** Counting leading zeros *)

(** The table holds the bit length of every byte. *)
Lemma clz_tab_spec x : 0 < x < 256 ->
  nth (Z.to_nat x) clz_tab 0 = Z.log2 x + 1.
Proof.
  intros Hx.
  assert (C : forallb (fun n => nth n clz_tab 0 =? Z.log2 (Z.of_nat n) + 1) (seq 1 255) = true)
    by (vm_compute; reflexivity).
  rewrite forallb_forall in C. specialize (C (Z.to_nat x)).
  rewrite Z2Nat.id, Z.eqb_eq in C by lia. apply C, in_seq. lia.
Qed.

(** The byte [clz_byte] stops at holds the highest bit of [xr]. *)
Lemma clz_byte_spec fuel xr a :
  0 < xr < 2 ^ (a + 8) -> 0 <= a -> a mod 8 = 0 -> a <= Z.of_nat fuel ->
  let a' := clz_byte fuel xr a in 0 <= a' /\ 2 ^ a' <= xr < 2 ^ (a' + 8) \/ 
  a' = 0 /\ 0 < xr < 256.
Proof.
  revert a. induction fuel as [|fuel IH]; intros a Hx Ha Hm Hf; simpl.
  { right. assert (a = 0) by lia. by subst. }
  destruct (Z.ltb_spec 0 a) as [L|L]; [|right; assert (a = 0) by lia; by subst].
  change 255 with (Z.ones 8). rewrite Z.land_ones, Z.shiftr_div_pow2 by lia.
  assert (P : 0 < 2 ^ a) by (apply Z.pow_pos_nonneg; lia).
  assert (D : 0 <= xr / 2 ^ a < 2 ^ 8).
  { split; [apply Z.div_pos; lia|]. apply Z.div_lt_upper_bound; [done|].
    rewrite <- Z.pow_add_r by lia. lia. }
  rewrite Z.mod_small by done.
  destruct (Z.eqb_spec (xr / 2 ^ a) 0) as [E|E]; simpl.
  - apply Z.div_small_iff in E; [|lia]. clear D. apply IH; [|Z.div_mod_to_equations; lia..].
    replace (a - 8 + 8) with a by lia. lia.
  - left. split_and!; [lia| |lia].
    apply Z.lt_le_incl in L. assert (1 <= xr / 2 ^ a) by lia.
    pose proof (Z.mul_div_le xr (2 ^ a) P). nia.
Qed.

Lemma clz_of_byte xr a : 0 < xr -> 0 <= a -> 0 < Z.shiftr xr a < 256 ->
  nth (Z.to_nat (Z.shiftr xr a)) clz_tab 0 + a = Z.log2 xr + 1.
Proof.
  intros Hx Ha Hs. rewrite clz_tab_spec, Z.log2_shiftr by done.
  enough (a <= Z.log2 xr) by lia.
  rewrite Z.shiftr_div_pow2 in Hs by done. apply Z.log2_le_pow2; [done|].
  pose proof (pow2_pos a Ha) as P. pose proof (Z.mul_div_le xr (2 ^ a) P). nia.
Qed.

Lemma shiftr_byte xr a : 0 <= a -> 2 ^ a <= xr < 2 ^ (a + 8) ->
  0 < Z.shiftr xr a < 256.
Proof.
  intros Ha Hx. rewrite Z.shiftr_div_pow2 by done. pose proof (pow2_pos a Ha) as P.
  rewrite Z.pow_add_r in Hx by lia. split.
  - apply Z.div_str_pos. lia.
  - apply Z.div_lt_upper_bound; lia.
Qed.

Lemma count_leading_zeros_c_spec x : 0 < x < B ->
  count_leading_zeros_c x = W_TYPE_SIZE - 1 - Z.log2 x.
Proof.
  intros Hx. unfold count_leading_zeros_c.
  enough (G : forall a, 0 <= a -> 2 ^ a <= x < 2 ^ (a + 8) \/ a = 0 /\ x < 256 ->
    W_TYPE_SIZE - (nth (Z.to_nat (Z.shiftr x a)) clz_tab 0 + a) = W_TYPE_SIZE - 1 - Z.log2 x).
  { unfold B in Hx. destruct W_TYPE_SIZE_cases as [E|E]; rewrite E in *.
    - change (32 <=? 32) with true. change (32 / 4) with 8. cbv iota.
      change (Z.shiftl 1 (2 * 8)) with 65536. change (Z.shiftl 1 8) with 256.
      change (Z.shiftl 1 (3 * 8)) with 16777216. change (2 ^ 32) with 4294967296 in Hx.
      bool_cases; (apply G; [lia|]); [right|left; change (2 ^ 8) with 256..]; lia.
    - change (64 <=? 32) with false. cbv iota. pose proof (clz_byte_spec 64 x 56 ltac:(simpl; lia) ltac:(lia) eq_refl ltac:(lia)) as C.
      cbv zeta in C. change (Z.to_nat 64) with 64%nat. change (64 - 8) with 56.
      apply G; [|destruct C as [[_ C]|[C ?]]; [by left|right; lia]]. lia. }
  intros a Ha C. rewrite clz_of_byte; [lia..|].
  destruct C as [C|[-> C]]; [by apply shiftr_byte|]. rewrite Z.shiftr_0_r. lia.
Qed.
End Width.

(** ** The interface of the multi-precision layer

    What [stdlib/*.c] relies on, whichever of the assembler or C definitions
    [longlong.h] selects: the operations, whether the division wants a
    normalized divisor, and the relative costs that choose the division
    strategy in [mpn_divmod_1] and [mpn_mod_1]. *)
Class LongLong `{LW : LimbWidth} := {
  umul_ppmm : Z -> Z -> Z * Z;
  udiv_qrnnd : Z -> Z -> Z -> Z * Z;
  UDIV_NEEDS_NORMALIZATION : bool;
  count_leading_zeros : Z -> Z;
  UMUL_TIME : Z;
  UDIV_TIME : Z;
  umul_ppmm_spec : forall u v hi lo,
    limb u -> limb v -> umul_ppmm u v = (hi, lo) ->
    limb hi /\ limb lo /\ hi * B + lo = u * v;
  udiv_qrnnd_spec : forall n1 n0 d q r,
    limb d -> (UDIV_NEEDS_NORMALIZATION = true -> normalized d) ->
    0 <= n1 < d -> limb n0 -> udiv_qrnnd n1 n0 d = (q, r) ->
    n1 * B + n0 = q * d + r /\ 0 <= r < d /\ limb q;
  count_leading_zeros_spec : forall x,
    0 < x < B -> count_leading_zeros x = W_TYPE_SIZE - 1 - Z.log2 x }.

(** The plain C macros, with the default costs of [divmod_1.c]. *)
#[export] Program Instance longlong_c `{LimbWidth} : LongLong := {|
  umul_ppmm := umul_ppmm_c;
  udiv_qrnnd := udiv_qrnnd_c;
  UDIV_NEEDS_NORMALIZATION := true;
  count_leading_zeros := count_leading_zeros_c;
  UMUL_TIME := 1;
  UDIV_TIME := 1 |}.
Next Obligation. intros. by eapply umul_ppmm_c_spec. Qed.
Next Obligation. intros. apply udiv_qrnnd_c_spec; auto. Qed.
Next Obligation. intros. by apply count_leading_zeros_c_spec. Qed.

Section Preinv.
Context `{LL : LongLong}.

(** [udiv_qrnnd_preinv] of [gmp-impl.h]: division by [d] with its
    reciprocal [di]. *)
Definition udiv_qrnnd_preinv (nh nl d di : Z) : Z * Z :=
  let '(q, _ql) := umul_ppmm nh di in
  let q := uw (q + nh) in
  let '(xh, xl) := umul_ppmm q d in
  let '(xh, r) := sub_ddmmss nh nl xh xl in
  let '(q, r) :=
    if negb (xh =? 0) then
      let '(xh, r) := sub_ddmmss xh r 0 d in
      let q := uw (q + 1) in
      if negb (xh =? 0) then
        let '(xh, r) := sub_ddmmss xh r 0 d in
        (uw (q + 1), r)
      else (q, r)
    else (q, r) in
  if d <=? r then (uw (q + 1), uw (r - d)) else (q, r).

(** The reciprocal the callers compute: [B^2 / d - B], or all ones when [d]
    is the smallest normalized divisor. *)
Definition invert_limb (d : Z) : Z :=
  if uw (Z.shiftl d 1) =? 0 then B - 1
  else fst (udiv_qrnnd (uw (- d)) 0 d).

Lemma invert_limb_spec d : normalized d ->
  limb (invert_limb d) /\ B * B - d <= (invert_limb d + B) * d <= B * B.
Proof.
  intros Hd. pose proof Hd as [Hl Hn]. unfold limb in Hl. unfold invert_limb.
  rewrite Z.shiftl_mul_pow2 by lia. change (2 ^ 1) with 2. pose proof B_ge as HB.
  rewrite (uw_unique (d * 2) (d * 2 - B) 1) by (unfold limb; lia).
  destruct (Z.eqb_spec (d * 2 - B) 0) as [E|E].
  { assert (B = 2 * d) as -> by lia. unfold limb; lia. }
  rewrite (uw_unique (- d) (B - d) (-1)) by (unfold limb; lia).
  destruct (udiv_qrnnd (B - d) 0 d) as [q r] eqn:E1; simpl.
  apply udiv_qrnnd_spec in E1 as (E1 & Hr & Hq); [|unfold limb; auto; lia..].
  split; [done|]. lia.
Qed.

(** The estimate taken from the reciprocal is at most three too small. *)
Lemma preinv_estimate b nh nl d di h l :
  0 < d < b -> 0 <= nh < d -> 0 <= nl < b -> 0 <= l < b ->
  b * b - d <= (di + b) * d <= b * b -> h * b + l = nh * di ->
  0 <= nh * b + nl - (h + nh) * d < b + 2 * d.
Proof.
  intros Hd Hnh Hnl Hl Hdi E. set (q := h + nh). set (v := di + b) in *.
  assert (Q : q * b = nh * v - l) by (subst q v; lia).
  assert (D : (nh * b + nl - q * d) * b = nh * (b * b - v * d) + l * d + nl * b) by nia.
  assert (S1 : 0 <= nh * (b * b - v * d) <= nh * d)
    by (split; [apply Z.mul_nonneg_nonneg; lia|apply Z.mul_le_mono_nonneg_l; lia]).
  assert (S2 : 0 <= l * d) by (apply Z.mul_nonneg_nonneg; lia).
  assert (S3 : l * d <= b * d) by (apply Z.mul_le_mono_nonneg_r; lia).
  assert (S4 : nh * d <= b * d) by (apply Z.mul_le_mono_nonneg_r; lia).
  assert (S5 : nl * b <= (b - 1) * b) by (apply Z.mul_le_mono_nonneg_r; lia).
  assert (S6 : 0 <= nl * b) by (apply Z.mul_nonneg_nonneg; lia).
  split; [apply (Z.mul_le_mono_pos_r _ _ b); lia|apply (Z.mul_lt_mono_pos_r b); lia].
Qed.

(** The correction steps after the estimate [q]. *)
Lemma preinv_correct nn d q xh r qf rf :
  normalized d -> limb xh -> limb r -> 0 <= q -> nn < d * B ->
  nn = q * d + (xh * B + r) -> xh * B + r < B + 2 * d ->
  (let '(q, r) :=
    if negb (xh =? 0) then
      let '(xh, r) := sub_ddmmss xh r 0 d in
      let q := uw (q + 1) in
      if negb (xh =? 0) then
        let '(xh, r) := sub_ddmmss xh r 0 d in
        (uw (q + 1), r)
      else (q, r)
    else (q, r) in
  if d <=? r then (uw (q + 1), uw (r - d)) else (q, r)) = (qf, rf) ->
  nn = qf * d + rf /\ 0 <= rf < d /\ limb qf.
Proof.
  intros [Hd Hn] Hxh Hr Hq Hnn E Hb. cbv zeta.
  pose proof B_ge as HB. unfold limb in Hd, Hxh, Hr.
  assert (Step : forall q xh r, limb xh -> limb r -> xh <> 0 -> 0 <= q ->
    nn = q * d + (xh * B + r) -> exists xh' r', sub_ddmmss xh r 0 d = (xh', r') /\
    limb xh' /\ limb r' /\ uw (q + 1) = q + 1 /\ xh' * B + r' = xh * B + r - d).
  { clear q xh r Hxh Hr Hq E Hb. unfold limb. intros q xh r Hxh Hr H0 Hq E.
    assert (B <= xh * B) by nia.
    destruct (sub_ddmmss xh r 0 d) as [xh' r'] eqn:S. exists xh', r'.
    apply sub_ddmmss_exact in S as (? & ? & S); [|unfold limb; lia..|nia].
    rewrite (uw_small (q + 1)) by (unfold limb; nia). unfold limb in *. split; [done|lia]. }
  assert (Last : forall q r, limb r -> 0 <= q -> nn = q * d + r ->
    (if d <=? r then (uw (q + 1), uw (r - d)) else (q, r)) = (qf, rf) ->
    nn = qf * d + rf /\ 0 <= rf < d /\ limb qf).
  { clear q xh r Hxh Hr Hq E Hb Step. unfold limb. intros q r Hr Hq E.
    destruct (Z.leb_spec d r); intros [= <- <-].
    - rewrite !uw_small by (unfold limb; nia). split_and!; [lia..|nia].
    - split_and!; [lia..|nia]. }
  destruct (Z.eqb_spec xh 0) as [->|N1]; simpl negb; cbv iota; [apply Last; [done..|lia]|].
  destruct (Step q xh r) as (xh1 & r1 & -> & ? & ? & -> & E1); [done..|].
  destruct (Z.eqb_spec xh1 0) as [->|N2]; simpl negb; cbv iota; [apply Last; [done|lia..]|].
  destruct (Step (q + 1) xh1 r1) as (xh2 & r2 & -> & ? & ? & -> & E2); [done..|lia|lia|].
  unfold limb in *. assert (xh2 = 0) as -> by nia.
  apply Last; [done|lia|lia].
Qed.

Lemma udiv_qrnnd_preinv_spec nh nl d q r :
  normalized d -> 0 <= nh < d -> limb nl ->
  udiv_qrnnd_preinv nh nl d (invert_limb d) = (q, r) ->
  nh * B + nl = q * d + r /\ 0 <= r < d /\ limb q.
Proof.
  intros Hd Hnh Hnl. pose proof Hd as [Hl Hn].
  destruct (invert_limb_spec d Hd) as [Hdi Hv].
  unfold udiv_qrnnd_preinv. destruct (umul_ppmm nh (invert_limb d)) as [h l] eqn:M1.
  apply umul_ppmm_spec in M1 as (Hh & Hlo & M1); [|unfold limb in *; lia|done].
  destruct (preinv_estimate B nh nl d (invert_limb d) h l) as [P1 P2];
    [unfold limb in *; lia..|].
  assert (Hq : limb (h + nh)).
  { unfold limb in *. split; [lia|]. apply (Z.mul_lt_mono_pos_r d); nia. }
  rewrite uw_small by done. destruct (umul_ppmm (h + nh) d) as [xh xl] eqn:M2.
  apply umul_ppmm_spec in M2 as (Hxh & Hxl & M2); [|done..].
  destruct (sub_ddmmss nh nl xh xl) as [xh' r'] eqn:S.
  apply sub_ddmmss_exact in S as (Hxh' & Hr' & S); [|done..|unfold limb in *; nia].
  unfold limb in Hq, Hnl.
  apply (preinv_correct (nh * B + nl)); [done..|lia|nia|lia|lia].
Qed.
End Preinv.
