(* ===== verification/LimbMem.v ===== *)
(** * Limb memory and the values of limb ranges

    The multi-precision routines work on raw pointers into limb arrays that
    may overlap.  Memory is a function from limb addresses to limb values; a
    natural number of [n] limbs at [p] is [mval m p n].  [frame] says which
    cells a routine leaves alone. *)

From S2P Require Import Prelude LongLong.

Abbreviation mem := (Z -> Z).

Definition upd (m : mem) (p v : Z) : mem := fun q => if q =? p then v else m q.

Notation "m .[ p := v ]" := (upd m p v)
  (at level 1, format "m .[ p  :=  v ]") : Z_scope.

(** [m'] differs from [m] at most in the [n] cells from [p] on. *)
Definition frame (m m' : mem) (p n : Z) : Prop :=
  forall q, q < p \/ p + n <= q -> m' q = m q.

(** Two ranges share no cell. *)
Definition disjoint_ranges (p n q k : Z) : Prop := p + n <= q \/ q + k <= p.
(** A range at [src] may be read while [dst] is written from low to high
    addresses, or from high to low ones. *)
Definition incr_ok (dst src n : Z) : Prop := dst <= src \/ src + n <= dst.
Definition decr_ok (dst src n : Z) : Prop := src <= dst \/ dst + n <= src.

Section LimbMem.
Context `{LW : LimbWidth}.

(** The sum of [f (p + i) * B^i] for [i < n]. *)
Fixpoint limb_sum (f : Z -> Z) (p : Z) (n : nat) : Z :=
  match n with
  | O => 0
  | S n => f p + B * limb_sum f (p + 1) n
  end.

(** The natural number held by the [n] limbs at [p]. *)
Definition mval (m : mem) (p n : Z) : Z := limb_sum m p (Z.to_nat n).

(** Every cell holds a limb. *)
Definition wf (m : mem) : Prop := forall p, limb (m p).

Lemma upd_eq m p v : m.[p := v] p = v.
Proof. unfold upd. by rewrite Z.eqb_refl. Qed.

Lemma upd_ne m p v q : q <> p -> m.[p := v] q = m q.
Proof. intros. unfold upd. by rewrite (proj2 (Z.eqb_neq q p)). Qed.

Lemma wf_upd m p v : wf m -> limb v -> wf m.[p := v].
Proof. intros Hm Hv q. unfold upd. by destruct (q =? p). Qed.

Lemma frame_refl m p n : frame m m p n.
Proof. by intros q _. Qed.

Lemma frame_upd m p v : frame m m.[p := v] p 1.
Proof. intros q Hq. apply upd_ne. lia. Qed.

Lemma frame_weaken m m' p n q k :
  frame m m' p n -> q <= p -> p + n <= q + k -> frame m m' q k.
Proof. intros F ? ? x Hx. apply F. lia. Qed.

Lemma frame_trans m1 m2 m3 p n :
  frame m1 m2 p n -> frame m2 m3 p n -> frame m1 m3 p n.
Proof. intros F G q Hq. by rewrite G, F. Qed.

Lemma limb_sum_ext f g p n :
  (forall i, p <= i < p + Z.of_nat n -> f i = g i) -> limb_sum f p n = limb_sum g p n.
Proof.
  revert p. induction n as [|n IH]; intros p E; simpl; [done|].
  rewrite (E p), (IH (p + 1)); [done| |lia]. intros i Hi. apply E. lia.
Qed.

Lemma limb_sum_linear f g c p n :
  limb_sum (fun i => f i + c * g i) p n = limb_sum f p n + c * limb_sum g p n.
Proof. revert p. induction n as [|n IH]; intros p; simpl; [lia|]. rewrite IH. ring. Qed.

Lemma limb_sum_scale g c p n : limb_sum (fun i => c * g i) p n = c * limb_sum g p n.
Proof. revert p. induction n as [|n IH]; intros p; simpl; [lia|]. rewrite IH. ring. Qed.

Lemma limb_sum_shift f p k n : limb_sum (fun i => f (k + i)) p n = limb_sum f (k + p) n.
Proof.
  revert p. induction n as [|n IH]; intros p; simpl; [done|].
  rewrite IH. by replace (k + (p + 1)) with (k + p + 1) by lia.
Qed.

Lemma limb_sum_app f p a b :
  limb_sum f p (a + b) = limb_sum f p a + B ^ Z.of_nat a * limb_sum f (p + Z.of_nat a) b.
Proof.
  revert p. induction a as [|a IH]; intros p.
  - simpl. rewrite Z.add_0_r. lia.
  - cbn [limb_sum Nat.add]. rewrite IH, Nat2Z.inj_succ, Z.pow_succ_r by lia.
    replace (p + 1 + Z.of_nat a) with (p + Z.succ (Z.of_nat a)) by lia. ring.
Qed.

(** ** Values of ranges *)

Lemma Bpow_pos n : 0 <= n -> 0 < B ^ n.
Proof. intros. apply Z.pow_pos_nonneg; [pose proof B_ge; lia|done]. Qed.

Lemma mval_0 m p : mval m p 0 = 0.
Proof. done. Qed.

Lemma mval_1 m p : mval m p 1 = m p.
Proof. unfold mval. simpl. lia. Qed.

Lemma mval_app m p a b : 0 <= a -> 0 <= b ->
  mval m p (a + b) = mval m p a + B ^ a * mval m (p + a) b.
Proof.
  intros. unfold mval. rewrite Z2Nat.inj_add, limb_sum_app by lia.
  by rewrite !Z2Nat.id by lia.
Qed.

Lemma mval_split m p a n : 0 <= a <= n ->
  mval m p n = mval m p a + B ^ a * mval m (p + a) (n - a).
Proof. intros. rewrite <- mval_app by lia. f_equal. lia. Qed.

Lemma mval_succ m p n : 0 <= n -> mval m p (n + 1) = m p + B * mval m (p + 1) n.
Proof.
  intros. rewrite Z.add_comm, mval_app, mval_1, Z.pow_1_r by lia. done.
Qed.

Lemma mval_last m p n : 0 <= n -> mval m p (n + 1) = mval m p n + B ^ n * m (p + n).
Proof. intros. by rewrite mval_app, mval_1 by lia. Qed.

Lemma mval_ext m m' p n :
  (forall q, p <= q < p + n -> m' q = m q) -> mval m' p n = mval m p n.
Proof.
  intros E. apply limb_sum_ext. intros i Hi. apply E. lia.
Qed.

(** The limbs of one range equal the limbs of another. *)
Lemma mval_copy m m' p p' n :
  (forall i, 0 <= i < n -> m' (p' + i) = m (p + i)) -> mval m' p' n = mval m p n.
Proof.
  intros E. unfold mval.
  rewrite <- (Z.add_0_r p), <- (Z.add_0_r p'), <- !limb_sum_shift.
  apply limb_sum_ext. intros i Hi. apply E. lia.
Qed.

Lemma mval_frame m m' q k p n :
  frame m m' q k -> disjoint_ranges p n q k -> mval m' p n = mval m p n.
Proof. intros F D. apply mval_ext. intros x Hx. apply F. unfold disjoint_ranges in D. lia. Qed.

Lemma mval_bound m p n : wf m -> 0 <= n -> 0 <= mval m p n < B ^ n.
Proof.
  intros Hm Hn. rewrite <- (Z2Nat.id n Hn). unfold mval. rewrite Nat2Z.id.
  generalize (Z.to_nat n) as k. clear n Hn. intros k. revert p.
  induction k as [|k IH]; intros p; simpl limb_sum; [simpl; lia|].
  specialize (IH (p + 1)). specialize (Hm p). unfold limb in Hm.
  rewrite Nat2Z.inj_succ, Z.pow_succ_r by lia. nia.
Qed.

Lemma mval_zero m p n : (forall i, 0 <= i < n -> m (p + i) = 0) -> mval m p n = 0.
Proof.
  intros E. rewrite (mval_copy (fun _ => 0) m p p n) by done. unfold mval.
  generalize (Z.to_nat n) as k. clear. intros k. revert p.
  induction k as [|k IH]; intros p; simpl; [done|]. rewrite IH. lia.
Qed.

(** The limbs of a number are determined by its value. *)
Lemma mval_inj m m' p p' n : wf m -> wf m' -> mval m p n = mval m' p' n ->
  forall i, 0 <= i < n -> m (p + i) = m' (p' + i).
Proof.
  intros Hm Hm' E i Hi. rewrite <- (Z2Nat.id n) in E, Hi by lia.
  revert p p' i E Hi. generalize (Z.to_nat n) as k. clear n.
  induction k as [|k IH]; intros p p' i E Hi; [lia|].
  replace (Z.of_nat (S k)) with (Z.of_nat k + 1) in * by lia.
  rewrite !mval_succ in E by lia.
  pose proof (Hm p) as H1. pose proof (Hm' p') as H2. unfold limb in *.
  assert (E' : mval m (p + 1) (Z.of_nat k) = mval m' (p' + 1) (Z.of_nat k)) by nia.
  destruct (Z.eq_dec i 0) as [->|]; [rewrite !Z.add_0_r; nia|].
  specialize (IH (p + 1) (p' + 1) (i - 1) E' ltac:(lia)).
  by replace (p + i) with (p + 1 + (i - 1)) by lia; replace (p' + i) with (p' + 1 + (i - 1)) by lia.
Qed.

(** A memory with the given limbs from address 0 on, and zeros elsewhere. *)
Definition mem_of (l : list Z) : mem :=
  fun p => if 0 <=? p then nth (Z.to_nat p) l 0 else 0.

Lemma mem_of_wf l : forallb (fun x => (0 <=? x) && (x <? B)) l = true -> wf (mem_of l).
Proof.
  intros H p. unfold mem_of, limb. pose proof B_ge.
  destruct (0 <=? p); [|lia]. rewrite forallb_forall in H.
  destruct (nth_in_or_default (Z.to_nat p) l 0) as [I| ->]; [|lia].
  specialize (H _ I). lia.
Qed.
End LimbMem.

Create HintDb limbs.
#[export] Hint Resolve wf_upd uw_limb frame_refl : limbs.
#[export] Hint Unfold disjoint_ranges incr_ok decr_ok : limbs.

(** Replace the value of a range in the newer memory by its value before a
    write that did not touch it. *)
Ltac frame_val F :=
  match type of F with
  | frame ?m ?m' ?q ?k =>
      repeat match goal with
      | |- context [mval m' ?p ?n] =>
          rewrite (mval_frame m m' q k p n F) by (unfold disjoint_ranges; lia)
      end
  end.
