(* ===== verification/Mpn.v ===== *)
(** * Multi-precision primitives: [stdlib/{add_n,sub_n,mul_1,addmul_1,
    submul_1,lshift,rshift,cmp}.c] and the inline functions of
    [stdlib/gmp.h]

    Each routine is a function from the limb memory to the returned limb and
    the new memory; operands are pointers and may overlap as far as the
    routine allows.  The theorems give the exact value of the result, the
    returned carry or borrow, and that nothing outside the result range is
    written. *)

From S2P Require Import Prelude LongLong LimbMem.

Section Mpn.
Context `{LL : LongLong}.

(** ** Definitions *)

(** The common shape of the linear routines: [j] runs from [-size] to [-1]
    over pointers that were offset by [size]; the body yields the limb stored
    at [res_ptr[j]] and the next carry.  [fuel] bounds the iterations, which
    are exactly [size] when [size] is positive. *)
Fixpoint limb_loop (fuel : nat) (body : mem -> Z -> Z -> Z * Z)
    (m : mem) (res_ptr j cy : Z) : Z * mem :=
  let '(y, cy) := body m j cy in
  let m := m.[res_ptr + j := y] in
  let j := j + 1 in
  match fuel with
  | O => (cy, m)
  | S fuel => if negb (j =? 0) then limb_loop fuel body m res_ptr j cy else (cy, m)
  end.

Definition add_n_body (s1_ptr s2_ptr : Z) (m : mem) (j cy : Z) : Z * Z :=
  let y := m (s2_ptr + j) in
  let x := m (s1_ptr + j) in
  let y := uw (y + cy) in
  let cy := b2z (y <? cy) in
  let y := uw (x + y) in
  let cy := b2z (y <? x) + cy in
  (y, cy).

Definition mpn_add_n (m : mem) (res_ptr s1_ptr s2_ptr size : Z) : Z * mem :=
  let j := - size in
  limb_loop (Z.to_nat size) (add_n_body (s1_ptr - j) (s2_ptr - j)) m (res_ptr - j) j 0.

Definition sub_n_body (s1_ptr s2_ptr : Z) (m : mem) (j cy : Z) : Z * Z :=
  let y := m (s2_ptr + j) in
  let x := m (s1_ptr + j) in
  let y := uw (y + cy) in
  let cy := b2z (y <? cy) in
  let y := uw (x - y) in
  let cy := b2z (x <? y) + cy in
  (y, cy).

Definition mpn_sub_n (m : mem) (res_ptr s1_ptr s2_ptr size : Z) : Z * mem :=
  let j := - size in
  limb_loop (Z.to_nat size) (sub_n_body (s1_ptr - j) (s2_ptr - j)) m (res_ptr - j) j 0.

Definition mul_1_body (s1_ptr s2_limb : Z) (m : mem) (j cy_limb : Z) : Z * Z :=
  let '(prod_high, prod_low) := umul_ppmm (m (s1_ptr + j)) s2_limb in
  let prod_low := uw (prod_low + cy_limb) in
  let cy_limb := uw (b2z (prod_low <? cy_limb) + prod_high) in
  (prod_low, cy_limb).

Definition mpn_mul_1 (m : mem) (res_ptr s1_ptr s1_size s2_limb : Z) : Z * mem :=
  let j := - s1_size in
  limb_loop (Z.to_nat s1_size) (mul_1_body (s1_ptr - j) s2_limb) m (res_ptr - j) j 0.

Definition addmul_1_body (res_ptr s1_ptr s2_limb : Z) (m : mem) (j cy_limb : Z) : Z * Z :=
  let '(prod_high, prod_low) := umul_ppmm (m (s1_ptr + j)) s2_limb in
  let prod_low := uw (prod_low + cy_limb) in
  let cy_limb := uw (b2z (prod_low <? cy_limb) + prod_high) in
  let x := m (res_ptr + j) in
  let prod_low := uw (x + prod_low) in
  let cy_limb := uw (cy_limb + b2z (prod_low <? x)) in
  (prod_low, cy_limb).

Definition mpn_addmul_1 (m : mem) (res_ptr s1_ptr s1_size s2_limb : Z) : Z * mem :=
  let j := - s1_size in
  limb_loop (Z.to_nat s1_size) (addmul_1_body (res_ptr - j) (s1_ptr - j) s2_limb)
    m (res_ptr - j) j 0.

Definition submul_1_body (res_ptr s1_ptr s2_limb : Z) (m : mem) (j cy_limb : Z) : Z * Z :=
  let '(prod_high, prod_low) := umul_ppmm (m (s1_ptr + j)) s2_limb in
  let prod_low := uw (prod_low + cy_limb) in
  let cy_limb := uw (b2z (prod_low <? cy_limb) + prod_high) in
  let x := m (res_ptr + j) in
  let prod_low := uw (x - prod_low) in
  let cy_limb := uw (cy_limb + b2z (x <? prod_low)) in
  (prod_low, cy_limb).

Definition mpn_submul_1 (m : mem) (res_ptr s1_ptr s1_size s2_limb : Z) : Z * mem :=
  let j := - s1_size in
  limb_loop (Z.to_nat s1_size) (submul_1_body (res_ptr - j) (s1_ptr - j) s2_limb)
    m (res_ptr - j) j 0.

(** [mpn_lshift]: the loop [while (--i >= 0)], [i] before the decrement. *)
Fixpoint lshift_loop (fuel : nat) (m : mem) (wp up i high_limb sh_1 sh_2 : Z) : mem :=
  let i := i - 1 in
  match fuel with
  | O => m.[wp + i := uw (Z.shiftl high_limb sh_1)]
  | S fuel =>
      if 0 <=? i then
        let low_limb := m (up + i) in
        let m := m.[wp + i := Z.lor (uw (Z.shiftl high_limb sh_1)) (Z.shiftr low_limb sh_2)] in
        lshift_loop fuel m wp up i low_limb sh_1 sh_2
      else m.[wp + i := uw (Z.shiftl high_limb sh_1)]
  end.

Definition mpn_lshift (m : mem) (wp up usize cnt : Z) : Z * mem :=
  let sh_1 := cnt in
  let wp := wp + 1 in
  let sh_2 := W_TYPE_SIZE - sh_1 in
  let i := usize - 1 in
  let low_limb := m (up + i) in
  let retval := Z.shiftr low_limb sh_2 in
  let high_limb := low_limb in
  (retval, lshift_loop (Z.to_nat usize) m wp up i high_limb sh_1 sh_2).

Fixpoint rshift_loop (fuel : nat) (m : mem) (wp up usize i low_limb sh_1 sh_2 : Z) : mem :=
  match fuel with
  | O => m.[wp + i := Z.shiftr low_limb sh_1]
  | S fuel =>
      if i <? usize then
        let high_limb := m (up + i) in
        let m := m.[wp + i := Z.lor (Z.shiftr low_limb sh_1) (uw (Z.shiftl high_limb sh_2))] in
        rshift_loop fuel m wp up usize (i + 1) high_limb sh_1 sh_2
      else m.[wp + i := Z.shiftr low_limb sh_1]
  end.

(** [None] is a failed assertion. *)
Definition mpn_rshift (m : mem) (wp up usize cnt : Z) : option (Z * mem) :=
  if negb (negb (usize =? 0) && negb (cnt =? 0)) then None else
  let sh_1 := cnt in
  let wp := wp - 1 in
  let sh_2 := W_TYPE_SIZE - sh_1 in
  let high_limb := m up in
  let retval := uw (Z.shiftl high_limb sh_2) in
  let low_limb := high_limb in
  Some (retval, rshift_loop (Z.to_nat usize) m wp up usize 1 low_limb sh_1 sh_2).

(** [mpn_cmp]: [n] is [i + 1]. *)
Fixpoint cmp_loop (n : nat) (m : mem) (op1_ptr op2_ptr : Z) : Z :=
  match n with
  | O => 0
  | S i =>
      let op1_word := m (op1_ptr + Z.of_nat i) in
      let op2_word := m (op2_ptr + Z.of_nat i) in
      if negb (op1_word =? op2_word) then (if op2_word <? op1_word then 1 else -1)
      else cmp_loop i m op1_ptr op2_ptr
  end.

Definition mpn_cmp (m : mem) (op1_ptr op2_ptr size : Z) : Z :=
  cmp_loop (Z.to_nat size) m op1_ptr op2_ptr.

(** [MPN_COPY_INCR], [MPN_COPY_DECR] and [MPN_ZERO] of [gmp-impl.h]. *)
Fixpoint copy_incr_loop (n : nat) (m : mem) (dst src i : Z) : mem :=
  match n with
  | O => m
  | S n => copy_incr_loop n (m.[dst + i := m (src + i)]) dst src (i + 1)
  end.

Definition MPN_COPY (m : mem) (dst src nlimbs : Z) : mem :=
  copy_incr_loop (Z.to_nat nlimbs) m dst src 0.

Fixpoint copy_decr_loop (n : nat) (m : mem) (dst src : Z) : mem :=
  match n with
  | O => m
  | S i => copy_decr_loop i (m.[dst + Z.of_nat i := m (src + Z.of_nat i)]) dst src
  end.

Definition MPN_COPY_DECR (m : mem) (dst src nlimbs : Z) : mem :=
  copy_decr_loop (Z.to_nat nlimbs) m dst src.

Fixpoint zero_loop (n : nat) (m : mem) (dst i : Z) : mem :=
  match n with
  | O => m
  | S n => zero_loop n (m.[dst + i := 0]) dst (i + 1)
  end.

Definition MPN_ZERO (m : mem) (dst nlimbs : Z) : mem :=
  zero_loop (Z.to_nat nlimbs) m dst 0.

(** The label [fin] of [mpn_add_1] and [mpn_sub_1]: copy what is left. *)
Definition fin_copy (m : mem) (res_ptr s1_ptr s1_size : Z) : Z * mem :=
  (0, if negb (res_ptr =? s1_ptr) then MPN_COPY m res_ptr s1_ptr (s1_size - 1) else m).

(** The carry loop [while (--s1_size != 0)]. *)
Fixpoint add_1_loop (fuel : nat) (m : mem) (res_ptr s1_ptr s1_size : Z) : Z * mem :=
  let s1_size := s1_size - 1 in
  match fuel with
  | O => (1, m)
  | S fuel =>
      if negb (s1_size =? 0) then
        let x := uw (m s1_ptr + 1) in
        let m := m.[res_ptr := x] in
        if negb (x =? 0) then fin_copy m (res_ptr + 1) (s1_ptr + 1) s1_size
        else add_1_loop fuel m (res_ptr + 1) (s1_ptr + 1) s1_size
      else (1, m)
  end.

Definition mpn_add_1 (m : mem) (res_ptr s1_ptr s1_size s2_limb : Z) : Z * mem :=
  let x := m s1_ptr in
  let s2_limb := uw (x + s2_limb) in
  let m := m.[res_ptr := s2_limb] in
  if s2_limb <? x then add_1_loop (Z.to_nat s1_size) m (res_ptr + 1) (s1_ptr + 1) s1_size
  else fin_copy m (res_ptr + 1) (s1_ptr + 1) s1_size.

Definition mpn_add (m : mem) (res_ptr s1_ptr s1_size s2_ptr s2_size : Z) : Z * mem :=
  let '(cy_limb, m) :=
    if negb (s2_size =? 0) then mpn_add_n m res_ptr s1_ptr s2_ptr s2_size else (0, m) in
  if negb (s1_size - s2_size =? 0) then
    mpn_add_1 m (res_ptr + s2_size) (s1_ptr + s2_size) (s1_size - s2_size) cy_limb
  else (cy_limb, m).

Fixpoint sub_1_loop (fuel : nat) (m : mem) (res_ptr s1_ptr s1_size : Z) : Z * mem :=
  let s1_size := s1_size - 1 in
  match fuel with
  | O => (1, m)
  | S fuel =>
      if negb (s1_size =? 0) then
        let x := m s1_ptr in
        let m := m.[res_ptr := uw (x - 1)] in
        if negb (x =? 0) then fin_copy m (res_ptr + 1) (s1_ptr + 1) s1_size
        else sub_1_loop fuel m (res_ptr + 1) (s1_ptr + 1) s1_size
      else (1, m)
  end.

Definition mpn_sub_1 (m : mem) (res_ptr s1_ptr s1_size s2_limb : Z) : Z * mem :=
  let x := m s1_ptr in
  let s2_limb := uw (x - s2_limb) in
  let m := m.[res_ptr := s2_limb] in
  if x <? s2_limb then sub_1_loop (Z.to_nat s1_size) m (res_ptr + 1) (s1_ptr + 1) s1_size
  else fin_copy m (res_ptr + 1) (s1_ptr + 1) s1_size.

Definition mpn_sub (m : mem) (res_ptr s1_ptr s1_size s2_ptr s2_size : Z) : Z * mem :=
  let '(cy_limb, m) :=
    if negb (s2_size =? 0) then mpn_sub_n m res_ptr s1_ptr s2_ptr s2_size else (0, m) in
  if negb (s1_size - s2_size =? 0) then
    mpn_sub_1 m (res_ptr + s2_size) (s1_ptr + s2_size) (s1_size - s2_size) cy_limb
  else (cy_limb, m).

(** ** The linear loops *)

(** One body for all: if every step satisfies
    [out + sg * B * cy' = F m j + sg * cy], where [F m j] reads only cells
    the loop has not overwritten yet, then the whole loop satisfies the same
    equation on values of [n] limbs. *)
Lemma limb_loop_spec (body : mem -> Z -> Z -> Z * Z) (F : mem -> Z -> Z)
    (ok : Z -> Prop) (sg : Z) (n fuel : nat) m res cy :
  (forall m j cy out cy', wf m -> ok cy -> body m j cy = (out, cy') ->
     limb out /\ ok cy' /\ out + sg * B * cy' = F m j + sg * cy) ->
  (forall m m' j k, - Z.of_nat (S n) <= k <= j -> j < 0 ->
     frame m m' (res + k) (j - k) -> F m' j = F m j) ->
  wf m -> ok cy -> (n <= fuel)%nat ->
  exists cy' m', limb_loop fuel body m res (- Z.of_nat (S n)) cy = (cy', m') /\
    wf m' /\ ok cy' /\ frame m m' (res - Z.of_nat (S n)) (Z.of_nat (S n)) /\
    mval m' (res - Z.of_nat (S n)) (Z.of_nat (S n)) + sg * B ^ Z.of_nat (S n) * cy'
    = limb_sum (F m) (- Z.of_nat (S n)) (S n) + sg * cy.
Proof.
  intros Hbody. revert fuel m cy. induction n as [|n IH]; intros fuel m cy Hst Hm Hcy Hf.
  - change (- Z.of_nat 1) with (-1). change (Z.of_nat 1) with 1.
    destruct fuel as [|fuel]; simpl; destruct (body m (-1) cy) as [out cy'] eqn:E;
      (apply Hbody in E as (Ho & Hc & E); [|done..]).
    all: exists cy', (m.[res + -1 := out]); split; [done|]; split; [by apply wf_upd|].
    all: split; [done|]; split; [by apply (frame_weaken _ _ (res + -1) 1); [apply frame_upd|lia..]|].
    all: rewrite mval_1, Z.pow_1_r.
    all: replace (res - 1) with (res + -1) by lia; rewrite upd_eq; lia.
  - destruct fuel as [|fuel]; [lia|]. cbn [limb_loop].
    destruct (body m _ cy) as [out cy1] eqn:E.
    apply Hbody in E as (Ho & Hc & E); [|done..].
    set (j := - Z.of_nat (S (S n))) in *.
    replace (j + 1) with (- Z.of_nat (S n)) by lia.
    destruct (Z.eqb_spec (- Z.of_nat (S n)) 0); [lia|]. simpl negb. cbv iota.
    pose proof (wf_upd m (res + j) out Hm Ho) as Hm1.
    pose proof (frame_upd m (res + j) out) as F1. set (m1 := m.[res + j := out]) in *.
    destruct (IH fuel m1 cy1) as (cy' & m' & -> & Hm' & Hc' & F2 & E'); [|done..|lia|].
    { intros a b i k Hk Hi Fr. apply (Hst a b i k); [lia..|done]. }
    exists cy', m'. split; [done|]. split; [done|]. split; [done|]. split.
    { intros q Hq. rewrite F2, F1 by lia. done. }
    replace (Z.of_nat (S (S n))) with (Z.of_nat (S n) + 1) by lia.
    rewrite mval_succ, Z.pow_add_r, Z.pow_1_r by lia. cbn [limb_sum].
    replace (res - (Z.of_nat (S n) + 1)) with (res + j) by lia.
    replace (res + j + 1) with (res - Z.of_nat (S n)) by lia.
    rewrite (F2 (res + j)) by lia. subst m1. rewrite upd_eq.
    replace (- (Z.of_nat (S n) + 1)) with j by lia. replace (j + 1) with (- Z.of_nat (S n)) by lia.
    cbn [limb_sum] in E'.
    enough (S' : limb_sum (F m.[res + j := out]) (- Z.of_nat (S n)) (S n)
      = limb_sum (F m) (- Z.of_nat (S n)) (S n)) by (cbn [limb_sum] in *; nia).
    apply limb_sum_ext. intros i Hi. apply (Hst _ _ i j); [lia..|].
    apply (frame_weaken _ _ (res + j) 1); [done|lia..].
Qed.

(** The same over a positive [size], as the routines call it. *)
Lemma limb_loop_size body F ok sg m res n :
  (forall m j cy out cy', wf m -> ok cy -> body m j cy = (out, cy') ->
     limb out /\ ok cy' /\ out + sg * B * cy' = F m j + sg * cy) ->
  (forall m m' j k, - n <= k <= j -> j < 0 ->
     frame m m' (res - - n + k) (j - k) -> F m' j = F m j) ->
  wf m -> ok 0 -> 0 < n ->
  exists cy' m', limb_loop (Z.to_nat n) body m (res - - n) (- n) 0 = (cy', m') /\
    wf m' /\ ok cy' /\ frame m m' res n /\
    mval m' res n + sg * B ^ n * cy' = limb_sum (F m) (- n) (Z.to_nat n).
Proof.
  intros Hb Hst Hm H0 Hn.
  replace n with (Z.of_nat (S (Z.to_nat n - 1))) in Hst |- * by lia.
  destruct (limb_loop_spec body F ok sg (Z.to_nat n - 1) (Z.to_nat n) m (res + n) 0)
    as (cy' & m' & E & Hm' & Hc & Hf & Hv); [done| |done..|lia|].
  { intros. eapply Hst; [eassumption..|]. eapply frame_weaken; [eassumption|lia..]. }
  set (k := Z.of_nat (S (Z.to_nat n - 1))) in *. replace n with k in * by lia.
  exists cy', m'. replace (res - - k) with (res + k) by lia.
  replace (res + k - k) with res in * by lia.
  split; [done|]. split; [done|]. split; [done|]. split; [done|].
  rewrite Hv. replace (S (Z.to_nat k - 1)) with (Z.to_nat k) by lia. lia.
Qed.

(** The sum over indices of an offset pointer is the value at the pointer. *)
Lemma limb_sum_ptr (m : mem) p n :
  limb_sum (fun j => m (p - - n + j)) (- n) (Z.to_nat n) = mval m p n.
Proof. rewrite limb_sum_shift. unfold mval. f_equal. lia. Qed.

(** A source cell is read before it is overwritten. *)
Lemma incr_ok_read m m' res src n j k :
  incr_ok res src n -> - n <= k <= j -> j < 0 ->
  frame m m' (res - - n + k) (j - k) -> m' (src - - n + j) = m (src - - n + j).
Proof. unfold incr_ok. intros D Hk Hj F. apply F. lia. Qed.

Lemma mpn_add_n_spec m res s1 s2 n :
  wf m -> 0 < n -> incr_ok res s1 n -> incr_ok res s2 n ->
  exists cy m', mpn_add_n m res s1 s2 n = (cy, m') /\ wf m' /\ 0 <= cy <= 1 /\
    frame m m' res n /\ mval m' res n + B ^ n * cy = mval m s1 n + mval m s2 n.
Proof.
  intros Hm Hn D1 D2. unfold mpn_add_n.
  destruct (limb_loop_size (add_n_body (s1 - - n) (s2 - - n))
    (fun m j => m (s1 - - n + j) + 1 * m (s2 - - n + j)) (fun c => 0 <= c <= 1) 1 m res n)
    as (cy & m' & -> & ? & ? & ? & E); [| |done|lia|done|].
  - clear. intros m j cy out cy' Hm Hcy. unfold add_n_body. intros [= <- <-].
    pose proof (Hm (s1 - - n + j)) as Hx. pose proof (Hm (s2 - - n + j)) as Hy.
    set (x := m (s1 - - n + j)) in *. set (y := m (s2 - - n + j)) in *. pose proof B_ge.
    assert (Hcy' : limb cy) by (unfold limb; lia).
    pose proof (add_carry y cy Hy Hcy') as C1. set (y1 := uw (y + cy)) in *.
    pose proof (add_carry y1 x (uw_limb _) Hx) as C2. rewrite Z.add_comm in C2.
    split; [apply uw_limb|]. pose proof (uw_limb (x + y1)). unfold limb in *.
    pose proof (b2z_bounds (y1 <? cy)). pose proof (b2z_bounds (uw (x + y1) <? x)).
    split; nia.
  - intros. f_equal; [|f_equal]; by eapply incr_ok_read.
  - exists cy, m'. rewrite limb_sum_linear, !limb_sum_ptr in E. auto with lia.
Qed.

Lemma sub_borrow x y : limb x -> limb y ->
  x - y = uw (x - y) - b2z (x <? uw (x - y)) * B.
Proof.
  unfold limb. intros. destruct (Z.lt_ge_cases x y).
  - rewrite (uw_unique (x - y) (x - y + B) (-1)) by (unfold limb; lia).
    bool_cases; simpl; lia.
  - rewrite uw_small by (unfold limb; lia). bool_cases; simpl; lia.
Qed.

Lemma mpn_sub_n_spec m res s1 s2 n :
  wf m -> 0 < n -> incr_ok res s1 n -> incr_ok res s2 n ->
  exists cy m', mpn_sub_n m res s1 s2 n = (cy, m') /\ wf m' /\ 0 <= cy <= 1 /\
    frame m m' res n /\ mval m' res n - B ^ n * cy = mval m s1 n - mval m s2 n.
Proof.
  intros Hm Hn D1 D2. unfold mpn_sub_n.
  destruct (limb_loop_size (sub_n_body (s1 - - n) (s2 - - n))
    (fun m j => m (s1 - - n + j) + -1 * m (s2 - - n + j)) (fun c => 0 <= c <= 1) (-1) m res n)
    as (cy & m' & -> & ? & ? & ? & E); [| |done|lia|done|].
  - clear. intros m j cy out cy' Hm Hcy. unfold sub_n_body. intros [= <- <-].
    pose proof (Hm (s1 - - n + j)) as Hx. pose proof (Hm (s2 - - n + j)) as Hy.
    set (x := m (s1 - - n + j)) in *. set (y := m (s2 - - n + j)) in *. pose proof B_ge.
    assert (Hcy' : limb cy) by (unfold limb; lia).
    pose proof (add_carry y cy Hy Hcy') as C1. set (y1 := uw (y + cy)) in *.
    pose proof (sub_borrow x y1 Hx (uw_limb _)) as C2.
    split; [apply uw_limb|]. pose proof (uw_limb (x - y1)). unfold limb in *.
    pose proof (b2z_bounds (y1 <? cy)). pose proof (b2z_bounds (x <? uw (x - y1))).
    pose proof (uw_limb (y + cy)). unfold limb in *. split; nia.
  - intros. f_equal; [|f_equal]; by eapply incr_ok_read.
  - exists cy, m'. rewrite limb_sum_linear, !limb_sum_ptr in E. auto with lia.
Qed.

(** A product limb plus a carry limb never overflows two limbs. *)
Lemma mul_step x v cy hi lo :
  limb x -> limb v -> limb cy -> umul_ppmm x v = (hi, lo) ->
  limb (uw (b2z (uw (lo + cy) <? cy) + hi)) /\
  uw (lo + cy) + B * uw (b2z (uw (lo + cy) <? cy) + hi) = x * v + cy.
Proof.
  intros Hx Hv Hc E. apply umul_ppmm_spec in E as (Hh & Hl & E); [|done..].
  split; [apply uw_limb|]. pose proof (add_carry lo cy Hl Hc) as C.
  pose proof (b2z_bounds (uw (lo + cy) <? cy)). pose proof (uw_limb (lo + cy)).
  set (y := uw (lo + cy)) in *. set (c := b2z (y <? cy)) in *.
  assert (P : x * v <= (B - 1) * (B - 1)) by (unfold limb in *; apply Z.mul_le_mono_nonneg; lia).
  unfold limb in *. rewrite (uw_small (c + hi)); [lia|].
  split; [lia|]. apply (Z.mul_lt_mono_pos_r B); lia.
Qed.

Lemma mpn_mul_1_spec m res s1 n v :
  wf m -> 0 < n -> limb v -> incr_ok res s1 n ->
  exists cy m', mpn_mul_1 m res s1 n v = (cy, m') /\ wf m' /\ limb cy /\
    frame m m' res n /\ mval m' res n + B ^ n * cy = mval m s1 n * v.
Proof.
  intros Hm Hn Hv D. unfold mpn_mul_1. pose proof B_ge.
  destruct (limb_loop_size (mul_1_body (s1 - - n) v)
    (fun m j => v * m (s1 - - n + j)) limb 1 m res n)
    as (cy & m' & -> & ? & ? & ? & E); [| |done|unfold limb; lia|done|].
  - clear - Hv. intros m j cy out cy' Hm Hcy. unfold mul_1_body.
    destruct (umul_ppmm _ _) as [hi lo] eqn:E. intros [= <- <-].
    destruct (mul_step _ _ _ _ _ (Hm _) Hv Hcy E) as [? S].
    split; [apply uw_limb|]. split; [done|]. lia.
  - intros. f_equal. by eapply incr_ok_read.
  - exists cy, m'. rewrite limb_sum_scale, limb_sum_ptr in E. auto with lia.
Qed.

(** Adding a limb of the destination as well still fits two limbs. *)
Lemma addmul_step x v cy r lo c :
  limb x -> limb v -> limb cy -> limb r -> limb lo -> limb c ->
  lo + B * c = x * v + cy ->
  limb (uw (c + b2z (uw (r + lo) <? r))) /\
  uw (r + lo) + B * uw (c + b2z (uw (r + lo) <? r)) = r + x * v + cy.
Proof.
  intros Hx Hv Hc Hr Hl Hcc E. split; [apply uw_limb|].
  pose proof (add_carry lo r Hl Hr) as C. rewrite (Z.add_comm lo r) in C.
  pose proof (uw_limb (r + lo)). pose proof (b2z_bounds (uw (r + lo) <? r)).
  assert (P : x * v <= (B - 1) * (B - 1)) by (unfold limb in *; apply Z.mul_le_mono_nonneg; lia).
  unfold limb in *. rewrite (uw_small (c + _)); [lia|].
  split; [lia|]. apply (Z.mul_lt_mono_pos_r B); lia.
Qed.

(** So does the borrow of the subtraction. *)
Lemma submul_step x v cy r lo c :
  limb x -> limb v -> limb cy -> limb r -> limb lo -> limb c ->
  lo + B * c = x * v + cy ->
  limb (uw (c + b2z (r <? uw (r - lo)))) /\
  uw (r - lo) - B * uw (c + b2z (r <? uw (r - lo))) = r - x * v - cy.
Proof.
  intros Hx Hv Hc Hr Hl Hcc E. split; [apply uw_limb|].
  pose proof (sub_borrow r lo Hr Hl) as C.
  pose proof (uw_limb (r - lo)). pose proof (b2z_bounds (r <? uw (r - lo))).
  assert (P : x * v <= (B - 1) * (B - 1)) by (unfold limb in *; apply Z.mul_le_mono_nonneg; lia).
  unfold limb in *. rewrite (uw_small (c + _)); [lia|].
  split; [lia|]. apply (Z.mul_lt_mono_pos_r B); lia.
Qed.

Lemma mpn_addmul_1_spec m res s1 n v :
  wf m -> 0 < n -> limb v -> incr_ok res s1 n ->
  exists cy m', mpn_addmul_1 m res s1 n v = (cy, m') /\ wf m' /\ limb cy /\
    frame m m' res n /\ mval m' res n + B ^ n * cy = mval m res n + mval m s1 n * v.
Proof.
  intros Hm Hn Hv D. unfold mpn_addmul_1. pose proof B_ge.
  destruct (limb_loop_size (addmul_1_body (res - - n) (s1 - - n) v)
    (fun m j => m (res - - n + j) + v * m (s1 - - n + j)) limb 1 m res n)
    as (cy & m' & -> & ? & ? & ? & E); [| |done|unfold limb; lia|done|].
  - clear - Hv. intros m j cy out cy' Hm Hcy. unfold addmul_1_body.
    destruct (umul_ppmm _ _) as [hi lo] eqn:E. intros [= <- <-].
    destruct (mul_step _ _ _ _ _ (Hm _) Hv Hcy E) as [Hc S].
    destruct (addmul_step _ _ _ (m (res - - n + j)) _ _ (Hm _) Hv Hcy (Hm _) (uw_limb _) Hc S).
    split; [apply uw_limb|]. split; [done|]. lia.
  - intros. f_equal; [|f_equal]; eapply incr_ok_read; try eassumption. left; lia.
  - exists cy, m'. rewrite limb_sum_linear, !limb_sum_ptr in E. auto with lia.
Qed.

Lemma mpn_submul_1_spec m res s1 n v :
  wf m -> 0 < n -> limb v -> incr_ok res s1 n ->
  exists cy m', mpn_submul_1 m res s1 n v = (cy, m') /\ wf m' /\ limb cy /\
    frame m m' res n /\ mval m' res n - B ^ n * cy = mval m res n - mval m s1 n * v.
Proof.
  intros Hm Hn Hv D. unfold mpn_submul_1. pose proof B_ge.
  destruct (limb_loop_size (submul_1_body (res - - n) (s1 - - n) v)
    (fun m j => m (res - - n + j) + - v * m (s1 - - n + j)) limb (-1) m res n)
    as (cy & m' & -> & ? & ? & ? & E); [| |done|unfold limb; lia|done|].
  - clear - Hv. intros m j cy out cy' Hm Hcy. unfold submul_1_body.
    destruct (umul_ppmm _ _) as [hi lo] eqn:E. intros [= <- <-].
    destruct (mul_step _ _ _ _ _ (Hm _) Hv Hcy E) as [Hc S].
    destruct (submul_step _ _ _ (m (res - - n + j)) _ _ (Hm _) Hv Hcy (Hm _) (uw_limb _) Hc S).
    split; [apply uw_limb|]. split; [done|]. lia.
  - intros. f_equal; [|f_equal]; eapply incr_ok_read; try eassumption. left; lia.
  - exists cy, m'. rewrite limb_sum_linear, !limb_sum_ptr in E. auto with lia.
Qed.

(** ** Shifts *)

Lemma pow_split c : 0 <= c <= W_TYPE_SIZE -> 2 ^ c * 2 ^ (W_TYPE_SIZE - c) = B.
Proof. intros. unfold B. rewrite <- Z.pow_add_r by lia. f_equal. lia. Qed.

(** Shifting a limb left loses exactly the bits the right shift keeps. *)
Lemma uw_shiftl h c : 0 <= c <= W_TYPE_SIZE ->
  uw (Z.shiftl h c) = (h mod 2 ^ (W_TYPE_SIZE - c)) * 2 ^ c /\
  h * 2 ^ c = uw (Z.shiftl h c) + B * Z.shiftr h (W_TYPE_SIZE - c).
Proof.
  intros Hc. rewrite Z.shiftl_mul_pow2, Z.shiftr_div_pow2 by lia.
  pose proof (pow_split c Hc) as P. pose proof (pow2_pos c ltac:(lia)).
  assert (0 < 2 ^ (W_TYPE_SIZE - c)) by (apply pow2_pos; lia).
  assert (E : uw (h * 2 ^ c) = (h mod 2 ^ (W_TYPE_SIZE - c)) * 2 ^ c).
  { unfold uw, wrap. fold B. rewrite <- P, (Z.mul_comm (2 ^ c)).
    rewrite Zmult_mod_distr_r by lia. done. }
  split; [done|]. rewrite E, <- P.
  assert (N : 2 ^ (W_TYPE_SIZE - c) <> 0) by lia.
  pose proof (Z.div_mod h (2 ^ (W_TYPE_SIZE - c)) N). lia.
Qed.

Lemma shiftr_bound h c : limb h -> 0 <= c <= W_TYPE_SIZE ->
  0 <= Z.shiftr h (W_TYPE_SIZE - c) < 2 ^ c.
Proof.
  intros Hh Hc. rewrite Z.shiftr_div_pow2 by lia. pose proof (pow_split c Hc).
  assert (0 < 2 ^ (W_TYPE_SIZE - c)) by (apply pow2_pos; lia). unfold limb in Hh.
  split; [apply Z.div_pos; lia|]. apply Z.div_lt_upper_bound; lia.
Qed.

(** Or-ing the bits that come from the neighbour is an addition. *)
Lemma shift_join h l c : limb l -> 0 <= c <= W_TYPE_SIZE ->
  Z.lor (uw (Z.shiftl h c)) (Z.shiftr l (W_TYPE_SIZE - c))
  = uw (Z.shiftl h c) + Z.shiftr l (W_TYPE_SIZE - c).
Proof.
  intros Hl Hc. destruct (uw_shiftl h c Hc) as [-> _].
  apply lor_mul_pow2_add; [lia|]. by apply shiftr_bound.
Qed.

Lemma shift_join_limb h l c : limb l -> 0 < c < W_TYPE_SIZE ->
  limb (uw (Z.shiftl h c) + Z.shiftr l (W_TYPE_SIZE - c)).
Proof.
  intros Hl Hc. destruct (uw_shiftl h c ltac:(lia)) as [-> _].
  pose proof (shiftr_bound l c Hl ltac:(lia)). pose proof (pow_split c ltac:(lia)) as P.
  assert (P0 : 0 < 2 ^ (W_TYPE_SIZE - c)) by (apply pow2_pos; lia).
  pose proof (Z.mod_pos_bound h (2 ^ (W_TYPE_SIZE - c)) P0).
  unfold limb. rewrite <- P. nia.
Qed.

Lemma lshift_loop_spec n fuel m wp up c :
  wf m -> 0 < c < W_TYPE_SIZE -> (n <= fuel)%nat ->
  decr_ok wp up (Z.of_nat n + 1) ->
  let high := m (up + Z.of_nat n) in
  let m' := lshift_loop fuel m (wp + 1) up (Z.of_nat n) high c (W_TYPE_SIZE - c) in
  wf m' /\ frame m m' wp (Z.of_nat n + 1) /\
  mval m' wp (Z.of_nat n + 1) + B ^ (Z.of_nat n + 1) * Z.shiftr high (W_TYPE_SIZE - c)
  = mval m up (Z.of_nat n + 1) * 2 ^ c.
Proof.
  revert fuel m. induction n as [|n IH]; intros fuel m Hm Hc Hf D; cbv zeta.
  - change (Z.of_nat 0) with 0. rewrite Z.add_0_r. destruct (uw_shiftl (m up) c ltac:(lia)) as [_ E].
    destruct fuel as [|fuel]; simpl; replace (wp + 1 + (0 - 1)) with wp by lia;
      replace (wp + 1 + -1) with wp by lia.
    all: split; [apply wf_upd; [done|apply uw_limb]|]; split; [apply frame_upd|].
    all: rewrite !mval_1, upd_eq, Z.pow_1_r; lia.
  - destruct fuel as [|fuel]; [lia|]. cbn [lshift_loop].
    replace (Z.of_nat (S n) - 1) with (Z.of_nat n) by lia.
    destruct (Z.leb_spec 0 (Z.of_nat n)); [|lia].
    set (high := m (up + Z.of_nat (S n))). set (low := m (up + Z.of_nat n)).
    rewrite (shift_join high low c (Hm _)) by lia.
    set (out := uw _ + _). pose proof (shift_join_limb high low c (Hm _) Hc) as Ho.
    fold out in Ho. set (m1 := m.[wp + 1 + Z.of_nat n := out]).
    pose proof (wf_upd m (wp + 1 + Z.of_nat n) out Hm Ho) as Hm1. fold m1 in Hm1.
    unfold decr_ok in D.
    assert (Hr : forall i, 0 <= i <= Z.of_nat n -> m1 (up + i) = m (up + i))
      by (intros; apply upd_ne; lia).
    destruct (IH fuel m1) as (W & F & V); [done..|lia|unfold decr_ok; lia|].
    rewrite (Hr (Z.of_nat n)) in W, F, V by lia. fold low in W, F, V.
    set (m' := lshift_loop _ _ _ _ _ _ _ _) in *.
    split; [done|]. split.
    { intros q Hq. rewrite F by lia. apply upd_ne. lia. }
    replace (Z.of_nat (S n) + 1) with (Z.of_nat n + 1 + 1) by lia.
    rewrite !(mval_last _ _ (Z.of_nat n + 1)), (Z.pow_add_r B (Z.of_nat n + 1) 1) by lia.
    rewrite (F (wp + (Z.of_nat n + 1))) by lia.
    unfold m1 at 1. replace (wp + (Z.of_nat n + 1)) with (wp + 1 + Z.of_nat n) by lia.
    rewrite upd_eq. rewrite (mval_ext m m1 up) in V.
    2:{ intros q Hq. replace q with (up + (q - up)) by lia. apply Hr. lia. }
    replace (up + (Z.of_nat n + 1)) with (up + Z.of_nat (S n)) by lia. fold high.
    destruct (uw_shiftl high c ltac:(lia)) as [_ E]. rewrite Z.pow_1_r.
    subst out. nia.
Qed.

Lemma mpn_lshift_spec m wp up n cnt :
  wf m -> 0 < n -> 0 < cnt < W_TYPE_SIZE -> decr_ok wp up n ->
  exists ret m', mpn_lshift m wp up n cnt = (ret, m') /\ wf m' /\ limb ret /\
    frame m m' wp n /\ mval m' wp n + B ^ n * ret = mval m up n * 2 ^ cnt.
Proof.
  intros Hm Hn Hc D. unfold mpn_lshift.
  destruct (lshift_loop_spec (Z.to_nat (n - 1)) (Z.to_nat n) m wp up cnt) as (W & F & V);
    [done..|lia|by replace (Z.of_nat (Z.to_nat (n - 1)) + 1) with n by lia|].
  replace (Z.of_nat (Z.to_nat (n - 1))) with (n - 1) in * by lia.
  replace (n - 1 + 1) with n in * by lia.
  do 2 eexists. split; [reflexivity|]. split; [done|]. split; [|done].
  pose proof (shiftr_bound (m (up + (n - 1))) cnt (Hm _) ltac:(lia)).
  pose proof (pow_split cnt ltac:(lia)). assert (0 < 2 ^ (W_TYPE_SIZE - cnt)) by (apply pow2_pos; lia).
  unfold limb. nia.
Qed.

Lemma limb_shiftr x c : limb x -> 0 <= c -> limb (Z.shiftr x c).
Proof.
  intros Hx Hc. rewrite Z.shiftr_div_pow2 by done. unfold limb in *.
  pose proof (pow2_pos c Hc). split; [apply Z.div_pos; lia|].
  apply Z.div_lt_upper_bound; nia.
Qed.

(** [k] limbs remain, the first of which is [low]. *)
Lemma rshift_loop_spec k fuel m wp up n i low c :
  wf m -> 0 < c < W_TYPE_SIZE -> limb low -> (k <= fuel)%nat ->
  i = n - Z.of_nat k -> 0 < i -> incr_ok wp up n ->
  let m' := rshift_loop fuel m (wp - 1) up n i low c (W_TYPE_SIZE - c) in
  wf m' /\ frame m m' (wp + i - 1) (Z.of_nat k + 1) /\
  mval m' (wp + i - 1) (Z.of_nat k + 1) * 2 ^ c + low mod 2 ^ c
  = low + B * mval m (up + i) (Z.of_nat k).
Proof.
  revert fuel m i low. induction k as [|k IH];
    intros fuel m i low Hm Hc Hl Hf Hi Hi0 D; cbv zeta.
  - pose proof (Z.div_mod low (2 ^ c) ltac:(pose proof (pow2_pos c); lia)) as E.
    assert (Hi' : (i <? n) = false) by (apply Z.ltb_ge; lia).
    change (Z.of_nat 0) with 0. rewrite mval_0. replace (wp + i - 1) with (wp - 1 + i) by lia.
    destruct fuel as [|fuel]; cbn [rshift_loop]; rewrite ?Hi'.
    all: split; [apply wf_upd; [done|by apply limb_shiftr; [|lia]]|]; split; [apply frame_upd|].
    all: rewrite mval_1, upd_eq, Z.shiftr_div_pow2; lia.
  - destruct fuel as [|fuel]; [lia|]. cbn [rshift_loop].
    destruct (Z.ltb_spec i n); [|lia].
    set (high := m (up + i)). rewrite Z.lor_comm.
    pose proof (shift_join high low (W_TYPE_SIZE - c) Hl) as J.
    pose proof (shift_join_limb high low (W_TYPE_SIZE - c) Hl) as Ho.
    specialize (J ltac:(lia)). specialize (Ho ltac:(lia)).
    destruct (uw_shiftl high (W_TYPE_SIZE - c)) as [E1 _]; [lia|].
    pose proof (pow_split c ltac:(lia)) as P.
    replace (W_TYPE_SIZE - (W_TYPE_SIZE - c)) with c in * by lia. rewrite J.
    set (out := uw _ + _) in *. set (m1 := m.[wp - 1 + i := out]).
    pose proof (wf_upd m (wp - 1 + i) out Hm Ho) as Hm1. fold m1 in Hm1.
    unfold incr_ok in D.
    destruct (IH fuel m1 (i + 1) high) as (W & F & V); [done..|by apply Hm|lia|lia|lia|done|].
    set (m' := rshift_loop _ _ _ _ _ _ _ _ _) in *.
    split; [done|]. split.
    { intros q Hq. rewrite F by lia. apply upd_ne. lia. }
    rewrite mval_succ by lia.
    rewrite (F (wp + i - 1)) by lia. unfold m1 at 1.
    replace (wp + i - 1) with (wp - 1 + i) by lia. rewrite upd_eq.
    replace (wp - 1 + i + 1) with (wp + (i + 1) - 1) by lia.
    replace (Z.of_nat (S k)) with (Z.of_nat k + 1) by lia.
    rewrite (mval_succ m (up + i)) by lia. fold high.
    rewrite (mval_ext m m1) in V by (intros; apply upd_ne; lia).
    replace (up + (i + 1)) with (up + i + 1) in V by lia.
    pose proof (Z.div_mod low (2 ^ c) ltac:(pose proof (pow2_pos c); lia)) as E.
    subst out. rewrite E1, Z.shiftr_div_pow2 by lia. nia.
Qed.

Lemma mpn_rshift_spec m wp up n cnt :
  wf m -> 0 < n -> 0 < cnt < W_TYPE_SIZE -> incr_ok wp up n ->
  exists ret m', mpn_rshift m wp up n cnt = Some (ret, m') /\ wf m' /\ limb ret /\
    frame m m' wp n /\
    mval m' wp n = mval m up n / 2 ^ cnt /\
    ret = (mval m up n mod 2 ^ cnt) * 2 ^ (W_TYPE_SIZE - cnt).
Proof.
  intros Hm Hn Hc D. unfold mpn_rshift.
  destruct (Z.eqb_spec n 0); [lia|]. destruct (Z.eqb_spec cnt 0); [lia|]. simpl negb. cbv iota.
  destruct (rshift_loop_spec (Z.to_nat (n - 1)) (Z.to_nat n) m wp up n 1 (m up) cnt)
    as (W & F & V); [done..|lia|lia|lia|done|].
  rewrite Z2Nat.id in F, V by lia. replace (n - 1 + 1) with n in * by lia.
  replace (wp + 1 - 1) with wp in * by lia.
  replace (m up + _) with (mval m up n) in V
    by (rewrite <- mval_succ by lia; f_equal; lia).
  assert (P : 0 < 2 ^ cnt) by (apply pow2_pos; lia).
  pose proof (Z.mod_pos_bound (m up) (2 ^ cnt) P).
  destruct (uw_shiftl (m up) (W_TYPE_SIZE - cnt)) as [E1 _]; [lia|].
  replace (W_TYPE_SIZE - (W_TYPE_SIZE - cnt)) with cnt in E1 by lia.
  do 2 eexists. split; [reflexivity|]. split; [done|]. split; [apply uw_limb|].
  split; [done|]. rewrite E1. split.
  - apply (Z.div_unique _ _ _ (m up mod 2 ^ cnt)); lia.
  - f_equal. rewrite <- V, Z.add_comm, Z.mod_add, Zmod_mod by lia. done.
Qed.

(** ** Comparison *)

Lemma mpn_cmp_spec m a b n : wf m -> 0 <= n ->
  mpn_cmp m a b n =
  match mval m a n ?= mval m b n with Gt => 1 | Eq => 0 | Lt => -1 end.
Proof.
  intros Hm Hn. unfold mpn_cmp. rewrite <- (Z2Nat.id n Hn) at 2 3.
  generalize (Z.to_nat n) as k. clear n Hn. induction k as [|k IH]; [done|].
  cbn [cmp_loop]. replace (Z.of_nat (S k)) with (Z.of_nat k + 1) by lia.
  rewrite !mval_last by lia. set (x := m _). set (y := m _).
  pose proof (mval_bound m a (Z.of_nat k) Hm ltac:(lia)).
  pose proof (mval_bound m b (Z.of_nat k) Hm ltac:(lia)).
  pose proof (Bpow_pos (Z.of_nat k) ltac:(lia)).
  destruct (Z.eqb_spec x y) as [->|N]; simpl.
  - rewrite IH. by rewrite !(Z.add_comm _ (B ^ _ * y)), Z.add_compare_mono_l.
  - destruct (Z.ltb_spec y x).
    + rewrite (proj2 (Z.compare_gt_iff _ _)); [done|nia].
    + rewrite (proj2 (Z.compare_lt_iff _ _)); [done|nia].
Qed.

(** ** Copying and clearing *)

Lemma copy_incr_loop_spec k m dst src i :
  wf m -> incr_ok dst src (i + Z.of_nat k) -> 0 <= i ->
  let m' := copy_incr_loop k m dst src i in
  wf m' /\ frame m m' (dst + i) (Z.of_nat k) /\
  (forall x, i <= x < i + Z.of_nat k -> m' (dst + x) = m (src + x)).
Proof.
  revert m i. induction k as [|k IH]; intros m i Hm D Hi; cbn [copy_incr_loop].
  { split; [done|]. split; [apply frame_refl|]. lia. }
  unfold incr_ok in D. set (m1 := m.[dst + i := m (src + i)]).
  destruct (IH m1 (i + 1)) as (W & F & V); [by apply wf_upd|unfold incr_ok; lia|lia|].
  split; [done|]. split.
  { intros q Hq. rewrite F by lia. apply upd_ne. lia. }
  intros x Hx. destruct (decide (x = i)) as [->|N].
  - rewrite F by lia. apply upd_eq.
  - rewrite V by lia. apply upd_ne. lia.
Qed.

Lemma MPN_COPY_spec m dst src n : wf m -> 0 <= n -> incr_ok dst src n ->
  let m' := MPN_COPY m dst src n in
  wf m' /\ frame m m' dst n /\ mval m' dst n = mval m src n.
Proof.
  intros Hm Hn D. destruct (copy_incr_loop_spec (Z.to_nat n) m dst src 0) as (W & F & V);
    [done| |lia|].
  { unfold incr_ok in *. lia. }
  rewrite Z.add_0_r, Z2Nat.id in F by done. split; [done|]. split; [done|].
  apply mval_copy. intros i Hi. apply V. lia.
Qed.

Lemma copy_decr_loop_spec k m dst src :
  wf m -> decr_ok dst src (Z.of_nat k) ->
  let m' := copy_decr_loop k m dst src in
  wf m' /\ frame m m' dst (Z.of_nat k) /\
  (forall x, 0 <= x < Z.of_nat k -> m' (dst + x) = m (src + x)).
Proof.
  revert m. induction k as [|k IH]; intros m Hm D; cbn [copy_decr_loop].
  { split; [done|]. split; [apply frame_refl|]. lia. }
  unfold decr_ok in D.
  destruct (IH (m.[dst + Z.of_nat k := m (src + Z.of_nat k)])) as (W & F & V);
    [by apply wf_upd|unfold decr_ok; lia|].
  split; [done|]. split.
  { intros q Hq. rewrite F by lia. apply upd_ne. lia. }
  intros x Hx. destruct (decide (x = Z.of_nat k)) as [->|N].
  - rewrite F by lia. apply upd_eq.
  - rewrite V by lia. apply upd_ne. lia.
Qed.

Lemma MPN_COPY_DECR_spec m dst src n : wf m -> 0 <= n -> decr_ok dst src n ->
  let m' := MPN_COPY_DECR m dst src n in
  wf m' /\ frame m m' dst n /\ (forall i, 0 <= i < n -> m' (dst + i) = m (src + i)).
Proof.
  intros Hm Hn D. destruct (copy_decr_loop_spec (Z.to_nat n) m dst src) as (W & F & V);
    rewrite ?Z2Nat.id in * by done; done.
Qed.

Lemma zero_loop_spec k m dst i :
  wf m -> let m' := zero_loop k m dst i in
  wf m' /\ frame m m' (dst + i) (Z.of_nat k) /\
  (forall x, i <= x < i + Z.of_nat k -> m' (dst + x) = 0).
Proof.
  revert m i. induction k as [|k IH]; intros m i Hm; cbn [zero_loop].
  { split; [done|]. split; [apply frame_refl|]. lia. }
  destruct (IH (m.[dst + i := 0]) (i + 1)) as (W & F & V).
  { apply wf_upd; [done|]. pose proof B_ge. unfold limb. lia. }
  split; [done|]. split.
  { intros q Hq. rewrite F by lia. apply upd_ne. lia. }
  intros x Hx. destruct (decide (x = i)) as [->|N]; [rewrite F by lia; apply upd_eq|].
  apply V. lia.
Qed.

Lemma MPN_ZERO_spec m dst n : wf m -> 0 <= n ->
  let m' := MPN_ZERO m dst n in wf m' /\ frame m m' dst n /\ mval m' dst n = 0.
Proof.
  intros Hm Hn. destruct (zero_loop_spec (Z.to_nat n) m dst 0 Hm) as (W & F & V).
  rewrite Z.add_0_r, Z2Nat.id in F by done. split; [done|]. split; [done|].
  apply mval_zero. intros i Hi. apply V. lia.
Qed.

(** ** Adding and subtracting one limb *)

Lemma fin_copy_spec m res s1 n : wf m -> 0 < n -> incr_ok res s1 (n - 1) ->
  exists m', fin_copy m res s1 n = (0, m') /\ wf m' /\ frame m m' res (n - 1) /\
    mval m' res (n - 1) = mval m s1 (n - 1).
Proof.
  intros Hm Hn D. unfold fin_copy. eexists. split; [reflexivity|].
  destruct (Z.eqb_spec res s1) as [->|N]; simpl.
  - auto using frame_refl.
  - apply MPN_COPY_spec; [done|lia|done].
Qed.

(** A single limb is stored, then the rest of the number is handled: the
    shape of [mpn_add_1] and [mpn_sub_1] and of their carry loops. *)
Lemma store_then_rest m m1 m' res s1 k x y c c' sg :
  m1 = m.[res := y] -> 0 <= k -> incr_ok res s1 (k + 1) ->
  frame m1 m' (res + 1) k ->
  y + sg * B * c = x -> mval m' (res + 1) k + sg * B ^ k * c' = mval m1 (s1 + 1) k + sg * c ->
  frame m m' res (k + 1) /\
  mval m' res (k + 1) + sg * B ^ (k + 1) * c' = x + B * mval m (s1 + 1) k.
Proof.
  intros -> Hk D F Ex E. unfold incr_ok in D. split.
  { intros q Hq. rewrite F by lia. apply upd_ne. lia. }
  rewrite mval_succ, (F res), upd_eq, Z.pow_add_r, Z.pow_1_r by lia.
  rewrite (mval_ext m m.[res := y] (s1 + 1)) in E by (intros; apply upd_ne; lia). nia.
Qed.

Lemma add_1_loop_spec k fuel m res s1 :
  wf m -> incr_ok res s1 (Z.of_nat k) -> (k <= fuel)%nat ->
  exists cy m', add_1_loop fuel m res s1 (Z.of_nat k + 1) = (cy, m') /\ wf m' /\
    0 <= cy <= 1 /\ frame m m' res (Z.of_nat k) /\
    mval m' res (Z.of_nat k) + 1 * B ^ Z.of_nat k * cy = mval m s1 (Z.of_nat k) + 1 * 1.
Proof.
  revert fuel m res s1. induction k as [|k IH]; intros fuel m res s1 Hm D Hf.
  { exists 1, m. split; [destruct fuel; done|]. rewrite !mval_0.
    split; [done|]. split; [lia|]. split; [apply frame_refl|]. done. }
  destruct fuel as [|fuel]; [lia|]. cbn [add_1_loop].
  replace (Z.of_nat (S k)) with (Z.of_nat k + 1) in * by lia. pose proof (Hm s1) as Hx.
  destruct (Z.eqb_spec (Z.of_nat k + 1 + 1 - 1) 0); [lia|]. simpl negb. cbv iota.
  replace (Z.of_nat k + 1 + 1 - 1) with (Z.of_nat k + 1) by lia.
  pose proof (add_carry (m s1) 1 Hx ltac:(unfold limb; pose proof B_ge; lia)) as C.
  set (x := uw (m s1 + 1)) in *. set (m1 := m.[res := x]).
  assert (Hm1 : wf m1) by (apply wf_upd; [done|apply uw_limb]).
  assert (D' : incr_ok (res + 1) (s1 + 1) (Z.of_nat k)) by (unfold incr_ok in *; lia).
  pose proof (uw_limb (m s1 + 1)) as Hxl. fold x in Hxl. unfold limb in Hxl.
  destruct (Z.eqb_spec x 0) as [E0|N0]; simpl negb; cbv iota.
  - destruct (IH fuel m1 (res + 1) (s1 + 1)) as (cy & m' & -> & W & Hc & F & V); [done..|lia|].
    exists cy, m'. split; [done|]. split; [done|]. split; [done|].
    rewrite (mval_succ m s1) by lia.
    replace (m s1 + B * mval m (s1 + 1) (Z.of_nat k) + 1 * 1)
      with (m s1 + 1 + B * mval m (s1 + 1) (Z.of_nat k)) by ring.
    apply (store_then_rest m m1 m' res s1 _ _ x 1); [done|lia|done..| |lia].
    rewrite E0 in *. simpl in C. lia.
  - destruct (fin_copy_spec m1 (res + 1) (s1 + 1) (Z.of_nat k + 1)) as (m' & -> & W & F & V);
      [done|lia|by replace (Z.of_nat k + 1 - 1) with (Z.of_nat k) by lia|].
    replace (Z.of_nat k + 1 - 1) with (Z.of_nat k) in * by lia.
    exists 0, m'. split; [done|]. split; [done|]. split; [lia|].
    rewrite (mval_succ m s1) by lia.
    replace (m s1 + B * mval m (s1 + 1) (Z.of_nat k) + 1 * 1)
      with (m s1 + 1 + B * mval m (s1 + 1) (Z.of_nat k)) by ring.
    apply (store_then_rest m m1 m' res s1 _ _ x 0); [done|lia|done..| |lia].
    destruct (Z.ltb_spec x 1); [lia|]. simpl in C. lia.
Qed.

Lemma sub_1_loop_spec k fuel m res s1 :
  wf m -> incr_ok res s1 (Z.of_nat k) -> (k <= fuel)%nat ->
  exists cy m', sub_1_loop fuel m res s1 (Z.of_nat k + 1) = (cy, m') /\ wf m' /\
    0 <= cy <= 1 /\ frame m m' res (Z.of_nat k) /\
    mval m' res (Z.of_nat k) + -1 * B ^ Z.of_nat k * cy = mval m s1 (Z.of_nat k) + -1 * 1.
Proof.
  revert fuel m res s1. induction k as [|k IH]; intros fuel m res s1 Hm D Hf.
  { exists 1, m. split; [destruct fuel; done|]. rewrite !mval_0.
    split; [done|]. split; [lia|]. split; [apply frame_refl|]. done. }
  destruct fuel as [|fuel]; [lia|]. cbn [sub_1_loop].
  replace (Z.of_nat (S k)) with (Z.of_nat k + 1) in * by lia. pose proof (Hm s1) as Hx.
  destruct (Z.eqb_spec (Z.of_nat k + 1 + 1 - 1) 0); [lia|]. simpl negb. cbv iota.
  replace (Z.of_nat k + 1 + 1 - 1) with (Z.of_nat k + 1) by lia.
  pose proof (sub_borrow (m s1) 1 Hx ltac:(unfold limb; pose proof B_ge; lia)) as C.
  set (x := uw (m s1 - 1)) in *. set (m1 := m.[res := x]).
  assert (Hm1 : wf m1) by (apply wf_upd; [done|apply uw_limb]).
  assert (D' : incr_ok (res + 1) (s1 + 1) (Z.of_nat k)) by (unfold incr_ok in *; lia).
  pose proof (uw_limb (m s1 - 1)) as Hxl. fold x in Hxl. unfold limb in Hxl, Hx.
  rewrite (mval_succ m s1) by lia.
  replace (m s1 + B * mval m (s1 + 1) (Z.of_nat k) + -1 * 1)
    with (m s1 - 1 + B * mval m (s1 + 1) (Z.of_nat k)) by ring.
  destruct (Z.eqb_spec (m s1) 0) as [E0|N0]; simpl negb; cbv iota.
  - destruct (IH fuel m1 (res + 1) (s1 + 1)) as (cy & m' & -> & W & Hc & F & V); [done..|lia|].
    exists cy, m'. split; [done|]. split; [done|]. split; [done|].
    apply (store_then_rest m m1 m' res s1 _ _ x 1); [done|lia|done..| |lia].
    destruct (Z.ltb_spec (m s1) x); simpl in C; lia.
  - destruct (fin_copy_spec m1 (res + 1) (s1 + 1) (Z.of_nat k + 1)) as (m' & -> & W & F & V);
      [done|lia|by replace (Z.of_nat k + 1 - 1) with (Z.of_nat k) by lia|].
    replace (Z.of_nat k + 1 - 1) with (Z.of_nat k) in * by lia.
    exists 0, m'. split; [done|]. split; [done|]. split; [lia|].
    apply (store_then_rest m m1 m' res s1 _ _ x 0); [done|lia|done..| |lia].
    destruct (Z.ltb_spec (m s1) x); simpl in C; lia.
Qed.

Lemma mpn_add_1_spec m res s1 n v :
  wf m -> 0 < n -> limb v -> incr_ok res s1 n ->
  exists cy m', mpn_add_1 m res s1 n v = (cy, m') /\ wf m' /\ 0 <= cy <= 1 /\
    frame m m' res n /\ mval m' res n + B ^ n * cy = mval m s1 n + v.
Proof.
  intros Hm Hn Hv D. unfold mpn_add_1. pose proof (Hm s1) as Hx.
  pose proof (add_carry v (m s1) Hv Hx) as C. rewrite (Z.add_comm v) in C.
  set (y := uw (m s1 + v)) in *. set (m1 := m.[res := y]).
  assert (Hm1 : wf m1) by (apply wf_upd; [done|apply uw_limb]).
  assert (Hk : exists k, n = Z.of_nat k + 1) by (exists (Z.to_nat (n - 1)); lia).
  destruct Hk as [k ->].
  assert (D' : incr_ok (res + 1) (s1 + 1) (Z.of_nat k)) by (unfold incr_ok in *; lia).
  rewrite (mval_succ m s1) by lia.
  destruct (Z.ltb_spec y (m s1)); simpl in C.
  - destruct (add_1_loop_spec k (Z.to_nat (Z.of_nat k + 1)) m1 (res + 1) (s1 + 1))
      as (cy & m' & -> & W & Hc & F & V); [done..|lia|].
    exists cy, m'. split; [done|]. split; [done|]. split; [done|].
    edestruct (store_then_rest m m1 m' res s1 (Z.of_nat k) (m s1 + v) y 1 cy 1); [done|lia|done..|lia|lia|].
    split; [done|lia].
  - destruct (fin_copy_spec m1 (res + 1) (s1 + 1) (Z.of_nat k + 1)) as (m' & -> & W & F & V);
      [done|lia|by replace (Z.of_nat k + 1 - 1) with (Z.of_nat k) by lia|].
    replace (Z.of_nat k + 1 - 1) with (Z.of_nat k) in * by lia.
    exists 0, m'. split; [done|]. split; [done|]. split; [lia|].
    edestruct (store_then_rest m m1 m' res s1 (Z.of_nat k) (m s1 + v) y 0 0 1); [done|lia|done..|lia|lia|].
    split; [done|lia].
Qed.

Lemma mpn_sub_1_spec m res s1 n v :
  wf m -> 0 < n -> limb v -> incr_ok res s1 n ->
  exists cy m', mpn_sub_1 m res s1 n v = (cy, m') /\ wf m' /\ 0 <= cy <= 1 /\
    frame m m' res n /\ mval m' res n - B ^ n * cy = mval m s1 n - v.
Proof.
  intros Hm Hn Hv D. unfold mpn_sub_1. pose proof (Hm s1) as Hx.
  pose proof (sub_borrow (m s1) v Hx Hv) as C.
  set (y := uw (m s1 - v)) in *. set (m1 := m.[res := y]).
  assert (Hm1 : wf m1) by (apply wf_upd; [done|apply uw_limb]).
  assert (Hk : exists k, n = Z.of_nat k + 1) by (exists (Z.to_nat (n - 1)); lia).
  destruct Hk as [k ->].
  assert (D' : incr_ok (res + 1) (s1 + 1) (Z.of_nat k)) by (unfold incr_ok in *; lia).
  rewrite (mval_succ m s1) by lia.
  destruct (Z.ltb_spec (m s1) y); simpl in C.
  - destruct (sub_1_loop_spec k (Z.to_nat (Z.of_nat k + 1)) m1 (res + 1) (s1 + 1))
      as (cy & m' & -> & W & Hc & F & V); [done..|lia|].
    exists cy, m'. split; [done|]. split; [done|]. split; [done|].
    edestruct (store_then_rest m m1 m' res s1 (Z.of_nat k) (m s1 - v) y 1 cy (-1)); [done|lia|done..|lia|lia|].
    split; [done|lia].
  - destruct (fin_copy_spec m1 (res + 1) (s1 + 1) (Z.of_nat k + 1)) as (m' & -> & W & F & V);
      [done|lia|by replace (Z.of_nat k + 1 - 1) with (Z.of_nat k) by lia|].
    replace (Z.of_nat k + 1 - 1) with (Z.of_nat k) in * by lia.
    exists 0, m'. split; [done|]. split; [done|]. split; [lia|].
    edestruct (store_then_rest m m1 m' res s1 (Z.of_nat k) (m s1 - v) y 0 0 (-1)); [done|lia|done..|lia|lia|].
    split; [done|lia].
Qed.

(** ** Operands of different sizes *)

Lemma mpn_add_spec m res s1 n1 s2 n2 :
  wf m -> 0 <= n2 <= n1 -> incr_ok res s1 n1 -> incr_ok res s2 n2 ->
  exists cy m', mpn_add m res s1 n1 s2 n2 = (cy, m') /\ wf m' /\ 0 <= cy <= 1 /\
    frame m m' res n1 /\ mval m' res n1 + B ^ n1 * cy = mval m s1 n1 + mval m s2 n2.
Proof.
  intros Hm Hn D1 D2. unfold mpn_add, incr_ok in *. pose proof B_ge.
  assert (L : exists cy m1, (if negb (n2 =? 0) then mpn_add_n m res s1 s2 n2 else (0, m)) = (cy, m1)
    /\ wf m1 /\ 0 <= cy <= 1 /\ frame m m1 res n2
    /\ mval m1 res n2 + B ^ n2 * cy = mval m s1 n2 + mval m s2 n2).
  { destruct (Z.eqb_spec n2 0) as [->|]; simpl.
    - exists 0, m. rewrite !mval_0. split_and!; [done..|lia|lia|apply frame_refl|lia].
    - apply mpn_add_n_spec; [done|lia|unfold incr_ok; lia..]. }
  destruct L as (c1 & m1 & -> & W1 & Hc1 & F1 & V1). rewrite (mval_split m s1 n2 n1) by lia.
  destruct (Z.eqb_spec (n1 - n2) 0) as [E|E]; simpl negb; cbv iota.
  { assert (n1 = n2) as -> by lia. exists c1, m1. rewrite Z.sub_diag, mval_0.
    split_and!; [done..|lia|lia|done|lia]. }
  destruct (mpn_add_1_spec m1 (res + n2) (s1 + n2) (n1 - n2) c1)
    as (cy & m' & -> & W & Hc & F & V); [done|lia|unfold limb; lia|unfold incr_ok; lia|].
  exists cy, m'. split; [done|]. split; [done|]. split; [done|]. split.
  { intros q Hq. rewrite F, F1 by lia. done. }
  rewrite (mval_split m' res n2 n1) by lia. frame_val F.
  rewrite (mval_frame m m1 res n2 (s1 + n2)) in V by (done || unfold disjoint_ranges; lia).
  replace n1 with (n2 + (n1 - n2)) at 2 by lia. rewrite Z.pow_add_r by lia. nia.
Qed.

Lemma mpn_sub_spec m res s1 n1 s2 n2 :
  wf m -> 0 <= n2 <= n1 -> incr_ok res s1 n1 -> incr_ok res s2 n2 ->
  exists cy m', mpn_sub m res s1 n1 s2 n2 = (cy, m') /\ wf m' /\ 0 <= cy <= 1 /\
    frame m m' res n1 /\ mval m' res n1 - B ^ n1 * cy = mval m s1 n1 - mval m s2 n2.
Proof.
  intros Hm Hn D1 D2. unfold mpn_sub, incr_ok in *. pose proof B_ge.
  assert (L : exists cy m1, (if negb (n2 =? 0) then mpn_sub_n m res s1 s2 n2 else (0, m)) = (cy, m1)
    /\ wf m1 /\ 0 <= cy <= 1 /\ frame m m1 res n2
    /\ mval m1 res n2 - B ^ n2 * cy = mval m s1 n2 - mval m s2 n2).
  { destruct (Z.eqb_spec n2 0) as [->|]; simpl.
    - exists 0, m. rewrite !mval_0. split_and!; [done..|lia|lia|apply frame_refl|lia].
    - apply mpn_sub_n_spec; [done|lia|unfold incr_ok; lia..]. }
  destruct L as (c1 & m1 & -> & W1 & Hc1 & F1 & V1). rewrite (mval_split m s1 n2 n1) by lia.
  destruct (Z.eqb_spec (n1 - n2) 0) as [E|E]; simpl negb; cbv iota.
  { assert (n1 = n2) as -> by lia. exists c1, m1. rewrite Z.sub_diag, mval_0.
    split_and!; [done..|lia|lia|done|lia]. }
  destruct (mpn_sub_1_spec m1 (res + n2) (s1 + n2) (n1 - n2) c1)
    as (cy & m' & -> & W & Hc & F & V); [done|lia|unfold limb; lia|unfold incr_ok; lia|].
  exists cy, m'. split; [done|]. split; [done|]. split; [done|]. split.
  { intros q Hq. rewrite F, F1 by lia. done. }
  rewrite (mval_split m' res n2 n1) by lia. frame_val F.
  rewrite (mval_frame m m1 res n2 (s1 + n2)) in V by (done || unfold disjoint_ranges; lia).
  replace n1 with (n2 + (n1 - n2)) at 2 by lia. rewrite Z.pow_add_r by lia. nia.
Qed.
End Mpn.
