(* ===== verification/MpnMul.v ===== *)
(** * Multi-precision multiplication: [stdlib/mul_n.c], [stdlib/mul.c]

    Schoolbook multiplication, Karatsuba's algorithm with its scratch space
    reuse, squaring, and the unbalanced product.  Scratch space obtained with
    [TMP_ALLOC] is the pointer [tspace], or addresses from the stack pointer
    [sp] on. *)

From S2P Require Import Prelude LongLong LimbMem Mpn.

(** [KARATSUBA_THRESHOLD] is set per machine, 32 by default, and forced to be
    at least 2. *)
Class KaratsubaThreshold := {
  KARATSUBA_THRESHOLD : Z;
  KARATSUBA_THRESHOLD_ge : 2 <= KARATSUBA_THRESHOLD }.

#[export] Instance karatsuba_default : KaratsubaThreshold | 10 :=
  {| KARATSUBA_THRESHOLD := 32; KARATSUBA_THRESHOLD_ge := ltac:(done) |}.

Section Mul.
Context `{LL : LongLong} `{KT : KaratsubaThreshold}.

(** ** Definitions *)

(** The first row: multiply by [vp[0]], storing the result. *)
Definition mul_first_row (m : mem) (prodp up usize v_limb : Z) : Z * mem :=
  let '(cy_limb, m) :=
    if v_limb <=? 1 then
      (0, if v_limb =? 1 then MPN_COPY m prodp up usize else MPN_ZERO m prodp usize)
    else mpn_mul_1 m prodp up usize v_limb in
  (cy_limb, m.[prodp + usize := cy_limb]).

(** A further row: multiply by [vp[i]], adding to the product. *)
Definition mul_next_row (m : mem) (prodp up usize v_limb : Z) : Z * mem :=
  let '(cy_limb, m) :=
    if v_limb <=? 1 then
      if v_limb =? 1 then mpn_add_n m prodp prodp up usize else (0, m)
    else mpn_addmul_1 m prodp up usize v_limb in
  (cy_limb, m.[prodp + usize := cy_limb]).

(** The outer loop, [for (i = 1; i < vsize; i++)]. *)
Fixpoint mul_rows (fuel : nat) (m : mem) (prodp up usize vp vsize i cy_limb : Z) : Z * mem :=
  match fuel with
  | O => (cy_limb, m)
  | S fuel =>
      if i <? vsize then
        let '(cy_limb, m) := mul_next_row m prodp up usize (m (vp + i)) in
        mul_rows fuel m (prodp + 1) up usize vp vsize (i + 1) cy_limb
      else (cy_limb, m)
  end.

Definition impn_mul_n_basecase (m : mem) (prodp up vp size : Z) : mem :=
  let v_limb := m vp in
  let '(cy_limb, m) := mul_first_row m prodp up size v_limb in
  snd (mul_rows (Z.to_nat size) m (prodp + 1) up size vp size 1 cy_limb).

Definition MPN_MUL_N_RECURSE (impn_mul_n : mem -> Z -> Z -> Z -> Z -> Z -> mem)
    (m : mem) (prodp up vp size tspace : Z) : mem :=
  if size <? KARATSUBA_THRESHOLD then impn_mul_n_basecase m prodp up vp size
  else impn_mul_n m prodp up vp size tspace.

(** The absolute difference of two equally long numbers, and whether it is
    the second that is larger. *)
Definition sub_abs (m : mem) (dst hi lo hsize : Z) : bool * mem :=
  if 0 <=? mpn_cmp m hi lo hsize then (false, snd (mpn_sub_n m dst hi lo hsize))
  else (true, snd (mpn_sub_n m dst lo hi hsize)).

(** Add products H and M into place; [negflg] tells the sign of M. *)
Definition kar_add_HM (m : mem) (prodp hsize size tspace : Z) (negflg : bool) : Z * mem :=
  let m := MPN_COPY m (prodp + hsize) (prodp + size) hsize in
  let '(cy, m) := mpn_add_n m (prodp + size) (prodp + size) (prodp + size + hsize) hsize in
  if negflg then
    let '(c, m) := mpn_sub_n m (prodp + hsize) (prodp + hsize) tspace size in (uw (cy - c), m)
  else
    let '(c, m) := mpn_add_n m (prodp + hsize) (prodp + hsize) tspace size in (uw (cy + c), m).

(** Add product L twice. *)
Definition kar_add_L (m : mem) (prodp hsize size tspace cy : Z) : mem :=
  let '(c, m) := mpn_add_n m (prodp + hsize) (prodp + hsize) tspace size in
  let cy := uw (cy + c) in
  let m :=
    if negb (cy =? 0)
    then snd (mpn_add_1 m (prodp + hsize + size) (prodp + hsize + size) hsize cy) else m in
  let m := MPN_COPY m prodp tspace hsize in
  let '(cy, m) := mpn_add_n m (prodp + hsize) (prodp + hsize) (tspace + hsize) hsize in
  if negb (cy =? 0) then snd (mpn_add_1 m (prodp + size) (prodp + size) size 1) else m.

Fixpoint impn_mul_n (fuel : nat) (m : mem) (prodp up vp size tspace : Z) : mem :=
  match fuel with
  | O => m
  | S fuel =>
      let recurse := MPN_MUL_N_RECURSE (impn_mul_n fuel) in
      if negb (Z.land size 1 =? 0) then
        let esize := size - 1 in
        let m := recurse m prodp up vp esize tspace in
        let '(cy_limb, m) := mpn_addmul_1 m (prodp + esize) up esize (m (vp + esize)) in
        let m := m.[prodp + (esize + esize) := cy_limb] in
        let '(cy_limb, m) := mpn_addmul_1 m (prodp + esize) vp size (m (up + esize)) in
        m.[prodp + (esize + size) := cy_limb]
      else
        let hsize := Z.shiftr size 1 in
        let m := recurse m (prodp + size) (up + hsize) (vp + hsize) hsize tspace in
        let '(negflg, m) := sub_abs m prodp (up + hsize) up hsize in
        let '(f, m) := sub_abs m (prodp + hsize) (vp + hsize) vp hsize in
        let negflg := xorb negflg (negb f) in
        let m := recurse m tspace prodp (prodp + hsize) hsize (tspace + size) in
        let '(cy, m) := kar_add_HM m prodp hsize size tspace negflg in
        let m := recurse m tspace up vp hsize (tspace + size) in
        kar_add_L m prodp hsize size tspace cy
  end.

Definition impn_sqr_n_basecase (m : mem) (prodp up size : Z) : mem :=
  let v_limb := m up in
  let '(cy_limb, m) := mul_first_row m prodp up size v_limb in
  snd (mul_rows (Z.to_nat size) m (prodp + 1) up size up size 1 cy_limb).

Definition MPN_SQR_N_RECURSE (impn_sqr_n : mem -> Z -> Z -> Z -> Z -> mem)
    (m : mem) (prodp up size tspace : Z) : mem :=
  if size <? KARATSUBA_THRESHOLD then impn_sqr_n_basecase m prodp up size
  else impn_sqr_n m prodp up size tspace.

Fixpoint impn_sqr_n (fuel : nat) (m : mem) (prodp up size tspace : Z) : mem :=
  match fuel with
  | O => m
  | S fuel =>
      let recurse := MPN_SQR_N_RECURSE (impn_sqr_n fuel) in
      if negb (Z.land size 1 =? 0) then
        let esize := size - 1 in
        let m := recurse m prodp up esize tspace in
        let '(cy_limb, m) := mpn_addmul_1 m (prodp + esize) up esize (m (up + esize)) in
        let m := m.[prodp + (esize + esize) := cy_limb] in
        let '(cy_limb, m) := mpn_addmul_1 m (prodp + esize) up size (m (up + esize)) in
        m.[prodp + (esize + size) := cy_limb]
      else
        let hsize := Z.shiftr size 1 in
        let m := recurse m (prodp + size) (up + hsize) hsize tspace in
        let '(_, m) := sub_abs m prodp (up + hsize) up hsize in
        let m := recurse m tspace prodp hsize (tspace + size) in
        let '(cy, m) := kar_add_HM m prodp hsize size tspace true in
        let m := recurse m tspace up hsize (tspace + size) in
        kar_add_L m prodp hsize size tspace cy
  end.

(** [tspace] is what [TMP_ALLOC (2 * size * BYTES_PER_MP_LIMB)] returns. *)
Definition mpn_mul_n (m : mem) (prodp up vp size tspace : Z) : mem :=
  if up =? vp then
    if size <? KARATSUBA_THRESHOLD then impn_sqr_n_basecase m prodp up size
    else impn_sqr_n (Z.to_nat size) m prodp up size tspace
  else
    if size <? KARATSUBA_THRESHOLD then impn_mul_n_basecase m prodp up vp size
    else impn_mul_n (Z.to_nat size) m prodp up vp size tspace.

(** The loop over [vsize]-limb blocks of [u], [do ... while (usize >= vsize)]. *)
Fixpoint mul_blocks (fuel : nat) (m : mem) (prodp up usize vp vsize tp tspace : Z)
    : mem * Z * Z * Z :=
  match fuel with
  | O => (m, prodp, up, usize)
  | S fuel =>
      let m := MPN_MUL_N_RECURSE (impn_mul_n (Z.to_nat vsize)) m tp up vp vsize tspace in
      let '(cy, m) := mpn_add_n m prodp prodp tp vsize in
      let '(_, m) := mpn_add_1 m (prodp + vsize) (tp + vsize) vsize cy in
      let prodp := prodp + vsize in
      let up := up + vsize in
      let usize := usize - vsize in
      if vsize <=? usize then mul_blocks fuel m prodp up usize vp vsize tp tspace
      else (m, prodp, up, usize)
  end.

(** [TMP_ALLOC] takes addresses from the stack pointer [sp] upwards. *)
Fixpoint mpn_mul (fuel : nat) (m : mem) (prodp up usize vp vsize sp : Z) : Z * mem :=
  match fuel with
  | O => (0, m)
  | S fuel =>
      let prod_endp := prodp + usize + vsize - 1 in
      if vsize <? KARATSUBA_THRESHOLD then
        if vsize =? 0 then (0, m) else
        let v_limb := m vp in
        let '(cy_limb, m) := mul_first_row m prodp up usize v_limb in
        mul_rows (Z.to_nat vsize) m (prodp + 1) up usize vp vsize 1 cy_limb
      else
        let tspace := sp in
        let sp := sp + 2 * vsize in
        let m := MPN_MUL_N_RECURSE (impn_mul_n (Z.to_nat vsize)) m prodp up vp vsize tspace in
        let prodp := prodp + vsize in
        let up := up + vsize in
        let usize := usize - vsize in
        let '(m, prodp, up, usize, sp) :=
          if vsize <=? usize then
            let tp := sp in
            let sp := sp + 2 * vsize in
            let '(m, prodp, up, usize) :=
              mul_blocks (Z.to_nat usize) m prodp up usize vp vsize tp tspace in
            (m, prodp, up, usize, sp)
          else (m, prodp, up, usize, sp) in
        let m :=
          if negb (usize =? 0) then
            let '(_, m) := mpn_mul fuel m tspace vp vsize up usize sp in
            let '(cy, m) := mpn_add_n m prodp prodp tspace vsize in
            snd (mpn_add_1 m (prodp + vsize) (tspace + vsize) usize cy)
          else m in
        (m prod_endp, m)
  end.

(** ** Schoolbook multiplication *)

(** A row leaves the new top limb of the product behind it. *)
Lemma store_top m m1 prodp n cy x :
  wf m1 -> 0 <= n -> limb cy -> frame m m1 prodp n ->
  mval m1 prodp n + B ^ n * cy = x ->
  let m' := m1.[prodp + n := cy] in
  wf m' /\ frame m m' prodp (n + 1) /\ mval m' prodp (n + 1) = x.
Proof.
  intros W Hn Hc F E. split; [by apply wf_upd|]. split.
  { intros q Hq. rewrite upd_ne by lia. apply F. lia. }
  rewrite mval_last, upd_eq by lia.
  by rewrite (mval_frame m1 _ (prodp + n) 1) by (apply frame_upd || unfold disjoint_ranges; lia).
Qed.

Lemma mul_first_row_spec m prodp up n v :
  wf m -> 0 < n -> limb v -> disjoint_ranges prodp n up n ->
  exists cy m', mul_first_row m prodp up n v = (cy, m') /\ wf m' /\
    frame m m' prodp (n + 1) /\ cy = m' (prodp + n) /\
    mval m' prodp (n + 1) = mval m up n * v.
Proof.
  intros Hm Hn Hv D. unfold mul_first_row.
  assert (D' : incr_ok prodp up n) by (unfold incr_ok, disjoint_ranges in *; lia).
  assert (R : exists cy m1, (if v <=? 1 then
      (0, if v =? 1 then MPN_COPY m prodp up n else MPN_ZERO m prodp n)
      else mpn_mul_1 m prodp up n v) = (cy, m1) /\ wf m1 /\ limb cy /\ frame m m1 prodp n /\
      mval m1 prodp n + B ^ n * cy = mval m up n * v).
  { assert (L0 : limb 0) by (pose proof B_ge; unfold limb; lia).
    destruct (Z.leb_spec v 1); [|by apply mpn_mul_1_spec].
    destruct (Z.eqb_spec v 1) as [->|].
    - destruct (MPN_COPY_spec m prodp up n) as (W & F & V); [done|lia|done|].
      do 2 eexists. split; [reflexivity|]. rewrite V. split_and!; [done..|lia].
    - destruct (MPN_ZERO_spec m prodp n) as (W & F & V); [done|lia|].
      do 2 eexists. split; [reflexivity|]. rewrite V. unfold limb in Hv.
      replace v with 0 by lia. split_and!; [done..|lia]. }
  destruct R as (cy & m1 & -> & W & Hc & F & V). exists cy, (m1.[prodp + n := cy]).
  destruct (store_top m m1 prodp n cy _ W ltac:(lia) Hc F V) as (? & ? & ?).
  rewrite upd_eq. auto.
Qed.

Lemma mul_next_row_spec m prodp up n v :
  wf m -> 0 < n -> limb v -> disjoint_ranges prodp n up n ->
  exists cy m', mul_next_row m prodp up n v = (cy, m') /\ wf m' /\
    frame m m' prodp (n + 1) /\ cy = m' (prodp + n) /\
    mval m' prodp (n + 1) = mval m prodp n + mval m up n * v.
Proof.
  intros Hm Hn Hv D. unfold mul_next_row.
  assert (D' : incr_ok prodp up n) by (unfold incr_ok, disjoint_ranges in *; lia).
  assert (R : exists cy m1, (if v <=? 1 then
      if v =? 1 then mpn_add_n m prodp prodp up n else (0, m)
      else mpn_addmul_1 m prodp up n v) = (cy, m1) /\ wf m1 /\ limb cy /\ frame m m1 prodp n /\
      mval m1 prodp n + B ^ n * cy = mval m prodp n + mval m up n * v).
  { pose proof B_ge. destruct (Z.leb_spec v 1); [|by apply mpn_addmul_1_spec].
    destruct (Z.eqb_spec v 1) as [->|].
    - destruct (mpn_add_n_spec m prodp prodp up n) as (cy & m1 & -> & ? & ? & ? & ?);
        [done..|unfold incr_ok; lia|done|].
      exists cy, m1. unfold limb. split_and!; [done..|lia|lia|done|lia].
    - unfold limb in Hv. replace v with 0 by lia. exists 0, m. unfold limb.
      split_and!; [done..|lia|lia|apply frame_refl|lia]. }
  destruct R as (cy & m1 & -> & W & Hc & F & V). exists cy, (m1.[prodp + n := cy]).
  destruct (store_top m m1 prodp n cy _ W ltac:(lia) Hc F V) as (? & ? & ?).
  rewrite upd_eq. auto.
Qed.

(** [k] rows remain; the product so far has [n + i] limbs from [p] on. *)
Lemma mul_rows_spec k fuel m p up n vp vn i cy :
  wf m -> 0 < n -> 0 < i -> vn = i + Z.of_nat k -> (k <= fuel)%nat ->
  disjoint_ranges p (n + vn) up n -> disjoint_ranges p (n + vn) vp vn ->
  cy = m (p + n + i - 1) -> mval m p (n + i) = mval m up n * mval m vp i ->
  exists m', mul_rows fuel m (p + i) up n vp vn i cy = (m' (p + n + vn - 1), m') /\
    wf m' /\ frame m m' p (n + vn) /\ mval m' p (n + vn) = mval m up n * mval m vp vn.
Proof.
  revert fuel m i cy. induction k as [|k IH]; intros fuel m i cy Hm Hn Hi Ek Hf D1 D2 Ec E.
  { assert (i = vn) as -> by lia. exists m. rewrite Ec. split.
    - destruct fuel; simpl; [done|]. by rewrite Z.ltb_irrefl.
    - auto using frame_refl. }
  destruct fuel as [|fuel]; [lia|]. cbn [mul_rows]. destruct (Z.ltb_spec i vn); [|lia].
  unfold disjoint_ranges in D1, D2.
  destruct (mul_next_row_spec m (p + i) up n (m (vp + i))) as (cy1 & m1 & -> & W & F & Ec1 & V);
    [done|done|apply Hm|unfold disjoint_ranges; lia|].
  replace (p + i + 1) with (p + (i + 1)) by lia.
  destruct (IH fuel m1 (i + 1) cy1) as (m' & -> & W' & F' & V');
    [done|done|lia|lia|lia|unfold disjoint_ranges; lia..| | |].
  - rewrite Ec1. f_equal. lia.
  - replace (n + (i + 1)) with (i + (n + 1)) by lia. rewrite mval_app, V by lia.
    frame_val F. rewrite mval_last by lia.
    replace (n + i) with (i + n) in E by lia. rewrite mval_app in E by lia. nia.
  - exists m'. split; [done|]. split; [done|]. split.
    { intros q Hq. rewrite F', F by lia. done. }
    rewrite V'. frame_val F. done.
Qed.

(** Both the balanced and the unbalanced schoolbook product. *)
Lemma mul_basecase_spec m p up n vp vn :
  wf m -> 0 < n -> 0 < vn ->
  disjoint_ranges p (n + vn) up n -> disjoint_ranges p (n + vn) vp vn ->
  exists m',
    (let '(cy, m) := mul_first_row m p up n (m vp) in
     mul_rows (Z.to_nat vn) m (p + 1) up n vp vn 1 cy) = (m' (p + n + vn - 1), m') /\
    wf m' /\ frame m m' p (n + vn) /\ mval m' p (n + vn) = mval m up n * mval m vp vn.
Proof.
  intros Hm Hn Hv D1 D2. unfold disjoint_ranges in D1, D2.
  destruct (mul_first_row_spec m p up n (m vp)) as (cy & m1 & -> & W & F & Ec & V);
    [done|done|apply Hm|unfold disjoint_ranges; lia|].
  destruct (mul_rows_spec (Z.to_nat (vn - 1)) (Z.to_nat vn) m1 p up n vp vn 1 cy)
    as (m' & E & W' & F' & V'); [done|done|lia|lia|lia|unfold disjoint_ranges; lia..| | |].
  - rewrite Ec. f_equal. lia.
  - rewrite V. frame_val F. by rewrite mval_1.
  - exists m'. split; [done|]. split; [done|]. split.
    { intros q Hq. rewrite F', F by lia. done. }
    rewrite V'. frame_val F. done.
Qed.

(** ** Karatsuba's algorithm *)

(** Only two ranges may have changed. *)
Definition frame2 (m m' : mem) (p n q k : Z) : Prop :=
  forall x, x < p \/ p + n <= x -> x < q \/ q + k <= x -> m' x = m x.

Lemma mval_frame2 m m' p n q k a l :
  frame2 m m' p n q k -> disjoint_ranges a l p n -> disjoint_ranges a l q k ->
  mval m' a l = mval m a l.
Proof.
  unfold disjoint_ranges. intros F D1 D2. apply mval_ext. intros x Hx. apply F; lia.
Qed.

(** The contract of a balanced multiplication with scratch space. *)
Definition mul_n_ok (f : mem -> Z -> Z -> Z -> Z -> Z -> mem) (size : Z) : Prop :=
  forall m prodp up vp tspace, wf m ->
  disjoint_ranges prodp (2 * size) up size -> disjoint_ranges prodp (2 * size) vp size ->
  disjoint_ranges prodp (2 * size) tspace (2 * size) ->
  disjoint_ranges tspace (2 * size) up size -> disjoint_ranges tspace (2 * size) vp size ->
  let m' := f m prodp up vp size tspace in
  wf m' /\ frame2 m m' prodp (2 * size) tspace (2 * size) /\
  mval m' prodp (2 * size) = mval m up size * mval m vp size.

Lemma impn_mul_n_basecase_spec m prodp up vp size :
  wf m -> 0 < size ->
  disjoint_ranges prodp (2 * size) up size -> disjoint_ranges prodp (2 * size) vp size ->
  let m' := impn_mul_n_basecase m prodp up vp size in
  wf m' /\ frame m m' prodp (2 * size) /\
  mval m' prodp (2 * size) = mval m up size * mval m vp size.
Proof.
  intros Hm Hs D1 D2. unfold impn_mul_n_basecase.
  replace (2 * size) with (size + size) in * by lia.
  destruct (mul_basecase_spec m prodp up size vp size) as (m' & E & W & F & V); [done..|].
  destruct (mul_first_row m prodp up size (m vp)) as [cy m1]. by rewrite E.
Qed.

Lemma recurse_ok f size :
  0 < size -> (KARATSUBA_THRESHOLD <= size -> mul_n_ok f size) ->
  mul_n_ok (MPN_MUL_N_RECURSE f) size.
Proof.
  intros Hs Hf m prodp up vp tspace Hm D1 D2 D3 D4 D5. unfold MPN_MUL_N_RECURSE.
  destruct (Z.ltb_spec size KARATSUBA_THRESHOLD) as [L|L].
  - destruct (impn_mul_n_basecase_spec m prodp up vp size Hm Hs D1 D2) as (W & F & V).
    split; [done|]. split; [|done]. intros x Hx _. by apply F.
  - by apply Hf.
Qed.

Lemma sub_abs_spec m dst hi lo h :
  wf m -> 0 < h -> disjoint_ranges dst h hi h -> disjoint_ranges dst h lo h ->
  exists f m', sub_abs m dst hi lo h = (f, m') /\ wf m' /\ frame m m' dst h /\
    (if f then -1 else 1) * mval m' dst h = mval m hi h - mval m lo h.
Proof.
  intros Hm Hh D1 D2. unfold sub_abs. rewrite mpn_cmp_spec by (done || lia).
  assert (I1 : incr_ok dst hi h) by (unfold incr_ok, disjoint_ranges in *; lia).
  assert (I2 : incr_ok dst lo h) by (unfold incr_ok, disjoint_ranges in *; lia).
  pose proof (Bpow_pos h ltac:(lia)).
  assert (S : forall a b, incr_ok dst a h -> incr_ok dst b h -> mval m b h <= mval m a h ->
    exists m', snd (mpn_sub_n m dst a b h) = m' /\ wf m' /\ frame m m' dst h /\
      mval m' dst h = mval m a h - mval m b h).
  { intros a b Ia Ib L.
    destruct (mpn_sub_n_spec m dst a b h) as (c & m' & -> & W & Hc & F & V); [done..|].
    pose proof (mval_bound m' dst h W ltac:(lia)). pose proof (mval_bound m a h Hm ltac:(lia)).
    pose proof (mval_bound m b h Hm ltac:(lia)).
    exists m'. split; [done|]. split; [done|]. split; [done|]. assert (c = 0) by nia. nia. }
  destruct (Z.compare_spec (mval m hi h) (mval m lo h)) as [E|E|E]; simpl.
  - destruct (S hi lo) as (m' & -> & W & F & V); [done..|lia|]. exists false, m'.
    split_and!; [done..|lia].
  - destruct (S lo hi) as (m' & -> & W & F & V); [done..|lia|]. exists true, m'.
    split_and!; [done..|lia].
  - destruct (S hi lo) as (m' & -> & W & F & V); [done..|lia|]. exists false, m'.
    split_and!; [done..|lia].
Qed.

(** Products H and M in place: the carry out of the low [3 * h] limbs is kept
    as a signed number modulo [B]. *)
Lemma kar_add_HM_spec m p h s ts (neg : bool) :
  wf m -> 0 < h -> s = 2 * h -> disjoint_ranges p (4 * h) ts s ->
  exists c m', kar_add_HM m p h s ts neg = (uw c, m') /\ wf m' /\ -1 <= c <= 2 /\
    frame m m' (p + h) (2 * h) /\
    mval m' (p + h) s + B ^ s * (mval m (p + 3 * h) h + c)
    = mval m (p + s) s * (1 + B ^ h) + (if neg then -1 else 1) * mval m ts s.
Proof.
  intros Hm Hh -> D. unfold disjoint_ranges in D. unfold kar_add_HM.
  destruct (MPN_COPY_spec m (p + h) (p + 2 * h) h) as (W1 & F1 & V1);
    [done|lia|unfold incr_ok; lia|].
  set (m1 := MPN_COPY m _ _ _) in *.
  destruct (mpn_add_n_spec m1 (p + 2 * h) (p + 2 * h) (p + 2 * h + h) h)
    as (cy & m2 & -> & W2 & Hcy & F2 & V2); [done..|unfold incr_ok; lia|unfold incr_ok; lia|].
  assert (E : mval m2 (p + h) (2 * h) + B ^ (2 * h) * (mval m (p + 3 * h) h + cy)
    = mval m (p + 2 * h) (2 * h) * (1 + B ^ h)).
  { replace (2 * h) with (h + h) by lia. rewrite !mval_app, Z.pow_add_r by lia.
    replace (p + h + h) with (p + 2 * h) by lia. replace (p + (h + h)) with (p + 2 * h) by lia.
    frame_val F2. rewrite V1. replace (p + 2 * h + h) with (p + 3 * h) in * by lia.
    revert V2. frame_val F1. intros. nia. }
  assert (T : mval m2 ts (2 * h) = mval m ts (2 * h)) by (frame_val F2; by frame_val F1).
  assert (Fr : frame m m2 (p + h) (2 * h)) by (intros q Hq; rewrite F2, F1 by lia; done).
  destruct neg.
  - destruct (mpn_sub_n_spec m2 (p + h) (p + h) ts (2 * h)) as (c & m3 & -> & W3 & Hc & F3 & V3);
      [done|lia|unfold incr_ok; lia..|].
    exists (cy - c), m3. split_and!; [done..|lia|lia| |].
    + intros q Hq. rewrite F3 by lia. apply Fr. lia.
    + rewrite <- E, <- T. nia.
  - destruct (mpn_add_n_spec m2 (p + h) (p + h) ts (2 * h)) as (c & m3 & -> & W3 & Hc & F3 & V3);
      [done|lia|unfold incr_ok; lia..|].
    exists (cy + c), m3. split_and!; [done..|lia|lia| |].
    + intros q Hq. rewrite F3 by lia. apply Fr. lia.
    + rewrite <- E, <- T. nia.
Qed.

(** [mpn_add_1] where the sum is known to fit. *)
Lemma mpn_add_1_fits m dst src n v :
  wf m -> 0 < n -> limb v -> incr_ok dst src n -> mval m src n + v < B ^ n ->
  exists m', snd (mpn_add_1 m dst src n v) = m' /\ wf m' /\ frame m m' dst n /\
    mval m' dst n = mval m src n + v.
Proof.
  intros Hm Hn Hv D L.
  destruct (mpn_add_1_spec m dst src n v) as (c & m' & -> & W & Hc & F & V); [done..|].
  pose proof (mval_bound m' dst n W ltac:(lia)). exists m'.
  split_and!; [done..|]. assert (c = 0) by nia. nia.
Qed.

Lemma add_carry_in m p n cy :
  wf m -> 0 < n -> limb cy -> mval m p n + cy < B ^ n ->
  exists m', (if negb (cy =? 0) then snd (mpn_add_1 m p p n cy) else m) = m' /\
    wf m' /\ frame m m' p n /\ mval m' p n = mval m p n + cy.
Proof.
  intros Hm Hn Hc L. destruct (Z.eqb_spec cy 0) as [->|]; simpl.
  - exists m. split_and!; [done..|apply frame_refl|lia].
  - apply mpn_add_1_fits; [done..|unfold incr_ok; lia|done].
Qed.

Lemma kar_add_L_spec m p h s ts c y :
  wf m -> 0 < h -> s = 2 * h -> disjoint_ranges p (4 * h) ts s -> -1 <= c <= 2 ->
  y = mval m (p + h) s + B ^ s * (mval m (p + 3 * h) h + c) + mval m ts s ->
  B ^ s * mval m (p + 3 * h) h <= y -> mval m ts s + B ^ h * y < B ^ (4 * h) ->
  let m' := kar_add_L m p h s ts (uw c) in
  wf m' /\ frame m m' p (4 * h) /\ mval m' p (4 * h) = mval m ts s + B ^ h * y.
Proof.
  intros Hm Hh -> D Hc Ey Hlo Hhi. unfold disjoint_ranges in D. unfold kar_add_L.
  pose proof B_ge as HB. set (R := B ^ h) in *.
  assert (R0 : 0 < R) by (apply Bpow_pos; lia).
  assert (E2 : B ^ (2 * h) = R * R)
    by (replace (2 * h) with (h + h) by lia; rewrite Z.pow_add_r by lia; done).
  assert (E4 : B ^ (4 * h) = R * R * (R * R))
    by (replace (4 * h) with (2 * h + 2 * h) by lia; rewrite Z.pow_add_r by lia; by rewrite E2).
  rewrite E2 in *. rewrite E4 in Hhi.
  destruct (mpn_add_n_spec m (p + h) (p + h) ts (2 * h)) as (c1 & m1 & -> & W1 & Hc1 & F1 & V1);
    [done|lia|unfold incr_ok; lia..|]. rewrite E2 in V1.
  pose proof (mval_bound m1 (p + h) (2 * h) W1 ltac:(lia)) as B1. rewrite E2 in B1.
  set (k := c + c1). set (T := mval m (p + 3 * h) h) in *.
  assert (Yk : y = mval m1 (p + h) (2 * h) + R * R * (T + k)) by (subst k; lia).
  assert (Hk : 0 <= k <= 3) by (subst k; nia).
  assert (Ek : uw (uw c + c1) = k).
  { destruct (uw_repr c) as [j Hj]. apply (uw_unique _ _ (- j)); [unfold limb; lia|].
    subst k. lia. }
  rewrite Ek. replace (p + h + 2 * h) with (p + 3 * h) by lia.
  assert (L0 : 0 <= mval m ts (2 * h)) by (apply mval_bound; [done|lia]).
  assert (T1 : mval m1 (p + 3 * h) h = T) by (by frame_val F1).
  destruct (add_carry_in m1 (p + 3 * h) h k) as (m2 & -> & W2 & F2 & V2);
    [done..|unfold limb; lia|rewrite T1; fold R; nia|]. rewrite T1 in V2.
  destruct (MPN_COPY_spec m2 p ts h) as (W3 & F3 & V3); [done|lia|unfold incr_ok; lia|].
  set (m3 := MPN_COPY m2 p ts h) in *.
  destruct (mpn_add_n_spec m3 (p + h) (p + h) (ts + h) h) as (c4 & m4 & -> & W4 & Hc4 & F4 & V4);
    [done..|unfold incr_ok; lia|unfold incr_ok; lia|]. fold R in V4.
  assert (Fr : frame m m4 p (4 * h))
    by (intros q Hq; rewrite F4, F3, F2, F1 by lia; done).
  assert (EL : mval m ts (2 * h) = mval m ts h + R * mval m (ts + h) h)
    by (replace (2 * h) with (h + h) by lia; rewrite mval_app by lia; done).
  assert (EA : mval m1 (p + h) (2 * h) = mval m1 (p + h) h + R * mval m1 (p + 2 * h) h)
    by (replace (2 * h) with (h + h) at 1 by lia; rewrite mval_app by lia;
        replace (p + h + h) with (p + 2 * h) by lia; done).
  assert (EH : mval m4 (p + 2 * h) (2 * h) = mval m1 (p + 2 * h) h + R * (T + k)).
  { replace (2 * h) with (h + h) at 2 by lia. rewrite mval_app by lia.
    replace (p + 2 * h + h) with (p + 3 * h) by lia. fold R.
    frame_val F4. frame_val F3. rewrite V2. by frame_val F2. }
  revert V4. frame_val F3. frame_val F2. frame_val F1. intros V4.
  assert (EP : mval m4 p h = mval m ts h).
  { frame_val F4. rewrite V3. frame_val F2. by frame_val F1. }
  assert (G : exists m5, (if negb (c4 =? 0) then snd (mpn_add_1 m4 (p + 2 * h) (p + 2 * h) (2 * h) 1)
      else m4) = m5 /\ wf m5 /\ frame m4 m5 (p + 2 * h) (2 * h) /\
      mval m5 (p + 2 * h) (2 * h) = mval m4 (p + 2 * h) (2 * h) + c4).
  { pose proof (add_carry_in m4 (p + 2 * h) (2 * h) c4 W4) as G.
    destruct G as (m5 & G & ?); [lia|unfold limb; lia| |].
    - rewrite EH, E2. pose proof (mval_bound m4 (p + h) h W4 ltac:(lia)) as B4. fold R in B4.
      pose proof (mval_bound m ts h Hm ltac:(lia)).
      apply (Z.mul_lt_mono_pos_l (R * R)); [nia|]. nia.
    - exists m5. split; [|done]. rewrite <- G.
      destruct (Z.eqb_spec c4 0); [done|]. by replace c4 with 1 by lia. }
  destruct G as (m5 & -> & W5 & F5 & V5). split; [done|]. split.
  { intros q Hq. rewrite F5 by lia. apply Fr. lia. }
  replace (4 * h) with (h + (h + 2 * h)) by lia. rewrite !mval_app by lia. fold R.
  replace (p + h + h) with (p + 2 * h) by lia. frame_val F5. rewrite V5, EH, EP. nia.
Qed.

(** The end of the odd case: the top limbs of both operands are multiplied in
    after the product of the low [e] limbs. *)
Lemma mul_odd_spec m p up vp e :
  wf m -> 0 < e -> disjoint_ranges p (2 * (e + 1)) up (e + 1) ->
  disjoint_ranges p (2 * (e + 1)) vp (e + 1) ->
  mval m p (2 * e) = mval m up e * mval m vp e ->
  let m' :=
    let '(c, m) := mpn_addmul_1 m (p + e) up e (m (vp + e)) in
    let m := m.[p + (e + e) := c] in
    let '(c, m) := mpn_addmul_1 m (p + e) vp (e + 1) (m (up + e)) in
    m.[p + (e + (e + 1)) := c] in
  wf m' /\ frame m m' p (2 * (e + 1)) /\
  mval m' p (2 * (e + 1)) = mval m up (e + 1) * mval m vp (e + 1).
Proof.
  intros Hm He D1 D2 E. unfold disjoint_ranges in D1, D2. cbv zeta.
  destruct (mpn_addmul_1_spec m (p + e) up e (m (vp + e))) as (c1 & m1 & -> & W1 & Hc1 & F1 & V1);
    [done..|apply Hm|unfold incr_ok; lia|].
  replace (p + (e + e)) with (p + e + e) by lia.
  destruct (store_top m m1 (p + e) e c1 _ W1 ltac:(lia) Hc1 F1 V1) as (W2 & F2 & V2).
  set (m2 := m1.[p + e + e := c1]) in *.
  destruct (mpn_addmul_1_spec m2 (p + e) vp (e + 1) (m2 (up + e)))
    as (c3 & m3 & -> & W3 & Hc3 & F3 & V3); [done|lia|apply W2|unfold incr_ok; lia|].
  replace (p + (e + (e + 1))) with (p + e + (e + 1)) by lia.
  destruct (store_top m2 m3 (p + e) (e + 1) c3 _ W3 ltac:(lia) Hc3 F3 V3) as (W4 & F4 & V4).
  set (m4 := m3.[p + e + (e + 1) := c3]) in *.
  split; [done|]. split; [intros q Hq; rewrite F4, F2 by lia; done|].
  replace (2 * (e + 1)) with (e + (e + 1 + 1)) by lia.
  rewrite mval_app, V4, V2 by lia. rewrite (F2 (up + e)) by lia.
  frame_val F4. frame_val F2. rewrite !mval_last by lia.
  replace (2 * e) with (e + e) in E by lia. rewrite mval_app in E by lia. nia.
Qed.

(** The even case: three products of half the size. *)
Lemma karatsuba_identity R U0 U1 V0 V1 H L M :
  H = U1 * V1 -> L = U0 * V0 -> M = (U1 - U0) * (V0 - V1) ->
  L + R * (H * (1 + R) + M + L) = (U0 + R * U1) * (V0 + R * V1).
Proof. intros -> -> ->. ring. Qed.

Lemma two_halves_bound R U0 U1 : 0 <= U0 < R -> 0 <= U1 < R -> 0 <= U0 + R * U1 < R * R.
Proof. nia. Qed.

(** From the products H (in place) and M (in the scratch space) on, given how
    product L is computed. *)
Lemma kar_finish recL m p h ts (neg : bool) U0 U1 V0 V1 :
  wf m -> 0 < h -> disjoint_ranges p (4 * h) ts (4 * h) ->
  0 <= U0 < B ^ h -> 0 <= U1 < B ^ h -> 0 <= V0 < B ^ h -> 0 <= V1 < B ^ h ->
  mval m (p + 2 * h) (2 * h) = U1 * V1 ->
  (if neg then -1 else 1) * mval m ts (2 * h) = (U1 - U0) * (V0 - V1) ->
  (forall m5, wf m5 -> frame m m5 (p + h) (2 * h) ->
     wf (recL m5) /\ frame2 m5 (recL m5) ts (2 * h) (ts + 2 * h) (2 * h) /\
     mval (recL m5) ts (2 * h) = U0 * V0) ->
  let m' := let '(cy, m) := kar_add_HM m p h (2 * h) ts neg in
            kar_add_L (recL m) p h (2 * h) ts cy in
  wf m' /\ frame2 m m' p (4 * h) ts (4 * h) /\
  mval m' p (4 * h) = (U0 + B ^ h * U1) * (V0 + B ^ h * V1).
Proof.
  intros Hm Hh D HU0 HU1 HV0 HV1 EH EM HL. unfold disjoint_ranges in D.
  destruct (kar_add_HM_spec m p h (2 * h) ts neg) as (c & m5 & -> & W5 & Hc & F5 & V5);
    [done..|unfold disjoint_ranges; lia|].
  destruct (HL m5 W5 F5) as (W6 & F6 & V6). set (m6 := recL m5) in *.
  set (R := B ^ h) in *. rewrite EH, EM in V5.
  assert (E2 : B ^ (2 * h) = R * R)
    by (replace (2 * h) with (h + h) by lia; rewrite Z.pow_add_r by lia; done).
  assert (E4 : B ^ (4 * h) = R * R * (R * R))
    by (replace (4 * h) with (2 * h + 2 * h) by lia; rewrite Z.pow_add_r by lia; by rewrite E2).
  assert (K6 : mval m6 (p + h) (2 * h) = mval m5 (p + h) (2 * h))
    by (apply (mval_frame2 m5 m6 ts (2 * h) (ts + 2 * h) (2 * h)); [done|unfold disjoint_ranges; lia..]).
  assert (K6' : mval m6 (p + 3 * h) h = mval m (p + 3 * h) h).
  { rewrite (mval_frame2 m5 m6 ts (2 * h) (ts + 2 * h) (2 * h)) by (done || unfold disjoint_ranges; lia).
    by frame_val F5. }
  assert (HT : 0 <= U1 * V1 - R * mval m (p + 3 * h) h).
  { rewrite <- EH. replace (2 * h) with (h + h) at 2 by lia. rewrite mval_app by lia.
    replace (p + 2 * h + h) with (p + 3 * h) by lia. fold R.
    pose proof (mval_bound m (p + 2 * h) h Hm ltac:(lia)). lia. }
  pose proof (karatsuba_identity R U0 U1 V0 V1 _ _ _ eq_refl eq_refl eq_refl) as KI.
  pose proof (two_halves_bound R U0 U1 HU0 HU1). pose proof (two_halves_bound R V0 V1 HV0 HV1).
  destruct (kar_add_L_spec m6 p h (2 * h) ts c (U1 * V1 * (1 + R) + (U1 - U0) * (V0 - V1) + U0 * V0))
    as (W7 & F7 & V7); [done..|unfold disjoint_ranges; lia|done| | | |].
  - rewrite K6, K6', V6. lia.
  - rewrite K6', E2. assert (0 <= U1 * V0) by (apply Z.mul_nonneg_nonneg; lia).
    assert (0 <= U0 * V1) by (apply Z.mul_nonneg_nonneg; lia).
    assert (0 <= R * (U1 * V1 - R * mval m (p + 3 * h) h))
      by (apply Z.mul_nonneg_nonneg; [apply Z.lt_le_incl, Bpow_pos; lia|exact HT]). lia.
  - rewrite V6. fold R. rewrite KI, E4. apply Z.mul_lt_mono_nonneg; lia.
  - split; [done|]. split.
    + intros x Hx Hy. clear - F5 F6 F7 D Hx Hy Hh. rewrite F7, F6, F5 by lia. done.
    + rewrite V7, V6. fold R. exact KI.
Qed.

Lemma mul_even_spec rec m p up vp h ts :
  wf m -> 0 < h -> mul_n_ok rec h ->
  let s := 2 * h in
  disjoint_ranges p (2 * s) up s -> disjoint_ranges p (2 * s) vp s ->
  disjoint_ranges p (2 * s) ts (2 * s) ->
  disjoint_ranges ts (2 * s) up s -> disjoint_ranges ts (2 * s) vp s ->
  let m' :=
    let m := rec m (p + s) (up + h) (vp + h) h ts in
    let '(negflg, m) := sub_abs m p (up + h) up h in
    let '(f, m) := sub_abs m (p + h) (vp + h) vp h in
    let negflg := xorb negflg (negb f) in
    let m := rec m ts p (p + h) h (ts + s) in
    let '(cy, m) := kar_add_HM m p h s ts negflg in
    let m := rec m ts up vp h (ts + s) in
    kar_add_L m p h s ts cy in
  wf m' /\ frame2 m m' p (2 * s) ts (2 * s) /\ mval m' p (2 * s) = mval m up s * mval m vp s.
Proof.
  intros Hm Hh Hrec. cbv zeta. unfold disjoint_ranges. intros D1 D2 D3 D4 D5.
  destruct (Hrec m (p + 2 * h) (up + h) (vp + h) ts) as (W1 & F1 & V1);
    [done|unfold disjoint_ranges; lia..|].
  set (m1 := rec m _ _ _ _ _) in *.
  destruct (sub_abs_spec m1 p (up + h) up h) as (f1 & m2 & -> & W2 & F2 & V2);
    [done|done|unfold disjoint_ranges; lia..|].
  destruct (sub_abs_spec m2 (p + h) (vp + h) vp h) as (f2 & m3 & -> & W3 & F3 & V3);
    [done|done|unfold disjoint_ranges; lia..|].
  destruct (Hrec m3 ts p (p + h) (ts + 2 * h)) as (W4 & F4 & V4);
    [done|unfold disjoint_ranges; lia..|].
  set (m4 := rec m3 _ _ _ _ _) in *.
  assert (Fop : frame2 m m4 p (4 * h) ts (4 * h))
    by (intros x Hx Hy; rewrite F4, F3, F2, F1 by lia; done).
  assert (K1 : forall a l, disjoint_ranges a l p (4 * h) -> disjoint_ranges a l ts (4 * h) ->
    mval m1 a l = mval m a l).
  { unfold disjoint_ranges. intros. eapply mval_frame2; [exact F1|unfold disjoint_ranges; lia..]. }
  revert V2 V3 V4. frame_val F3. frame_val F2.
  rewrite !K1 by (unfold disjoint_ranges; lia). intros V2 V3 V4.
  destruct (kar_finish (fun m => rec m ts up vp h (ts + 2 * h)) m4 p h ts (xorb f1 (negb f2))
    (mval m up h) (mval m (up + h) h) (mval m vp h) (mval m (vp + h) h)) as (W & F & V);
    [done|done|unfold disjoint_ranges; lia|apply mval_bound; [done|lia]..| | | |].
  - rewrite (mval_frame2 m3 m4 ts (2 * h) (ts + 2 * h) (2 * h)) by (done || unfold disjoint_ranges; lia).
    frame_val F3. by frame_val F2.
  - rewrite V4, <- V2. replace (mval m vp h - mval m (vp + h) h)
      with (- (mval m (vp + h) h - mval m vp h)) by ring. rewrite <- V3.
    destruct f1, f2; simpl; ring.
  - intros m5 W5 F5. destruct (Hrec m5 ts up vp (ts + 2 * h)) as (W6 & F6 & V6);
      [done|unfold disjoint_ranges; lia..|].
    split; [done|]. split; [done|]. rewrite V6.
    frame_val F5. rewrite !(mval_frame2 m m4 p (4 * h) ts (4 * h)) by (done || unfold disjoint_ranges; lia).
    done.
  - cbv zeta in W, F, V. destruct (kar_add_HM m4 p h (2 * h) ts (xorb f1 (negb f2))) as [cy m5].
    replace (2 * (2 * h)) with (4 * h) by lia. split; [done|]. split.
    + intros x Hx Hy. rewrite F, Fop by lia. done.
    + rewrite V. replace (2 * h) with (h + h) by lia. by rewrite !mval_app by lia.
Qed.

Lemma odd_half size : Z.land size 1 <> 0 -> 0 <= size -> exists e, size = 2 * e + 1 /\ 0 <= e.
Proof.
  intros H Hs. change 1 with (Z.ones 1) in H. rewrite Z.land_ones in H by lia.
  change (2 ^ 1) with 2 in H. pose proof (Z.div_mod size 2 ltac:(lia)).
  pose proof (Z.mod_pos_bound size 2 ltac:(lia)). exists (size / 2). lia.
Qed.

Lemma even_half size : Z.land size 1 = 0 -> 0 <= size -> size = 2 * Z.shiftr size 1.
Proof.
  intros H Hs. change 1 with (Z.ones 1) in H at 1. rewrite Z.land_ones in H by lia.
  rewrite Z.shiftr_div_pow2 by lia. change (2 ^ 1) with 2 in *.
  pose proof (Z.div_mod size 2 ltac:(lia)). lia.
Qed.

(** Karatsuba multiplication is multiplication, from two limbs on. *)
Lemma impn_mul_n_spec fuel size :
  2 <= size -> size <= Z.of_nat fuel -> mul_n_ok (impn_mul_n fuel) size.
Proof.
  revert size. induction fuel as [|fuel IH]; intros size Hs Hf; [lia|].
  assert (Hrec : forall k, 0 < k < size -> mul_n_ok (MPN_MUL_N_RECURSE (impn_mul_n fuel)) k).
  { intros k Hk. apply recurse_ok; [lia|]. intros HK.
    pose proof KARATSUBA_THRESHOLD_ge. apply IH; lia. }
  intros m prodp up vp ts Hm D1 D2 D3 D4 D5. cbn [impn_mul_n].
  destruct (Z.eqb_spec (Z.land size 1) 0) as [E|E]; simpl negb; cbv iota.
  - pose proof (even_half size E ltac:(lia)) as Eh. set (h := Z.shiftr size 1) in *.
    rewrite Eh in D1, D2, D3, D4, D5 |- *.
    apply mul_even_spec; [done|lia|apply Hrec; lia|done..].
  - destruct (odd_half size E ltac:(lia)) as (e' & Ee & He).
    set (e := size - 1). replace size with (e + 1) in * by lia. unfold disjoint_ranges in *.
    destruct (Hrec e ltac:(lia) m prodp up vp ts) as (W & F & V);
      [done|unfold disjoint_ranges; lia..|].
    set (m1 := MPN_MUL_N_RECURSE _ _ _ _ _ _ _) in *.
    assert (K : forall a l, disjoint_ranges a l prodp (2 * e) -> disjoint_ranges a l ts (2 * e) ->
      mval m1 a l = mval m a l) by (intros; by eapply mval_frame2).
    destruct (mul_odd_spec m1 prodp up vp e) as (W2 & F2 & V2);
      [done|lia|unfold disjoint_ranges; lia..| |].
    { rewrite V, !K by (unfold disjoint_ranges; lia). done. }
    split; [done|]. split.
    + intros x Hx Hy. etransitivity; [apply F2; lia|apply F; lia].
    + etransitivity; [exact V2|]. rewrite !K by (unfold disjoint_ranges; lia). done.
Qed.

(** ** Squaring *)

Lemma impn_sqr_n_basecase_eq m prodp up size :
  impn_sqr_n_basecase m prodp up size = impn_mul_n_basecase m prodp up up size.
Proof. done. Qed.

Definition sqr_n_ok (f : mem -> Z -> Z -> Z -> Z -> mem) (size : Z) : Prop :=
  forall m prodp up tspace, wf m ->
  disjoint_ranges prodp (2 * size) up size ->
  disjoint_ranges prodp (2 * size) tspace (2 * size) ->
  disjoint_ranges tspace (2 * size) up size ->
  let m' := f m prodp up size tspace in
  wf m' /\ frame2 m m' prodp (2 * size) tspace (2 * size) /\
  mval m' prodp (2 * size) = mval m up size * mval m up size.

Lemma sqr_recurse_ok f size :
  0 < size -> (KARATSUBA_THRESHOLD <= size -> sqr_n_ok f size) ->
  sqr_n_ok (MPN_SQR_N_RECURSE f) size.
Proof.
  intros Hs Hf m prodp up tspace Hm D1 D2 D3. unfold MPN_SQR_N_RECURSE.
  destruct (Z.ltb_spec size KARATSUBA_THRESHOLD) as [L|L]; [|by apply Hf].
  destruct (impn_mul_n_basecase_spec m prodp up up size Hm Hs D1 D1) as (W & F & V).
  split; [done|]. split; [|done]. intros x Hx _. by apply F.
Qed.

Lemma sqr_even_spec rec m p up h ts :
  wf m -> 0 < h -> sqr_n_ok rec h ->
  let s := 2 * h in
  disjoint_ranges p (2 * s) up s -> disjoint_ranges p (2 * s) ts (2 * s) ->
  disjoint_ranges ts (2 * s) up s ->
  let m' :=
    let m := rec m (p + s) (up + h) h ts in
    let '(_, m) := sub_abs m p (up + h) up h in
    let m := rec m ts p h (ts + s) in
    let '(cy, m) := kar_add_HM m p h s ts true in
    let m := rec m ts up h (ts + s) in
    kar_add_L m p h s ts cy in
  wf m' /\ frame2 m m' p (2 * s) ts (2 * s) /\ mval m' p (2 * s) = mval m up s * mval m up s.
Proof.
  intros Hm Hh Hrec. cbv zeta. unfold disjoint_ranges. intros D1 D3 D4.
  destruct (Hrec m (p + 2 * h) (up + h) ts) as (W1 & F1 & V1);
    [done|unfold disjoint_ranges; lia..|].
  set (m1 := rec m _ _ _ _) in *.
  destruct (sub_abs_spec m1 p (up + h) up h) as (f1 & m2 & -> & W2 & F2 & V2);
    [done|done|unfold disjoint_ranges; lia..|].
  destruct (Hrec m2 ts p (ts + 2 * h)) as (W4 & F4 & V4);
    [done|unfold disjoint_ranges; lia..|].
  set (m4 := rec m2 _ _ _ _) in *.
  assert (Fop : frame2 m m4 p (4 * h) ts (4 * h))
    by (intros x Hx Hy; rewrite F4, F2, F1 by lia; done).
  revert V2. rewrite !(mval_frame2 m m1 (p + 2 * h) (2 * h) ts (2 * h))
    by (done || unfold disjoint_ranges; lia). intros V2.
  destruct (kar_finish (fun m => rec m ts up h (ts + 2 * h)) m4 p h ts true
    (mval m up h) (mval m (up + h) h) (mval m up h) (mval m (up + h) h)) as (W & F & V);
    [done|done|unfold disjoint_ranges; lia|apply mval_bound; [done|lia]..| | | |].
  - rewrite (mval_frame2 m2 m4 ts (2 * h) (ts + 2 * h) (2 * h)) by (done || unfold disjoint_ranges; lia).
    by frame_val F2.
  - rewrite V4. replace (mval m up h - mval m (up + h) h)
      with (- (mval m (up + h) h - mval m up h)) by ring. rewrite <- V2.
    destruct f1; simpl; ring.
  - intros m5 W5 F5. destruct (Hrec m5 ts up (ts + 2 * h)) as (W6 & F6 & V6);
      [done|unfold disjoint_ranges; lia..|].
    split; [done|]. split; [done|]. rewrite V6. frame_val F5.
    rewrite !(mval_frame2 m m4 p (4 * h) ts (4 * h)) by (done || unfold disjoint_ranges; lia). done.
  - cbv zeta in W, F, V. destruct (kar_add_HM m4 p h (2 * h) ts true) as [cy m5].
    replace (2 * (2 * h)) with (4 * h) by lia. split; [done|]. split.
    + intros x Hx Hy. rewrite F, Fop by lia. done.
    + rewrite V. replace (2 * h) with (h + h) by lia. by rewrite !mval_app by lia.
Qed.

Lemma impn_sqr_n_spec fuel size :
  2 <= size -> size <= Z.of_nat fuel -> sqr_n_ok (impn_sqr_n fuel) size.
Proof.
  revert size. induction fuel as [|fuel IH]; intros size Hs Hf; [lia|].
  assert (Hrec : forall k, 0 < k < size -> sqr_n_ok (MPN_SQR_N_RECURSE (impn_sqr_n fuel)) k).
  { intros k Hk. apply sqr_recurse_ok; [lia|]. intros HK.
    pose proof KARATSUBA_THRESHOLD_ge. apply IH; lia. }
  intros m prodp up ts Hm D1 D3 D4. cbn [impn_sqr_n].
  destruct (Z.eqb_spec (Z.land size 1) 0) as [E|E]; simpl negb; cbv iota.
  - pose proof (even_half size E ltac:(lia)) as Eh. set (h := Z.shiftr size 1) in *.
    rewrite Eh in D1, D3, D4 |- *. apply sqr_even_spec; [done|lia|apply Hrec; lia|done..].
  - destruct (odd_half size E ltac:(lia)) as (e' & Ee & He).
    set (e := size - 1). replace size with (e + 1) in * by lia. unfold disjoint_ranges in *.
    destruct (Hrec e ltac:(lia) m prodp up ts) as (W & F & V);
      [done|unfold disjoint_ranges; lia..|].
    set (m1 := MPN_SQR_N_RECURSE _ _ _ _ _ _) in *.
    assert (K : forall a l, disjoint_ranges a l prodp (2 * e) -> disjoint_ranges a l ts (2 * e) ->
      mval m1 a l = mval m a l) by (intros; by eapply mval_frame2).
    destruct (mul_odd_spec m1 prodp up up e) as (W2 & F2 & V2);
      [done|lia|unfold disjoint_ranges; lia..| |].
    { rewrite V, !K by (unfold disjoint_ranges; lia). done. }
    split; [done|]. split.
    + intros x Hx Hy. etransitivity; [apply F2; lia|apply F; lia].
    + etransitivity; [exact V2|]. rewrite !K by (unfold disjoint_ranges; lia). done.
Qed.

(** [mpn_mul_n] dispatches on equal operands and on the size. *)
Lemma mpn_mul_n_spec m prodp up vp size ts :
  wf m -> 0 < size ->
  disjoint_ranges prodp (2 * size) up size -> disjoint_ranges prodp (2 * size) vp size ->
  disjoint_ranges prodp (2 * size) ts (2 * size) ->
  disjoint_ranges ts (2 * size) up size -> disjoint_ranges ts (2 * size) vp size ->
  let m' := mpn_mul_n m prodp up vp size ts in
  wf m' /\ frame2 m m' prodp (2 * size) ts (2 * size) /\
  mval m' prodp (2 * size) = mval m up size * mval m vp size.
Proof.
  intros Hm Hs D1 D2 D3 D4 D5. unfold mpn_mul_n. pose proof KARATSUBA_THRESHOLD_ge.
  destruct (Z.eqb_spec up vp) as [->|N].
  - apply (sqr_recurse_ok (impn_sqr_n (Z.to_nat size)) size); [done| |done..].
    intros. apply impn_sqr_n_spec; lia.
  - apply (recurse_ok (impn_mul_n (Z.to_nat size)) size); [done| |done..].
    intros. apply impn_mul_n_spec; lia.
Qed.

(** ** The unbalanced product *)

(** Adding the product of one more block of [r] limbs of [u] at limb [d]. *)
Lemma mul_block_add m p d v r tp :
  wf m -> 0 <= d -> 0 < v -> 0 < r -> disjoint_ranges p (d + v + r) tp (v + r) ->
  mval m p (d + v) + B ^ d * mval m tp (v + r) < B ^ (d + v + r) ->
  exists cy m1, mpn_add_n m (p + d) (p + d) tp v = (cy, m1) /\
  exists m', snd (mpn_add_1 m1 (p + d + v) (tp + v) r cy) = m' /\ wf m' /\
    frame m m' (p + d) (v + r) /\
    mval m' p (d + v + r) = mval m p (d + v) + B ^ d * mval m tp (v + r).
Proof.
  intros Hm Hd Hv Hr D L. unfold disjoint_ranges in D. pose proof B_ge.
  destruct (mpn_add_n_spec m (p + d) (p + d) tp v) as (cy & m1 & -> & W1 & Hc & F1 & V1);
    [done..|unfold incr_ok; lia|unfold incr_ok; lia|].
  exists cy, m1. split; [done|].
  pose proof (Bpow_pos d Hd) as Pd. pose proof (Bpow_pos v ltac:(lia)) as Pv.
  revert L. rewrite (mval_app m tp), (mval_app m p d v), !(Z.pow_add_r B) by lia. intros L.
  assert (T : mval m1 (tp + v) r = mval m (tp + v) r) by (by frame_val F1).
  assert (P0 : 0 <= mval m p d) by (apply mval_bound; [done|lia]).
  assert (P1 : 0 <= mval m1 (p + d) v) by (apply mval_bound; [done|lia]).
  destruct (mpn_add_1_fits m1 (p + d + v) (tp + v) r cy) as (m' & -> & W' & F' & V');
    [done|done|unfold limb; lia|unfold incr_ok; lia| |].
  - rewrite T. apply (Z.mul_lt_mono_pos_l (B ^ d * B ^ v)); [nia|]. nia.
  - exists m'. split; [done|]. split; [done|]. split.
    { intros q Hq. rewrite F', F1 by lia. done. }
    rewrite <- Z.add_assoc, !mval_app by lia. rewrite V', T.
    frame_val F'. frame_val F1. nia.
Qed.

(** Nothing below [sp] changes outside the product. *)
Definition frame_below (m m' : mem) (p n sp : Z) : Prop :=
  forall x, x < p \/ p + n <= x -> x < sp -> m' x = m x.

Lemma mval_frame_below m m' p n sp a l :
  frame_below m m' p n sp -> disjoint_ranges a l p n -> a + l <= sp ->
  mval m' a l = mval m a l.
Proof.
  unfold disjoint_ranges. intros F D L. apply mval_ext. intros x Hx. apply F; lia.
Qed.

Lemma prod_bound m a n b k : wf m -> 0 <= n -> 0 <= k ->
  mval m a n * mval m b k < B ^ (n + k).
Proof.
  intros Hm Hn Hk. rewrite Z.pow_add_r by lia.
  pose proof (mval_bound m a n Hm Hn). pose proof (mval_bound m b k Hm Hk).
  apply Z.mul_lt_mono_nonneg; lia.
Qed.

(** [d] limbs of [u] are done; the loop takes [v] limbs at a time. *)
Lemma mul_blocks_spec fuel m p up n vp v tp ts d :
  wf m -> 0 < v -> 0 <= d -> d + v <= n -> n - d < Z.of_nat fuel * v ->
  mul_n_ok (MPN_MUL_N_RECURSE (impn_mul_n (Z.to_nat v))) v ->
  disjoint_ranges p (n + v) up n -> disjoint_ranges p (n + v) vp v ->
  p + n + v <= ts -> up + n <= ts -> vp + v <= ts -> tp = ts + 2 * v ->
  mval m p (d + v) = mval m up d * mval m vp v ->
  exists m' d', mul_blocks fuel m (p + d) (up + d) (n - d) vp v tp ts
      = (m', p + d', up + d', n - d') /\
    wf m' /\ d <= d' <= n /\ n - d' < v /\ frame_below m m' p (n + v) ts /\
    mval m' p (d' + v) = mval m up d' * mval m vp v.
Proof.
  revert m d. induction fuel as [|fuel IH];
    intros m d Hm Hv Hd Hdn Hf Hrec D1 D2 L1 L2 L3 Et E; [lia|].
  unfold disjoint_ranges in D1, D2. cbn [mul_blocks].
  destruct (Hrec m tp (up + d) vp ts) as (W1 & F1 & V1); [done|unfold disjoint_ranges; lia..|].
  set (m1 := MPN_MUL_N_RECURSE _ _ _ _ _ _ _) in *.
  assert (K1 : forall a l, a + l <= ts -> mval m1 a l = mval m a l).
  { intros. eapply mval_frame2; [exact F1|unfold disjoint_ranges; lia..]. }
  assert (EU : mval m up (d + v) = mval m up d + B ^ d * mval m (up + d) v) by (apply mval_app; lia).
  destruct (mul_block_add m1 p d v v tp) as (cy & m2 & -> & m3 & E3 & W3 & F3 & V3);
    [done..|unfold disjoint_ranges; lia| |].
  { replace (v + v) with (2 * v) by lia. rewrite V1, K1, E by lia.
    pose proof (prod_bound m up (d + v) vp v Hm ltac:(lia) ltac:(lia)) as PB. nia. }
  destruct (mpn_add_1 m2 (p + d + v) (tp + v) v cy) as [c3 m3'] eqn:E4. simpl in E3. subst m3'.
  assert (V : mval m3 p (d + v + v) = mval m up (d + v) * mval m vp v).
  { rewrite V3. replace (v + v) with (2 * v) by lia. rewrite V1, K1, E, EU by lia. ring. }
  assert (Fb : frame_below m m3 p (n + v) ts)
    by (intros x Hx Hy; rewrite F3, F1 by lia; done).
  assert (K3 : forall a l, disjoint_ranges a l p (n + v) -> a + l <= ts -> mval m3 a l = mval m a l)
    by (intros; by eapply mval_frame_below).
  replace (p + d + v) with (p + (d + v)) by lia. replace (up + d + v) with (up + (d + v)) by lia.
  replace (n - d - v) with (n - (d + v)) by lia.
  destruct (Z.leb_spec v (n - (d + v))) as [L|L].
  - destruct (IH m3 (d + v)) as (m' & d' & -> & W' & Hd' & Hn' & F' & V');
      [done|done|lia|lia|lia|done|unfold disjoint_ranges; lia|unfold disjoint_ranges; lia|done|done|done|done| |].
    { rewrite V, !K3 by (unfold disjoint_ranges; lia). done. }
    exists m', d'. split_and!; [done..|lia|lia|done| |].
    + intros x Hx Hy. by rewrite F', Fb by lia.
    + rewrite V', !K3 by (unfold disjoint_ranges; lia). done.
  - exists m3, (d + v). split_and!; [done..|lia|lia|lia|done|done].
Qed.

Lemma frame_below_trans m1 m2 m3 p n sp :
  frame_below m1 m2 p n sp -> frame_below m2 m3 p n sp -> frame_below m1 m3 p n sp.
Proof. intros F G x Hx Hs. by rewrite G, F. Qed.

(** The contract of [mpn_mul] for given sizes. *)
Definition mul_ok (f : mem -> Z -> Z -> Z -> Z -> Z -> Z -> Z * mem) (n v : Z) : Prop :=
  forall m p up vp sp, wf m ->
  disjoint_ranges p (n + v) up n -> disjoint_ranges p (n + v) vp v ->
  p + n + v <= sp -> up + n <= sp -> vp + v <= sp ->
  exists m', f m p up n vp v sp = (m' (p + n + v - 1), m') /\ wf m' /\
    frame_below m m' p (n + v) sp /\ mval m' p (n + v) = mval m up n * mval m vp v.

(** What is left after the whole blocks: [r < v] limbs of [u], multiplied
    recursively into the scratch space at [ts] and added. *)
Lemma mul_tail_spec rec m p up n vp v ts d sp :
  wf m -> 0 < v -> 0 <= d <= n -> n - d < v ->
  (0 < n - d -> mul_ok rec v (n - d)) ->
  disjoint_ranges p (n + v) up n -> disjoint_ranges p (n + v) vp v ->
  p + n + v <= ts -> up + n <= ts -> vp + v <= ts -> ts + 2 * v <= sp ->
  mval m p (d + v) = mval m up d * mval m vp v ->
  let m' :=
    if negb (n - d =? 0) then
      let '(_, m) := rec m ts vp v (up + d) (n - d) sp in
      let '(cy, m) := mpn_add_n m (p + d) (p + d) ts v in
      snd (mpn_add_1 m (p + d + v) (ts + v) (n - d) cy)
    else m in
  wf m' /\ frame_below m m' p (n + v) ts /\ mval m' p (n + v) = mval m up n * mval m vp v.
Proof.
  intros Hm Hv Hd Hr Hrec D1 D2 L1 L2 L3 L4 E. unfold disjoint_ranges in D1, D2. cbv zeta.
  destruct (Z.eqb_spec (n - d) 0) as [E0|N0]; simpl negb; cbv iota.
  { assert (d = n) as -> by lia. split; [done|]. split; [by intros x _ _|done]. }
  destruct (Hrec ltac:(lia) m ts vp (up + d) sp) as (m1 & -> & W1 & F1 & V1);
    [done|unfold disjoint_ranges; lia..|lia|lia|lia|].
  assert (K1 : forall a l, a + l <= ts -> mval m1 a l = mval m a l).
  { intros. eapply mval_frame_below; [exact F1|unfold disjoint_ranges; lia|lia]. }
  assert (EU : mval m up n = mval m up d + B ^ d * mval m (up + d) (n - d)) by (apply mval_split; lia).
  destruct (mul_block_add m1 p d v (n - d) ts) as (cy & m2 & -> & m3 & -> & W3 & F3 & V3);
    [done|lia|done|lia|unfold disjoint_ranges; lia| |].
  { rewrite V1, K1, E by lia. replace (d + v + (n - d)) with (n + v) by lia.
    pose proof (prod_bound m up n vp v Hm ltac:(lia) ltac:(lia)) as PB. rewrite EU in PB. lia. }
  split; [done|]. split.
  { intros x Hx Hy. rewrite F3, F1 by lia. done. }
  replace (d + v + (n - d)) with (n + v) in V3 by lia.
  rewrite V3, V1, K1, E, EU by lia. ring.
Qed.

Lemma mpn_mul_spec fuel n v :
  0 < v <= n -> v < Z.of_nat fuel -> mul_ok (mpn_mul fuel) n v.
Proof.
  revert n v. induction fuel as [|fuel IH]; intros n v Hv Hf; [lia|].
  intros m p up vp sp Hm D1 D2 L1 L2 L3. cbn [mpn_mul].
  destruct (Z.ltb_spec v KARATSUBA_THRESHOLD) as [LK|LK].
  { destruct (Z.eqb_spec v 0); [lia|].
    destruct (mul_basecase_spec m p up n vp v) as (m' & -> & W & F & V); [done|lia|lia|done..|].
    exists m'. split_and!; [done..| |done]. intros x Hx _. by apply F. }
  pose proof KARATSUBA_THRESHOLD_ge. unfold disjoint_ranges in D1, D2.
  assert (Hrec : mul_n_ok (MPN_MUL_N_RECURSE (impn_mul_n (Z.to_nat v))) v)
    by (apply recurse_ok; [lia|]; intros; apply impn_mul_n_spec; lia).
  destruct (Hrec m p up vp sp) as (W1 & F1 & V1); [done|unfold disjoint_ranges; lia..|].
  set (m1 := MPN_MUL_N_RECURSE _ _ _ _ _ _ _) in *.
  assert (Fb1 : frame_below m m1 p (n + v) sp) by (intros x Hx Hy; apply F1; lia).
  assert (K1 : forall a l, disjoint_ranges a l p (n + v) -> a + l <= sp -> mval m1 a l = mval m a l)
    by (intros; by eapply mval_frame_below).
  assert (R : exists m2 d sp', (if v <=? n - v then
      let '(m0, prodp, up0, usize) :=
        mul_blocks (Z.to_nat (n - v)) m1 (p + v) (up + v) (n - v) vp v (sp + 2 * v) sp in
      (m0, prodp, up0, usize, sp + 2 * v + 2 * v)
      else (m1, p + v, up + v, n - v, sp + 2 * v)) = (m2, p + d, up + d, n - d, sp') /\
      wf m2 /\ v <= d <= n /\ n - d < v /\ sp + 2 * v <= sp' /\
      frame_below m m2 p (n + v) sp /\ mval m2 p (d + v) = mval m up d * mval m vp v).
  { replace (2 * v) with (v + v) in V1 by lia.
    destruct (Z.leb_spec v (n - v)) as [L|L].
    - destruct (mul_blocks_spec (Z.to_nat (n - v)) m1 p up n vp v (sp + 2 * v) sp v)
        as (m2 & d & -> & W2 & Hd & Hn & F2 & V2);
        [done|lia|lia|lia|nia|done|unfold disjoint_ranges; lia..|lia|lia|lia|lia| |].
      + by rewrite V1, !K1 by (unfold disjoint_ranges; lia).
      + exists m2, d, (sp + 2 * v + 2 * v). split_and!; [done..|lia|lia|done|lia| |].
        * by apply (frame_below_trans m m1).
        * by rewrite V2, !K1 by (unfold disjoint_ranges; lia).
    - exists m1, v, (sp + 2 * v). split_and!; [done..|lia|lia|lia|lia|done|done]. }
  destruct R as (m2 & d & sp' & -> & W2 & Hd & Hn & Hsp & Fb2 & V2).
  assert (K2 : forall a l, disjoint_ranges a l p (n + v) -> a + l <= sp -> mval m2 a l = mval m a l)
    by (intros; by eapply mval_frame_below).
  destruct (mul_tail_spec (mpn_mul fuel) m2 p up n vp v sp d sp') as (W3 & F3 & V3);
    [done|lia|lia|lia|intros; apply IH; lia|done|done|lia|lia|lia|lia| |].
  { by rewrite V2, !K2 by (unfold disjoint_ranges; lia). }
  eexists. split; [reflexivity|]. split; [done|]. split; [by apply (frame_below_trans m m2)|].
  rewrite V3, !K2 by (unfold disjoint_ranges; lia). done.
Qed.
End Mul.
