(* ===== verification/MpnDiv.v ===== *)
(** * Multi-precision division: [stdlib/{divmod_1,mod_1,divrem}.c]

    Division of an [n]-limb number by one limb with any of the strategies the
    cost constants select, and long division by a normalized divisor. *)

From S2P Require Import Prelude LongLong LimbMem Mpn.

Section Div.
Context `{LL : LongLong}.

(** ** Division by one limb *)

(** [for (; i >= 0; i--) udiv_qrnnd (qp[i], r, r, lo[i], d)]: [n] is [i + 1],
    [dv] divides a two-limb number and [lo] yields the next dividend limb. *)
Fixpoint div_1_loop (n : nat) (dv : Z -> Z -> Z * Z) (lo : mem -> Z -> Z)
    (m : mem) (qp r : Z) : Z * mem :=
  match n with
  | O => (r, m)
  | S i =>
      let '(q, r) := dv r (lo m (Z.of_nat i)) in
      div_1_loop i dv lo (m.[qp + Z.of_nat i := q]) qp r
  end.

(** The divisor was not shifted. *)
Definition divmod_1_plain (dv : Z -> Z -> Z * Z) (m : mem)
    (quot_ptr dividend_ptr dividend_size divisor_limb : Z) : Z * mem :=
  let i := dividend_size - 1 in
  let r := m (dividend_ptr + i) in
  let lo := fun (m : mem) i => m (dividend_ptr + i) in
  if divisor_limb <=? r then div_1_loop (Z.to_nat dividend_size) dv lo m quot_ptr 0
  else div_1_loop (Z.to_nat i) dv lo (m.[quot_ptr + i := 0]) quot_ptr r.

(** [for (i = dividend_size - 2; i >= 0; i--)] over shifted limbs; [n] is
    [i + 1]. *)
Fixpoint divmod_1_shift_loop (n : nat) (dv : Z -> Z -> Z * Z) (m : mem)
    (quot_ptr dividend_ptr steps n1 r : Z) : Z * Z * mem :=
  match n with
  | O => (r, n1, m)
  | S i =>
      let n0 := m (dividend_ptr + Z.of_nat i) in
      let '(q, r) :=
        dv r (Z.lor (uw (Z.shiftl n1 steps)) (Z.shiftr n0 (W_TYPE_SIZE - steps))) in
      divmod_1_shift_loop i dv (m.[quot_ptr + (Z.of_nat i + 1) := q])
        quot_ptr dividend_ptr steps n0 r
  end.

(** The divisor was shifted left by [steps] bits, so the dividend is shifted
    on the fly. *)
Definition divmod_1_shifted (dv : Z -> Z -> Z * Z) (m : mem)
    (quot_ptr dividend_ptr dividend_size steps : Z) : Z * mem :=
  let n1 := m (dividend_ptr + (dividend_size - 1)) in
  let r := Z.shiftr n1 (W_TYPE_SIZE - steps) in
  let '(r, n1, m) :=
    divmod_1_shift_loop (Z.to_nat (dividend_size - 1)) dv m quot_ptr dividend_ptr steps n1 r in
  let '(q, r) := dv r (uw (Z.shiftl n1 steps)) in
  (Z.shiftr r steps, m.[quot_ptr := q]).

(** Does it help to multiply by the reciprocal of the divisor? *)
Definition preinv_pays (dividend_size : Z) : bool :=
  (2 * UMUL_TIME + 6 <? UDIV_TIME) &&
  (UDIV_TIME <? (UDIV_TIME - (2 * UMUL_TIME + 6)) * dividend_size).

Definition mpn_divmod_1 (m : mem) (quot_ptr dividend_ptr dividend_size divisor_limb : Z)
    : Z * mem :=
  if dividend_size =? 0 then (0, m)
  else if preinv_pays dividend_size then
    let normalization_steps := count_leading_zeros divisor_limb in
    if negb (normalization_steps =? 0) then
      let divisor_limb := uw (Z.shiftl divisor_limb normalization_steps) in
      let divisor_limb_inverted := invert_limb divisor_limb in
      divmod_1_shifted (fun nh nl => udiv_qrnnd_preinv nh nl divisor_limb divisor_limb_inverted)
        m quot_ptr dividend_ptr dividend_size normalization_steps
    else
      let divisor_limb_inverted := invert_limb divisor_limb in
      divmod_1_plain (fun nh nl => udiv_qrnnd_preinv nh nl divisor_limb divisor_limb_inverted)
        m quot_ptr dividend_ptr dividend_size divisor_limb
  else
    let normalization_steps :=
      if UDIV_NEEDS_NORMALIZATION then count_leading_zeros divisor_limb else 0 in
    if negb (normalization_steps =? 0) then
      let divisor_limb := uw (Z.shiftl divisor_limb normalization_steps) in
      divmod_1_shifted (fun nh nl => udiv_qrnnd nh nl divisor_limb)
        m quot_ptr dividend_ptr dividend_size normalization_steps
    else
      divmod_1_plain (fun nh nl => udiv_qrnnd nh nl divisor_limb)
        m quot_ptr dividend_ptr dividend_size divisor_limb.

(** [mpn_mod_1] runs the same loops but drops the quotient limbs. *)
Fixpoint mod_1_loop (n : nat) (dv : Z -> Z -> Z * Z) (m : mem) (dividend_ptr r : Z) : Z :=
  match n with
  | O => r
  | S i =>
      let '(_, r) := dv r (m (dividend_ptr + Z.of_nat i)) in
      mod_1_loop i dv m dividend_ptr r
  end.

Definition mod_1_plain (dv : Z -> Z -> Z * Z) (m : mem)
    (dividend_ptr dividend_size divisor_limb : Z) : Z :=
  let i := dividend_size - 1 in
  let r := m (dividend_ptr + i) in
  if divisor_limb <=? r then mod_1_loop (Z.to_nat dividend_size) dv m dividend_ptr 0
  else mod_1_loop (Z.to_nat i) dv m dividend_ptr r.

Fixpoint mod_1_shift_loop (n : nat) (dv : Z -> Z -> Z * Z) (m : mem)
    (dividend_ptr steps n1 r : Z) : Z * Z :=
  match n with
  | O => (r, n1)
  | S i =>
      let n0 := m (dividend_ptr + Z.of_nat i) in
      let '(_, r) :=
        dv r (Z.lor (uw (Z.shiftl n1 steps)) (Z.shiftr n0 (W_TYPE_SIZE - steps))) in
      mod_1_shift_loop i dv m dividend_ptr steps n0 r
  end.

Definition mod_1_shifted (dv : Z -> Z -> Z * Z) (m : mem)
    (dividend_ptr dividend_size steps : Z) : Z :=
  let n1 := m (dividend_ptr + (dividend_size - 1)) in
  let r := Z.shiftr n1 (W_TYPE_SIZE - steps) in
  let '(r, n1) :=
    mod_1_shift_loop (Z.to_nat (dividend_size - 1)) dv m dividend_ptr steps n1 r in
  let '(_, r) := dv r (uw (Z.shiftl n1 steps)) in
  Z.shiftr r steps.

Definition mpn_mod_1 (m : mem) (dividend_ptr dividend_size divisor_limb : Z) : Z :=
  if dividend_size =? 0 then 0
  else if preinv_pays dividend_size then
    let normalization_steps := count_leading_zeros divisor_limb in
    if negb (normalization_steps =? 0) then
      let divisor_limb := uw (Z.shiftl divisor_limb normalization_steps) in
      let divisor_limb_inverted := invert_limb divisor_limb in
      mod_1_shifted (fun nh nl => udiv_qrnnd_preinv nh nl divisor_limb divisor_limb_inverted)
        m dividend_ptr dividend_size normalization_steps
    else
      let divisor_limb_inverted := invert_limb divisor_limb in
      mod_1_plain (fun nh nl => udiv_qrnnd_preinv nh nl divisor_limb divisor_limb_inverted)
        m dividend_ptr dividend_size divisor_limb
  else
    let normalization_steps :=
      if UDIV_NEEDS_NORMALIZATION then count_leading_zeros divisor_limb else 0 in
    if negb (normalization_steps =? 0) then
      let divisor_limb := uw (Z.shiftl divisor_limb normalization_steps) in
      mod_1_shifted (fun nh nl => udiv_qrnnd nh nl divisor_limb)
        m dividend_ptr dividend_size normalization_steps
    else
      mod_1_plain (fun nh nl => udiv_qrnnd nh nl divisor_limb)
        m dividend_ptr dividend_size divisor_limb.

(** ** Long division *)

(** [case 1] of [mpn_divrem]. *)
Definition divrem_1 (m : mem) (qp qextra_limbs np nsize dp : Z) : Z * mem :=
  let d := m dp in
  let n1 := m (np + (nsize - 1)) in
  let '(n1, most_significant_q_limb) := if d <=? n1 then (uw (n1 - d), 1) else (n1, 0) in
  let dv := fun nh nl => udiv_qrnnd nh nl d in
  let '(n1, m) :=
    div_1_loop (Z.to_nat (nsize - 1)) dv (fun m i => m (np + i)) m (qp + qextra_limbs) n1 in
  let '(n1, m) := div_1_loop (Z.to_nat qextra_limbs) dv (fun _ _ => 0) m qp n1 in
  (most_significant_q_limb, m.[np := n1]).

(** [q_test]: lower the quotient estimate [q] until [d0 * q], in [n1:n0], is
    no more than [r:n2]. *)
Fixpoint q_test (fuel : nat) (q r n1 n0 n2 d1 d0 : Z) : Z * Z * Z * Z :=
  match fuel with
  | O => (q, r, n1, n0)
  | S fuel =>
      if (r <? n1) || ((n1 =? r) && (n2 <? n0)) then
        let q := uw (q - 1) in
        let '(n1, n0) := sub_ddmmss n1 n0 0 d0 in
        let r := uw (r + d1) in
        if d1 <=? r then q_test fuel q r n1 n0 n2 d1 d0 else (q, r, n1, n0)
      else (q, r, n1, n0)
  end.

(** The quotient limb and the new remainder [n1:n0] when the limb [np0] is
    brought down. *)
Definition divrem_2_limb (n1 n0 np0 d1 d0 : Z) : Z * Z * Z :=
  let finish (q r n1 n0 : Z) :=
    let n2 := np0 in
    let '(q, r, n1, n0) := q_test 3 q r n1 n0 n2 d1 d0 in
    let '(n1, n0) := sub_ddmmss r n2 n1 n0 in
    (q, n1, n0) in
  if n1 =? d1 then
    let q := B - 1 in
    let r := uw (n0 + d1) in
    if r <? d1 then
      let '(n1, n0) := add_ssaaaa (uw (r - d0)) np0 0 d0 in
      (q, n1, n0)
    else
      let n1 := uw (d0 - b2z (negb (d0 =? 0))) in
      let n0 := uw (- d0) in
      finish q r n1 n0
  else
    let '(q, r) := udiv_qrnnd n1 n0 d1 in
    let '(n1, n0) := umul_ppmm d0 q in
    finish q r n1 n0.

(** [case 2], the loop over [i]; [n] is [i + 1]. *)
Fixpoint divrem_2_loop (n : nat) (m : mem) (qp qextra_limbs np n1 n0 d1 d0 : Z)
    : mem * Z * Z * Z :=
  match n with
  | O => (m, np, n1, n0)
  | S i =>
      let '(m, np) :=
        if qextra_limbs <=? Z.of_nat i then (m, np - 1) else (m.[np := 0], np) in
      let '(q, n1, n0) := divrem_2_limb n1 n0 (m np) d1 d0 in
      divrem_2_loop i (m.[qp + Z.of_nat i := q]) qp qextra_limbs np n1 n0 d1 d0
  end.

Definition divrem_2 (m : mem) (qp qextra_limbs np nsize dp : Z) : Z * mem :=
  let np := np + (nsize - 2) in
  let d1 := m (dp + 1) in
  let d0 := m dp in
  let n1 := m (np + 1) in
  let n0 := m np in
  let '(n1, n0, most_significant_q_limb) :=
    if (d1 <=? n1) && ((d1 <? n1) || (d0 <=? n0)) then
      let '(n1, n0) := sub_ddmmss n1 n0 d1 d0 in (n1, n0, 1)
    else (n1, n0, 0) in
  let '(m, np, n1, n0) :=
    divrem_2_loop (Z.to_nat (qextra_limbs + nsize - 2)) m qp qextra_limbs np n1 n0 d1 d0 in
  let m := m.[np + 1 := n1] in
  (most_significant_q_limb, m.[np := n0]).

(** The [while] loop of the general case that lowers the estimate [q]. *)
Fixpoint divrem_adjust (fuel : nat) (q r n1 n0 np2 dX d1 : Z) : Z :=
  match fuel with
  | O => q
  | S fuel =>
      if (r <? n1) || ((n1 =? r) && (np2 <? n0)) then
        let q := uw (q - 1) in
        let r := uw (r + dX) in
        if r <? dX then q
        else divrem_adjust fuel q r (uw (n1 - b2z (n0 <? d1))) (uw (n0 - d1)) np2 dX d1
      else q
  end.

(** One iteration of the general case: the estimate, the multiply-subtract
    and the correction; [n0] is the top limb of the partial remainder. *)
Definition divrem_n_limb (m : mem) (np dp dsize n0 n2 dX d1 : Z) : Z * mem :=
  let q :=
    if n0 =? dX then B - 1
    else
      let '(q, r) := udiv_qrnnd n0 (m (np + (dsize - 1))) dX in
      let '(n1, n0) := umul_ppmm d1 q in
      divrem_adjust 3 q r n1 n0 (m (np + (dsize - 2))) dX d1 in
  let '(cy_limb, m) := mpn_submul_1 m np dp dsize q in
  if negb (n2 =? cy_limb) then
    let '(_, m) := mpn_add_n m np np dp dsize in (uw (q - 1), m)
  else (q, m).

Fixpoint divrem_n_loop (n : nat) (m : mem) (qp qextra_limbs np dp dsize n0 dX d1 : Z) : mem :=
  match n with
  | O => m
  | S i =>
      let '(m, np, n2) :=
        if qextra_limbs <=? Z.of_nat i then
          let np := np - 1 in (m, np, m (np + dsize))
        else
          let n2 := m (np + (dsize - 1)) in
          let m := MPN_COPY_DECR m (np + 1) np dsize in
          (m.[np := 0], np, n2) in
      let '(q, m) := divrem_n_limb m np dp dsize n0 n2 dX d1 in
      let m := m.[qp + Z.of_nat i := q] in
      divrem_n_loop i m qp qextra_limbs np dp dsize (m (np + (dsize - 1))) dX d1
  end.

(** The [default] case. *)
Definition divrem_n (m : mem) (qp qextra_limbs np nsize dp dsize : Z) : Z * mem :=
  let np := np + (nsize - dsize) in
  let dX := m (dp + (dsize - 1)) in
  let d1 := m (dp + (dsize - 2)) in
  let n0 := m (np + (dsize - 1)) in
  let '(m, n0, most_significant_q_limb) :=
    if dX <=? n0 then
      if (dX <? n0) || (0 <=? mpn_cmp m np dp (dsize - 1)) then
        let '(_, m) := mpn_sub_n m np np dp dsize in
        (m, m (np + (dsize - 1)), 1)
      else (m, n0, 0)
    else (m, n0, 0) in
  (most_significant_q_limb,
   divrem_n_loop (Z.to_nat (qextra_limbs + nsize - dsize)) m qp qextra_limbs np dp dsize n0 dX d1).

(** [None] is the division by zero the code performs on purpose. *)
Definition mpn_divrem (m : mem) (qp qextra_limbs np nsize dp dsize : Z) : option (Z * mem) :=
  if dsize =? 0 then None
  else if dsize =? 1 then Some (divrem_1 m qp qextra_limbs np nsize dp)
  else if dsize =? 2 then Some (divrem_2 m qp qextra_limbs np nsize dp)
  else Some (divrem_n m qp qextra_limbs np nsize dp dsize).

(** ** Correctness of the one-limb divisions *)

(** [dv] divides two-limb numbers by [d], as [udiv_qrnnd] and
    [udiv_qrnnd_preinv] do. *)
Definition divides_by (dv : Z -> Z -> Z * Z) (d : Z) : Prop :=
  limb d /\ 0 < d /\
  forall r x q r', 0 <= r < d -> limb x -> dv r x = (q, r') ->
  r * B + x = q * d + r' /\ 0 <= r' < d /\ limb q.

Lemma udiv_divides d : limb d -> 0 < d ->
  (UDIV_NEEDS_NORMALIZATION = true -> normalized d) ->
  divides_by (fun nh nl => udiv_qrnnd nh nl d) d.
Proof.
  intros Hd H0 Hn. split; [done|]. split; [done|]. intros r x q r' Hr Hx E.
  apply udiv_qrnnd_spec in E; auto.
Qed.

Lemma preinv_divides d : normalized d ->
  divides_by (fun nh nl => udiv_qrnnd_preinv nh nl d (invert_limb d)) d.
Proof.
  intros Hd. pose proof Hd as [Hl Hn]. pose proof B_ge. split; [done|]. split; [lia|].
  intros r x q r' Hr Hx E. by apply udiv_qrnnd_preinv_spec in E.
Qed.

Lemma limb_sum_last f p n :
  limb_sum f p (S n) = limb_sum f p n + B ^ Z.of_nat n * f (p + Z.of_nat n).
Proof. rewrite <- (Nat.add_1_r n), limb_sum_app. simpl. lia. Qed.

Lemma div_1_loop_spec n dv lo m qp r d :
  divides_by dv d -> wf m -> 0 <= r < d -> (forall m i, wf m -> limb (lo m i)) ->
  (forall m i j v, 0 <= j < i -> i < Z.of_nat n -> lo m.[qp + i := v] j = lo m j) ->
  let '(r', m') := div_1_loop n dv lo m qp r in
  wf m' /\ 0 <= r' < d /\ frame m m' qp (Z.of_nat n) /\
  r * B ^ Z.of_nat n + limb_sum (lo m) 0 n = mval m' qp (Z.of_nat n) * d + r'.
Proof.
  intros Hdv. revert m r. induction n as [|n IH]; intros m r Hm Hr Hlo Hst; cbn [div_1_loop].
  { rewrite mval_0. simpl. split_and!; [done..|lia|lia|apply frame_refl|lia]. }
  destruct (dv r (lo m (Z.of_nat n))) as [q r1] eqn:E.
  destruct Hdv as (Hd & H0 & Hdv). apply Hdv in E as (E & Hr1 & Hq); [|done|by apply Hlo].
  set (m1 := m.[qp + Z.of_nat n := q]).
  specialize (IH m1 r1 (wf_upd m _ _ Hm Hq) Hr1 Hlo).
  destruct (div_1_loop n dv lo m1 qp r1) as [r' m'].
  destruct IH as (W & Hr' & F & V); [intros; apply Hst; lia|].
  split; [done|]. split; [done|]. split.
  { intros x Hx. rewrite F by lia. apply upd_ne. lia. }
  rewrite (limb_sum_ext (lo m1) (lo m)) in V by (intros; apply Hst; lia).
  replace (Z.of_nat (S n)) with (Z.of_nat n + 1) by lia.
  rewrite limb_sum_last, mval_last, Z.pow_add_r, Z.pow_1_r by lia.
  rewrite (F (qp + Z.of_nat n)) by lia. unfold m1. rewrite upd_eq.
  replace (0 + Z.of_nat n) with (Z.of_nat n) by lia. nia.
Qed.

(** The loop over the limbs stored at [src]. *)
Lemma div_1_loop_mem n dv m qp src r d :
  divides_by dv d -> wf m -> 0 <= r < d -> decr_ok qp src (Z.of_nat n) ->
  let '(r', m') := div_1_loop n dv (fun m i => m (src + i)) m qp r in
  wf m' /\ 0 <= r' < d /\ frame m m' qp (Z.of_nat n) /\
  r * B ^ Z.of_nat n + mval m src (Z.of_nat n) = mval m' qp (Z.of_nat n) * d + r'.
Proof.
  intros Hdv Hm Hr D. unfold decr_ok in D.
  pose proof (div_1_loop_spec n dv (fun m i => m (src + i)) m qp r d Hdv Hm Hr) as S.
  destruct (div_1_loop _ _ _ _ _ _) as [r' m'].
  replace (mval m src (Z.of_nat n)) with (limb_sum (fun i => m (src + i)) 0 n).
  - apply S; [intros ? ? W; apply W|]. intros. apply upd_ne. lia.
  - rewrite limb_sum_shift. unfold mval. rewrite Nat2Z.id. f_equal. lia.
Qed.

Lemma divmod_1_plain_spec dv m qp src n d :
  divides_by dv d -> wf m -> 0 < n -> decr_ok qp src n ->
  let '(r, m') := divmod_1_plain dv m qp src n d in
  wf m' /\ 0 <= r < d /\ frame m m' qp n /\ mval m src n = mval m' qp n * d + r.
Proof.
  intros Hdv Hm Hn D. unfold divmod_1_plain. pose proof Hdv as (Hd & H0 & _).
  destruct (Z.leb_spec d (m (src + (n - 1)))) as [L|L].
  - pose proof (div_1_loop_mem (Z.to_nat n) dv m qp src 0 d Hdv Hm ltac:(lia)) as S.
    destruct (div_1_loop _ _ _ _ _ _) as [r' m']. rewrite Z2Nat.id in S by lia.
    destruct (S D) as (? & ? & ? & ?). split_and!; [done..|lia|lia|done|lia].
  - assert (L0 : limb 0) by (pose proof B_ge; unfold limb; lia).
    set (m1 := m.[qp + (n - 1) := 0]).
    pose proof (div_1_loop_mem (Z.to_nat (n - 1)) dv m1 qp src (m (src + (n - 1))) d
      Hdv (wf_upd m _ _ Hm L0)) as S.
    destruct (div_1_loop _ _ _ _ _ _) as [r' m']. rewrite Z2Nat.id in S by lia.
    unfold decr_ok in D. destruct S as (W & Hr & F & V);
      [pose proof (Hm (src + (n - 1))) as Hs; unfold limb in Hs; lia|unfold decr_ok; lia|].
    split; [done|]. split; [done|]. split.
    { intros x Hx. rewrite F by lia. apply upd_ne. lia. }
    rewrite (mval_ext m m1) in V by (intros; apply upd_ne; lia).
    replace n with (n - 1 + 1) at 1 2 by lia. rewrite !mval_last by lia.
    rewrite (F (qp + (n - 1))) by lia. unfold m1. rewrite upd_eq. lia.
Qed.

(** The shifted dividend: [r] and the low bits of [n1], then [n] more limbs,
    all shifted left by [s] bits. *)
Lemma divmod_1_shift_loop_spec n dv m qp src s n1 r d :
  divides_by dv d -> wf m -> 0 < s < W_TYPE_SIZE -> limb n1 -> 0 <= r < d ->
  decr_ok qp src (Z.of_nat n + 1) ->
  let '(r', n1', m') := divmod_1_shift_loop n dv m qp src s n1 r in
  wf m' /\ 0 <= r' < d /\ limb n1' /\ frame m m' (qp + 1) (Z.of_nat n) /\
  n1' = (if Nat.eqb n 0 then n1 else m src) /\
  r * B ^ (Z.of_nat n + 1) + uw (Z.shiftl n1 s) * B ^ Z.of_nat n
    + mval m src (Z.of_nat n) * 2 ^ s
  = (mval m' (qp + 1) (Z.of_nat n) * d + r') * B + uw (Z.shiftl n1' s).
Proof.
  intros Hdv. revert m n1 r.
  induction n as [|n IH]; intros m n1 r Hm Hs Hn1 Hr D; cbn [divmod_1_shift_loop].
  { rewrite !mval_0. change (Z.of_nat 0) with 0. rewrite Z.add_0_l, Z.pow_1_r.
    split_and!; [done..|lia|lia|done|apply frame_refl|done|lia]. }
  unfold decr_ok in D. set (n0 := m (src + Z.of_nat n)).
  rewrite (shift_join n1 n0 s (Hm _)) by lia.
  pose proof (shift_join_limb n1 n0 s (Hm _) Hs) as HL.
  destruct (dv r _) as [q r1] eqn:E.
  pose proof Hdv as (Hd & H0 & Hdv'). apply Hdv' in E as (E & Hr1 & Hq); [|done..].
  set (m1 := m.[qp + (Z.of_nat n + 1) := q]).
  specialize (IH m1 n0 r1 (wf_upd m _ _ Hm Hq) Hs (Hm _) Hr1).
  destruct (divmod_1_shift_loop n dv m1 qp src s n0 r1) as [[r' n1'] m'].
  destruct IH as (W & Hr' & Hn1' & F & En & V); [unfold decr_ok; lia|].
  split; [done|]. split; [done|]. split; [done|]. split.
  { intros x Hx. rewrite F by lia. apply upd_ne. lia. }
  split.
  { rewrite En. destruct n; simpl; [unfold n0; f_equal; lia|]. apply upd_ne. lia. }
  rewrite (mval_ext m m1) in V by (intros; apply upd_ne; lia).
  replace (Z.of_nat (S n)) with (Z.of_nat n + 1) by lia.
  rewrite !mval_last, (Z.pow_add_r B (Z.of_nat n + 1) 1), Z.pow_1_r by lia. fold n0.
  rewrite (F (qp + 1 + Z.of_nat n)) by lia.
  replace (qp + 1 + Z.of_nat n) with (qp + (Z.of_nat n + 1)) by lia.
  unfold m1. rewrite upd_eq. destruct (uw_shiftl n0 s) as [_ E0]; [lia|].
  rewrite Z.pow_add_r, Z.pow_1_r in * by lia.
  set (P := B ^ Z.of_nat n) in *. set (x1 := uw (Z.shiftl n1 s)) in *.
  set (x0 := Z.shiftr n0 _) in *. clearbody P x1 x0. nia.
Qed.

(** A remainder of the shifted division, shifted back. *)
Lemma unshift_remainder N Q d p r :
  0 < p -> N * p = Q * (d * p) + r -> 0 <= r < d * p ->
  N = Q * d + r / p /\ 0 <= r / p < d.
Proof.
  intros Hp E Hr. assert (D : r = (N - Q * d) * p) by lia.
  rewrite D, Z.div_mul by lia. split; [lia|]. rewrite D in Hr. nia.
Qed.

Lemma shifted_first_remainder n1 s d : limb n1 -> 0 < s < W_TYPE_SIZE -> B <= 2 * d ->
  0 <= Z.shiftr n1 (W_TYPE_SIZE - s) < d.
Proof.
  intros Hn Hs Hd. pose proof (shiftr_bound n1 s Hn ltac:(lia)).
  assert (2 ^ s <= 2 ^ (W_TYPE_SIZE - 1)) by (apply Z.pow_le_mono_r; lia).
  pose proof B_half. lia.
Qed.

Lemma divmod_1_shifted_spec dv m qp src n s d :
  divides_by dv (d * 2 ^ s) -> B <= 2 * (d * 2 ^ s) -> wf m -> 0 < n ->
  0 < s < W_TYPE_SIZE -> decr_ok qp src n ->
  let '(r, m') := divmod_1_shifted dv m qp src n s in
  wf m' /\ 0 <= r < d /\ frame m m' qp n /\ mval m src n = mval m' qp n * d + r.
Proof.
  intros Hdv Hnorm Hm Hn Hs D. unfold divmod_1_shifted.
  set (n1 := m (src + (n - 1))).
  pose proof (divmod_1_shift_loop_spec (Z.to_nat (n - 1)) dv m qp src s n1
    (Z.shiftr n1 (W_TYPE_SIZE - s)) _ Hdv Hm Hs (Hm _)
    (shifted_first_remainder n1 s _ (Hm _) Hs Hnorm)) as S.
  destruct (divmod_1_shift_loop _ _ _ _ _ _ _ _) as [[r1 n1'] m1].
  rewrite Z2Nat.id in S by lia. replace (n - 1 + 1) with n in S by lia.
  destruct (S D) as (W & Hr1 & Hn1 & F & _ & V). clear S.
  destruct (dv r1 _) as [q r2] eqn:E.
  destruct Hdv as (Hd & H0 & Hdv). apply Hdv in E as (E & Hr2 & Hq); [|done|apply uw_limb].
  destruct (uw_shiftl n1 s) as [_ E1]; [lia|].
  assert (EN : mval m src n * 2 ^ s = (q + B * mval m1 (qp + 1) (n - 1)) * (d * 2 ^ s) + r2).
  { replace n with (n - 1 + 1) in V at 1 by lia. rewrite Z.pow_add_r, Z.pow_1_r in V by lia.
    replace n with (n - 1 + 1) at 1 by lia. rewrite mval_last by lia. fold n1. nia. }
  destruct (unshift_remainder _ _ _ _ _ ltac:(apply (pow2_pos s); lia) EN Hr2) as [EQ HR].
  rewrite Z.shiftr_div_pow2 by lia. split; [by apply wf_upd|]. split; [done|]. split.
  { intros x Hx. rewrite upd_ne by lia. apply F. lia. }
  rewrite EQ. do 2 f_equal. replace n with (n - 1 + 1) at 2 by lia.
  rewrite mval_succ, upd_eq by lia. do 2 f_equal. apply mval_ext.
  intros x Hx. by rewrite upd_ne by lia.
Qed.

Lemma mod_1_loop_spec n dv m src r d :
  divides_by dv d -> wf m -> 0 <= r < d ->
  exists q, r * B ^ Z.of_nat n + mval m src (Z.of_nat n) = q * d + mod_1_loop n dv m src r /\
    0 <= mod_1_loop n dv m src r < d.
Proof.
  intros Hdv Hm. revert r. induction n as [|n IH]; intros r Hr; cbn [mod_1_loop].
  { exists 0. rewrite mval_0. simpl. lia. }
  pose proof Hdv as (Hd & H0 & Hdv'). destruct (dv r _) as [q r1] eqn:E.
  apply Hdv' in E as (E & Hr1 & Hq); [|done|apply Hm]. destruct (IH r1 Hr1) as (Q & EQ & HQ).
  exists (q * B ^ Z.of_nat n + Q). split; [|done].
  replace (Z.of_nat (S n)) with (Z.of_nat n + 1) by lia.
  rewrite mval_last, Z.pow_add_r, Z.pow_1_r by lia. nia.
Qed.

Lemma mod_1_plain_spec dv m src n d :
  divides_by dv d -> wf m -> 0 < n -> mod_1_plain dv m src n d = mval m src n mod d.
Proof.
  intros Hdv Hm Hn. unfold mod_1_plain. pose proof Hdv as (Hd & H0 & _).
  destruct (Z.leb_spec d (m (src + (n - 1)))) as [L|L].
  - destruct (mod_1_loop_spec (Z.to_nat n) dv m src 0 d Hdv Hm) as (q & E & Hr); [lia|].
    rewrite Z2Nat.id in E by lia. eapply Z.mod_unique_pos; [exact Hr|]. rewrite Z.mul_comm, <- E. lia.
  - destruct (mod_1_loop_spec (Z.to_nat (n - 1)) dv m src (m (src + (n - 1))) d Hdv Hm) as (q & E & Hr).
    { pose proof (Hm (src + (n - 1))) as Hs. unfold limb in Hs. lia. }
    rewrite Z2Nat.id in E by lia. eapply Z.mod_unique_pos; [exact Hr|]. rewrite (Z.mul_comm d), <- E.
    replace n with (n - 1 + 1) at 1 by lia. rewrite mval_last by lia. lia.
Qed.

Lemma mod_1_shift_loop_spec n dv m src s n1 r d :
  divides_by dv d -> wf m -> 0 < s < W_TYPE_SIZE -> limb n1 -> 0 <= r < d ->
  let '(r', n1') := mod_1_shift_loop n dv m src s n1 r in
  0 <= r' < d /\ limb n1' /\
  exists q, r * B ^ (Z.of_nat n + 1) + uw (Z.shiftl n1 s) * B ^ Z.of_nat n
    + mval m src (Z.of_nat n) * 2 ^ s = (q * d + r') * B + uw (Z.shiftl n1' s).
Proof.
  intros Hdv Hm Hs. revert n1 r.
  induction n as [|n IH]; intros n1 r Hn1 Hr; cbn [mod_1_shift_loop].
  { rewrite mval_0. change (Z.of_nat 0) with 0. rewrite Z.add_0_l, Z.pow_1_r.
    split; [done|]. split; [done|]. exists 0. lia. }
  set (n0 := m (src + Z.of_nat n)). rewrite (shift_join n1 n0 s (Hm _)) by lia.
  pose proof (shift_join_limb n1 n0 s (Hm _) Hs) as HL. destruct (dv r _) as [q r1] eqn:E.
  pose proof Hdv as (Hd & H0 & Hdv'). apply Hdv' in E as (E & Hr1 & Hq); [|done..].
  specialize (IH n0 r1 (Hm _) Hr1). destruct (mod_1_shift_loop _ _ _ _ _ _ _) as [r' n1'].
  destruct IH as (Hr' & Hn1' & Q & V). split; [done|]. split; [done|].
  exists (q * B ^ Z.of_nat n + Q). destruct (uw_shiftl n0 s) as [_ E0]; [lia|].
  replace (Z.of_nat (S n)) with (Z.of_nat n + 1) by lia. fold n0.
  rewrite mval_last, !Z.pow_add_r, Z.pow_1_r in * by lia. fold n0.
  set (P := B ^ Z.of_nat n) in *. set (x1 := uw (Z.shiftl n1 s)) in *.
  set (x0 := Z.shiftr n0 _) in *. clearbody P x1 x0. nia.
Qed.

Lemma mod_1_shifted_spec dv m src n s d :
  divides_by dv (d * 2 ^ s) -> B <= 2 * (d * 2 ^ s) -> wf m -> 0 < n ->
  0 < s < W_TYPE_SIZE -> mod_1_shifted dv m src n s = mval m src n mod d.
Proof.
  intros Hdv Hnorm Hm Hn Hs. unfold mod_1_shifted. set (n1 := m (src + (n - 1))).
  pose proof (mod_1_shift_loop_spec (Z.to_nat (n - 1)) dv m src s n1
    (Z.shiftr n1 (W_TYPE_SIZE - s)) _ Hdv Hm Hs (Hm _)
    (shifted_first_remainder n1 s _ (Hm _) Hs Hnorm)) as S.
  destruct (mod_1_shift_loop _ _ _ _ _ _ _) as [r1 n1'].
  rewrite Z2Nat.id in S by lia. replace (n - 1 + 1) with n in S by lia.
  destruct S as (Hr1 & Hn1 & Q & V). destruct (dv r1 _) as [q r2] eqn:E.
  destruct Hdv as (Hd & H0 & Hdv). apply Hdv in E as (E & Hr2 & Hq); [|done|apply uw_limb].
  destruct (uw_shiftl n1 s) as [_ E1]; [lia|].
  assert (EN : mval m src n * 2 ^ s = (q + B * Q) * (d * 2 ^ s) + r2).
  { replace n with (n - 1 + 1) in V at 1 by lia. rewrite Z.pow_add_r, Z.pow_1_r in V by lia.
    replace n with (n - 1 + 1) at 1 by lia. rewrite mval_last by lia. fold n1. nia. }
  destruct (unshift_remainder _ _ _ _ _ ltac:(apply (pow2_pos s); lia) EN Hr2) as [EQ HR].
  rewrite Z.shiftr_div_pow2 by lia. eapply Z.mod_unique_pos; [exact HR|].
  rewrite EQ at 1. rewrite (Z.mul_comm d). reflexivity.
Qed.

(** Shifting by the number of leading zeros normalizes the divisor. *)
Lemma clz_normalizes d : 0 < d < B ->
  let s := count_leading_zeros d in
  0 <= s < W_TYPE_SIZE /\ normalized (d * 2 ^ s) /\ uw (Z.shiftl d s) = d * 2 ^ s.
Proof.
  intros Hd. cbv zeta. rewrite count_leading_zeros_spec by done.
  pose proof (Z.log2_spec d ltac:(lia)) as [L1 L2]. pose proof (Z.log2_nonneg d) as L0.
  assert (Hlog : Z.log2 d < W_TYPE_SIZE).
  { apply Z.log2_lt_pow2; [lia|]. unfold B in Hd. lia. }
  set (l := Z.log2 d) in *. set (s := W_TYPE_SIZE - 1 - l).
  assert (P : 0 < 2 ^ s) by (apply pow2_pos; lia).
  assert (EB : B = 2 ^ Z.succ l * 2 ^ s)
    by (unfold B; rewrite <- Z.pow_add_r by lia; f_equal; lia).
  rewrite Z.pow_succ_r in EB, L2 by done.
  assert (HN : normalized (d * 2 ^ s)) by (split; [split|]; nia).
  split; [lia|]. split; [done|]. rewrite Z.shiftl_mul_pow2 by lia. apply uw_small, HN.
Qed.

(** The strategy chosen does not matter: [dv] divides by the divisor, shifted
    when that is needed. *)
Lemma divmod_1_strategies (P : Z * mem -> Prop) m qp src n d :
  wf m -> 0 < n -> 0 < d < B -> decr_ok qp src n ->
  (forall r m', wf m' -> 0 <= r < d -> frame m m' qp n ->
     mval m src n = mval m' qp n * d + r -> P (r, m')) ->
  P (mpn_divmod_1 m qp src n d).
Proof.
  intros Hm Hn Hd D K. unfold mpn_divmod_1. destruct (Z.eqb_spec n 0); [lia|].
  destruct (clz_normalizes d Hd) as (Hs & HN & Eu). cbv zeta in *.
  set (s := count_leading_zeros d) in *.
  assert (Plain : forall dv, divides_by dv d -> P (divmod_1_plain dv m qp src n d)).
  { intros dv Hdv. pose proof (divmod_1_plain_spec dv m qp src n d Hdv Hm Hn D) as S.
    destruct (divmod_1_plain _ _ _ _ _ _) as [r m']. destruct S as (? & ? & ? & ?). by apply K. }
  assert (Shifted : forall dv, s <> 0 -> divides_by dv (d * 2 ^ s) ->
    P (divmod_1_shifted dv m qp src n s)).
  { intros dv Hs0 Hdv.
    pose proof (divmod_1_shifted_spec dv m qp src n s d Hdv (proj2 HN) Hm Hn ltac:(lia) D) as S.
    destruct (divmod_1_shifted _ _ _ _ _ _) as [r m']. destruct S as (? & ? & ? & ?). by apply K. }
  rewrite !Eu. destruct (preinv_pays n).
  - destruct (Z.eqb_spec s 0) as [E0|N0]; simpl negb; cbv iota.
    + apply Plain, preinv_divides. rewrite E0, Z.mul_1_r in HN. done.
    + apply Shifted; [done|]. by apply preinv_divides.
  - destruct UDIV_NEEDS_NORMALIZATION eqn:EU.
    + rewrite ?Eu. destruct (Z.eqb_spec s 0) as [E0|N0]; simpl negb; cbv iota.
      * apply Plain, udiv_divides; [unfold limb; lia|lia|]. rewrite E0, Z.mul_1_r in HN. done.
      * apply Shifted; [done|]. pose proof HN as [HL HB]. pose proof B_ge.
        apply udiv_divides; [done|lia|done].
    + simpl. apply Plain, udiv_divides; [unfold limb; lia|lia|congruence].
Qed.

Lemma mpn_mod_1_spec m src n d :
  wf m -> 0 < n -> 0 < d < B -> mpn_mod_1 m src n d = mval m src n mod d.
Proof.
  intros Hm Hn Hd. unfold mpn_mod_1. destruct (Z.eqb_spec n 0); [lia|].
  destruct (clz_normalizes d Hd) as (Hs & HN & Eu). cbv zeta in *.
  set (s := count_leading_zeros d) in *. rewrite !Eu. pose proof HN as [HL HB]. pose proof B_ge.
  destruct (preinv_pays n); [|destruct UDIV_NEEDS_NORMALIZATION eqn:EU].
  - destruct (Z.eqb_spec s 0) as [E0|N0]; simpl negb; cbv iota.
    + apply mod_1_plain_spec; [|done..]. apply preinv_divides.
      rewrite E0, Z.mul_1_r in HN. done.
    + apply mod_1_shifted_spec; [by apply preinv_divides|done..|lia].
  - rewrite ?Eu. destruct (Z.eqb_spec s 0) as [E0|N0]; simpl negb; cbv iota.
    + apply mod_1_plain_spec; [|done..]. apply udiv_divides; [unfold limb; lia|lia|].
      rewrite E0, Z.mul_1_r in HN. done.
    + apply mod_1_shifted_spec; [|done..|lia]. apply udiv_divides; [done|lia|done].
  - simpl. apply mod_1_plain_spec; [|done..]. apply udiv_divides; [unfold limb; lia|lia|congruence].
Qed.

(** ** Quotient estimation *)

(** [n1:n0 > r:n2] as the code tests it. *)
Lemma two_limb_gt n1 n0 r n2 : limb n1 -> limb n0 -> limb r -> limb n2 ->
  (r <? n1) || ((n1 =? r) && (n2 <? n0)) = (r * B + n2 <? n1 * B + n0).
Proof.
  unfold limb. intros H1 H2 H3 H4.
  destruct (Z.ltb_spec (r * B + n2) (n1 * B + n0)), (Z.ltb_spec r n1), (Z.eqb_spec n1 r),
    (Z.ltb_spec n2 n0); simpl; try done; subst; nia.
Qed.

(** What the loops below maintain: [q] is an upper estimate of the quotient
    of [top:x] by [dX:d1], [r] the remainder of [top] by [dX]. *)
Definition estimate (top x dX d1 q r : Z) : Prop :=
  limb q /\ 0 <= r /\ top = q * dX + r /\ top * B + x < (q + 1) * (dX * B + d1).

Lemma estimate_initial top x dX d1 q r :
  limb q -> 0 <= r < dX -> limb x -> limb d1 -> top = q * dX + r ->
  estimate top x dX d1 q r.
Proof.
  unfold limb. intros Hq Hr Hx Hd E. split; [done|]. split; [lia|]. split; [done|].
  assert (0 <= q * d1) by (apply Z.mul_nonneg_nonneg; lia). nia.
Qed.

(** While the estimate is too large it can be lowered. *)
Lemma estimate_lower top x dX d1 q r :
  limb x -> limb d1 -> 0 < dX -> 0 <= top ->
  estimate top x dX d1 q r -> r * B + x < d1 * q ->
  0 < q /\ estimate top x dX d1 (q - 1) (r + dX).
Proof.
  unfold limb. intros Hx Hd HdX Ht (Hq & Hr & E & L) G. unfold limb in Hq.
  assert (0 < q) by nia. split; [done|]. split; [unfold limb; lia|].
  split; [lia|]. split; [lia|]. replace (q - 1 + 1) with q by lia. nia.
Qed.

(** A remainder that left the word makes the estimate exact. *)
Lemma estimate_exact top x dX d1 q r :
  limb x -> limb d1 -> estimate top x dX d1 q r -> (d1 * q <= r * B + x \/ B <= r) ->
  q * (dX * B + d1) <= top * B + x < (q + 1) * (dX * B + d1).
Proof.
  unfold limb. intros Hx Hd (Hq & Hr & E & L) G. unfold limb in Hq. split; [|done].
  destruct G as [G|G]; [nia|].
  assert (d1 * q <= B * B) by (apply Z.mul_le_mono_nonneg; lia). nia.
Qed.

Lemma divrem_adjust_spec fuel top x dX d1 q r n1 n0 :
  normalized dX -> limb d1 -> limb x -> 0 <= top -> limb n1 -> limb n0 ->
  estimate top x dX d1 q r -> r < B -> n1 * B + n0 = d1 * q ->
  B <= r + Z.of_nat fuel * dX ->
  let q' := divrem_adjust fuel q r n1 n0 x dX d1 in
  limb q' /\ q' * (dX * B + d1) <= top * B + x < (q' + 1) * (dX * B + d1).
Proof.
  intros [HX HN] Hd Hx Ht. unfold limb in HX.
  assert (HX0 : 0 < dX) by (pose proof B_ge; lia).
  revert q r n1 n0. induction fuel as [|fuel IH]; intros q r n1 n0 Hn1 Hn0 HE Hr EP Hf; [lia|].
  cbn [divrem_adjust]. pose proof HE as (Hq & Hr0 & Et & _). unfold limb in Hq.
  rewrite two_limb_gt by (done || unfold limb; lia). rewrite EP.
  destruct (Z.ltb_spec (r * B + x) (d1 * q)) as [L|L].
  2:{ split; [done|]. eapply estimate_exact; eauto. }
  destruct (estimate_lower _ _ _ _ _ _ Hx Hd HX0 Ht HE L) as [Q0 HE'].
  rewrite (uw_small (q - 1)) by (unfold limb; lia).
  destruct (Z.lt_ge_cases (r + dX) B) as [C|C].
  - rewrite (uw_small (r + dX)) by (unfold limb; lia).
    destruct (Z.ltb_spec (r + dX) dX); [lia|].
    pose proof (sub_borrow n0 d1 Hn0 Hd) as SB. pose proof (uw_limb (n0 - d1)) as U0.
    assert (EC : b2z (n0 <? d1) = b2z (n0 <? uw (n0 - d1))).
    { unfold limb in *. bool_cases; simpl; try done; simpl in SB; lia. }
    rewrite EC. set (c := b2z (n0 <? uw (n0 - d1))) in *.
    assert (HP : 0 <= d1 * (q - 1)) by (unfold limb in Hd; apply Z.mul_nonneg_nonneg; lia).
    assert (Hc : limb (n1 - c)).
    { pose proof (b2z_bounds (n0 <? uw (n0 - d1))) as Bc. fold c in Bc. unfold limb in *.
      split; [|lia]. apply Z.lt_succ_r. apply (Z.mul_lt_mono_pos_r B); nia. }
    rewrite (uw_small (n1 - c)) by done.
    apply IH; [done..|lia| |lia]. nia.
  - rewrite (uw_unique (r + dX) (r + dX - B) 1) by (unfold limb; lia).
    destruct (Z.ltb_spec (r + dX - B) dX); [|lia].
    split; [unfold limb; lia|]. eapply estimate_exact; eauto.
Qed.

(** The quotient of the leading limbs is the quotient or one too large
    (Knuth, 4.3.1). *)
Lemma knuth_estimate X D P top3 d3 lowX lowD b q :
  X = top3 * P + lowX -> D = d3 * P + lowD -> 0 <= lowX < P -> 0 <= lowD < P ->
  0 < P -> 0 <= q < b -> b <= d3 ->
  q * d3 <= top3 < (q + 1) * d3 -> (q - 1) * D <= X < (q + 1) * D.
Proof. intros -> -> HX HD HP Hq Hb [L1 L2]. split; nia. Qed.

(** The estimate [B - 1] when the leading limbs are equal. *)
Lemma equal_tops_estimate X D P b dX lowX lowD :
  X = dX * b * P + lowX -> D = dX * P + lowD -> 0 <= lowX < b * P -> 0 <= lowD < P ->
  0 < P -> 0 < b -> b <= 2 * dX -> X < D * b -> (b - 1 - 1) * D <= X < (b - 1 + 1) * D.
Proof. intros -> -> HX HD HP Hb Hn HXD. split; nia. Qed.

(** The top two limbs of a number. *)
Lemma mval_top2 m p n : 2 <= n ->
  mval m p n = (m (p + (n - 1)) * B + m (p + (n - 2))) * B ^ (n - 2) + mval m p (n - 2).
Proof.
  intros Hn. replace n with (n - 2 + 1 + 1) at 1 by lia. rewrite !mval_last by lia.
  replace (n - 2 + 1) with (n - 1) by lia. replace (n - 1) with (1 + (n - 2)) at 1 by lia.
  rewrite Z.pow_add_r, Z.pow_1_r by lia. ring.
Qed.

(** Multiply, subtract and correct: the estimate may be one too large. *)
Lemma submul_correct m p dp n n2 q qf mf X D :
  wf m -> 0 < n -> limb q -> disjoint_ranges p n dp n -> D = mval m dp n ->
  X = n2 * B ^ n + mval m p n -> 0 <= X -> (q - 1) * D <= X < (q + 1) * D ->
  (let '(cy_limb, m) := mpn_submul_1 m p dp n q in
   if negb (n2 =? cy_limb) then
     let '(_, m) := mpn_add_n m p p dp n in (uw (q - 1), m)
   else (q, m)) = (qf, mf) ->
  wf mf /\ limb qf /\ frame m mf p n /\ X = qf * D + mval mf p n /\ mval mf p n < D.
Proof.
  intros Hm Hn Hq D0 ED EX HX [L1 L2]. unfold disjoint_ranges in D0.
  destruct (mpn_submul_1_spec m p dp n q) as (cy & m1 & -> & W1 & Hc & F1 & V1);
    [done..|unfold incr_ok; lia|].
  pose proof (mval_bound m1 p n W1 ltac:(lia)) as B1.
  pose proof (mval_bound m dp n Hm ltac:(lia)) as BD. rewrite <- ED in BD, V1.
  set (P := B ^ n) in *. assert (EX' : X - q * D = (n2 - cy) * P + mval m1 p n) by lia.
  destruct (Z.le_gt_cases (q * D) X) as [L|L].
  - assert (n2 = cy) as -> by nia. rewrite Z.eqb_refl. intros [= <- <-].
    split_and!; [done..|lia|lia].
  - assert (n2 = cy - 1) as -> by nia.
    destruct (Z.eqb_spec (cy - 1) cy); [lia|]. simpl negb. cbv iota.
    destruct (mpn_add_n_spec m1 p p dp n) as (c & m2 & -> & W2 & Hc2 & F2 & V2);
      [done..|unfold incr_ok; lia|unfold incr_ok; lia|]. intros [= <- <-].
    pose proof (mval_bound m2 p n W2 ltac:(lia)) as B2. fold P in V2, B2.
    revert V2. frame_val F1. rewrite <- ED. intros V2.
    assert (c = 1) as -> by nia.
    assert (0 < q) by nia. unfold limb in Hq. rewrite uw_small by (unfold limb; lia).
    split; [done|]. split; [unfold limb; lia|]. split; [|lia].
    intros x Hx. by rewrite F2, F1.
Qed.

Lemma divrem_n_limb_spec m p dp n n2 qf mf :
  wf m -> 2 <= n -> disjoint_ranges p n dp n -> limb n2 ->
  normalized (m (dp + (n - 1))) ->
  n2 * B ^ n + mval m p n < mval m dp n * B ->
  divrem_n_limb m p dp n n2 n2 (m (dp + (n - 1))) (m (dp + (n - 2))) = (qf, mf) ->
  wf mf /\ limb qf /\ frame m mf p n /\
  n2 * B ^ n + mval m p n = qf * mval m dp n + mval mf p n /\ mval mf p n < mval m dp n.
Proof.
  intros Hm Hn D0 Hn2 HN HX. unfold divrem_n_limb.
  set (dX := m (dp + (n - 1))) in *. set (d1 := m (dp + (n - 2))).
  pose proof HN as [HdX HN']. pose proof B_ge as HB.
  pose proof (mval_top2 m dp n Hn) as ED. fold dX d1 in ED.
  pose proof (mval_top2 m p n Hn) as EP. set (np1 := m (p + (n - 1))) in *.
  set (np2 := m (p + (n - 2))) in *. set (P := B ^ (n - 2)) in *.
  assert (EPn : B ^ n = B * B * P).
  { replace n with (2 + (n - 2)) at 1 by lia. rewrite Z.pow_add_r by lia. subst P. ring. }
  pose proof (Hm (p + (n - 1))) as H1. pose proof (Hm (p + (n - 2))) as H2.
  pose proof (Hm (dp + (n - 2))) as H3. fold np1 in H1. fold np2 in H2. fold d1 in H3.
  pose proof (Bpow_pos (n - 2) ltac:(lia)) as HP. fold P in HP.
  pose proof (mval_bound m p (n - 2) Hm ltac:(lia)) as BX. fold P in BX.
  pose proof (mval_bound m dp (n - 2) Hm ltac:(lia)) as BD. fold P in BD.
  match goal with |- (let '(_, _) := mpn_submul_1 m p dp n ?q in _) = _ -> _ => set (q0 := q) end.
  assert (Est : limb q0 /\ (q0 - 1) * mval m dp n <= n2 * B ^ n + mval m p n
    < (q0 + 1) * mval m dp n).
  { subst q0. unfold limb in *. destruct (Z.eqb_spec n2 dX) as [->|N].
    - split; [unfold limb; lia|].
      apply (equal_tops_estimate _ _ (B * P) B dX (mval m p n) (d1 * P + mval m dp (n - 2)));
        rewrite ?EPn, ?ED, ?EP in *; nia.
    - assert (L : n2 < dX).
      { assert (mval m dp n < (dX + 1) * (B * P)) by nia. nia. }
      destruct (udiv_qrnnd n2 np1 dX) as [q r] eqn:E1.
      apply udiv_qrnnd_spec in E1 as (E1 & Hr & Hq); [|done|done|unfold limb; lia|done].
      destruct (umul_ppmm d1 q) as [h l] eqn:E2.
      apply umul_ppmm_spec in E2 as (Hh & Hl & E2); [|done..].
      destruct (divrem_adjust_spec 3 (n2 * B + np1) np2 dX d1 q r h l) as [Q1 Q2];
        [done|done|done|lia|done|done|by apply estimate_initial|lia|done|lia|].
      split; [done|]. unfold limb in Q1.
      eapply (knuth_estimate _ _ P _ _ (mval m p (n - 2)) (mval m dp (n - 2)) B); [| |done..| |exact Q2].
      + rewrite EPn, EP. ring.
      + exact ED.
      + nia. }
  destruct Est as [Hq0 Est]. intros E.
  eapply (submul_correct m p dp n n2 q0) in E; [exact E|done|lia|done..| |exact Est].
  pose proof (mval_bound m p n Hm ltac:(lia)). pose proof (Bpow_pos n ltac:(lia)).
  unfold limb in Hn2. apply Z.add_nonneg_nonneg; [apply Z.mul_nonneg_nonneg|]; lia.
Qed.

(** ** The general case *)

(** Only the quotient and the partial remainder may change. *)
Definition frame_q (m m' : mem) (qp qn np nn : Z) : Prop :=
  forall x, x < qp \/ qp + qn <= x -> x < np \/ np + nn <= x -> m' x = m x.

(** Where the quotient may lie: below the numerator, or above the remainder
    (and above the extra limb the fraction steps use). *)
Definition quot_ok (qp qn np dsize qx : Z) : Prop :=
  qp + qn <= np \/ np + dsize + Z.min 1 qx <= qp.

(** Bringing down one limb (or a zero) and dividing. *)
Lemma divrem_bring_down m np dp ds qx (i : Z) k m1 p1 n2 qf mf :
  wf m -> 2 <= ds -> 0 <= qx -> 0 <= i -> k = Z.max 0 (i + 1 - qx) ->
  disjoint_ranges dp ds np (ds + Z.max k (Z.min 1 qx)) ->
  normalized (m (dp + (ds - 1))) -> mval m (np + k) ds < mval m dp ds ->
  (if qx <=? i then (m, np + k - 1, m (np + k - 1 + ds))
   else ((MPN_COPY_DECR m (np + k + 1) (np + k) ds).[np + k := 0], np + k, m (np + k + (ds - 1))))
   = (m1, p1, n2) ->
  divrem_n_limb m1 p1 dp ds (m (np + k + (ds - 1))) n2 (m (dp + (ds - 1))) (m (dp + (ds - 2)))
   = (qf, mf) ->
  wf mf /\ limb qf /\ p1 = np + Z.max 0 (i - qx) /\
  frame m mf np (ds + Z.max (k - 1) (Z.min 1 qx)) /\ mval mf p1 ds < mval m dp ds /\
  mval m np (k + ds) * B ^ Z.min (i + 1) qx
  = qf * mval m dp ds * B ^ i + mval mf np (Z.max 0 (i - qx) + ds) * B ^ Z.min i qx.
Proof.
  intros Hm Hds Hqx Hi Hk D0 HN HR EB E. unfold disjoint_ranges in D0.
  pose proof (mval_bound m (np + k) ds Hm ltac:(lia)) as BR.
  destruct (Z.leb_spec qx i) as [L|L]; injection EB as <- <- <-.
  - replace (np + k + (ds - 1)) with (np + k - 1 + ds) in E by lia.
    apply divrem_n_limb_spec in E as (W & Hq & F & V & LV);
      [|done|lia|unfold disjoint_ranges; lia|apply Hm|done|].
    2:{ assert (ET : m (np + k - 1 + ds) * B ^ ds + mval m (np + k - 1) ds
          = m (np + k - 1) + B * mval m (np + k) ds).
        { pose proof (mval_last m (np + k - 1) ds ltac:(lia)) as T1.
          rewrite mval_succ in T1 by lia. replace (np + k - 1 + 1) with (np + k) in T1 by lia. lia. }
        rewrite ET. pose proof (Hm (np + k - 1)) as H1. unfold limb in H1. nia. }
    split; [done|]. split; [done|]. split; [lia|]. split.
    { intros x Hx. apply F. lia. }
    split; [done|]. replace (Z.max 0 (i - qx)) with (k - 1) by lia.
    replace (Z.min (i + 1) qx) with qx by lia. replace (Z.min i qx) with qx by lia.
    replace i with (k - 1 + qx) by lia. rewrite Z.pow_add_r by lia.
    replace (k + ds) with (k - 1 + (ds + 1)) by lia.
    rewrite (mval_app m np (k - 1) (ds + 1)), (mval_app mf np (k - 1) ds), mval_last by lia.
    replace (np + (k - 1)) with (np + k - 1) by lia. frame_val F. nia.
  - assert (k = 0) as -> by lia. rewrite Z.add_0_r in *.
    destruct (MPN_COPY_DECR_spec m (np + 1) np ds) as (WC & FC & VC);
      [done|lia|unfold decr_ok; lia|]. set (mc := MPN_COPY_DECR m (np + 1) np ds) in *.
    assert (W1 : wf mc.[np := 0]) by (apply wf_upd; [done|pose proof B_ge; unfold limb; lia]).
    assert (F1 : frame m mc.[np := 0] np (ds + 1))
      by (intros x Hx; rewrite upd_ne by lia; apply FC; lia).
    set (m1 := mc.[np := 0]) in *.
    assert (V1 : mval m1 np (ds + 1) = B * mval m np ds).
    { rewrite mval_succ by lia. unfold m1 at 1. rewrite upd_eq, Z.add_0_l. f_equal.
      apply mval_copy. intros j Hj. unfold m1. rewrite upd_ne by lia. apply VC. lia. }
    assert (T1 : m1 (np + ds) = m (np + (ds - 1))).
    { unfold m1. rewrite upd_ne by lia. replace (np + ds) with (np + 1 + (ds - 1)) by lia. apply VC. lia. }
    assert (KD : forall a l, disjoint_ranges a l np (ds + 1) -> mval m1 a l = mval m a l)
      by (intros; by eapply mval_frame).
    rewrite mval_last in V1 by lia. rewrite T1 in V1.
    rewrite <- (F1 (dp + (ds - 1))), <- (F1 (dp + (ds - 2))) in E by lia.
    apply divrem_n_limb_spec in E as (W & Hq & F & V & LV);
      [|done|lia|unfold disjoint_ranges; lia|apply Hm| |].
    + revert V LV. rewrite !(KD dp) by (unfold disjoint_ranges; lia). intros V LV.
      split; [done|]. split; [done|]. split; [lia|]. split.
      { intros x Hx. rewrite F, F1 by lia. done. }
      split; [done|]. replace (Z.max 0 (i - qx)) with 0 by lia.
      replace (Z.min (i + 1) qx) with (i + 1) by lia. replace (Z.min i qx) with i by lia.
      rewrite Z.add_0_l, Z.pow_add_r, Z.pow_1_r by lia. nia.
    + rewrite (F1 (dp + (ds - 1))) by lia. done.
    + rewrite (KD dp ds) by (unfold disjoint_ranges; lia).
      assert (B * mval m np ds < B * mval m dp ds)
        by (apply Z.mul_lt_mono_pos_l; [pose proof B_ge; lia|done]). lia.
Qed.

(** The address arithmetic of one iteration: [i] quotient limbs remain. *)
Lemma divrem_layout qp qx np dp ds i k :
  2 <= ds -> 0 <= qx -> 0 <= i -> k = Z.max 0 (i + 1 - qx) ->
  quot_ok qp (i + 1) np ds qx -> disjoint_ranges dp ds np (ds + Z.max k (Z.min 1 qx)) ->
  disjoint_ranges dp ds qp (i + 1) ->
  let k' := Z.max 0 (i - qx) in
  let e := ds + Z.max (k - 1) (Z.min 1 qx) in
  let e' := ds + Z.max k' (Z.min 1 qx) in
  quot_ok qp i np ds qx /\ disjoint_ranges dp ds np e' /\ disjoint_ranges dp ds qp i /\
  disjoint_ranges dp ds np e /\ disjoint_ranges dp ds (qp + i) 1 /\
  (qp + i < np \/ np + e' <= qp + i) /\ 0 <= k' /\ k' + ds <= e' /\ e' <= e /\
  e <= ds + Z.max k (Z.min 1 qx).
Proof. unfold quot_ok, disjoint_ranges. intros. subst k. lia. Qed.

Lemma divrem_n_loop_spec n m qp qx np dp ds k :
  wf m -> 2 <= ds -> 0 <= qx -> k = Z.max 0 (Z.of_nat n - qx) ->
  quot_ok qp (Z.of_nat n) np ds qx ->
  disjoint_ranges dp ds np (ds + Z.max k (Z.min 1 qx)) ->
  disjoint_ranges dp ds qp (Z.of_nat n) ->
  normalized (m (dp + (ds - 1))) -> mval m (np + k) ds < mval m dp ds ->
  let m' := divrem_n_loop n m qp qx (np + k) dp ds (m (np + k + (ds - 1)))
    (m (dp + (ds - 1))) (m (dp + (ds - 2))) in
  wf m' /\ frame_q m m' qp (Z.of_nat n) np (ds + Z.max k (Z.min 1 qx)) /\
  mval m np (k + ds) * B ^ Z.min (Z.of_nat n) qx
  = mval m' qp (Z.of_nat n) * mval m dp ds + mval m' np ds /\
  mval m' np ds < mval m dp ds.
Proof.
  revert m k. induction n as [|i IH]; intros m k Hm Hds Hqx Ek QO D1 D2 HN HR.
  { change (Z.of_nat 0) with 0 in *. assert (k = 0) as -> by lia. rewrite Z.add_0_r in HR |- *.
    cbn [divrem_n_loop]. split; [done|]. split; [by intros x _ _|].
    rewrite mval_0. replace (Z.min _ _) with 0 by lia. rewrite Z.add_0_l. split; [lia|done]. }
  replace (Z.of_nat (S i)) with (Z.of_nat i + 1) in * by lia.
  cbn [divrem_n_loop].
  match goal with |- context [let '(_, _) := ?e in _] =>
    match e with (if _ then _ else _) => destruct e as [[m1 p1] n2] eqn:EB end end.
  destruct (divrem_n_limb _ _ _ _ _ _ _ _) as [q mf] eqn:EL.
  destruct (divrem_bring_down m np dp ds qx (Z.of_nat i) k m1 p1 n2 q mf)
    as (Wf & Hq & -> & F & LV & V); [done|done|done|lia|done..|]. clear EB EL HR.
  destruct (divrem_layout qp qx np dp ds (Z.of_nat i) k Hds Hqx (Zle_0_nat i) Ek QO D1 D2)
    as (QO' & D1' & D2' & D3 & D4 & D5 & K1 & K2 & K3 & K4). clear Ek QO D1 D2.
  set (k' := Z.max 0 (Z.of_nat i - qx)) in *. pose proof (eq_refl : k' = Z.max 0 (Z.of_nat i - qx)) as Ek'.
  set (e := ds + Z.max (k - 1) _) in *. set (e' := ds + Z.max k' _) in *.
  set (e0 := ds + Z.max k _) in *. clearbody e e0.
  set (m2 := mf.[qp + Z.of_nat i := q]).
  assert (F2 : frame mf m2 (qp + Z.of_nat i) 1) by apply frame_upd.
  assert (C2 : forall x, x < np \/ np + e <= x -> x <> qp + Z.of_nat i -> m2 x = m x).
  { clear - F F2. intros x Hx Hy. rewrite F2, F by lia. done. }
  assert (C3 : forall a l, np <= a -> a + l <= np + (k' + ds) -> mval m2 a l = mval mf a l).
  { clear - F2 D5 K2. clearbody e' k'. intros a l Ha Hb. apply (mval_frame _ _ _ _ _ _ F2).
    unfold disjoint_ranges. lia. }
  assert (CD : mval m2 dp ds = mval m dp ds /\ m2 (dp + (ds - 1)) = m (dp + (ds - 1)) /\
    m2 (dp + (ds - 2)) = m (dp + (ds - 2))).
  { clear - C2 D3 D4 Hds. unfold disjoint_ranges in *.
    split; [apply mval_ext; intros|split]; apply C2; lia. }
  destruct CD as (CD1 & CD2 & CD3).
  specialize (IH m2 k' (wf_upd _ _ _ Wf Hq) Hds Hqx Ek' QO' D1' D2').
  rewrite CD1, CD2, CD3 in IH. specialize (IH HN).
  rewrite C3 in IH by (clear - K1; clearbody k'; lia). specialize (IH LV). cbv zeta in IH.
  fold e' in IH.
  set (m' := divrem_n_loop i m2 _ _ _ _ _ _ _ _) in *. clearbody m'.
  destruct IH as (W' & F' & V' & L'). clear HN LV Wf. clearbody k' e'.
  rewrite C3 in V' by (clear - K1; lia).
  split; [done|]. split; [|split; [|done]].
  { clear - F' C2 K3 K4. intros x Hx Hy. rewrite F', C2; [done|lia..]. }
  assert (Eq : m' (qp + Z.of_nat i) = q).
  { rewrite F' by (clear - D5; lia). apply upd_eq. }
  rewrite mval_last, Eq, V by (clear; lia). clear - V'.
  rewrite V'. ring.
Qed.

(** ** The two-limb case *)

(** [r' = r] modulo [B] and [r:x - n1:n0] is the remainder. *)
Lemma q_test_spec fuel top x dX d1 q r n1 n0 q' r' n1' n0' :
  normalized dX -> limb d1 -> limb x -> 0 <= top -> limb n1 -> limb n0 ->
  estimate top x dX d1 q r -> r < B -> n1 * B + n0 = d1 * q ->
  B <= r + Z.of_nat fuel * dX ->
  q_test fuel q r n1 n0 x dX d1 = (q', r', n1', n0') ->
  limb q' /\ limb r' /\ limb n1' /\ limb n0' /\ n1' * B + n0' = d1 * q' /\
  q' * (dX * B + d1) <= top * B + x < (q' + 1) * (dX * B + d1) /\
  exists c, top = q' * dX + r' + c * B.
Proof.
  intros [HX HN] Hd Hx Ht. unfold limb in HX.
  assert (HX0 : 0 < dX) by (pose proof B_ge; lia).
  revert q r n1 n0. induction fuel as [|fuel IH]; intros q r n1 n0 Hn1 Hn0 HE Hr EP Hf; [lia|].
  cbn [q_test]. pose proof HE as (Hq & Hr0 & Et & _). unfold limb in Hq.
  rewrite two_limb_gt by (done || unfold limb; lia). rewrite EP.
  destruct (Z.ltb_spec (r * B + x) (d1 * q)) as [L|L].
  2:{ intros [= <- <- <- <-]. split; [done|]. split; [unfold limb; lia|]. split_and!; [done..| | |].
      - eapply estimate_exact; eauto.
      - by eapply (estimate_exact top x dX d1 q r); eauto.
      - exists 0. lia. }
  destruct (estimate_lower _ _ _ _ _ _ Hx Hd HX0 Ht HE L) as [Q0 HE'].
  rewrite (uw_small (q - 1)) by (unfold limb; lia).
  destruct (sub_ddmmss n1 n0 0 d1) as [m1 m0] eqn:ES.
  assert (HP : 0 <= d1 * (q - 1)) by (unfold limb in Hd; apply Z.mul_nonneg_nonneg; lia).
  apply sub_ddmmss_exact in ES as (Hm1 & Hm0 & ES); [|done|done|unfold limb in *; nia].
  destruct (Z.lt_ge_cases (r + dX) B) as [C|C].
  - rewrite (uw_small (r + dX)) by (unfold limb; lia).
    destruct (Z.leb_spec dX (r + dX)); [|lia]. apply IH; [done..|lia|lia|lia].
  - rewrite (uw_unique (r + dX) (r + dX - B) 1) by (unfold limb; lia).
    destruct (Z.leb_spec dX (r + dX - B)); [lia|]. intros [= <- <- <- <-].
    split; [unfold limb; lia|]. split; [unfold limb; lia|]. split_and!; [done..|lia| | |].
    + eapply (estimate_exact top x dX d1 _ (r + dX)); eauto.
    + eapply (estimate_exact top x dX d1 _ (r + dX)); eauto.
    + exists 1. lia.
Qed.

(** The end of an iteration of the two-limb case. *)
Lemma divrem_2_finish top x dX d1 q r n1 n0 qf h l :
  normalized dX -> limb d1 -> limb x -> 0 <= top -> limb n1 -> limb n0 ->
  estimate top x dX d1 q r -> r < B -> n1 * B + n0 = d1 * q ->
  (let '(q, r, n1, n0) := q_test 3 q r n1 n0 x dX d1 in
   let '(n1, n0) := sub_ddmmss r x n1 n0 in (q, n1, n0)) = (qf, h, l) ->
  limb qf /\ limb h /\ limb l /\ top * B + x = qf * (dX * B + d1) + (h * B + l) /\
  h * B + l < dX * B + d1.
Proof.
  intros HN Hd Hx Ht Hn1 Hn0 HE Hr EP. pose proof HE as (_ & Hr0 & _).
  pose proof HN as [HL HB].
  destruct (q_test 3 q r n1 n0 x dX d1) as [[[q1 r1] h1] l1] eqn:EQ.
  apply (q_test_spec 3 top) in EQ as (Hq & Hr1 & Hh & Hl & E1 & [L1 L2] & c & E2); [|done..|lia].
  destruct (sub_ddmmss r1 x h1 l1) as [h2 l2] eqn:ES.
  apply sub_ddmmss_spec in ES as (Hh2 & Hl2 & k & ES); [|done..]. intros [= <- <- <-].
  assert (ER : top * B + x - q1 * (dX * B + d1) = h2 * B + l2 + (k + c) * (B * B)).
  { rewrite E2. lia. }
  assert (k + c = 0) by (unfold limb in *; nia).
  split_and!; [done..|nia|nia].
Qed.

Lemma divrem_2_limb_spec n1 n0 x d1 d0 q h l :
  normalized d1 -> limb d0 -> limb n1 -> limb n0 -> limb x ->
  n1 * B + n0 < d1 * B + d0 -> divrem_2_limb n1 n0 x d1 d0 = (q, h, l) ->
  limb q /\ limb h /\ limb l /\
  (n1 * B + n0) * B + x = q * (d1 * B + d0) + (h * B + l) /\ h * B + l < d1 * B + d0.
Proof.
  intros HN H0 Hn1 Hn0 Hx L. pose proof HN as [H1 HB]. pose proof B_ge. unfold divrem_2_limb.
  assert (T0 : 0 <= n1 * B + n0) by (unfold limb in *; nia).
  destruct (Z.eqb_spec n1 d1) as [->|N].
  - assert (L0 : n0 < d0) by lia.
    destruct (Z.lt_ge_cases (n0 + d1) B) as [C|C].
    + rewrite (uw_small (n0 + d1)) by (unfold limb in *; lia).
      destruct (Z.ltb_spec (n0 + d1) d1); [unfold limb in *; lia|].
      destruct (Z.eqb_spec d0 0) as [|_]; [unfold limb in *; lia|]. simpl b2z.
      rewrite (uw_small (d0 - 1)) by (unfold limb in *; lia).
      rewrite (uw_unique (- d0) (B - d0) (-1)) by (unfold limb in *; lia).
      apply divrem_2_finish; [done..|unfold limb in *; lia|unfold limb in *; lia| |lia|lia].
      unfold estimate, limb in *. split_and!; [lia|lia|lia|lia|nia].
    + rewrite (uw_unique (n0 + d1) (n0 + d1 - B) 1) by (unfold limb in *; lia).
      destruct (Z.ltb_spec (n0 + d1 - B) d1); [|unfold limb in *; lia].
      destruct (add_ssaaaa _ _ _ _) as [h1 l1] eqn:EA.
      apply add_ssaaaa_spec in EA as (Hh & Hl & k & EA); [|done..]. intros [= <- <- <-].
      destruct (uw_repr (n0 + d1 - B - d0)) as [j Ej].
      assert (ER : (d1 * B + n0) * B + x - (B - 1) * (d1 * B + d0)
        = h1 * B + l1 + (k + 1 + j) * (B * B)) by nia.
      assert (K0 : k + 1 + j = 0) by (unfold limb in *; nia). rewrite K0 in ER. unfold limb in Hx.
      split; [unfold limb; lia|]. split; [done|]. split; [done|]. split; [lia|nia].
  - assert (n1 < d1) by (unfold limb in *; nia).
    destruct (udiv_qrnnd n1 n0 d1) as [q1 r] eqn:E1.
    apply udiv_qrnnd_spec in E1 as (E1 & Hr & Hq); [|done|done|unfold limb in *; lia|done].
    destruct (umul_ppmm d0 q1) as [h1 l1] eqn:E2.
    apply umul_ppmm_spec in E2 as (Hh & Hl & E2); [|done..].
    apply divrem_2_finish; [done..| |unfold limb in *; lia|lia]. by apply estimate_initial.
Qed.

Lemma divrem_2_loop_spec n m qp qx np n1 n0 d1 d0 k m' np' h l :
  wf m -> 0 <= qx -> k = Z.max 0 (Z.of_nat n - qx) ->
  quot_ok qp (Z.of_nat n) np 2 qx -> normalized d1 -> limb d0 -> limb n1 -> limb n0 ->
  n1 * B + n0 < d1 * B + d0 ->
  divrem_2_loop n m qp qx (np + k) n1 n0 d1 d0 = (m', np', h, l) ->
  wf m' /\ np' = np /\ limb h /\ limb l /\ frame_q m m' qp (Z.of_nat n) np 1 /\
  ((n1 * B + n0) * B ^ k + mval m np k) * B ^ Z.min (Z.of_nat n) qx
  = mval m' qp (Z.of_nat n) * (d1 * B + d0) + (h * B + l) /\ h * B + l < d1 * B + d0.
Proof.
  revert m k n1 n0. induction n as [|i IH]; intros m k n1 n0 Hm Hqx Ek QO HN H0 Hn1 Hn0 HR.
  { change (Z.of_nat 0) with 0 in *. assert (k = 0) as -> by lia. cbn [divrem_2_loop].
    intros [= <- <- <- <-]. rewrite !mval_0, Z.pow_0_r. replace (Z.min _ _) with 0 by lia.
    split; [done|]. split; [lia|]. split; [done|]. split; [done|]. split; [by intros x _ _|]. lia. }
  replace (Z.of_nat (S i)) with (Z.of_nat i + 1) in * by lia. cbn [divrem_2_loop].
  set (k' := Z.max 0 (Z.of_nat i - qx)). unfold quot_ok in QO.
  assert (Step : exists m1, (if qx <=? Z.of_nat i then (m, np + k - 1) else (m.[np + k := 0], np + k))
      = (m1, np + k') /\ wf m1 /\ frame m m1 np 1 /\ mval m1 np k' = mval m np k' /\
      ((n1 * B + n0) * B ^ k + mval m np k) * B ^ Z.min (Z.of_nat i + 1) qx
      = (((n1 * B + n0) * B + m1 (np + k')) * B ^ k' + mval m np k') * B ^ Z.min (Z.of_nat i) qx).
  { clear - Hm Hqx Ek. subst k'. destruct (Z.leb_spec qx (Z.of_nat i)) as [L|L].
    - exists m. split; [f_equal; lia|]. split; [done|]. split; [apply frame_refl|]. split; [done|].
      replace (Z.min _ qx) with qx by lia. replace (Z.min _ qx) with qx by lia.
      replace (Z.max _ _) with (k - 1) by lia. replace k with (k - 1 + 1) at 1 2 by lia.
      rewrite mval_last, Z.pow_add_r, Z.pow_1_r by lia. ring.
    - assert (k = 0) as -> by lia. exists m.[np + 0 := 0].
      replace (Z.max _ _) with 0 by lia. rewrite Z.add_0_r, !mval_0, upd_eq. split; [done|].
      split; [apply wf_upd; [done|pose proof B_ge; unfold limb; lia]|].
      split; [apply frame_upd|]. split; [done|].
      replace (Z.min (Z.of_nat i + 1) qx) with (Z.of_nat i + 1) by lia.
      replace (Z.min _ _) with (Z.of_nat i) by lia. rewrite Z.pow_add_r, Z.pow_1_r by lia. ring. }
  destruct Step as (m1 & -> & W1 & F1 & V1 & ->).
  destruct (divrem_2_limb n1 n0 (m1 (np + k')) d1 d0) as [[q h1] l1] eqn:EL.
  apply divrem_2_limb_spec in EL as (Hq & Hh & Hl & -> & LV); [|done..|apply W1|done].
  set (m2 := m1.[qp + Z.of_nat i := q]). intros E.
  assert (A : (qp + Z.of_nat i < np \/ np + k' <= qp + Z.of_nat i) /\ 0 <= k' /\
    quot_ok qp (Z.of_nat i) np 2 qx /\ (qp + Z.of_nat i < np \/ np + 1 <= qp + Z.of_nat i))
    by (clear - QO Ek Hqx; unfold quot_ok; lia).
  destruct A as (A1 & A2 & A3 & A4). clear Ek QO HR.
  apply (IH m2 k') in E as (W & -> & Hh' & Hl' & F & V & LV'); [|by apply wf_upd|done..].
  split; [done|]. split; [done|]. split; [done|]. split; [done|]. split; [|split; [|done]].
  { clear - F F1. intros x Hx Hy. rewrite F by lia. unfold m2. rewrite upd_ne by lia.
    apply F1. lia. }
  assert (Eq : m' (qp + Z.of_nat i) = q).
  { clear - F A4. rewrite F by lia. apply upd_eq. }
  assert (E2 : mval m2 np k' = mval m np k').
  { rewrite <- V1. apply mval_ext. clear - A1. intros x Hx. apply upd_ne. lia. }
  rewrite mval_last, Eq by (clear; lia). rewrite E2 in V.
  assert (EP : B ^ k' * B ^ Z.min (Z.of_nat i) qx = B ^ Z.of_nat i).
  { rewrite <- Z.pow_add_r by (clear - Hqx; lia). f_equal. clear - Hqx. lia. }
  clear - V EP. set (D := d1 * B + d0) in *. clearbody D.
  rewrite <- EP, !Z.mul_add_distr_r in *. lia.
Qed.

(** ** The contract of [mpn_divrem] *)

(** The quotient [res.1 * B^n + mval res.2 qp n], with [qx] fraction limbs,
    and the remainder left at [np]. *)
Definition divrem_post (m : mem) (qp qx np ns dp ds : Z) (res : Z * mem) : Prop :=
  let n := qx + ns - ds in
  wf res.2 /\ 0 <= res.1 <= 1 /\
  frame_q m res.2 qp n np (ds + Z.max (ns - ds) (Z.min 1 qx)) /\
  mval m np ns * B ^ qx
  = (res.1 * B ^ n + mval res.2 qp n) * mval m dp ds + mval res.2 np ds /\
  mval res.2 np ds < mval m dp ds.

Definition divrem_pre (m : mem) (qp qx np ns dp ds : Z) : Prop :=
  wf m /\ 0 <= qx /\ 0 < ds <= ns /\ quot_ok qp (qx + ns - ds) np ds qx /\
  disjoint_ranges dp ds np (ds + Z.max (ns - ds) (Z.min 1 qx)) /\
  disjoint_ranges dp ds qp (qx + ns - ds) /\ normalized (m (dp + (ds - 1))).

(** A normalized divisor is at least half of [B^ds]. *)
Lemma normalized_half m dp ds : wf m -> 0 < ds -> normalized (m (dp + (ds - 1))) ->
  B ^ ds <= 2 * mval m dp ds.
Proof.
  intros Hm Hd [_ HN]. replace ds with (ds - 1 + 1) by lia.
  rewrite mval_last, Z.pow_add_r, Z.pow_1_r by lia.
  pose proof (mval_bound m dp (ds - 1) Hm ltac:(lia)) as Bd.
  pose proof (Bpow_pos (ds - 1) ltac:(lia)) as HP. nia.
Qed.

Lemma divrem_n_loop_post m m0 msq qp qx np ns dp ds :
  divrem_pre m qp qx np ns dp ds -> 2 <= ds -> wf m0 -> 0 <= msq <= 1 ->
  frame m m0 (np + (ns - ds)) ds ->
  mval m (np + (ns - ds)) ds = msq * mval m dp ds + mval m0 (np + (ns - ds)) ds ->
  mval m0 (np + (ns - ds)) ds < mval m dp ds ->
  divrem_post m qp qx np ns dp ds
   (msq, divrem_n_loop (Z.to_nat (qx + ns - ds)) m0 qp qx (np + (ns - ds)) dp ds
          (m0 (np + (ns - ds) + (ds - 1))) (m (dp + (ds - 1))) (m (dp + (ds - 2)))).
Proof.
  intros (Hm & Hqx & Hds & QO & D1 & D2 & HN) H2 W0 Hq F0 V0 L0.
  assert (A : forall x, dp <= x < dp + ds -> m0 x = m x).
  { clear - F0 D1 Hds Hqx. unfold disjoint_ranges in D1. intros x Hx. apply F0. lia. }
  assert (AD : mval m0 dp ds = mval m dp ds) by by apply mval_ext.
  rewrite <- (A (dp + (ds - 1))) in HN |- * by lia. rewrite <- (A (dp + (ds - 2))) by lia.
  pose proof (divrem_n_loop_spec (Z.to_nat (qx + ns - ds)) m0 qp qx np dp ds (ns - ds) W0 H2 Hqx)
    as S. rewrite Z2Nat.id in S by lia. rewrite AD in S.
  destruct S as (W & F & V & L); [lia|done..|]. unfold divrem_post. cbn [fst snd].
  split; [done|]. split; [done|]. split; [|split; [|done]].
  - clear - F F0 Hds Hqx. intros x Hx Hy. rewrite F by lia. apply F0. lia.
  - revert V. clear - V0 F0 Hds Hqx. set (m' := divrem_n_loop _ _ _ _ _ _ _ _ _ _).
    replace (Z.min _ qx) with qx by lia. clearbody m'. intros V.
    replace (mval m np ns) with (mval m np (ns - ds + ds)) by (f_equal; lia).
    rewrite mval_app in V |- * by lia.
    replace (qx + ns - ds) with (ns - ds + qx) in * by lia.
    rewrite V0, Z.pow_add_r by lia. revert V. frame_val F0. intros V. nia.
Qed.

Lemma divrem_n_spec m qp qx np ns dp ds :
  divrem_pre m qp qx np ns dp ds -> 2 < ds ->
  divrem_post m qp qx np ns dp ds (divrem_n m qp qx np ns dp ds).
Proof.
  intros P H2. pose proof P as (Hm & Hqx & Hds & _ & D1 & _ & HN).
  set (p := np + (ns - ds)). set (n0 := m (p + (ds - 1))). set (dX := m (dp + (ds - 1))).
  assert (D2 : disjoint_ranges p ds dp ds).
  { revert D1. unfold disjoint_ranges, p. clear - Hds Hqx. lia. }
  pose proof (normalized_half m dp ds Hm ltac:(lia) HN) as Half.
  pose proof (mval_bound m p ds Hm ltac:(lia)) as Bp.
  assert (Keep : mval m p ds < mval m dp ds -> divrem_post m qp qx np ns dp ds
    (0, divrem_n_loop (Z.to_nat (qx + ns - ds)) m qp qx p dp ds n0 dX (m (dp + (ds - 2))))).
  { intros L. apply divrem_n_loop_post; [done|lia|done|lia|apply frame_refl|fold p; lia|done]. }
  assert (Sub : mval m dp ds <= mval m p ds -> divrem_post m qp qx np ns dp ds
    (let m1 := (mpn_sub_n m p p dp ds).2 in
     (1, divrem_n_loop (Z.to_nat (qx + ns - ds)) m1 qp qx p dp ds (m1 (p + (ds - 1))) dX
          (m (dp + (ds - 2)))))).
  { intros L. destruct (mpn_sub_n_spec m p p dp ds) as (cy & m1 & -> & W1 & Hc & F1 & V1);
      [done|lia|unfold incr_ok; lia|unfold incr_ok, disjoint_ranges in *; lia|]. cbv zeta. cbn [snd].
    pose proof (mval_bound m1 p ds W1 ltac:(lia)) as B1.
    assert (cy = 0) as -> by nia.
    apply divrem_n_loop_post; [done|lia|done|lia|done|fold p; lia|fold p; lia]. }
  assert (T : mval m p ds = mval m p (ds - 1) + B ^ (ds - 1) * n0 /\
    mval m dp ds = mval m dp (ds - 1) + B ^ (ds - 1) * dX).
  { clear - Hds. replace (mval m p ds) with (mval m p (ds - 1 + 1)) by (f_equal; lia).
    replace (mval m dp ds) with (mval m dp (ds - 1 + 1)) by (f_equal; lia).
    by rewrite !mval_last by lia. }
  destruct T as [Tp Td]. pose proof (mval_bound m p (ds - 1) Hm ltac:(lia)) as Bp1.
  pose proof (mval_bound m dp (ds - 1) Hm ltac:(lia)) as Bd1.
  unfold divrem_n. fold p n0 dX. cbv zeta.
  destruct (Z.leb_spec dX n0) as [L|L]; [|apply Keep; clear - Tp Td Bp1 Bd1 L; nia].
  rewrite mpn_cmp_spec by (done || lia).
  destruct (Z.ltb_spec dX n0) as [L'|L']; cbn [orb].
  { destruct (mpn_sub_n m p p dp ds). apply Sub. clear - Tp Td Bp1 Bd1 L'. nia. }
  assert (E : n0 = dX) by lia. clear Half Bp. rewrite E in Tp.
  destruct (Z.compare_spec (mval m p (ds - 1)) (mval m dp (ds - 1))) as [C|C|C]; simpl Z.leb; cbv iota.
  - destruct (mpn_sub_n m p p dp ds). apply Sub. lia.
  - apply Keep. lia.
  - destruct (mpn_sub_n m p p dp ds). apply Sub. lia.
Qed.

Lemma divrem_2_spec m qp qx np ns dp :
  divrem_pre m qp qx np ns dp 2 ->
  divrem_post m qp qx np ns dp 2 (divrem_2 m qp qx np ns dp).
Proof.
  intros (Hm & Hqx & Hds & QO & D1 & D2 & HN).
  change (2 - 1) with 1 in HN. unfold divrem_2. cbv zeta.
  set (p := np + (ns - 2)). set (d1 := m (dp + 1)) in *. set (d0 := m dp).
  set (n1 := m (p + 1)). set (n0 := m p).
  pose proof HN as [H1 HB]. pose proof (Hm dp : limb d0) as H0.
  pose proof (Hm (p + 1) : limb n1) as Hn1. pose proof (Hm p : limb n0) as Hn0.
  assert (TD : mval m dp 2 = d1 * B + d0).
  { change 2 with (1 + 1). rewrite mval_last, mval_1, Z.pow_1_r by lia. fold d1 d0. lia. }
  assert (TN : mval m np ns = (n1 * B + n0) * B ^ (ns - 2) + mval m np (ns - 2)).
  { rewrite mval_top2 by lia. replace (np + (ns - 1)) with (p + 1) by (unfold p; lia). done. }
  assert (EC : (d1 <=? n1) && ((d1 <? n1) || (d0 <=? n0)) = (d1 * B + d0 <=? n1 * B + n0)).
  { clear - H0 H1 Hn0 Hn1. unfold limb in *. bool_cases; simpl; try done; nia. }
  rewrite EC. clear EC.
  assert (Start : exists h l msq, (if d1 * B + d0 <=? n1 * B + n0
      then let '(n1, n0) := sub_ddmmss n1 n0 d1 d0 in (n1, n0, 1) else (n1, n0, 0)) = (h, l, msq) /\
      limb h /\ limb l /\ 0 <= msq <= 1 /\ n1 * B + n0 = msq * (d1 * B + d0) + (h * B + l) /\
      h * B + l < d1 * B + d0).
  { clear - H0 H1 Hn0 Hn1 HB. destruct (Z.leb_spec (d1 * B + d0) (n1 * B + n0)) as [L|L].
    - destruct (sub_ddmmss n1 n0 d1 d0) as [h l] eqn:E.
      apply sub_ddmmss_exact in E as (? & ? & E); [|done|done|unfold limb in *; nia].
      exists h, l, 1. split; [done|]. split; [done|]. split; [done|].
      split; [lia|]. split; [lia|]. unfold limb in *. nia.
    - exists n1, n0, 0. split; [done|]. split; [done|]. split; [done|]. lia. }
  destruct Start as (h & l & msq & -> & Hh & Hl & Hq & V0 & L0).
  destruct (divrem_2_loop _ _ _ _ _ _ _ _ _) as [[[m1 np1] h1] l1] eqn:E.
  unfold quot_ok in QO.
  apply (divrem_2_loop_spec _ _ _ _ np _ _ _ _ (ns - 2)) in E
    as (W & -> & Hh1 & Hl1 & F & V & L1); rewrite ?Z2Nat.id in *; try done; try (unfold quot_ok; lia).
  replace (Z.min _ qx) with qx in V by lia.
  set (m2 := m1.[np + 1 := h1].[np := l1]).
  assert (F2 : frame m1 m2 np 2).
  { intros x Hx. unfold m2. by rewrite !upd_ne by lia. }
  assert (V2 : mval m2 np 2 = h1 * B + l1).
  { change 2 with (1 + 1). rewrite mval_last, mval_1, Z.pow_1_r by lia. unfold m2.
    rewrite upd_eq, upd_ne, upd_eq by lia. lia. }
  unfold divrem_post. cbn [fst snd]. rewrite TD, V2.
  split; [by repeat apply wf_upd|]. split; [done|]. split; [|split; [|done]].
  { clear - F F2 Hds Hqx. intros x Hx Hy. rewrite F2, F by lia. done. }
  replace (mval m2 qp _) with (mval m1 qp (qx + ns - 2)).
  2:{ symmetry. apply (mval_frame _ _ _ _ _ _ F2). unfold disjoint_ranges. lia. }
  rewrite TN, V0. replace (qx + ns - 2) with (ns - 2 + qx) in * by lia.
  rewrite Z.pow_add_r by lia. clear - V. set (D := d1 * B + d0) in *. clearbody D. nia.
Qed.

Lemma divrem_1_spec m qp qx np ns dp :
  divrem_pre m qp qx np ns dp 1 ->
  divrem_post m qp qx np ns dp 1 (divrem_1 m qp qx np ns dp).
Proof.
  intros (Hm & Hqx & Hds & QO & D1 & D2 & HN). change (dp + (1 - 1)) with (dp + 0) in HN.
  rewrite Z.add_0_r in HN. unfold divrem_1. cbv zeta. set (d := m dp) in *.
  pose proof HN as [Hd HB]. pose proof B_ge as HB2.
  assert (Hdv : divides_by (fun nh nl => udiv_qrnnd nh nl d) d) by (apply udiv_divides; [done|lia|done]).
  set (n1 := m (np + (ns - 1))).
  pose proof (Hm (np + (ns - 1)) : limb n1) as Hn1. pose proof Hd as Hd'. unfold limb in Hn1, Hd'.
  assert (Start : exists h msq, (if d <=? n1 then (uw (n1 - d), 1) else (n1, 0)) = (h, msq) /\
      0 <= msq <= 1 /\ n1 = msq * d + h /\ 0 <= h < d).
  { destruct (Z.leb_spec d n1) as [L|L].
    - exists (n1 - d), 1. rewrite uw_small by (unfold limb; lia). split; [done|lia].
    - exists n1, 0. split; [done|lia]. }
  destruct Start as (h & msq & -> & Hq & V0 & Hh). unfold quot_ok in QO.
  pose proof (div_1_loop_mem (Z.to_nat (ns - 1)) _ m (qp + qx) np h d Hdv Hm Hh) as S1.
  rewrite Z2Nat.id in S1 by lia. destruct (div_1_loop _ _ _ _ _ _) as [r1 m1].
  destruct S1 as (W1 & Hr1 & F1 & V1); [unfold decr_ok; lia|].
  pose proof (div_1_loop_spec (Z.to_nat qx) _ (fun _ _ => 0) m1 qp r1 d Hdv W1 Hr1) as S2.
  rewrite Z2Nat.id in S2 by lia. destruct (div_1_loop _ _ _ _ _ _) as [r2 m2].
  destruct S2 as (W2 & Hr2 & F2 & V2); [unfold limb; intros; lia|done|].
  set (m3 := m2.[np := r2]).
  assert (F3 : frame m2 m3 np 1) by apply frame_upd.
  unfold divrem_post. cbn [fst snd]. rewrite !mval_1. unfold m3 at 4 5. rewrite upd_eq.
  split; [apply wf_upd; [done|unfold limb; lia]|]. split; [done|]. split; [|split; [|done || lia]].
  { clear - F1 F2 F3 Hds Hqx. intros x Hx Hy. rewrite F3, F2, F1 by lia. done. }
  replace (qx + ns - 1) with (qx + (ns - 1)) in * by lia.
  assert (EN : mval m np ns = mval m np (ns - 1) + B ^ (ns - 1) * n1).
  { replace (mval m np ns) with (mval m np (ns - 1 + 1)) by (f_equal; lia). by rewrite mval_last by lia. }
  replace (mval m3 qp _) with (mval m2 qp qx + B ^ qx * mval m1 (qp + qx) (ns - 1)).
  2:{ rewrite mval_app by lia. frame_val F3. frame_val F2. done. }
  replace (limb_sum _ 0 _) with 0 in V2 by (symmetry; by apply (mval_zero (fun _ => 0) 0 qx)).
  rewrite EN, V0, Z.pow_add_r by lia. clear - V1 V2. nia.
Qed.

Lemma mpn_divrem_spec m qp qx np ns dp ds :
  divrem_pre m qp qx np ns dp ds ->
  exists res, mpn_divrem m qp qx np ns dp ds = Some res /\ divrem_post m qp qx np ns dp ds res.
Proof.
  intros P. pose proof P as (_ & _ & Hds & _). unfold mpn_divrem.
  destruct (Z.eqb_spec ds 0); [lia|]. destruct (Z.eqb_spec ds 1) as [->|].
  { eexists. split; [done|]. by apply divrem_1_spec. }
  destruct (Z.eqb_spec ds 2) as [->|].
  { eexists. split; [done|]. by apply divrem_2_spec. }
  eexists. split; [done|]. apply divrem_n_spec; [done|lia].
Qed.
End Div.
