(* ===== verification/MpnTheorems.v ===== *)
(** * The multi-precision theorems

    What the limb routines of [stdlib/] compute, stated against the integers
    and against each other: the optimised division and multiplication give
    the limbs of the plain ones, addition and subtraction and the shifts undo
    each other, and dividing a product gives back the factor. *)

From S2P Require Import Prelude LongLong LimbMem Mpn MpnMul MpnDiv.

Section Words.
Context `{LW : LimbWidth}.

(** The portable [umul_ppmm] gives the two words of the full product. *)
Theorem umul_ppmm_c_exact u v : limb u -> limb v ->
  umul_ppmm_c u v = (u * v / B, (u * v) mod B).
Proof.
  intros Hu Hv. destruct (umul_ppmm_c u v) as [hi lo] eqn:E.
  apply umul_ppmm_c_spec in E as (_ & Hl & E); [|done..]. unfold limb in Hl.
  f_equal; [apply Z.div_unique_pos with lo|apply Z.mod_unique_pos with hi]; lia.
Qed.

(** [__udiv_qrnnd_c] divides a two-word number by a normalized word. *)
Theorem udiv_qrnnd_c_exact n1 n0 d : normalized d -> 0 <= n1 < d -> limb n0 ->
  udiv_qrnnd_c n1 n0 d = ((n1 * B + n0) / d, (n1 * B + n0) mod d).
Proof.
  intros Hd Hn H0. destruct (udiv_qrnnd_c n1 n0 d) as [q r] eqn:E.
  apply udiv_qrnnd_c_spec in E as (E & Hr & _); [|done..].
  f_equal; [apply Z.div_unique_pos with r|apply Z.mod_unique_pos with q]; lia.
Qed.

(** division by multiplication with the precomputed reciprocal gives the
    same quotient and remainder as the plain division. *)
Theorem udiv_qrnnd_preinv_equiv `{LL : !LongLong} n1 n0 d :
  normalized d -> 0 <= n1 < d -> limb n0 ->
  udiv_qrnnd_preinv n1 n0 d (invert_limb d) = udiv_qrnnd_c n1 n0 d.
Proof.
  intros Hd Hn H0. destruct (udiv_qrnnd_preinv _ _ _ _) as [q r] eqn:E1.
  apply udiv_qrnnd_preinv_spec in E1 as (E1 & Hr1 & _); [|done..].
  destruct (udiv_qrnnd_c n1 n0 d) as [q' r'] eqn:E2.
  apply udiv_qrnnd_c_spec in E2 as (E2 & Hr2 & _); [|done..].
  assert (q = q') by nia. subst. f_equal. lia.
Qed.

(** the table-driven [count_leading_zeros] counts the zero bits above the
    highest set bit. *)
Theorem count_leading_zeros_c_exact x : 0 < x < B ->
  let c := count_leading_zeros_c x in
  0 <= c < W_TYPE_SIZE /\ 2 ^ (W_TYPE_SIZE - 1 - c) <= x < 2 ^ (W_TYPE_SIZE - c).
Proof.
  intros Hx. cbv zeta. rewrite count_leading_zeros_c_spec by done.
  pose proof (Z.log2_spec x ltac:(lia)) as L. pose proof (Z.log2_nonneg x).
  assert (Z.log2 x < W_TYPE_SIZE) by (apply Z.log2_lt_pow2; [lia|apply Hx]).
  split; [lia|]. replace (W_TYPE_SIZE - 1 - (W_TYPE_SIZE - 1 - Z.log2 x)) with (Z.log2 x) by lia.
  by replace (W_TYPE_SIZE - (W_TYPE_SIZE - 1 - Z.log2 x)) with (Z.succ (Z.log2 x)) by lia.
Qed.
End Words.

(** The words of the witnesses: 64-bit limbs. *)
Definition w_top : Z := 2 ^ 63.

Lemma umul_ppmm_c_exact_witness :
  limb (LW := limb64) (2 ^ 64 - 1) /\
  umul_ppmm_c (LW := limb64) (2 ^ 64 - 1) (2 ^ 64 - 1) = (2 ^ 64 - 2, 1).
Proof.
  split; [by vm_compute|].
  rewrite (umul_ppmm_c_exact (LW := limb64)); by vm_compute.
Defined.

Lemma udiv_qrnnd_c_exact_witness :
  normalized (LW := limb64) (w_top + 5) /\
  udiv_qrnnd_c (LW := limb64) w_top 7 (w_top + 5) = (18446744073709551606, 57).
Proof.
  split; [by vm_compute|].
  rewrite (udiv_qrnnd_c_exact (LW := limb64)); by vm_compute.
Defined.

Lemma udiv_qrnnd_preinv_equiv_witness :
  normalized (LW := limb32) (2 ^ 31 + 12345) /\
  udiv_qrnnd_preinv (LW := limb32) (2 ^ 31) 77 (2 ^ 31 + 12345)
    (invert_limb (LW := limb32) (2 ^ 31 + 12345))
  = udiv_qrnnd_c (LW := limb32) (2 ^ 31) 77 (2 ^ 31 + 12345).
Proof.
  split; [by vm_compute|]. apply (udiv_qrnnd_preinv_equiv (LW := limb32) (LL := longlong_c) (2 ^ 31) 77 (2 ^ 31 + 12345)).
  - by vm_compute.
  - by vm_compute.
  - by vm_compute.
Defined.

Lemma count_leading_zeros_c_exact_witness :
  2 ^ (63 - count_leading_zeros_c (LW := limb64) 300) <= 300.
Proof.
  apply (count_leading_zeros_c_exact (LW := limb64) 300). by vm_compute.
Defined.

(** ** Addition, subtraction, shifts and comparison *)

Section Linear.
Context `{LW : LimbWidth} {LL : LongLong}.

(** Subtracting what was added restores every limb, and the borrow is the
    carry; the sum may be written over the first operand. *)
Theorem add_n_sub_n_inverse m res a b n :
  wf m -> 0 < n -> incr_ok res a n -> disjoint_ranges b n res n ->
  exists cy m1 m2, mpn_add_n m res a b n = (cy, m1) /\ mpn_sub_n m1 res res b n = (cy, m2) /\
  mval m1 res n + B ^ n * cy = mval m a n + mval m b n /\ frame m m2 res n /\
  forall i, 0 <= i < n -> m2 (res + i) = m (a + i).
Proof.
  intros Hm Hn D1 D2. unfold disjoint_ranges in D2.
  destruct (mpn_add_n_spec m res a b n) as (cy & m1 & E1 & W1 & C1 & F1 & V1);
    [done..|unfold incr_ok; lia|].
  destruct (mpn_sub_n_spec m1 res res b n) as (bw & m2 & E2 & W2 & C2 & F2 & V2);
    [done..|unfold incr_ok; lia|unfold incr_ok; lia|].
  revert V2. frame_val F1. intros V2.
  pose proof (mval_bound m2 res n W2 ltac:(lia)). pose proof (mval_bound m a n Hm ltac:(lia)).
  assert (bw = cy) as -> by nia. exists cy, m1, m2.
  split; [done|]. split; [done|]. split; [done|].
  split; [by eapply frame_trans|]. apply mval_inj; [done..|lia].
Qed.

(** [mpn_submul_1] undoes [mpn_addmul_1] with the same operands, limb by
    limb, and returns the same carry limb. *)
Theorem addmul_1_submul_1_inverse m res s n v :
  wf m -> 0 < n -> limb v -> disjoint_ranges s n res n ->
  exists cy m1 m2, mpn_addmul_1 m res s n v = (cy, m1) /\ mpn_submul_1 m1 res s n v = (cy, m2) /\
  mval m1 res n + B ^ n * cy = mval m res n + mval m s n * v /\
  forall p, m2 p = m p.
Proof.
  intros Hm Hn Hv D. unfold disjoint_ranges in D.
  destruct (mpn_addmul_1_spec m res s n v) as (cy & m1 & E1 & W1 & C1 & F1 & V1);
    [done..|unfold incr_ok; lia|].
  destruct (mpn_submul_1_spec m1 res s n v) as (bw & m2 & E2 & W2 & C2 & F2 & V2);
    [done..|unfold incr_ok; lia|].
  revert V2. frame_val F1. intros V2.
  pose proof (mval_bound m2 res n W2 ltac:(lia)). pose proof (mval_bound m res n Hm ltac:(lia)).
  assert (bw = cy) as -> by nia. exists cy, m1, m2. split; [done|]. split; [done|]. split; [done|].
  intros p. destruct (decide (res <= p < res + n)) as [I|I].
  - replace p with (res + (p - res)) by lia. apply (mval_inj m2 m res res n); [done..|lia|lia].
  - rewrite F2, F1 by lia. done.
Qed.

(** [mpn_lshift] multiplies by [2^cnt] and returns the bits shifted out;
    when there are none, [mpn_rshift] restores every limb and loses no bit. *)
Theorem lshift_rshift_inverse m wp up n cnt :
  wf m -> 0 < n -> 0 < cnt < W_TYPE_SIZE -> decr_ok wp up n ->
  exists ret m1, mpn_lshift m wp up n cnt = (ret, m1) /\ frame m m1 wp n /\
  ret = mval m up n * 2 ^ cnt / B ^ n /\ mval m1 wp n = (mval m up n * 2 ^ cnt) mod B ^ n /\
  (ret = 0 -> exists m2, mpn_rshift m1 wp wp n cnt = Some (0, m2) /\
     forall i, 0 <= i < n -> m2 (wp + i) = m (up + i)).
Proof.
  intros Hm Hn Hc D.
  destruct (mpn_lshift_spec m wp up n cnt) as (ret & m1 & E1 & W1 & R1 & F1 & V1); [done..|].
  pose proof (mval_bound m1 wp n W1 ltac:(lia)) as B1. exists ret, m1.
  split; [done|]. split; [done|].
  split; [apply Z.div_unique_pos with (mval m1 wp n); lia|].
  split; [apply Z.mod_unique_pos with ret; lia|]. intros ->.
  destruct (mpn_rshift_spec m1 wp wp n cnt) as (r2 & m2 & E2 & W2 & R2 & F2 & V2 & V3);
    [done..|unfold incr_ok; lia|].
  rewrite Z.mul_0_r, Z.add_0_r in V1. assert (2 ^ cnt <> 0) by (apply Z.pow_nonzero; lia).
  rewrite V1, Z.mod_mul, Z.mul_0_l in V3 by done. rewrite V1, Z.div_mul in V2 by done.
  subst r2. exists m2. split; [done|]. by apply mval_inj.
Qed.

(** The sign of [mpn_cmp] orders the numbers: it is 0 exactly when all
    limbs agree, and swapping the operands negates it. *)
Theorem mpn_cmp_order m a b n : wf m -> 0 <= n ->
  mpn_cmp m a b n = Z.sgn (mval m a n - mval m b n) /\
  mpn_cmp m b a n = - mpn_cmp m a b n /\
  (mpn_cmp m a b n = 0 <-> forall i, 0 <= i < n -> m (a + i) = m (b + i)).
Proof.
  intros Hm Hn. rewrite !mpn_cmp_spec by done. rewrite (Z.compare_antisym (mval m a n)).
  destruct (Z.compare_spec (mval m a n) (mval m b n)) as [E|L|L]; simpl; split.
  - by rewrite E, Z.sub_diag.
  - split; [done|]. split; [|done]. intros _. by apply mval_inj.
  - rewrite Z.sgn_neg; lia.
  - split; [done|]. split; [done|]. intros E.
    rewrite (mval_copy m m b a n E) in L. lia.
  - rewrite Z.sgn_pos; lia.
  - split; [done|]. split; [done|]. intros E.
    rewrite (mval_copy m m b a n E) in L. lia.
Qed.

(** [mpn_add] and [mpn_sub] on operands of different sizes, in place on
    the longer one: the sum with its carry, and the subtraction that undoes it. *)
Theorem mpn_add_sub_inverse m res s2 n1 n2 :
  wf m -> 0 <= n2 <= n1 -> disjoint_ranges s2 n2 res n1 ->
  exists cy m1 m2, mpn_add m res res n1 s2 n2 = (cy, m1) /\
  mpn_sub m1 res res n1 s2 n2 = (cy, m2) /\
  mval m1 res n1 + B ^ n1 * cy = mval m res n1 + mval m s2 n2 /\ 0 <= cy <= 1 /\
  forall p, m2 p = m p.
Proof.
  intros Hm Hn D. unfold disjoint_ranges in D.
  destruct (mpn_add_spec m res res n1 s2 n2) as (cy & m1 & E1 & W1 & C1 & F1 & V1);
    [done..|unfold incr_ok; lia|unfold incr_ok; lia|].
  destruct (mpn_sub_spec m1 res res n1 s2 n2) as (bw & m2 & E2 & W2 & C2 & F2 & V2);
    [done..|unfold incr_ok; lia|unfold incr_ok; lia|].
  revert V2. frame_val F1. intros V2.
  pose proof (mval_bound m2 res n1 W2 ltac:(lia)). pose proof (mval_bound m res n1 Hm ltac:(lia)).
  pose proof (Bpow_pos n1 ltac:(lia)).
  assert (bw = cy) as -> by nia. exists cy, m1, m2. split; [done|]. split; [done|].
  split; [done|]. split; [done|].
  intros p. destruct (decide (res <= p < res + n1)) as [I|I].
  - replace p with (res + (p - res)) by lia. apply (mval_inj m2 m res res n1); [done..|lia|lia].
  - rewrite F2, F1 by lia. done.
Qed.
End Linear.

(** Three limbs at 0 and at 3, and room for results from 6 on. *)
Definition w_mem : Z -> Z := mem_of [2 ^ 64 - 1; 5; 2 ^ 64 - 2; 1; 2 ^ 64 - 6; 3].

Lemma w_mem_wf : wf w_mem.
Proof. by apply mem_of_wf. Qed.

Lemma add_n_sub_n_inverse_witness :
  exists cy m1 m2, mpn_add_n w_mem 0 0 3 3 = (cy, m1) /\ mpn_sub_n m1 0 0 3 3 = (cy, m2) /\
  m2 2 = 2 ^ 64 - 2.
Proof.
  destruct (add_n_sub_n_inverse w_mem 0 0 3 3) as (cy & m1 & m2 & E1 & E2 & _ & _ & H);
    [apply w_mem_wf|lia|unfold incr_ok; lia|unfold disjoint_ranges; lia|].
  exists cy, m1, m2. split; [done|]. split; [done|]. exact (H 2 ltac:(lia)).
Defined.

Lemma addmul_1_submul_1_inverse_witness :
  exists cy m1 m2, mpn_addmul_1 w_mem 0 3 3 99 = (cy, m1) /\
  mpn_submul_1 m1 0 3 3 99 = (cy, m2) /\ m2 1 = 5.
Proof.
  destruct (addmul_1_submul_1_inverse w_mem 0 3 3 99) as (cy & m1 & m2 & E1 & E2 & _ & H);
    [apply w_mem_wf|lia|by vm_compute|unfold disjoint_ranges; lia|].
  exists cy, m1, m2. split; [done|]. split; [done|]. exact (H 1).
Defined.

Lemma lshift_rshift_inverse_witness :
  exists m1 m2, mpn_lshift w_mem 6 3 3 5 = (0, m1) /\ mpn_rshift m1 6 6 3 5 = Some (0, m2) /\
  m2 8 = 3.
Proof.
  destruct (lshift_rshift_inverse w_mem 6 3 3 5) as (r & m1 & E1 & _ & R & _ & H);
    [apply w_mem_wf|lia|by vm_compute|unfold decr_ok; lia|].
  assert (r = 0) as -> by (rewrite R; by vm_compute).
  destruct (H eq_refl) as (m2 & E2 & H2). exists m1, m2.
  split; [done|]. split; [done|]. exact (H2 2 ltac:(lia)).
Defined.

Lemma mpn_cmp_order_witness : mpn_cmp w_mem 0 3 3 = 1 /\ mpn_cmp w_mem 3 0 3 = -1.
Proof.
  destruct (mpn_cmp_order w_mem 0 3 3 w_mem_wf ltac:(lia)) as (E & S & _).
  assert (E' : mpn_cmp w_mem 0 3 3 = 1) by (rewrite E; by vm_compute).
  split; [done|]. by rewrite S, E'.
Defined.

Lemma mpn_add_sub_inverse_witness :
  exists cy m1 m2, mpn_add w_mem 0 0 3 3 2 = (cy, m1) /\ mpn_sub m1 0 0 3 3 2 = (cy, m2) /\
  m2 2 = 2 ^ 64 - 2.
Proof.
  destruct (mpn_add_sub_inverse w_mem 0 3 3 2) as (cy & m1 & m2 & E1 & E2 & _ & _ & H);
    [apply w_mem_wf|lia|unfold disjoint_ranges; lia|].
  exists cy, m1, m2. split; [done|]. split; [done|]. exact (H 2).
Defined.

(** ** Multiplication *)

Section Multiply.
Context `{LW : LimbWidth} {LL : LongLong} {KT : KaratsubaThreshold}.

(** Karatsuba multiplication writes the limbs of the schoolbook product,
    for every threshold and size; only the product and the scratch space
    change. *)
Theorem karatsuba_is_schoolbook m prodp up vp size tspace :
  wf m -> 2 <= size ->
  disjoint_ranges prodp (2 * size) up size -> disjoint_ranges prodp (2 * size) vp size ->
  disjoint_ranges prodp (2 * size) tspace (2 * size) ->
  disjoint_ranges tspace (2 * size) up size -> disjoint_ranges tspace (2 * size) vp size ->
  let m' := impn_mul_n (Z.to_nat size) m prodp up vp size tspace in
  (forall i, 0 <= i < 2 * size ->
     m' (prodp + i) = impn_mul_n_basecase m prodp up vp size (prodp + i)) /\
  frame2 m m' prodp (2 * size) tspace (2 * size) /\
  mval m' prodp (2 * size) = mval m up size * mval m vp size.
Proof.
  intros Hm Hs D1 D2 D3 D4 D5.
  destruct (impn_mul_n_spec (Z.to_nat size) size Hs ltac:(lia) m prodp up vp tspace)
    as (W & F & V); [done..|].
  destruct (impn_mul_n_basecase_spec m prodp up vp size) as (W' & _ & V'); [done|lia|done..|].
  split; [|done]. apply mval_inj; [done..|]. by rewrite V, V'.
Qed.

(** Karatsuba squaring writes the limbs that multiplying the number by
    itself writes. *)
Theorem squaring_is_multiplication m prodp up size tspace :
  wf m -> 2 <= size -> disjoint_ranges prodp (2 * size) up size ->
  disjoint_ranges prodp (2 * size) tspace (2 * size) ->
  disjoint_ranges tspace (2 * size) up size ->
  forall i, 0 <= i < 2 * size ->
  impn_sqr_n (Z.to_nat size) m prodp up size tspace (prodp + i)
  = impn_mul_n (Z.to_nat size) m prodp up up size tspace (prodp + i).
Proof.
  intros Hm Hs D1 D2 D3.
  destruct (impn_mul_n_spec (Z.to_nat size) size Hs ltac:(lia) m prodp up up tspace)
    as (W & F & V); [done..|].
  destruct (impn_sqr_n_spec (Z.to_nat size) size Hs ltac:(lia) m prodp up tspace)
    as (W' & F' & V'); [done..|].
  apply mval_inj; [done..|]. by rewrite V, V'.
Qed.

(** C12: [mpn_mul] multiplies operands of any sizes, returns the top limb of
    the product and leaves all cells below its scratch space but the product
    alone; recursion as deep as the shorter operand is long is enough. *)
Theorem mpn_mul_correct m prodp up usize vp vsize sp :
  wf m -> 0 < vsize <= usize ->
  disjoint_ranges prodp (usize + vsize) up usize ->
  disjoint_ranges prodp (usize + vsize) vp vsize ->
  prodp + usize + vsize <= sp -> up + usize <= sp -> vp + vsize <= sp ->
  let '(top, m') := mpn_mul (S (Z.to_nat vsize)) m prodp up usize vp vsize sp in
  mval m' prodp (usize + vsize) = mval m up usize * mval m vp vsize /\
  top = m' (prodp + usize + vsize - 1) /\ frame_below m m' prodp (usize + vsize) sp.
Proof.
  intros Hm Hv D1 D2 L1 L2 L3.
  destruct (mpn_mul_spec (S (Z.to_nat vsize)) usize vsize Hv ltac:(lia) m prodp up vp sp)
    as (m' & -> & W & F & V); done.
Qed.

(** ** Division *)

(** every strategy of [mpn_divmod_1] (reciprocal or plain, normalized
    or not) gives the quotient and remainder, also in place. *)
Theorem mpn_divmod_1_correct m qp src n d :
  wf m -> 0 < n -> 0 < d < B -> decr_ok qp src n ->
  let '(r, m') := mpn_divmod_1 m qp src n d in
  mval m' qp n = mval m src n / d /\ r = mval m src n mod d /\ wf m' /\ frame m m' qp n.
Proof.
  intros Hm Hn Hd D. apply divmod_1_strategies; [done..|]. intros r m' W Hr F V.
  split; [apply Z.div_unique_pos with r; lia|].
  split; [apply Z.mod_unique_pos with (mval m' qp n); lia|done].
Qed.

(** [mpn_mod_1] returns the remainder [mpn_divmod_1] returns. *)
Theorem mpn_mod_1_correct m src n d : wf m -> 0 < n -> 0 < d < B ->
  mpn_mod_1 m src n d = mval m src n mod d /\
  mpn_mod_1 m src n d = fst (mpn_divmod_1 m src src n d).
Proof.
  intros Hm Hn Hd. split; [by apply mpn_mod_1_spec|]. rewrite mpn_mod_1_spec by done.
  apply (divmod_1_strategies (fun p => _ = fst p)); [done..|unfold decr_ok; lia|].
  intros r m' _ Hr _ V. cbn [fst]. symmetry.
  apply Z.mod_unique with (mval m' src n); lia.
Qed.

(** C6: [mpn_divrem] leaves the quotient of [num * B^qextra_limbs] at [qp],
    its top limb (0 or 1) in the return value, and the remainder at [np]. *)
Theorem mpn_divrem_correct m qp qx np ns dp ds :
  divrem_pre m qp qx np ns dp ds ->
  exists msq m', mpn_divrem m qp qx np ns dp ds = Some (msq, m') /\
  msq * B ^ (qx + ns - ds) + mval m' qp (qx + ns - ds) = mval m np ns * B ^ qx / mval m dp ds /\
  mval m' np ds = (mval m np ns * B ^ qx) mod mval m dp ds /\ 0 <= msq <= 1 /\
  frame_q m m' qp (qx + ns - ds) np (ds + Z.max (ns - ds) (Z.min 1 qx)).
Proof.
  intros P. destruct (mpn_divrem_spec _ _ _ _ _ _ _ P) as ([msq m'] & E & W & Hq & F & V & L).
  cbn [fst snd] in *. pose proof P as (_ & _ & Hds & _).
  pose proof (mval_bound m' np ds W ltac:(lia)). exists msq, m'. split; [done|].
  split; [apply Z.div_unique_pos with (mval m' np ds); [lia|rewrite V; ring]|].
  split; [|done].
  eapply Z.mod_unique_pos with (q := msq * B ^ (qx + ns - ds) + mval m' qp (qx + ns - ds));
    [lia|rewrite V; ring].
Qed.

(** dividing the product [mpn_mul] computed by a normalized factor gives
    back the limbs of the other factor, a zero top limb and remainder zero. *)
Theorem mul_divrem_inverse m prodp up usize vp vsize sp qp :
  wf m -> 0 < vsize <= usize -> normalized (m (vp + (vsize - 1))) ->
  disjoint_ranges prodp (usize + vsize) up usize ->
  disjoint_ranges prodp (usize + vsize) vp vsize ->
  prodp + usize + vsize <= sp -> up + usize <= sp -> vp + vsize <= sp ->
  prodp + vsize <= qp \/ qp + usize <= prodp -> disjoint_ranges vp vsize qp usize ->
  let m1 := snd (mpn_mul (S (Z.to_nat vsize)) m prodp up usize vp vsize sp) in
  exists m2, mpn_divrem m1 qp 0 prodp (usize + vsize) vp vsize = Some (0, m2) /\
  mval m2 prodp vsize = 0 /\ forall i, 0 <= i < usize -> m2 (qp + i) = m (up + i).
Proof.
  intros Hm Hv HN D1 D2 L1 L2 L3 DQ DV.
  destruct (mpn_mul_spec (S (Z.to_nat vsize)) usize vsize Hv ltac:(lia) m prodp up vp sp)
    as (m1 & -> & W1 & F1 & V1); [done..|]. cbn [snd].
  unfold disjoint_ranges in *.
  assert (EV : m1 (vp + (vsize - 1)) = m (vp + (vsize - 1))) by (apply F1; lia).
  destruct (mpn_divrem_spec m1 qp 0 prodp (usize + vsize) vp vsize)
    as ([msq m2] & -> & W2 & Hq & _ & V2 & L).
  { unfold divrem_pre, quot_ok, disjoint_ranges. rewrite EV.
    do 6 (split; [first [done|lia]|]). done. }
  assert (EM : mval m1 vp vsize = mval m vp vsize)
    by (eapply mval_frame_below; [done|unfold disjoint_ranges; lia|lia]).
  cbn [fst snd] in *. rewrite EM in V2, L.
  rewrite V1, Z.pow_0_r, Z.mul_1_r in V2. replace (0 + (usize + vsize) - vsize) with usize in V2 by lia.
  pose proof (mval_bound m2 qp usize W2 ltac:(lia)) as B2.
  pose proof (mval_bound m up usize Hm ltac:(lia)) as BU.
  pose proof (mval_bound m2 prodp vsize W2 ltac:(lia)) as BR.
  set (U := mval m up usize) in *. set (V := mval m vp vsize) in *.
  set (Q := mval m2 qp usize) in *. set (P := B ^ usize) in *.
  assert (EQ : msq * P + Q = U) by nia.
  assert (msq = 0) as -> by nia. exists m2. split; [done|].
  split; [nia|]. apply mval_inj; [done..|]. subst Q U. lia.
Qed.
End Multiply.

Lemma karatsuba_is_schoolbook_witness :
  impn_mul_n (KT := {| KARATSUBA_THRESHOLD := 2; KARATSUBA_THRESHOLD_ge := ltac:(done) |})
    3 w_mem 6 0 3 3 12 11 = impn_mul_n_basecase w_mem 6 0 3 3 11.
Proof.
  apply (karatsuba_is_schoolbook
    (KT := {| KARATSUBA_THRESHOLD := 2; KARATSUBA_THRESHOLD_ge := ltac:(done) |})
    w_mem 6 0 3 3 12 w_mem_wf ltac:(lia)) with (i := 5); unfold disjoint_ranges; lia.
Defined.

Lemma squaring_is_multiplication_witness :
  impn_sqr_n 3 w_mem 6 0 3 12 11 = impn_mul_n 3 w_mem 6 0 0 3 12 11.
Proof.
  apply (squaring_is_multiplication w_mem 6 0 3 12) with (i := 5);
    unfold disjoint_ranges; first [apply w_mem_wf|lia].
Defined.

Lemma mpn_mul_correct_witness :
  mval (snd (mpn_mul 3 w_mem 6 0 3 3 2 20)) 6 5 = mval w_mem 0 3 * mval w_mem 3 2.
Proof.
  pose proof (mpn_mul_correct w_mem 6 0 3 3 2 20 w_mem_wf ltac:(lia)) as T.
  change (S (Z.to_nat 2)) with 3%nat in T. destruct (mpn_mul 3 w_mem 6 0 3 3 2 20) as [top m'].
  apply T; unfold disjoint_ranges; lia.
Defined.

Lemma mpn_divmod_1_correct_witness :
  let '(r, m') := mpn_divmod_1 w_mem 0 0 3 1000003 in
  mval m' 0 3 = mval w_mem 0 3 / 1000003 /\ r = mval w_mem 0 3 mod 1000003.
Proof.
  pose proof (mpn_divmod_1_correct w_mem 0 0 3 1000003 w_mem_wf ltac:(lia)) as T.
  destruct (mpn_divmod_1 w_mem 0 0 3 1000003) as [r m'].
  destruct T as (T1 & T2 & _); [by vm_compute|unfold decr_ok; lia|]. by split.
Defined.

Lemma mpn_mod_1_correct_witness : mpn_mod_1 w_mem 0 3 1000003 = mval w_mem 0 3 mod 1000003.
Proof. apply (mpn_mod_1_correct w_mem 0 3 1000003); [apply w_mem_wf|lia|by vm_compute]. Defined.

(** A five-limb numerator at 0, a normalized three-limb divisor at 10. *)
Definition w_div : Z -> Z :=
  mem_of [1; 2; 3; 4; 2 ^ 64 - 1; 0; 0; 0; 0; 0; 2 ^ 64 - 1; 0; w_top].

Lemma w_div_pre : divrem_pre w_div 20 1 0 5 10 3.
Proof.
  unfold divrem_pre, quot_ok, disjoint_ranges. split; [by apply mem_of_wf|].
  repeat (split; [lia|]). by vm_compute.
Qed.

Lemma mpn_divrem_correct_witness :
  exists m', mpn_divrem w_div 20 1 0 5 10 3 = Some (1, m') /\
  mval m' 0 3 = (mval w_div 0 5 * B) mod mval w_div 10 3.
Proof.
  destruct (mpn_divrem_correct w_div 20 1 0 5 10 3 w_div_pre) as (msq & m' & E & V & R & Hq & _).
  exists m'. rewrite Z.pow_1_r in R. split; [|exact R]. rewrite E. do 2 f_equal.
  assert (msq <> 0); [|lia]. intros ->. revert E. vm_compute. congruence.
Defined.

(** Two factors of two limbs at 0 and 2, the second one normalized. *)
Definition w_fac : Z -> Z := mem_of [7; 2 ^ 64 - 3; 2 ^ 64 - 1; w_top + 1].

Lemma mul_divrem_inverse_witness :
  exists m2, mpn_divrem (snd (mpn_mul 3 w_fac 4 0 2 2 2 20)) 10 0 4 4 2 2 = Some (0, m2) /\
  m2 11 = 2 ^ 64 - 3.
Proof.
  destruct (mul_divrem_inverse w_fac 4 0 2 2 2 20 10) as (m2 & E & _ & H);
    unfold disjoint_ranges; try lia; [by apply mem_of_wf|by vm_compute|].
  exists m2. split; [exact E|]. exact (H 1 ltac:(lia)).
Defined.

(** ** Where the comment above [mpn_divrem] is not enough

    Its second precondition asks for [QP + DSIZE >= NP] when the quotient
    overlaps the numerator; what the code needs is [QP >= NP + DSIZE]
    ([quot_ok]).  Here [qp = np]: the comment's condition holds, and the
    remainder is stored over the quotient. *)
Definition w_overlap : Z -> Z := mem_of [1; 2; 3; 0; 0; w_top].

(** C39: the overlap the comment above [mpn_divrem] allows lets the remainder
    be stored over the quotient: the limbs at [qp] are then not the quotient. *)
Theorem divrem_comment_precondition_insufficient :
  exists m qp np ns dp ds msq m', wf m /\ 0 < ds <= ns /\ normalized (m (dp + (ds - 1))) /\
  qp + ds >= np /\ disjoint_ranges dp ds np ns /\ disjoint_ranges dp ds qp (ns - ds) /\
  mpn_divrem m qp 0 np ns dp ds = Some (msq, m') /\
  msq * B ^ (ns - ds) + mval m' qp (ns - ds) <> mval m np ns / mval m dp ds.
Proof.
  destruct (mpn_divrem w_overlap 0 0 0 3 5 1) as [[msq m']|] eqn:E; [|done].
  exists w_overlap, 0, 0, 3, 5, 1, msq, m'. unfold disjoint_ranges.
  split; [by apply mem_of_wf|]. split; [lia|]. split; [by vm_compute|].
  split; [lia|]. split; [lia|]. split; [lia|]. split; [done|].
  revert E. vm_compute. intros [= <- <-]. by vm_compute.
Qed.

(** With fraction limbs and [NSIZE = DSIZE >= 3] the general case shifts the
    partial remainder up by one limb and so writes [np[DSIZE]], the limb
    after the numerator. *)
Definition w_beyond : Z -> Z := mem_of [1; 2; 3; 99; 0; 5; 6; w_top].

(** with a fraction limb and [NSIZE = DSIZE = 3], [mpn_divrem] changes the
    limb after the numerator. *)
Theorem divrem_fraction_writes_past_numerator :
  exists m qp np n dp, wf m /\ normalized (m (dp + (n - 1))) /\
  disjoint_ranges qp 1 np n /\ disjoint_ranges qp 1 dp n /\ disjoint_ranges np n dp n /\
  match mpn_divrem m qp 1 np n dp n with
  | Some (_, m') => m' (np + n) <> m (np + n) /\ qp <> np + n
  | None => False
  end.
Proof.
  exists w_beyond, 20, 0, 3, 5. unfold disjoint_ranges.
  split; [by apply mem_of_wf|]. split; [by vm_compute|]. split; [lia|]. split; [lia|].
  split; [lia|]. by vm_compute.
Qed.
