(* ===== verification/CMonad.v ===== *)
(** * Stateful C code as a monad

    [M S A]: code that reads and changes a state [S], returns an [A], or has
    undefined behaviour ([None]: a load from an address where there is no
    object, an index outside an array, a failed assertion). *)

From S2P Require Import Prelude.

Definition M (S A : Type) : Type := S -> option (A * S).

Definition ret {S A} (a : A) : M S A := fun s => Some (a, s).
Definition bind {S A B} (m : M S A) (f : A -> M S B) : M S B :=
  fun s => match m s with Some (a, s) => f a s | None => None end.
Definition undefined {S A} : M S A := fun _ => None.

Declare Scope c_scope.
Delimit Scope c_scope with C.
Notation "'let!' x := m 'in' k" := (bind m (fun x => k))
  (at level 10, x name, m at level 100, k at level 200) : c_scope.
Notation "'let!' ' p := m 'in' k" := (bind m (fun p => k))
  (at level 10, p pattern, m at level 100, k at level 200) : c_scope.
Notation "m ;; k" := (bind m (fun _ => k)) (at level 100, k at level 200, right associativity) : c_scope.

(** [if (b) m;] *)
Definition when {S} (b : bool) (m : M S unit) : M S unit := if b then m else ret tt.

(** [a || b] with the right operand evaluated only when it is needed. *)
Definition or_else {S} (a b : M S bool) : M S bool :=
  bind a (fun x => if x then ret true else b).
Definition and_then {S} (a b : M S bool) : M S bool :=
  bind a (fun x => if x then b else ret false).
Definition negM {S} (a : M S bool) : M S bool := bind a (fun x => ret (negb x)).

Lemma bind_some {S A B} (m : M S A) (f : A -> M S B) s a s' :
  m s = Some (a, s') -> bind m f s = f a s'.
Proof. unfold bind. by intros ->. Qed.

Lemma bind_inv {S A B} (m : M S A) (f : A -> M S B) s r :
  bind m f s = Some r -> exists a s', m s = Some (a, s') /\ f a s' = Some r.
Proof. unfold bind. destruct (m s) as [[a s']|]; [eauto|done]. Qed.

Lemma bind_bind {S A B C} (m : M S A) (f : A -> M S B) (g : B -> M S C) s :
  bind (bind m f) g s = bind m (fun a => bind (f a) g) s.
Proof. unfold bind. by destruct (m s) as [[a s']|]. Qed.
