(* ===== verification/Tsearch.v ===== *)
(** * Binary search trees: [misc/tsearch.c]

    [tsearch], [tfind], [tdelete], [twalk] and [tdestroy] on red-black trees
    whose colours live in the low bit of the left links.  Memory is a finite
    map from cells (a node's field, or the caller's root variable) to words;
    a [node *] is a cell. *)

From S2P Require Import Prelude CMonad.

Open Scope c_scope.
Open Scope Z_scope.

Inductive field := Fkey | Fleft | Fright | Froot.

#[export] Instance field_eq_dec : EqDecision field.
Proof. solve_decision. Defined.

#[export] Instance field_countable : Countable field.
Proof.
  refine (inj_countable'
    (fun f => match f with Fkey => 0 | Fleft => 1 | Fright => 2 | Froot => 3 end%nat)
    (fun n => match n with 0 => Fkey | 1 => Fleft | 2 => Fright | _ => Froot end%nat) _).
  by intros [].
Defined.

(** A field of the node at an address, or the variable that holds a root. *)
Abbreviation cell := (Z * field)%type.
Abbreviation memory := (gmap cell Z).
Abbreviation T := (M memory).

Definition load (c : cell) : T Z :=
  fun m => match m !! c with Some v => Some (v, m) | None => None end.
Definition store (c : cell) (v : Z) : T unit :=
  fun m => match m !! c with Some _ => Some (tt, <[c := v]> m) | None => None end.

(** ** The access macros (with [USE_MALLOC_LOW_BIT]) *)

Definition LEFTPTR (n : Z) : cell := (n, Fleft).
Definition RIGHTPTR (n : Z) : cell := (n, Fright).

Definition RED (n : Z) : T bool :=
  let! v := load (n, Fleft) in ret (negb (Z.land v 1 =? 0)).
Definition SETRED (n : Z) : T unit :=
  let! v := load (n, Fleft) in store (n, Fleft) (Z.lor v 1).
Definition SETBLACK (n : Z) : T unit :=
  let! v := load (n, Fleft) in store (n, Fleft) (Z.land v (Z.lnot 1)).
Definition SETNODEPTR (np : cell) (p : Z) : T unit :=
  let! v := load np in store np (Z.lor (Z.land v 1) p).
Definition LEFT (n : Z) : T Z :=
  let! v := load (n, Fleft) in ret (Z.land v (Z.lnot 1)).
Definition SETLEFT (n l : Z) : T unit :=
  let! v := load (n, Fleft) in store (n, Fleft) (Z.lor (Z.land v 1) l).
Definition RIGHT (n : Z) : T Z := load (n, Fright).
Definition SETRIGHT (n r : Z) : T unit := store (n, Fright) r.
Definition DEREFNODEPTR (np : cell) : T Z :=
  let! v := load np in ret (Z.land v (Z.lnot 1)).
Definition node_key (n : Z) : T Z := load (n, Fkey).

(** Dereferencing a [node *] that may be [NULL]. *)
Definition deref_opt (np : option cell) : T Z :=
  match np with Some np => DEREFNODEPTR np | None => undefined end.
Definition SETNODEPTR_opt (np : option cell) (p : Z) : T unit :=
  match np with Some np => SETNODEPTR np p | None => undefined end.

(** ** Insertion *)

(** The rotations of [maybe_split_for_insert], when [root] and its parent
    are both red. *)
Definition split_rotate (root : Z) (rp lp : cell) (rpn lpn : Z) (parentp : cell)
    (gparentp : option cell) (p_r gp_r : Z) : T unit :=
  let! gp := deref_opt gparentp in
  let! p := DEREFNODEPTR parentp in
  if negb (eqb (0 <? p_r) (0 <? gp_r)) then
    SETRED p;;
    SETRED gp;;
    SETBLACK root;;
    (if p_r <? 0 then
       SETLEFT p rpn;;
       SETNODEPTR rp p;;
       SETRIGHT gp lpn;;
       SETNODEPTR lp gp
     else
       SETRIGHT p lpn;;
       SETNODEPTR lp p;;
       SETLEFT gp rpn;;
       SETNODEPTR rp gp);;
    SETNODEPTR_opt gparentp root
  else
    SETNODEPTR_opt gparentp p;;
    SETBLACK p;;
    SETRED gp;;
    (if p_r <? 0 then
       let! pr := RIGHT p in
       SETLEFT gp pr;;
       SETRIGHT p gp
     else
       let! pl := LEFT p in
       SETRIGHT gp pl;;
       SETLEFT p gp).

(** "If the parent of this node is also red, we have to do rotations." *)
Definition split_check_parent (root rpn lpn : Z) (parentp gparentp : option cell)
    (p_r gp_r : Z) : T unit :=
  match parentp with
  | None => ret tt
  | Some parentp =>
      let! p := DEREFNODEPTR parentp in
      let! red := RED p in
      when red (split_rotate root (RIGHTPTR root) (LEFTPTR root) rpn lpn parentp gparentp p_r gp_r)
  end.

Definition maybe_split_for_insert (rootp : cell) (parentp gparentp : option cell)
    (p_r gp_r mode : Z) : T unit :=
  let! root := DEREFNODEPTR rootp in
  let! rpn := RIGHT root in
  let! lpn := LEFT root in
  let! split :=
    or_else (ret (mode =? 1))
      (and_then (ret (negb (rpn =? 0) && negb (lpn =? 0))) (and_then (RED rpn) (RED lpn))) in
  if split then
    SETRED root;;
    when (negb (rpn =? 0)) (SETBLACK rpn);;
    when (negb (lpn =? 0)) (SETBLACK lpn);;
    split_check_parent root rpn lpn parentp gparentp p_r gp_r
  else ret tt.

Section Compar.
(** The caller's comparison function on key pointers. *)
Variable compar : Z -> Z -> Z.

(** How the descent of [__tsearch] ends: at a node with the key, or at the
    empty link [nextp] below [rootp]. *)
Inductive descent :=
  | Found (root : Z)
  | Insert (nextp rootp : cell) (parentp : option cell) (r p_r : Z).

(** The [while] loop; [nextp] is not empty when it is entered. *)
Fixpoint tsearch_loop (fuel : nat) (key : Z) (rootp : cell) (parentp gparentp : option cell)
    (p_r gp_r : Z) : T descent :=
  match fuel with
  | O => undefined
  | S fuel =>
      let! root := DEREFNODEPTR rootp in
      let! k := node_key root in
      let r := compar key k in
      if r =? 0 then ret (Found root)
      else
        maybe_split_for_insert rootp parentp gparentp p_r gp_r 0;;
        let nextp := if r <? 0 then LEFTPTR root else RIGHTPTR root in
        let! next := DEREFNODEPTR nextp in
        if next =? 0 then ret (Insert nextp rootp parentp r p_r)
        else tsearch_loop fuel key nextp (Some rootp) parentp r p_r
  end.

(** [malloc (sizeof (struct node_t))] returned [q] (0: no memory), with
    whatever [junk] the fields hold. *)
Definition malloc_node (q : Z) (junk : field -> Z) : T unit :=
  fun m => if q =? 0 then Some (tt, m)
    else Some (tt, <[(q, Fkey) := junk Fkey]>
           (<[(q, Fleft) := junk Fleft]> (<[(q, Fright) := junk Fright]> m))).

Definition assert_aligned (q : Z) : T unit :=
  if Z.land q 1 =? 0 then ret tt else undefined.

Definition __tsearch (fuel : nat) (q : Z) (junk : field -> Z) (key : Z) (vrootp : option cell) : T Z :=
  match vrootp with
  | None => ret 0
  | Some rootp =>
      let! root := DEREFNODEPTR rootp in
      when (negb (root =? 0)) (SETBLACK root);;
      let! next := DEREFNODEPTR rootp in
      let! d :=
        if next =? 0 then ret (Insert rootp rootp None 0 0)
        else tsearch_loop fuel key rootp None None 0 0 in
      match d with
      | Found root => ret root
      | Insert nextp rootp parentp r p_r =>
          malloc_node q junk;;
          when (negb (q =? 0))
            (assert_aligned q;;
             SETNODEPTR nextp q;;
             store (q, Fkey) key;;
             SETRED q;;
             SETLEFT q 0;;
             SETRIGHT q 0;;
             when (negb (bool_decide (nextp = rootp)))
               (maybe_split_for_insert nextp (Some rootp) parentp r p_r 1));;
          ret q
      end
  end.

(** ** Lookup *)

Fixpoint tfind_loop (fuel : nat) (key : Z) (rootp : cell) : T Z :=
  match fuel with
  | O => undefined
  | S fuel =>
      let! root := DEREFNODEPTR rootp in
      if root =? 0 then ret 0
      else
        let! k := node_key root in
        let r := compar key k in
        if r =? 0 then ret root
        else tfind_loop fuel key (if r <? 0 then LEFTPTR root else RIGHTPTR root)
  end.

Definition __tfind (fuel : nat) (key : Z) (vrootp : option cell) : T Z :=
  match vrootp with
  | None => ret 0
  | Some rootp => tfind_loop fuel key rootp
  end.

(** ** Deletion *)

(** [nodestack], top first, with the [stacksize] of its allocation. *)
Record nodestack := Stack { stk : list cell; stacksize : Z }.

Definition sp (s : nodestack) : Z := Z.of_nat (length (stk s)).

(** [if (sp == stacksize) { grow } nodestack[sp++] = c;] *)
Definition push_grow (c : cell) (s : nodestack) : nodestack :=
  let s := if sp s =? stacksize s then Stack (stk s) (stacksize s + 20) else s in
  Stack (c :: stk s) (stacksize s).

(** [nodestack[sp++] = c;] as the rebalancing loop does it, with no check. *)
Definition push_raw (c : cell) (s : nodestack) : T nodestack :=
  if sp s <? stacksize s then ret (Stack (c :: stk s) (stacksize s)) else undefined.

(** Lower [sp] to [n]. *)
Definition set_sp (n : nat) (s : nodestack) : nodestack :=
  Stack (drop (length (stk s) - n) (stk s)) (stacksize s).

(** The search: [Some (rootp, p, stack)] when a node with the key is at
    [rootp], with [p] its parent. *)
Fixpoint tdelete_find (fuel : nat) (key : Z) (rootp : cell) (root p : Z) (s : nodestack)
    : T (option (cell * Z * nodestack)) :=
  match fuel with
  | O => undefined
  | S fuel =>
      let! k := node_key root in
      let cmp := compar key k in
      if cmp =? 0 then ret (Some (rootp, p, s))
      else
        let s := push_grow rootp s in
        let! p := DEREFNODEPTR rootp in
        let! root := if cmp <? 0 then LEFT p else RIGHT p in
        let rootp := if cmp <? 0 then LEFTPTR p else RIGHTPTR p in
        if root =? 0 then ret None else tdelete_find fuel key rootp root p s
  end.

(** The [for] loop down the left spine of the right subtree; returns [up]. *)
Fixpoint tdelete_successor (fuel : nat) (parentp up : cell) (s : nodestack)
    : T (cell * nodestack) :=
  match fuel with
  | O => undefined
  | S fuel =>
      let s := push_grow parentp s in
      let! upn := DEREFNODEPTR up in
      let! l := LEFT upn in
      if l =? 0 then ret (up, s) else tdelete_successor fuel up (LEFTPTR upn) s
  end.

(** [n == NULL || !RED (n)] *)
Definition black_or_null (n : Z) : T bool := or_else (ret (n =? 0)) (negM (RED n)).

(** [if (RED (p)) SETRED (n); else SETBLACK (n);] *)
Definition copy_colour (p n : Z) : T unit :=
  let! c := RED p in if c then SETRED n else SETBLACK n.

(** The brother [q] of [r] is red: rotate [p] so that [r] gets a black one. *)
Definition red_brother_left (p q : Z) (pp : cell) (s : nodestack) : T (Z * cell * nodestack) :=
  SETBLACK q;;
  SETRED p;;
  let! ql := LEFT q in
  SETRIGHT p ql;;
  SETLEFT q p;;
  SETNODEPTR pp q;;
  let! s := push_raw (LEFTPTR q) s in
  let! q' := RIGHT p in
  ret (q', LEFTPTR q, s).

(** [q] is black and has a red son: the repair that ends the loop. *)
Definition repair_left (p q : Z) (pp : cell) : T unit :=
  let! qr := RIGHT q in
  let! left_red := black_or_null qr in
  if left_red then
    let! q2 := LEFT q in
    copy_colour p q2;;
    let! q2l := LEFT q2 in
    SETRIGHT p q2l;;
    let! q2r := RIGHT q2 in
    SETLEFT q q2r;;
    SETRIGHT q2 q;;
    SETLEFT q2 p;;
    SETNODEPTR pp q2;;
    SETBLACK p
  else
    copy_colour p q;;
    SETBLACK p;;
    let! qr := RIGHT q in
    SETBLACK qr;;
    let! ql := LEFT q in
    SETRIGHT p ql;;
    SETLEFT q p;;
    SETNODEPTR pp q.

(** The rest of the iteration: [q] is black, make it red or repair. *)
Definition black_brother_left (p q : Z) (pp : cell) (s : nodestack) : T (Z * nodestack) :=
  let! ql := LEFT q in
  let! qr := RIGHT q in
  let! plain := and_then (black_or_null ql) (black_or_null qr) in
  if plain then
    SETRED q;;
    ret (p, s)
  else
    repair_left p q pp;;
    ret (0, set_sp 1 s).

(** One iteration of the rebalancing loop when [r] is the left successor of
    [p]: the new [r] and the stack, before [--sp]. *)
Definition rebalance_left (p : Z) (pp : cell) (s : nodestack) : T (Z * nodestack) :=
  let! q := RIGHT p in
  let! red := RED q in
  let! '(q, pp, s) := if red then red_brother_left p q pp s else ret (q, pp, s) in
  black_brother_left p q pp s.

(** The symmetric case. *)
Definition red_brother_right (p q : Z) (pp : cell) (s : nodestack) : T (Z * cell * nodestack) :=
  SETBLACK q;;
  SETRED p;;
  let! qr := RIGHT q in
  SETLEFT p qr;;
  SETRIGHT q p;;
  SETNODEPTR pp q;;
  let! s := push_raw (RIGHTPTR q) s in
  let! q' := LEFT p in
  ret (q', RIGHTPTR q, s).

Definition repair_right (p q : Z) (pp : cell) : T unit :=
  let! ql := LEFT q in
  let! right_red := black_or_null ql in
  if right_red then
    let! q2 := RIGHT q in
    copy_colour p q2;;
    let! q2r := RIGHT q2 in
    SETLEFT p q2r;;
    let! q2l := LEFT q2 in
    SETRIGHT q q2l;;
    SETLEFT q2 q;;
    SETRIGHT q2 p;;
    SETNODEPTR pp q2;;
    SETBLACK p
  else
    copy_colour p q;;
    SETBLACK p;;
    let! ql := LEFT q in
    SETBLACK ql;;
    let! qr := RIGHT q in
    SETLEFT p qr;;
    SETRIGHT q p;;
    SETNODEPTR pp q.

Definition black_brother_right (p q : Z) (pp : cell) (s : nodestack) : T (Z * nodestack) :=
  let! qr := RIGHT q in
  let! ql := LEFT q in
  let! plain := and_then (black_or_null qr) (black_or_null ql) in
  if plain then
    SETRED q;;
    ret (p, s)
  else
    repair_right p q pp;;
    ret (0, set_sp 1 s).

Definition rebalance_right (p : Z) (pp : cell) (s : nodestack) : T (Z * nodestack) :=
  let! q := LEFT p in
  let! red := RED q in
  let! '(q, pp, s) := if red then red_brother_right p q pp s else ret (q, pp, s) in
  black_brother_right p q pp s.

(** [while (sp > 0 && (r == NULL || !RED (r)))]; returns [r]. *)
Fixpoint rebalance (fuel : nat) (r : Z) (s : nodestack) : T Z :=
  match fuel with
  | O => undefined
  | S fuel =>
      match stk s with
      | [] => ret r
      | pp :: _ =>
          let! black := black_or_null r in
          if black then
            let! p := DEREFNODEPTR pp in
            let! l := LEFT p in
            let! '(r, s) :=
              if r =? l then rebalance_left p pp s else rebalance_right p pp s in
            rebalance fuel r (Stack (tail (stk s)) (stacksize s))
          else ret r
      end
  end.

Definition free_node (n : Z) : T unit :=
  fun m => match m !! (n, Fkey) with
  | Some _ => Some (tt, base.delete (n, Fkey) (base.delete (n, Fleft) (base.delete (n, Fright) m)))
  | None => None
  end.

(** R "is chained into the parent of UNCHAINED". *)
Definition unchain (rootp : cell) (s : nodestack) (unchained r : Z) : T unit :=
  match stk s with
  | [] => SETNODEPTR rootp r
  | top :: _ =>
      let! q := DEREFNODEPTR top in
      let! qr := RIGHT q in
      if unchained =? qr then SETRIGHT q r else SETLEFT q r
  end.

(** Balance the tree if a black edge was lost, and free the node. *)
Definition tdelete_finish (fuel : nat) (unchained r : Z) (s : nodestack) : T unit :=
  let! red := RED unchained in
  when (negb red)
    (let! r := rebalance fuel r s in
     when (negb (r =? 0)) (SETBLACK r));;
  free_node unchained.

(** What follows the search: the node at [rootp] is overwritten with its
    successor, which is unchained and freed. *)
Definition tdelete_node (fuel : nat) (rootp : cell) (s : nodestack) : T unit :=
  let! root := DEREFNODEPTR rootp in
  let! r := RIGHT root in
  let! q := LEFT root in
  let! '(unchained, s) :=
    if (q =? 0) || (r =? 0) then ret (root, s)
    else
      let! '(up, s) := tdelete_successor fuel rootp (RIGHTPTR root) s in
      let! u := DEREFNODEPTR up in
      ret (u, s) in
  let! r := LEFT unchained in
  let! r := if r =? 0 then RIGHT unchained else ret r in
  unchain rootp s unchained r;;
  when (negb (unchained =? root))
    (let! k := node_key unchained in store (root, Fkey) k);;
  tdelete_finish fuel unchained r s.

Definition __tdelete (fuel : nat) (key : Z) (vrootp : option cell) : T Z :=
  match vrootp with
  | None => ret 0
  | Some rootp =>
      let! p := DEREFNODEPTR rootp in
      if p =? 0 then ret 0
      else
        let! found := tdelete_find fuel key rootp p p (Stack [] 40) in
        match found with
        | None => ret 0
        | Some (rootp, retval, s) => tdelete_node fuel rootp s;; ret retval
        end
  end.
End Compar.

(** ** Walking and destroying *)

Inductive VISIT := preorder | postorder | endorder | leaf.

(** The calls of [action] made by [trecurse], in order. *)
Fixpoint trecurse (fuel : nat) (root level : Z) : T (list (Z * VISIT * Z)) :=
  match fuel with
  | O => undefined
  | S fuel =>
      let! l := LEFT root in
      let! r := RIGHT root in
      if (l =? 0) && (r =? 0) then ret [(root, leaf, level)]
      else
        let! ls := if negb (l =? 0) then trecurse fuel l (level + 1) else ret [] in
        let! r := RIGHT root in
        let! rs := if negb (r =? 0) then trecurse fuel r (level + 1) else ret [] in
        ret ((root, preorder, level) :: ls ++ (root, postorder, level) :: rs
             ++ [(root, endorder, level)])
  end.

Definition __twalk (fuel : nat) (vroot : Z) (action : bool) : T (list (Z * VISIT * Z)) :=
  if negb (vroot =? 0) && action then trecurse fuel vroot 0 else ret [].

(** [trecurse_r] passes the caller's closure instead of the level. *)
Fixpoint trecurse_r (fuel : nat) (root closure : Z) : T (list (Z * VISIT * Z)) :=
  match fuel with
  | O => undefined
  | S fuel =>
      let! l := LEFT root in
      let! r := RIGHT root in
      if (l =? 0) && (r =? 0) then ret [(root, leaf, closure)]
      else
        let! ls := if negb (l =? 0) then trecurse_r fuel l closure else ret [] in
        let! r := RIGHT root in
        let! rs := if negb (r =? 0) then trecurse_r fuel r closure else ret [] in
        ret ((root, preorder, closure) :: ls ++ (root, postorder, closure) :: rs
             ++ [(root, endorder, closure)])
  end.

Definition __twalk_r (fuel : nat) (vroot : Z) (action : bool) (closure : Z)
    : T (list (Z * VISIT * Z)) :=
  if negb (vroot =? 0) && action then trecurse_r fuel vroot closure else ret [].

(** The arguments of the calls of [freefct], in order; every node is freed. *)
Fixpoint tdestroy_recurse (fuel : nat) (root : Z) : T (list Z) :=
  match fuel with
  | O => undefined
  | S fuel =>
      let! l := LEFT root in
      let! ls := if negb (l =? 0) then tdestroy_recurse fuel l else ret [] in
      let! r := RIGHT root in
      let! rs := if negb (r =? 0) then tdestroy_recurse fuel r else ret [] in
      let! k := node_key root in
      free_node root;;
      ret (ls ++ rs ++ [k])
  end.

Definition __tdestroy (fuel : nat) (vroot : Z) : T (list Z) :=
  if negb (vroot =? 0) then tdestroy_recurse fuel vroot else ret [].
