(* ===== verification/TsearchRep.v ===== *)
(** * Search trees in memory

    The functional trees that the nodes of [misc/tsearch.c] form, the
    contexts that a [node *] on a search path points into ([loc]), the
    relation between both and the memory ([zrep]), and what the access
    macros do to it. *)

From S2P Require Import Prelude CMonad Tsearch.

Open Scope c_scope.
Open Scope Z_scope.

(** ** Trees with the addresses, colours (red: [true]) and keys of nodes *)

Inductive tree :=
  | Leaf
  | Node (a : Z) (c : bool) (l : tree) (k : Z) (r : tree).

Definition addr (t : tree) : Z := match t with Leaf => 0 | Node a _ _ _ _ => a end.

Fixpoint addrs (t : tree) : list Z :=
  match t with Leaf => [] | Node a _ l _ r => a :: addrs l ++ addrs r end.

(** Nodes with their keys, from left to right. *)
Fixpoint keys (t : tree) : list Z :=
  match t with Leaf => [] | Node _ _ l k r => keys l ++ k :: keys r end.

Definition is_red (t : tree) : bool := match t with Node _ c _ _ _ => c | Leaf => false end.

Definition set_colour (c : bool) (t : tree) : tree :=
  match t with Leaf => Leaf | Node a _ l k r => Node a c l k r end.

Fixpoint height (t : tree) : nat :=
  match t with Leaf => 0 | Node _ _ l _ r => S (height l `max` height r) end.

(** A step of the path from the root: the node, and the subtree on the other
    side. *)
Inductive step :=
  | InLeft (a : Z) (c : bool) (k : Z) (r : tree)
  | InRight (a : Z) (c : bool) (l : tree) (k : Z).

(** A path, innermost step first. *)
Abbreviation path := (list step).

Definition step_addrs (s : step) : list Z :=
  match s with InLeft a _ _ r => a :: addrs r | InRight a _ l _ => a :: addrs l end.
Definition path_addrs (c : path) : list Z := concat (map step_addrs c).

Definition plug1 (s : step) (t : tree) : tree :=
  match s with InLeft a c k r => Node a c t k r | InRight a c l k => Node a c l k t end.

Fixpoint plug (p : path) (t : tree) : tree :=
  match p with [] => t | s :: p => plug p (plug1 s t) end.

Definition step_addr (s : step) : Z :=
  match s with InLeft a _ _ _ => a | InRight a _ _ _ => a end.
Definition step_colour (s : step) : bool :=
  match s with InLeft _ c _ _ => c | InRight _ c _ _ => c end.
Definition sibling (s : step) : tree :=
  match s with InLeft _ _ _ r => r | InRight _ _ l _ => l end.

(** ** Links *)

(** An address that leaves the low bit to the colour. *)
Definition aligned (p : Z) : Prop := Z.land p 1 = 0.

(** A link with a colour in its low bit. *)
Definition enc (p : Z) (c : bool) : Z := Z.lor p (b2z c).

Lemma aligned_mask p : aligned p -> Z.land p (Z.lnot 1) = p.
Proof.
  unfold aligned. intros H. transitivity (Z.land p (Z.lor 1 (Z.lnot 1))).
  - by rewrite Z.land_lor_distr_r, H.
  - apply Z.land_m1_r.
Qed.

Lemma enc_bit p c : aligned p -> Z.land (enc p c) 1 = b2z c.
Proof.
  unfold aligned, enc. intros H. rewrite Z.land_lor_distr_l, H. by destruct c.
Qed.

Lemma enc_ptr p c : aligned p -> Z.land (enc p c) (Z.lnot 1) = p.
Proof.
  intros H. unfold enc. rewrite Z.land_lor_distr_l, (aligned_mask p H).
  destruct c; apply Z.lor_0_r.
Qed.

Lemma enc_false p : enc p false = p.
Proof. apply Z.lor_0_r. Qed.

Lemma enc_red p c : Z.lor (enc p c) 1 = enc p true.
Proof. unfold enc. rewrite <- Z.lor_assoc. by destruct c. Qed.

Lemma enc_relink p c q : aligned p -> Z.lor (Z.land (enc p c) 1) q = enc q c.
Proof. intros H. rewrite enc_bit by done. unfold enc. apply Z.lor_comm. Qed.

(** ** The access macros on encoded links *)

Section Macros.
Variables (m : memory) (a p : Z) (c : bool).
Hypothesis L : m !! (a, Fleft) = Some (enc p c).
Hypothesis A : aligned p.

Lemma RED_ok : RED a m = Some (c, m).
Proof.
  unfold RED, bind, load. rewrite L. unfold ret. rewrite enc_bit by done. by destruct c.
Qed.

Lemma LEFT_ok : LEFT a m = Some (p, m).
Proof. unfold LEFT, bind, load. rewrite L. unfold ret. by rewrite enc_ptr by done. Qed.

Lemma SETRED_ok : SETRED a m = Some (tt, <[(a, Fleft) := enc p true]> m).
Proof. unfold SETRED, bind, load, store. rewrite !L, enc_red. done. Qed.

Lemma SETBLACK_ok : SETBLACK a m = Some (tt, <[(a, Fleft) := enc p false]> m).
Proof.
  unfold SETBLACK, bind, load, store. rewrite !L, enc_ptr, enc_false by done. done.
Qed.

Lemma SETLEFT_ok q : SETLEFT a q m = Some (tt, <[(a, Fleft) := enc q c]> m).
Proof. unfold SETLEFT, bind, load, store. rewrite !L, enc_relink by done. done. Qed.
End Macros.

Lemma RIGHT_ok m a p : m !! (a, Fright) = Some p -> RIGHT a m = Some (p, m).
Proof. unfold RIGHT, load. by intros ->. Qed.

Lemma SETRIGHT_ok m a p q :
  m !! (a, Fright) = Some p -> SETRIGHT a q m = Some (tt, <[(a, Fright) := q]> m).
Proof. unfold SETRIGHT, store. by intros ->. Qed.

Lemma node_key_ok m a k : m !! (a, Fkey) = Some k -> node_key a m = Some (k, m).
Proof. unfold node_key, load. by intros ->. Qed.

Lemma SETNODEPTR_ok m l p c q : m !! l = Some (enc p c) -> aligned p ->
  SETNODEPTR l q m = Some (tt, <[l := enc q c]> m).
Proof. intros L A. unfold SETNODEPTR, bind, load, store. rewrite !L, enc_relink by done. done. Qed.

Lemma DEREFNODEPTR_ok m l p c : m !! l = Some (enc p c) -> aligned p ->
  DEREFNODEPTR l m = Some (p, m).
Proof. intros L A. unfold DEREFNODEPTR, bind, load, ret. rewrite L. by rewrite enc_ptr by done. Qed.

(** ** Trees and paths in memory *)

Fixpoint tree_in (m : memory) (t : tree) : Prop :=
  match t with
  | Leaf => True
  | Node a c l k r =>
      m !! (a, Fkey) = Some k /\ m !! (a, Fleft) = Some (enc (addr l) c) /\
      m !! (a, Fright) = Some (addr r) /\ tree_in m l /\ tree_in m r
  end.

(** The cell that holds the link to the subtree below a path. *)
Definition loc (rp : cell) (p : path) : cell :=
  match p with
  | [] => rp
  | InLeft a _ _ _ :: _ => (a, Fleft)
  | InRight a _ _ _ :: _ => (a, Fright)
  end.

(** The colour bit kept beside that link. *)
Definition loc_colour (p : path) : bool :=
  match p with InLeft _ c _ _ :: _ => c | _ => false end.

(** The path is in memory, with a link to [q] at its end. *)
Fixpoint path_in (m : memory) (rp : cell) (p : path) (q : Z) : Prop :=
  match p with
  | [] => m !! rp = Some q
  | InLeft a c k r :: p =>
      m !! (a, Fkey) = Some k /\ m !! (a, Fleft) = Some (enc q c) /\
      m !! (a, Fright) = Some (addr r) /\ tree_in m r /\ path_in m rp p a
  | InRight a c l k :: p =>
      m !! (a, Fkey) = Some k /\ m !! (a, Fleft) = Some (enc (addr l) c) /\
      m !! (a, Fright) = Some q /\ tree_in m l /\ path_in m rp p a
  end.

Definition node_addr (a : Z) : Prop := a <> 0 /\ aligned a.

(** [t] is in memory below [p]; the nodes are distinct. *)
Record zrep (m : memory) (rp : cell) (p : path) (t : tree) : Prop := {
  zrep_root : rp.2 = Froot;
  zrep_path : path_in m rp p (addr t);
  zrep_tree : tree_in m t;
  zrep_nodup : NoDup (addrs t ++ path_addrs p);
  zrep_aligned : Forall node_addr (addrs t ++ path_addrs p) }.

(** ** Framing *)

(** [m'] has the fields of [m] for the nodes [l]. *)
Definition same_nodes (m m' : memory) (l : list Z) : Prop :=
  forall a f, a ∈ l -> f <> Froot -> m' !! (a, f) = m !! (a, f).

Lemma tree_in_frame m m' t : same_nodes m m' (addrs t) -> tree_in m t -> tree_in m' t.
Proof.
  induction t as [|a c l IHl k r IHr]; [done|]. intros S (K & L & R & Tl & Tr).
  cbn [tree_in addrs] in *. rewrite !S by (done || left).
  split; [done|]. split; [done|]. split; [done|].
  split; [apply IHl|apply IHr]; try done; intros b f Hb; apply S; set_solver.
Qed.

(** The link at the end of a path changes to [q'], the rest stays. *)
Lemma path_in_relink m m' rp p q q' :
  rp.2 = Froot -> NoDup (path_addrs p) -> path_in m rp p q ->
  m' !! loc rp p = Some (enc q' (loc_colour p)) ->
  (forall a f, a ∈ path_addrs p -> f <> Froot -> (a, f) <> loc rp p -> m' !! (a, f) = m !! (a, f)) ->
  (rp <> loc rp p -> m' !! rp = m !! rp) ->
  path_in m' rp p q'.
Proof.
  intros HR. revert q q'. induction p as [|s p IH]; intros q q' ND P L S R.
  { cbn in *. by rewrite enc_false in L. }
  assert (HP : forall b, path_in m rp p b -> step_addr s ∉ path_addrs p ->
    NoDup (path_addrs p) -> path_in m' rp p b).
  { intros b Pb Hs NDp. apply (IH b b); try done.
    - assert (Hl : m !! loc rp p = Some (enc b (loc_colour p))).
      { destruct p as [|[] p]; cbn in Pb |- *; [by rewrite enc_false|tauto|rewrite enc_false; tauto]. }
      rewrite <- Hl. clear Hl. destruct p as [|s' p]; [apply R; destruct s, rp; cbn in *; congruence|].
      assert (Hs' : step_addr s' ∈ path_addrs (s' :: p)) by (destruct s'; left).
      assert (Ne : step_addr s' <> step_addr s) by (intros E; by rewrite E in Hs').
      destruct s'; apply S; try done; (apply elem_of_app; by right) || (destruct s; cbn in *; congruence).
    - intros a f Ha Hf _. apply S; [cbn; apply elem_of_app; by right|done|].
      intros E. destruct s; cbn in E, Hs; simplify_eq; done.
    - intros _. apply R. destruct s, rp; cbn in *; congruence. }
  assert (HT : forall t, tree_in m t -> addrs t ⊆ path_addrs (s :: p) -> step_addr s ∉ addrs t ->
    tree_in m' t).
  { intros t Tt Hi Hs. eapply tree_in_frame; [|done]. intros b f Hb Hf. apply S; [by apply Hi|done|].
    destruct s; cbn in *; intros E; simplify_eq; done. }
  destruct s as [a c k r|a c l k]; cbn in ND, P, L, S, HP, HT |- *;
    destruct P as (K & Lf & Rt & Tr & Pp); apply list.NoDup_cons in ND as [Na ND];
    rewrite not_elem_of_app in Na; apply list.NoDup_app in ND as (ND1 & ND2 & ND3); destruct Na as [Na1 Na2].
  - rewrite (S a Fkey), (S a Fright) by (set_solver || congruence). split_and!; try done.
    + apply HT; [done|set_solver|done].
    + by apply HP.
  - rewrite (S a Fkey), (S a Fleft) by (set_solver || congruence).
    rewrite enc_false in L. split_and!; try done.
    + apply HT; [done|set_solver|done].
    + by apply HP.
Qed.

(** ** Moving along a path *)

Lemma zrep_left m rp p a c l k r :
  zrep m rp p (Node a c l k r) <-> zrep m rp (InLeft a c k r :: p) l.
Proof.
  assert (E : addrs l ++ path_addrs (InLeft a c k r :: p)
    ≡ₚ addrs (Node a c l k r) ++ path_addrs p) by (cbn; solve_Permutation).
  split; intros [H1 H2 H3 H4 H5]; (split; [done|..]).
  - cbn in *. tauto.
  - cbn in *. tauto.
  - by rewrite E.
  - by rewrite E.
  - cbn in *. tauto.
  - cbn in *. tauto.
  - by rewrite <- E.
  - by rewrite <- E.
Qed.

Lemma zrep_right m rp p a c l k r :
  zrep m rp p (Node a c l k r) <-> zrep m rp (InRight a c l k :: p) r.
Proof.
  assert (E : addrs r ++ path_addrs (InRight a c l k :: p)
    ≡ₚ addrs (Node a c l k r) ++ path_addrs p) by (cbn; solve_Permutation).
  split; intros [H1 H2 H3 H4 H5]; (split; [done|..]).
  - cbn in *. tauto.
  - cbn in *. tauto.
  - by rewrite E.
  - by rewrite E.
  - cbn in *. tauto.
  - cbn in *. tauto.
  - by rewrite <- E.
  - by rewrite <- E.
Qed.

Lemma zrep_plug m rp p q t : zrep m rp (p ++ q) t <-> zrep m rp q (plug p t).
Proof.
  revert t. induction p as [|s p IH]; intros t; [done|]. cbn [app plug]. rewrite <- IH.
  destruct s; cbn [plug1]; [by rewrite zrep_left|by rewrite zrep_right].
Qed.

(** A different tree with the same nodes at the end of the path. *)
Lemma zrep_replace m m' rp p t t' :
  zrep m rp p t -> addrs t' ≡ₚ addrs t -> tree_in m' t' ->
  m' !! loc rp p = Some (enc (addr t') (loc_colour p)) ->
  (forall c, c <> loc rp p -> c.1 ∉ addrs t \/ c.2 = Froot -> m' !! c = m !! c) ->
  zrep m' rp p t'.
Proof.
  intros [H1 H2 H3 H4 H5] E T' L S. split; [done| |done|by rewrite E|by rewrite E].
  apply list.NoDup_app in H4 as (N1 & N2 & N3).
  eapply path_in_relink; [done..| |].
  - intros a f Ha Hf Hl. apply S; [done|]. left. intros Ha'. by apply (N2 a).
  - intros Hl. apply S; [done|]. by right.
Qed.

Lemma zrep_loc m rp p t : zrep m rp p t ->
  m !! loc rp p = Some (enc (addr t) (loc_colour p)).
Proof.
  intros [_ P _ _ _]. destruct p as [|[] p]; cbn in P |- *;
    [by rewrite enc_false|tauto|rewrite enc_false; tauto].
Qed.

Lemma zrep_addr_aligned m rp p t : zrep m rp p t -> aligned (addr t).
Proof.
  intros [_ _ _ _ A]. destruct t; [done|]. cbn in A. apply list.Forall_cons in A as [[_ A] _]. done.
Qed.

Lemma zrep_deref m rp p t : zrep m rp p t -> DEREFNODEPTR (loc rp p) m = Some (addr t, m).
Proof.
  intros R. eapply DEREFNODEPTR_ok; [by apply zrep_loc|by eapply zrep_addr_aligned].
Qed.

Lemma zrep_loc_ne m rp p t a f :
  zrep m rp p t -> a ∈ addrs t -> f <> Froot -> loc rp p <> (a, f).
Proof.
  intros [H1 _ _ H4 _] Ha Hf. apply list.NoDup_app in H4 as (_ & N & _).
  destruct p as [|s p]; [intros E; cbn in E; by rewrite E in H1|].
  intros E. apply (N a Ha). apply elem_of_app. left. destruct s; cbn in *; simplify_eq; left.
Qed.

Lemma subtree_aligned t l : Forall node_addr l -> addrs t ⊆ l -> aligned (addr t).
Proof.
  intros A S. destruct t as [|a c l' k r]; [done|]. rewrite list.Forall_forall in A.
  apply (A a). apply S. left.
Qed.

(** ** Colours *)

Lemma zrep_colour m rp p a c c' l k r :
  zrep m rp p (Node a c l k r) ->
  zrep (<[(a, Fleft) := enc (addr l) c']> m) rp p (Node a c' l k r).
Proof.
  intros R. pose proof (zrep_loc_ne _ _ _ _ a Fleft R ltac:(left) ltac:(done)) as NL.
  eapply zrep_replace; [exact R|done| | |].
  - pose proof (zrep_nodup _ _ _ _ R) as ND. cbn in ND. apply list.NoDup_cons in ND as [Na _].
    rewrite !not_elem_of_app in Na. destruct Na as [[Nl Nr] _].
    pose proof (zrep_tree _ _ _ _ R) as TT. cbn [tree_in] in TT |- *.
    destruct TT as (K & Lf & Rt & Tl & Tr).
    rewrite lookup_insert_eq, !lookup_insert_ne by congruence.
    split_and!; try done; (eapply tree_in_frame; [|done]; intros b f Hb Hf;
      apply lookup_insert_ne; congruence).
  - rewrite lookup_insert_ne by done. by apply (zrep_loc _ _ _ _ R).
  - intros c0 H0 H1. apply lookup_insert_ne. intros <-. destruct H1 as [H1|H1]; [|done].
    apply H1. left.
Qed.

Section Colours.
Variables (m : memory) (rp : cell) (p : path) (a : Z) (c : bool) (l : tree) (k : Z) (r : tree).
Hypothesis R : zrep m rp p (Node a c l k r).

Lemma zrep_left_aligned : aligned (addr l).
Proof. eapply zrep_addr_aligned. by apply (proj1 (zrep_left m rp p a c l k r)). Qed.

Lemma zrep_RED : RED a m = Some (c, m).
Proof. eapply RED_ok; [apply (zrep_tree _ _ _ _ R)|apply zrep_left_aligned]. Qed.

Lemma zrep_LEFT : LEFT a m = Some (addr l, m).
Proof. eapply LEFT_ok; [apply (zrep_tree _ _ _ _ R)|apply zrep_left_aligned]. Qed.

Lemma zrep_RIGHT : RIGHT a m = Some (addr r, m).
Proof. apply RIGHT_ok, (zrep_tree _ _ _ _ R). Qed.

Lemma zrep_key : node_key a m = Some (k, m).
Proof. apply node_key_ok, (zrep_tree _ _ _ _ R). Qed.

Lemma zrep_SETRED :
  exists m', SETRED a m = Some (tt, m') /\ zrep m' rp p (Node a true l k r).
Proof.
  eexists. split; [eapply SETRED_ok, (zrep_tree _ _ _ _ R)|].
  by eapply zrep_colour.
Qed.

Lemma zrep_SETBLACK :
  exists m', SETBLACK a m = Some (tt, m') /\ zrep m' rp p (Node a false l k r).
Proof.
  eexists. split; [eapply SETBLACK_ok; [apply (zrep_tree _ _ _ _ R)|apply zrep_left_aligned]|].
  by eapply zrep_colour.
Qed.

Lemma zrep_addr_nonzero : a <> 0.
Proof.
  pose proof (zrep_aligned _ _ _ _ R) as A. cbn in A. by apply list.Forall_cons in A as [[] _].
Qed.
End Colours.

(** [black_or_null] on a subtree. *)
Lemma zrep_black m rp p t : zrep m rp p t ->
  black_or_null (addr t) m = Some (negb (is_red t), m).
Proof.
  intros R. unfold black_or_null, or_else, negM, bind, ret. destruct t as [|a c l k r]; [done|].
  cbn [addr]. destruct (Z.eqb_spec a 0) as [E|_]; [by destruct (zrep_addr_nonzero _ _ _ _ _ _ _ _ R)|].
  by rewrite (zrep_RED _ _ _ _ _ _ _ _ R).
Qed.

(** [if (n) SETBLACK (n);] on a subtree. *)
Lemma zrep_when_black m rp p t : zrep m rp p t ->
  exists m', when (negb (addr t =? 0)) (SETBLACK (addr t)) m = Some (tt, m') /\
  zrep m' rp p (set_colour false t).
Proof.
  intros R. destruct t as [|a c l k r]; [by exists m|]. cbn [addr set_colour].
  destruct (Z.eqb_spec a 0) as [E|_]; [by destruct (zrep_addr_nonzero _ _ _ _ _ _ _ _ R)|].
  by apply (zrep_SETBLACK _ _ _ _ c).
Qed.

Lemma zrep_null m rp p t : zrep m rp p t -> addr t = 0 -> t = Leaf.
Proof.
  intros R E. destruct t as [|a c l k r]; [done|]. cbn in E.
  by destruct (zrep_addr_nonzero _ _ _ _ _ _ _ _ R).
Qed.

(** ** Rotations *)

(** Rewiring the links among the nodes [ns], with the subtrees [subs] below
    them untouched. *)
Lemma zrep_rewire (ns : list Z) (subs : list tree) m m' rp p t t' :
  zrep m rp p t -> addrs t ≡ₚ ns ++ concat (map addrs subs) -> addrs t' ≡ₚ addrs t ->
  Forall (tree_in m) subs ->
  m' !! loc rp p = Some (enc (addr t') (loc_colour p)) ->
  (forall c, c <> loc rp p -> c.1 ∉ ns \/ c.2 = Froot -> m' !! c = m !! c) ->
  (NoDup ns -> (forall a f, a ∈ ns -> f <> Froot -> loc rp p <> (a, f)) ->
   Forall (tree_in m') subs -> tree_in m' t') ->
  zrep m' rp p t'.
Proof.
  intros R EN E TS L S K. pose proof (zrep_nodup _ _ _ _ R) as ND.
  apply list.NoDup_app in ND as (ND & _ & _). rewrite EN in ND.
  apply list.NoDup_app in ND as (N1 & N2 & _).
  eapply zrep_replace; [exact R|done| |done|].
  - apply K; [done| |].
    + intros a f Ha Hf. apply (zrep_loc_ne _ _ _ _ _ _ R); [|done]. rewrite EN. set_solver.
    + rewrite list.Forall_forall in TS |- *. intros s Hs. eapply tree_in_frame; [|by apply TS].
      intros b f Hb Hf.
      assert (Hb' : b ∈ concat (map addrs subs)).
      { apply list_elem_of_In, in_concat. exists (addrs s).
        split; [apply in_map|]; by apply list_elem_of_In. }
      apply S.
      * apply not_eq_sym, (zrep_loc_ne _ _ _ _ _ _ R); [|done]. rewrite EN. set_solver.
      * left. intros Hn. by apply (N2 b).
  - intros c Hc H. apply S; [done|]. destruct H as [H|H]; [left|by right].
    rewrite EN in H. set_solver.
Qed.

(** The nodes [ns] of a tree in memory, by name. *)
Lemma zrep_names (ns : list Z) (subs : list tree) m rp p t :
  zrep m rp p t -> addrs t ≡ₚ ns ++ concat (map addrs subs) ->
  NoDup ns /\ Forall aligned ns /\ Forall (fun s => aligned (addr s)) subs /\
  Forall (fun a => loc rp p <> (a, Fkey) /\ loc rp p <> (a, Fleft) /\ loc rp p <> (a, Fright)) ns.
Proof.
  intros R E. pose proof (zrep_nodup _ _ _ _ R) as ND. pose proof (zrep_aligned _ _ _ _ R) as AL.
  apply list.NoDup_app in ND as (ND & _ & _). rewrite E in ND. rewrite E in AL.
  apply list.NoDup_app in ND as (N1 & _ & _).
  rewrite <- (assoc app) in AL. apply list.Forall_app in AL as [A1 A2].
  apply list.Forall_app in A2 as [A2 _].
  split; [done|]. split; [by eapply list.Forall_impl; [exact A1|intros a []]|]. split.
  - rewrite list.Forall_forall. intros s Hs. eapply subtree_aligned; [exact A2|].
    intros b Hb. apply list_elem_of_In, in_concat. exists (addrs s).
    split; [apply in_map|]; by apply list_elem_of_In.
  - rewrite list.Forall_forall. intros a Ha.
    assert (a ∈ addrs t) by (rewrite E; set_solver).
    split_and!; by apply (zrep_loc_ne _ _ _ _ _ _ R).
Qed.

Ltac zopen ns subs R :=
  let TT := fresh "TT" in let N := fresh "N" in let L := fresh "L" in
  pose proof (zrep_tree _ _ _ _ R) as TT; cbn [tree_in addr] in TT; destruct_and! TT;
  pose proof (zrep_loc _ _ _ _ R) as L; cbn [addr] in L;
  assert (N := zrep_names ns subs _ _ _ _ R); specialize (N ltac:(cbn; solve_Permutation));
  rewrite ?list.NoDup_cons, ?not_elem_of_cons, ?list.Forall_cons in N; destruct_and! N.

(** Decide the cells of a rewired memory. *)
Ltac cell_cases :=
  repeat first [ rewrite lookup_insert | case_decide ]; simplify_eq; try done; try congruence.

(** Discharge [zrep_rewire] for the nodes [ns] and the subtrees [subs], with
    the new memory given cell by cell in [E]. *)
Ltac rewire ns subs R E :=
  let TT := fresh in
  pose proof (zrep_tree _ _ _ _ R) as TT; cbn [tree_in] in TT; destruct_and! TT;
  apply (zrep_rewire ns subs _ _ _ _ _ _ R);
  [ cbn; solve_Permutation | cbn; solve_Permutation | by repeat constructor
  | rewrite E; by rewrite decide_True
  | intros c Hc Hn; rewrite E; repeat case_decide; simplify_eq; cbn in Hn; try done;
    destruct Hn as [Hn|Hn]; try done; destruct Hn;
    repeat first [left; reflexivity|right]
  | let ND := fresh in let NL := fresh in let TS := fresh in
    intros ND NL TS; rewrite !list.Forall_cons in TS; destruct_and! TS;
    rewrite !list.NoDup_cons, !not_elem_of_cons in ND; destruct_and! ND;
    repeat match goal with
    | n : Z |- _ =>
        match goal with _ : loc _ _ <> (n, Fkey) |- _ => fail 1 | _ => idtac end;
        pose proof (NL n Fkey ltac:(repeat first [left; reflexivity|right]) ltac:(done));
        pose proof (NL n Fleft ltac:(repeat first [left; reflexivity|right]) ltac:(done));
        pose proof (NL n Fright ltac:(repeat first [left; reflexivity|right]) ltac:(done))
    end; clear NL; cbn [tree_in addr]; rewrite !E;
    repeat match goal with |- _ /\ _ => split end; cell_cases ].

Lemma rotate_left_rep m m' rp pth p c1 c1' A k1 q c2 c2' Bt k2 Ct :
  zrep m rp pth (Node p c1 A k1 (Node q c2 Bt k2 Ct)) ->
  (forall c, m' !! c = if decide (c = loc rp pth) then Some (enc q (loc_colour pth))
    else if decide (c = (q, Fleft)) then Some (enc p c2')
    else if decide (c = (p, Fright)) then Some (addr Bt)
    else if decide (c = (p, Fleft)) then Some (enc (addr A) c1') else m !! c) ->
  zrep m' rp pth (Node q c2' (Node p c1' A k1 Bt) k2 Ct).
Proof. intros R E. rewire [p; q] [A; Bt; Ct] R E. Qed.

Lemma rotate_right_rep m m' rp pth p c1 c1' A k1 q c2 c2' Bt k2 Ct :
  zrep m rp pth (Node p c1 (Node q c2 A k2 Bt) k1 Ct) ->
  (forall c, m' !! c = if decide (c = loc rp pth) then Some (enc q (loc_colour pth))
    else if decide (c = (q, Fright)) then Some p
    else if decide (c = (q, Fleft)) then Some (enc (addr A) c2')
    else if decide (c = (p, Fleft)) then Some (enc (addr Bt) c1') else m !! c) ->
  zrep m' rp pth (Node q c2' A k2 (Node p c1' Bt k1 Ct)).
Proof. intros R E. rewire [p; q] [A; Bt; Ct] R E. Qed.

(** [x], below the left son [p] of [g], becomes the top. *)
Lemma rotate_left_right_rep m m' rp pth g cg cg' A kg p cp cp' x cx cx' Bt kx Ct kp Dt :
  zrep m rp pth (Node g cg (Node p cp A kp (Node x cx Bt kx Ct)) kg Dt) ->
  (forall c, m' !! c = if decide (c = loc rp pth) then Some (enc x (loc_colour pth))
    else if decide (c = (x, Fleft)) then Some (enc p cx')
    else if decide (c = (x, Fright)) then Some g
    else if decide (c = (p, Fleft)) then Some (enc (addr A) cp')
    else if decide (c = (p, Fright)) then Some (addr Bt)
    else if decide (c = (g, Fleft)) then Some (enc (addr Ct) cg') else m !! c) ->
  zrep m' rp pth (Node x cx' (Node p cp' A kp Bt) kx (Node g cg' Ct kg Dt)).
Proof. intros R E. rewire [g; p; x] [A; Bt; Ct; Dt] R E. Qed.

Lemma rotate_right_left_rep m m' rp pth g cg cg' A kg p cp cp' x cx cx' Bt kx Ct kp Dt :
  zrep m rp pth (Node g cg A kg (Node p cp (Node x cx Bt kx Ct) kp Dt)) ->
  (forall c, m' !! c = if decide (c = loc rp pth) then Some (enc x (loc_colour pth))
    else if decide (c = (x, Fleft)) then Some (enc g cx')
    else if decide (c = (x, Fright)) then Some p
    else if decide (c = (g, Fleft)) then Some (enc (addr A) cg')
    else if decide (c = (g, Fright)) then Some (addr Bt)
    else if decide (c = (p, Fleft)) then Some (enc (addr Ct) cp') else m !! c) ->
  zrep m' rp pth (Node x cx' (Node g cg' A kg Bt) kx (Node p cp' Ct kp Dt)).
Proof. intros R E. rewire [g; p; x] [A; Bt; Ct; Dt] R E. Qed.
