(* ===== verification/TsearchInsert.v ===== *)
(** * Insertion and lookup in search trees

    [maybe_split_for_insert] on the trees of [TsearchRep], the red-black
    invariant, and what [__tsearch] and [__tfind] do: the descent splits and
    rotates on the way down, reaches the place of the key, and leaves a
    red-black tree with the key in order. *)

From S2P Require Import Prelude CMonad Tsearch TsearchRep.

Open Scope c_scope.
Open Scope Z_scope.

(** ** Running straight-line code *)

(** Look up a cell in a memory with pending stores. *)
Ltac lk :=
  repeat first
  [ rewrite lookup_insert_eq
  | rewrite lookup_insert_ne by congruence ];
  first [ eassumption | reflexivity
        | match goal with |- Some ?v = Some (enc _ _) =>
            rewrite <- (enc_false v) at 1; reflexivity end
        | match goal with |- ?m !! ?c = Some (enc _ _) =>
            match goal with H : m !! c = Some ?v |- _ =>
              rewrite H, <- (enc_false v) at 1; reflexivity end end ].

Ltac run1 :=
  match goal with
  | |- bind (bind _ _) _ _ = _ => rewrite bind_bind
  | |- bind (SETRED _) _ _ = _ => erewrite bind_some by (eapply SETRED_ok; lk)
  | |- bind (SETBLACK _) _ _ = _ => erewrite bind_some by (eapply SETBLACK_ok; [lk|try assumption])
  | |- bind (SETLEFT _ _) _ _ = _ => erewrite bind_some by (eapply SETLEFT_ok; [lk|try assumption])
  | |- bind (SETRIGHT _ _) _ _ = _ => erewrite bind_some by (eapply SETRIGHT_ok; lk)
  | |- bind (SETNODEPTR _ _) _ _ = _ => erewrite bind_some by (eapply SETNODEPTR_ok; [lk|try assumption])
  | |- bind (DEREFNODEPTR _) _ _ = _ => erewrite bind_some by (eapply DEREFNODEPTR_ok; [lk|try assumption])
  | |- bind (LEFT _) _ _ = _ => erewrite bind_some by (eapply LEFT_ok; [lk|try assumption])
  | |- bind (RIGHT _) _ _ = _ => erewrite bind_some by (eapply RIGHT_ok; lk)
  | |- bind (RED _) _ _ = _ => erewrite bind_some by (eapply RED_ok; [lk|try assumption])
  | |- SETRED _ _ = _ => eapply SETRED_ok; lk
  | |- SETBLACK _ _ = _ => eapply SETBLACK_ok; [lk|try assumption]
  | |- SETLEFT _ _ _ = _ => eapply SETLEFT_ok; [lk|try assumption]
  | |- SETRIGHT _ _ _ = _ => eapply SETRIGHT_ok; lk
  | |- SETNODEPTR _ _ _ = _ => eapply SETNODEPTR_ok; [lk|try assumption]
  end.

(** Compare a memory with pending stores with its description. *)
Ltac compare_cells :=
  intros ?;
  repeat match goal with |- _ = (if decide (?c = ?d) then _ else _) =>
    destruct (decide (c = d)) as [->|?];
    [ repeat first [ rewrite lookup_insert_eq | rewrite lookup_insert_ne by congruence ];
      first [ done | rewrite ?enc_false; done ] | ] end;
  repeat match goal with |- context [<[?d := _]> _ !! ?c] =>
    first [ rewrite lookup_insert_eq | rewrite (lookup_insert_ne _ d c) by congruence
          | destruct (decide (d = c)) as [<-|?] ] end; done.

(** ** The rotations of [maybe_split_for_insert] *)

Section Rotations.
Variables (m : memory) (rp : cell) (pth : path) (g : Z) (cg : bool) (p : Z) (cp : bool) (kp kg : Z).
Variables (p_r gp_r : Z).

(** Execute the rotation, then compare the memory cell by cell. *)
Ltac rotation rep :=
  unfold split_rotate; cbn [deref_opt SETNODEPTR_opt]; eexists; split;
  [ do 2 run1;
    repeat first [ rewrite (proj2 (Z.ltb_ge 0 _)) by lia | rewrite (proj2 (Z.ltb_lt _ _)) by lia
                 | rewrite (proj2 (Z.ltb_ge _ 0)) by lia ];
    cbn [eqb negb]; repeat run1
  | eapply rep; [eassumption|]; compare_cells ].

Lemma split_rotate_LL X Ct Dt root r1 r2 n1 n2 :
  zrep m rp pth (Node g cg (Node p cp X kp Ct) kg Dt) -> p_r < 0 -> gp_r < 0 ->
  exists m', split_rotate root r1 r2 n1 n2 (g, Fleft) (Some (loc rp pth)) p_r gp_r m = Some (tt, m') /\
  zrep m' rp pth (Node p false X kp (Node g true Ct kg Dt)).
Proof. intros R Hp Hg. zopen [g; p] [X; Ct; Dt] R. rotation rotate_right_rep. Qed.

Lemma split_rotate_RR X Ct Dt root r1 r2 n1 n2 :
  zrep m rp pth (Node g cg Dt kg (Node p cp Ct kp X)) -> 0 < p_r -> 0 < gp_r ->
  exists m', split_rotate root r1 r2 n1 n2 (g, Fright) (Some (loc rp pth)) p_r gp_r m = Some (tt, m') /\
  zrep m' rp pth (Node p false (Node g true Dt kg Ct) kp X).
Proof. intros R Hp Hg. zopen [g; p] [X; Ct; Dt] R. rotation rotate_left_rep. Qed.

Lemma split_rotate_LR A x cx Bt kx Ct Dt :
  zrep m rp pth (Node g cg (Node p cp A kp (Node x cx Bt kx Ct)) kg Dt) -> 0 < p_r -> gp_r < 0 ->
  exists m', split_rotate x (x, Fright) (x, Fleft) (addr Ct) (addr Bt) (g, Fleft)
    (Some (loc rp pth)) p_r gp_r m = Some (tt, m') /\
  zrep m' rp pth (Node x false (Node p true A kp Bt) kx (Node g true Ct kg Dt)).
Proof. intros R Hp Hg. zopen [g; p; x] [A; Bt; Ct; Dt] R. rotation rotate_left_right_rep. Qed.

Lemma split_rotate_RL A x cx Bt kx Ct Dt :
  zrep m rp pth (Node g cg A kg (Node p cp (Node x cx Bt kx Ct) kp Dt)) -> p_r < 0 -> 0 < gp_r ->
  exists m', split_rotate x (x, Fright) (x, Fleft) (addr Ct) (addr Bt) (g, Fright)
    (Some (loc rp pth)) p_r gp_r m = Some (tt, m') /\
  zrep m' rp pth (Node x false (Node g true A kg Bt) kx (Node p true Ct kp Dt)).
Proof. intros R Hp Hg. zopen [g; p; x] [A; Bt; Ct; Dt] R. rotation rotate_right_left_rep. Qed.
End Rotations.

(** ** The red-black invariant *)

(** The number of black nodes on every path, when it is the same on all of
    them and no red node has a red son (what [check_tree] asserts). *)
Fixpoint black_height (t : tree) : option nat :=
  match t with
  | Leaf => Some 0%nat
  | Node _ c l _ r =>
      match black_height l, black_height r with
      | Some a, Some b =>
          if bool_decide (a = b) && negb (c && (is_red l || is_red r))
          then Some (if c then a else S a) else None
      | _, _ => None
      end
  end.

Definition rb (t : tree) (n : nat) : Prop := black_height t = Some n.

Lemma rb_leaf n : rb Leaf n <-> n = 0%nat.
Proof. unfold rb. simpl. split; congruence. Qed.

Lemma rb_red a l k r n :
  rb (Node a true l k r) n <-> rb l n /\ rb r n /\ is_red l = false /\ is_red r = false.
Proof.
  unfold rb. simpl. destruct (black_height l) as [x|], (black_height r) as [y|];
    try (split; [done|naive_solver]).
  case_bool_decide as E; destruct (is_red l), (is_red r); simpl; naive_solver.
Qed.

Lemma rb_black a l k r n :
  rb (Node a false l k r) n <-> exists n', n = S n' /\ rb l n' /\ rb r n'.
Proof.
  unfold rb. simpl. destruct (black_height l) as [x|], (black_height r) as [y|];
    try (split; [done|naive_solver]).
  case_bool_decide as E; simpl; naive_solver.
Qed.

Lemma rb_black_S a l k r n : rb (Node a false l k r) (S n) <-> rb l n /\ rb r n.
Proof. rewrite rb_black. split; [intros (n' & [= <-] & ?)|exists n]; done. Qed.

Definition head_red (p : path) : bool :=
  match p with s :: _ => step_colour s | [] => false end.

(** A tree of black height [n] fits at the end of the path; its root must be
    black below a red node. *)
Fixpoint path_rb (p : path) (n : nat) : Prop :=
  match p with
  | [] => True
  | s :: p =>
      rb (sibling s) n /\
      (step_colour s = true -> is_red (sibling s) = false /\ head_red p = false) /\
      path_rb p (if step_colour s then n else S n)
  end.

Definition fits (p : path) (t : tree) (n : nat) : Prop :=
  rb t n /\ path_rb p n /\ (head_red p = true -> is_red t = false).

Lemma fits_plug1 s p t n :
  fits (s :: p) t n <-> fits p (plug1 s t) (if step_colour s then n else S n).
Proof.
  unfold fits. destruct s as [a c k r|a c l k]; cbn [sibling step_colour plug1 path_rb head_red];
    destruct c; rewrite ?rb_red, ?rb_black_S; cbn [is_red]; destruct (head_red p);
    intuition congruence.
Qed.

Lemma fits_plug p t n : fits p t n -> exists N, rb (plug p t) N.
Proof.
  revert t n. induction p as [|s p IH]; intros t n F; [by exists n; apply F|].
  apply fits_plug1, IH in F. done.
Qed.

(** ** Keys along a path *)

Fixpoint lkeys (p : path) : list Z :=
  match p with
  | [] => []
  | InLeft _ _ _ _ :: p => lkeys p
  | InRight _ _ l k :: p => lkeys p ++ keys l ++ [k]
  end.

Fixpoint rkeys (p : path) : list Z :=
  match p with
  | [] => []
  | InLeft _ _ k r :: p => k :: keys r ++ rkeys p
  | InRight _ _ _ _ :: p => rkeys p
  end.

Lemma keys_plug p t : keys (plug p t) = lkeys p ++ keys t ++ rkeys p.
Proof.
  revert t. induction p as [|s p IH]; intros t; cbn [plug]; [by rewrite app_nil_r|].
  rewrite IH. destruct s; cbn; rewrite <- ?app_assoc; done.
Qed.

(** ** Repairing two red nodes in a row *)

Definition dir (s : step) (r : Z) : Prop :=
  match s with InLeft _ _ _ _ => r < 0 | InRight _ _ _ _ => 0 < r end.

Definition parent_loc (rp : cell) (p : path) : option cell :=
  match p with [] => None | _ :: p => Some (loc rp p) end.

(** The pointers and comparison values the descent carries are those of the
    last two steps of the path. *)
Definition parents_ok (rp : cell) (p : path) (parentp gparentp : option cell) (p_r gp_r : Z) : Prop :=
  parentp = parent_loc rp p /\
  match p with
  | [] => True
  | s :: p => dir s p_r /\ gparentp = parent_loc rp p /\
      match p with [] => True | s :: _ => dir s gp_r end
  end.

(** A red last step has a grandparent whose other son is not red. *)
Definition uncle_black (p : path) : Prop :=
  head_red p = true -> exists s s' p', p = s :: s' :: p' /\ is_red (sibling s') = false.

(** [x] stays where its link is, below a black node. *)
Definition repaired_in_place (m : memory) (rp : cell) (p : path) (t : tree) (n : nat) : Prop :=
  exists p', zrep m rp p' t /\ loc rp p' = loc rp p /\ path_rb p' n /\ head_red p' = false /\
    lkeys p' = lkeys p /\ rkeys p' = rkeys p.

(** [x] moved up between its parent and its grandparent. *)
Definition repaired_on_top (m : memory) (rp : cell) (p : path) (x : Z) (l : tree) (k : Z) (r : tree)
    (n : nat) : Prop :=
  exists a1 kA A a2 kB D p2,
    zrep m rp p2 (Node x false (Node a1 true A kA l) k (Node a2 true r kB D)) /\
    path_rb p2 (S n) /\ rb A n /\ is_red A = false /\ rb D n /\ is_red D = false /\
    lkeys p = lkeys p2 ++ keys A ++ [kA] /\ rkeys p = kB :: keys D ++ rkeys p2.

Lemma deref_parent m rp s p t : zrep m rp (s :: p) t ->
  DEREFNODEPTR (loc rp p) m = Some (step_addr s, m) /\ RED (step_addr s) m = Some (step_colour s, m).
Proof.
  intros R. apply (zrep_plug m rp [s] p t) in R. split.
  - rewrite (zrep_deref _ _ _ _ R). by destruct s.
  - destruct s; cbn in *; by apply (zrep_RED _ _ _ _ _ _ _ _ R).
Qed.

Lemma check_parent_spec m rp p x l k r n parentp gparentp p_r gp_r :
  zrep m rp p (Node x true l k r) -> rb (Node x true l k r) n -> path_rb p n ->
  parents_ok rp p parentp gparentp p_r gp_r -> uncle_black p ->
  exists m', split_check_parent x (addr r) (addr l) parentp gparentp p_r gp_r m = Some (tt, m') /\
  (repaired_in_place m' rp p (Node x true l k r) n \/ repaired_on_top m' rp p x l k r n).
Proof.
  intros R Hx HP [-> PO] UB. destruct p as [|s p].
  { exists m. split; [done|]. left. by exists []. }
  cbn [parent_loc split_check_parent]. destruct PO as (D1 & -> & D2).
  destruct (deref_parent _ _ _ _ _ R) as [E1 E2].
  rewrite (bind_some _ _ _ _ _ E1), (bind_some _ _ _ _ _ E2). clear E1 E2.
  destruct (step_colour s) eqn:C; cbn [when].
  2:{ exists m. split; [done|]. left. exists (s :: p).
      exact (conj R (conj eq_refl (conj HP (conj C (conj eq_refl eq_refl))))). }
  destruct (UB C) as (s0 & s2 & p2 & [= <- ->] & U). clear UB.
  cbn [path_rb head_red] in HP. rewrite C in HP. destruct HP as (B1 & B2 & B3 & B4 & B5).
  destruct (B2 eq_refl) as [N1 N2]. clear B2 B4. rewrite N2 in B5. cbn [parent_loc].
  destruct s as [pp c kp Ct|pp c A kp], s2 as [g cg kg Dt|g cg Dt kg];
    cbn [step_colour sibling dir loc] in *; subst c cg;
    repeat first [rewrite <- zrep_left in R | rewrite <- zrep_right in R].
  - destruct (split_rotate_LL _ _ _ _ _ _ _ _ _ _ _ _ _ _ x (RIGHTPTR x) (LEFTPTR x) (addr r) (addr l)
      R D1 D2) as (m' & E & R'). exists m'. split; [exact E|]. left.
    exists (InLeft pp false kp (Node g true Ct kg Dt) :: p2). split; [by apply (zrep_left m' rp p2)|].
    split; [done|]. split; [cbn; rewrite rb_red; naive_solver|]. split; [done|].
    split; [done|]. cbn. by rewrite <- app_assoc.
  - destruct (split_rotate_RL _ _ _ _ _ _ _ _ _ _ _ _ _ _ _ _ _ _ R D1 D2) as (m' & E & R').
    exists m'. split; [exact E|]. right. by exists g, kg, Dt, pp, kp, Ct, p2.
  - destruct (split_rotate_LR _ _ _ _ _ _ _ _ _ _ _ _ _ _ _ _ _ _ R D1 D2) as (m' & E & R').
    exists m'. split; [exact E|]. right. by exists pp, kp, A, g, kg, Dt, p2.
  - destruct (split_rotate_RR _ _ _ _ _ _ _ _ _ _ _ _ _ _ x (RIGHTPTR x) (LEFTPTR x) (addr r) (addr l)
      R D1 D2) as (m' & E & R'). exists m'. split; [exact E|]. left.
    exists (InRight pp false (Node g true Dt kg A) kp :: p2). split; [by apply (zrep_right m' rp p2)|].
    split; [done|]. split; [cbn; rewrite rb_red; naive_solver|]. split; [done|].
    split; [|done]. cbn. by rewrite <- !app_assoc.
Qed.

(** ** [maybe_split_for_insert] *)

Lemma split_none m rp p x c l k r parentp gparentp p_r gp_r :
  zrep m rp p (Node x c l k r) -> is_red l && is_red r = false ->
  maybe_split_for_insert (loc rp p) parentp gparentp p_r gp_r 0 m = Some (tt, m).
Proof.
  intros R N. unfold maybe_split_for_insert.
  rewrite (bind_some _ _ _ _ _ (zrep_deref _ _ _ _ R)). cbn [addr].
  rewrite (bind_some _ _ _ _ _ (zrep_RIGHT _ _ _ _ _ _ _ _ R)).
  rewrite (bind_some _ _ _ _ _ (zrep_LEFT _ _ _ _ _ _ _ _ R)).
  rewrite (bind_some _ _ _ false m); [done|]. unfold or_else, and_then, bind, ret. simpl.
  apply zrep_left in R as Rl. apply zrep_right in R as Rr.
  destruct r as [|ar cr lr kr rr]; [by rewrite andb_false_l|].
  destruct l as [|al cl ll kl rl]; [by rewrite andb_false_r|]. cbn [addr].
  destruct (Z.eqb_spec ar 0) as [E|_]; [by destruct (zrep_addr_nonzero _ _ _ _ _ _ _ _ Rr)|].
  destruct (Z.eqb_spec al 0) as [E|_]; [by destruct (zrep_addr_nonzero _ _ _ _ _ _ _ _ Rl)|].
  simpl. rewrite (zrep_RED _ _ _ _ _ _ _ _ Rr). destruct cr; [|done].
  rewrite (zrep_RED _ _ _ _ _ _ _ _ Rl). cbn in N. by rewrite andb_true_r in N; subst.
Qed.

(** The colours change, then the parent is looked at. *)
Lemma split_recolour m rp p x c l k r parentp gparentp p_r gp_r mode :
  zrep m rp p (Node x c l k r) -> mode = 1 \/ is_red l = true /\ is_red r = true ->
  exists m', zrep m' rp p (Node x true (set_colour false l) k (set_colour false r)) /\
  maybe_split_for_insert (loc rp p) parentp gparentp p_r gp_r mode m
  = split_check_parent x (addr r) (addr l) parentp gparentp p_r gp_r m'.
Proof.
  intros R HM. unfold maybe_split_for_insert.
  rewrite (bind_some _ _ _ _ _ (zrep_deref _ _ _ _ R)). cbn [addr].
  rewrite (bind_some _ _ _ _ _ (zrep_RIGHT _ _ _ _ _ _ _ _ R)).
  rewrite (bind_some _ _ _ _ _ (zrep_LEFT _ _ _ _ _ _ _ _ R)).
  rewrite (bind_some _ _ _ true m).
  2:{ unfold or_else, and_then, bind, ret. destruct HM as [->|[Hl Hr]]; [done|].
      destruct (mode =? 1); [done|].
      apply zrep_left in R as Rl. apply zrep_right in R as Rr.
      destruct l as [|al cl ll kl rl]; [done|]. destruct r as [|ar cr lr kr rr]; [done|].
      cbn in Hl, Hr |- *. subst.
      destruct (Z.eqb_spec ar 0) as [E|_]; [by destruct (zrep_addr_nonzero _ _ _ _ _ _ _ _ Rr)|].
      destruct (Z.eqb_spec al 0) as [E|_]; [by destruct (zrep_addr_nonzero _ _ _ _ _ _ _ _ Rl)|].
      simpl. by rewrite (zrep_RED _ _ _ _ _ _ _ _ Rr), (zrep_RED _ _ _ _ _ _ _ _ Rl). }
  destruct (zrep_SETRED _ _ _ _ _ _ _ _ R) as (m1 & E1 & R1). rewrite (bind_some _ _ _ _ _ E1).
  apply zrep_right in R1. destruct (zrep_when_black _ _ _ _ R1) as (m2 & E2 & R2).
  rewrite (bind_some _ _ _ _ _ E2). apply zrep_right in R2. apply zrep_left in R2.
  destruct (zrep_when_black _ _ _ _ R2) as (m3 & E3 & R3). rewrite (bind_some _ _ _ _ _ E3).
  apply zrep_left in R3. by exists m3.
Qed.

Lemma set_colour_addr c t : addr (set_colour c t) = addr t.
Proof. by destruct t. Qed.

Lemma set_colour_keys c t : keys (set_colour c t) = keys t.
Proof. by destruct t. Qed.

Lemma set_colour_height c t : height (set_colour c t) = height t.
Proof. by destruct t. Qed.

Lemma is_red_blackened t : is_red (set_colour false t) = false.
Proof. by destruct t. Qed.

Lemma rb_blacken t n : rb t n -> is_red t = true -> rb (set_colour false t) (S n).
Proof. destruct t as [|a [] l k r]; [done| |done]. cbn. rewrite rb_red, rb_black_S. naive_solver. Qed.

(** Splitting: red sons become black, the node red. *)
Lemma split_both m rp p x c l k r n parentp gparentp p_r gp_r :
  zrep m rp p (Node x c l k r) -> fits p (Node x c l k r) n ->
  is_red l = true -> is_red r = true ->
  parents_ok rp p parentp gparentp p_r gp_r -> uncle_black p ->
  let l' := set_colour false l in let r' := set_colour false r in
  exists m', maybe_split_for_insert (loc rp p) parentp gparentp p_r gp_r 0 m = Some (tt, m') /\
  rb (Node x true l' k r') n /\
  (repaired_in_place m' rp p (Node x true l' k r') n \/ repaired_on_top m' rp p x l' k r' n).
Proof.
  intros R (F1 & F2 & F3) Hl Hr PO UB l' r'.
  assert (c = false) as ->.
  { destruct c; [|done]. apply rb_red in F1 as (_ & _ & F1 & _). congruence. }
  apply rb_black in F1 as (n' & -> & Bl & Br).
  assert (RB : rb (Node x true l' k r') (S n')).
  { apply rb_red. unfold l', r'. rewrite !is_red_blackened. auto using rb_blacken. }
  destruct (split_recolour m rp p x false l k r parentp gparentp p_r gp_r 0 R) as (m1 & R1 & ->); [by right|].
  fold l' r' in R1. rewrite <- (set_colour_addr false l), <- (set_colour_addr false r). fold l' r'.
  destruct (check_parent_spec _ _ _ _ _ _ _ _ parentp gparentp p_r gp_r R1 RB F2 PO UB) as (m2 & E & D).
  by exists m2.
Qed.

(** ** Allocation *)

(** Code that neither allocates nor frees. *)
Definition keeps_cells {A : Type} (c : T A) : Prop :=
  forall m a m', c m = Some (a, m') -> forall l, is_Some (m' !! l) <-> is_Some (m !! l).

Lemma keeps_ret {A : Type} (a : A) : keeps_cells (ret a).
Proof. by intros m b m' [= <- <-]. Qed.

Lemma keeps_bind {A B : Type} (c : T A) (f : A -> T B) :
  keeps_cells c -> (forall a, keeps_cells (f a)) -> keeps_cells (bind c f).
Proof.
  intros Hc Hf m b m' E l. apply bind_inv in E as (a & m1 & E1 & E2).
  rewrite (Hf a m1 b m' E2 l). by apply (Hc m a m1).
Qed.

Lemma keeps_load c : keeps_cells (load c).
Proof. intros m a m'. unfold load. destruct (m !! c); [by intros [= <- <-]|done]. Qed.

Lemma keeps_store c v : keeps_cells (store c v).
Proof.
  intros m a m'. unfold store. destruct (m !! c) as [w|] eqn:E; [|done]. intros [= <- <-] l.
  rewrite lookup_insert_is_Some'. split; [intros [<-|H]; [by rewrite E|done]|by right].
Qed.

Lemma keeps_undefined {A : Type} : keeps_cells (@undefined memory A).
Proof. by intros m a m'. Qed.


Ltac keeps :=
  repeat match goal with
  | |- forall _, keeps_cells _ => intro
  | |- keeps_cells (bind _ _) => apply keeps_bind
  | |- keeps_cells (ret _) => apply keeps_ret
  | |- keeps_cells (load _) => apply keeps_load
  | |- keeps_cells (store _ _) => apply keeps_store
  | |- keeps_cells undefined => apply keeps_undefined
  | |- keeps_cells (if ?b then _ else _) => destruct b
  | |- keeps_cells (match ?o with Some _ => _ | None => _ end) => destruct o
  | |- keeps_cells (match ?o with (_, _) => _ end) => destruct o
  end.

Lemma keeps_maybe_split a b c d e f : keeps_cells (maybe_split_for_insert a b c d e f).
Proof.
  unfold maybe_split_for_insert, split_check_parent, split_rotate, deref_opt, SETNODEPTR_opt, or_else,
    and_then, when, SETRED, SETBLACK, RED, LEFT, RIGHT, SETLEFT, SETRIGHT, SETNODEPTR, DEREFNODEPTR.
  keeps.
Qed.
