(* ===== verification/TsearchDescent.v ===== *)
(** * The descent of [tsearch] and the contracts of [tsearch] and [tfind]

    The pointers [parentp] and [gparentp] that the loop of [__tsearch]
    carries go stale when a node is rotated; [descent_state] says what the
    nodes below look like then, so that the stale values are never used. *)

From stdpp Require Import sorting.
From S2P Require Import Prelude CMonad Tsearch TsearchRep TsearchInsert.

Open Scope c_scope.
Open Scope Z_scope.

(** What the caller's comparison function must be: an order. *)
Class Compar (compar : Z -> Z -> Z) : Prop := {
  compar_sym : forall a b, compar a b < 0 <-> 0 < compar b a;
  compar_trans : forall a b c, compar a b < 0 -> compar b c < 0 -> compar a c < 0 }.

#[export] Instance compar_sub : Compar (fun a b => a - b).
Proof. split; intros; lia. Qed.

Section Descent.
Context (compar : Z -> Z -> Z) `{!Compar compar}.

(** The keys of a tree, in order. *)
Definition ordered (l : list Z) : Prop := StronglySorted (fun a b => compar a b < 0) l.

(** [key] belongs below the path. *)
Definition on_path (key : Z) (p : path) : Prop :=
  Forall (fun k => 0 < compar key k) (lkeys p) /\ Forall (fun k => compar key k < 0) (rkeys p).

(** The step [__tsearch] takes from a node, and the subtree it leads to. *)
Definition turn (r x : Z) (c : bool) (l : tree) (k : Z) (rt : tree) : step * tree :=
  if r <? 0 then (InLeft x c k rt, l) else (InRight x c l k, rt).

Definition nextp_of (r x : Z) : cell := if r <? 0 then LEFTPTR x else RIGHTPTR x.

Lemma turn_dir r x c l k rt : r <> 0 -> dir (turn r x c l k rt).1 r.
Proof. unfold turn. intros. destruct (Z.ltb_spec r 0); simpl; lia. Qed.

Lemma turn_loc r x c l k rt rp p : loc rp ((turn r x c l k rt).1 :: p) = nextp_of r x.
Proof. unfold turn, nextp_of. by destruct (r <? 0). Qed.

Lemma turn_colour r x c l k rt : step_colour (turn r x c l k rt).1 = c.
Proof. unfold turn. by destruct (r <? 0). Qed.

Lemma turn_plug r x c l k rt :
  plug1 (turn r x c l k rt).1 (turn r x c l k rt).2 = Node x c l k rt.
Proof. unfold turn. by destruct (r <? 0). Qed.

Lemma turn_zrep m rp p r x c l k rt :
  zrep m rp p (Node x c l k rt) ->
  zrep m rp ((turn r x c l k rt).1 :: p) (turn r x c l k rt).2.
Proof. unfold turn. destruct (r <? 0); simpl; [apply zrep_left|apply zrep_right]. Qed.

Lemma turn_fits r x c l k rt p n :
  fits p (Node x c l k rt) n -> exists n', fits ((turn r x c l k rt).1 :: p) (turn r x c l k rt).2 n'.
Proof.
  intros F. assert (exists n', n = if c then n' else S n') as [n' ->].
  { destruct c; [by exists n|]. destruct F as (F & _). apply rb_black in F as (n' & -> & _). eauto. }
  exists n'. apply fits_plug1. by rewrite turn_plug, turn_colour.
Qed.

Lemma turn_height r x c l k rt : (height (turn r x c l k rt).2 < height (Node x c l k rt))%nat.
Proof. unfold turn. destruct (r <? 0); simpl; lia. Qed.

(** All keys on the other side of the node compare like the node's. *)
Lemma turn_on_path key x c l k rt p :
  ordered (keys (plug p (Node x c l k rt))) -> on_path key p -> compar key k <> 0 ->
  on_path key ((turn (compar key k) x c l k rt).1 :: p).
Proof.
  intros O [P1 P2] N. rewrite keys_plug in O. cbn [keys] in O.
  apply StronglySorted_app_1_r, StronglySorted_app_1_l in O. unfold turn.
  rewrite list.Forall_forall in P1, P2.
  destruct (Z.ltb_spec (compar key k) 0) as [L|L]; split; cbn [fst lkeys rkeys];
    rewrite list.Forall_forall; intros k' Hk'.
  - by apply P1.
  - apply elem_of_cons in Hk' as [->|Hk']; [done|]. apply elem_of_app in Hk' as [Hk'|Hk']; [|by apply P2].
    apply compar_trans with k; [done|].
    apply StronglySorted_app_1_r in O. apply StronglySorted_inv in O as [_ O].
    rewrite list.Forall_forall in O. by apply O.
  - apply elem_of_app in Hk' as [Hk'|Hk']; [by apply P1|].
    apply elem_of_app in Hk' as [Hk'|Hk'].
    + apply compar_sym. apply compar_trans with k; [|apply compar_sym; lia].
      exact (StronglySorted_app_1_elem_of _ _ _ k' k O Hk' ltac:(left)).
    + apply list_elem_of_singleton in Hk' as ->. lia.
  - by apply P2.
Qed.

(** ** The states of the descent *)

Definition sons_black (t : tree) : Prop :=
  match t with Leaf => False | Node _ _ l _ r => is_red l = false /\ is_red r = false end.

(** The pointers are right, no red node has a red uncle. *)
Definition state_normal (rp : cell) (p : path) (t : tree) (parentp gparentp : option cell)
    (p_r gp_r : Z) : Prop :=
  parents_ok rp p parentp gparentp p_r gp_r /\ uncle_black p /\
  (is_red t = true -> exists s p', p = s :: p' /\ is_red (sibling s) = false).

(** Below a node that was just split: this node will not be split, and only
    [parentp] is right. *)
Definition state_below (rp : cell) (p : path) (t : tree) (parentp : option cell) (p_r : Z) : Prop :=
  parentp = parent_loc rp p /\ match p with [] => True | s :: _ => dir s p_r end /\
  is_red t = false /\ sons_black t.

(** Back at the old parent or grandparent after a double rotation. *)
Definition state_rotated (key : Z) (t : tree) : Prop :=
  match t with
  | Leaf => False
  | Node _ c l k r =>
      let y := (turn (compar key k) 0 c l k r).2 in
      c = true /\ compar key k <> 0 /\ is_red y = false /\ sons_black y
  end.

Definition descent_state (fuel : nat) (key : Z) (rp : cell) (p : path) (t : tree)
    (parentp gparentp : option cell) (p_r gp_r : Z) : Prop :=
  (state_normal rp p t parentp gparentp p_r gp_r /\ (2 * height t <= fuel)%nat) \/
  (state_below rp p t parentp p_r /\ (2 * height t <= fuel)%nat) \/
  (state_rotated key t /\
   match t with
   | Leaf => False
   | Node _ c l k r => (2 * height (turn (compar key k) 0 c l k r).2 + 1 <= fuel)%nat
   end).

(** How the descent may end, for the keys [ks]. *)
Definition descent_post (m : memory) (key : Z) (rp : cell) (ks : list Z) (d : descent) : Prop :=
  match d with
  | Found a => exists p c l k r n, zrep m rp p (Node a c l k r) /\ fits p (Node a c l k r) n /\
      compar key k = 0 /\ keys (plug p (Node a c l k r)) = ks
  | Insert nextp rootp parentp r p_r => exists s p, zrep m rp (s :: p) Leaf /\
      fits (s :: p) Leaf 0 /\ lkeys (s :: p) ++ rkeys (s :: p) = ks /\ on_path key (s :: p) /\
      nextp = loc rp (s :: p) /\ rootp = loc rp p /\
      parents_ok rp (s :: p) (Some rootp) parentp r p_r /\ uncle_black (s :: p)
  end.

(** What the node [x] at the end of a path looks like when its sons are
    looked at, and where the descent goes from it. *)
Definition advance (fuel : nat) (m : memory) (key : Z) (rp : cell) (ks : list Z) (rootp : cell)
    (parentp : option cell) (x k p_r : Z) : Prop :=
  exists p c l r n, zrep m rp p (Node x c l k r) /\ fits p (Node x c l k r) n /\
  keys (plug p (Node x c l k r)) = ks /\ on_path key p /\
  let s := (turn (compar key k) x c l k r).1 in
  let y := (turn (compar key k) x c l k r).2 in
  (y = Leaf -> rootp = loc rp p /\ parents_ok rp (s :: p) (Some rootp) parentp (compar key k) p_r /\
     uncle_black (s :: p)) /\
  (y <> Leaf -> descent_state fuel key rp (s :: p) y (Some rootp) parentp (compar key k) p_r).

Lemma advance_loop fuel m key rp ks rootp parentp x k p_r :
  advance fuel m key rp ks rootp parentp x k p_r -> ordered ks -> compar key k <> 0 ->
  (forall p t n m gparentp gp_r p_r parentp, t <> Leaf -> zrep m rp p t -> fits p t n ->
     keys (plug p t) = ks -> on_path key p ->
     descent_state fuel key rp p t parentp gparentp p_r gp_r ->
     exists d m', tsearch_loop compar fuel key (loc rp p) parentp gparentp p_r gp_r m = Some (d, m') /\
       descent_post m' key rp ks d) ->
  let nextp := nextp_of (compar key k) x in
  exists d m',
  (let! next := DEREFNODEPTR nextp in
   if next =? 0 then ret (Insert nextp rootp parentp (compar key k) p_r)
   else tsearch_loop compar fuel key nextp (Some rootp) parentp (compar key k) p_r) m = Some (d, m') /\
  descent_post m' key rp ks d.
Proof.
  intros (p & c & l & r & n & R & F & EK & OP & H1 & H2) O N IH nextp.
  rewrite <- EK in O. pose proof (turn_on_path _ _ _ _ _ _ _ O OP N) as OP'.
  pose proof (turn_zrep _ _ _ (compar key k) _ _ _ _ _ R) as R'.
  destruct (turn_fits (compar key k) _ _ _ _ _ _ _ F) as [n' F'].
  pose proof (turn_plug (compar key k) x c l k r) as EP.
  pose proof (turn_loc (compar key k) x c l k r rp p) as EL.
  destruct (turn (compar key k) x c l k r) as [s y]. cbn [fst snd] in *.
  unfold nextp. rewrite <- EL, (bind_some _ _ _ _ _ (zrep_deref _ _ _ _ R')).
  destruct y as [|y cy ly ky ry].
  - cbn [addr]. destruct (H1 eq_refl) as (-> & H3 & H4). eexists _, m. split; [done|].
    exists s, p. split; [done|].
    assert (n' = 0%nat) as -> by (by destruct F' as [F' _]; apply rb_leaf in F').
    split; [done|]. split; [|done].
    rewrite <- EK, <- EP. change (plug p (plug1 s Leaf)) with (plug (s :: p) Leaf).
    by rewrite keys_plug.
  - cbn [addr]. destruct (Z.eqb_spec y 0) as [E|_]; [by destruct (zrep_addr_nonzero _ _ _ _ _ _ _ _ R')|].
    apply (IH (s :: p) (Node y cy ly ky ry) n'); [done..| |done|by apply H2].
    cbn [plug]. by rewrite EP.
Qed.

(** ** Each state, after [maybe_split_for_insert], leads on *)

Lemma turn_sons (P : tree -> Prop) r x c l k rt : P l -> P rt -> P (turn r x c l k rt).2.
Proof. unfold turn. by destruct (r <? 0). Qed.

Lemma turn_sibling r x c l k rt : is_red l && is_red rt = false ->
  is_red (turn r x c l k rt).2 = true -> is_red (sibling (turn r x c l k rt).1) = false.
Proof. unfold turn. destruct (r <? 0), (is_red l) eqn:E1, (is_red rt) eqn:E2; simpl; congruence. Qed.

Lemma turn_parents rp p r x c l k rt parentp p_r :
  r <> 0 -> parentp = parent_loc rp p -> match p with [] => True | s :: _ => dir s p_r end ->
  parents_ok rp ((turn r x c l k rt).1 :: p) (Some (loc rp p)) parentp r p_r.
Proof. intros N E D. split; [done|]. split; [by apply turn_dir|]. by split. Qed.

Lemma sons_black_blackened t n : rb t n -> is_red t = true -> sons_black (set_colour false t).
Proof. destruct t as [|a [] l k r]; [done| |done]. cbn. rewrite rb_red. naive_solver. Qed.

Lemma turn_red_sons r x c l k rt n : is_red l = true -> is_red rt = true ->
  rb (Node x c l k rt) n ->
  let y := (turn r x true (set_colour false l) k (set_colour false rt)).2 in
  y <> Leaf /\ is_red y = false /\ sons_black y.
Proof.
  intros Hl Hr F.
  assert (exists n1 n2, rb l n1 /\ rb rt n2) as (n1 & n2 & B1 & B2).
  { destruct c; [apply rb_red in F|apply rb_black in F]; naive_solver. }
  apply (turn_sons (fun y => y <> Leaf /\ is_red y = false /\ sons_black y)).
  - split; [by destruct l|]. split; [apply is_red_blackened|by eapply sons_black_blackened].
  - split; [by destruct rt|]. split; [apply is_red_blackened|by eapply sons_black_blackened].
Qed.

Section States.
Variables (fuel : nat) (m : memory) (key : Z) (rp : cell) (p : path).
Variables (x : Z) (c : bool) (l : tree) (k : Z) (r : tree) (n : nat).
Variables (parentp gparentp : option cell) (p_r gp_r : Z).
Hypothesis R : zrep m rp p (Node x c l k r).
Hypothesis F : fits p (Node x c l k r) n.
Hypothesis OP : on_path key p.
Hypothesis N : compar key k <> 0.

Let advances : Prop :=
  exists m', maybe_split_for_insert (loc rp p) parentp gparentp p_r gp_r 0 m = Some (tt, m') /\
  advance fuel m' key rp (keys (plug p (Node x c l k r))) (loc rp p) parentp x k p_r.

Lemma below_advances : state_below rp p (Node x c l k r) parentp p_r ->
  (2 * height (Node x c l k r) <= S fuel)%nat -> advances.
Proof.
  intros (E & D & Hc & Hl & Hr) Hf. cbn in Hc. subst c. exists m.
  split; [apply (split_none _ _ _ _ _ _ _ _ _ _ _ _ R); by rewrite Hl|].
  exists p, false, l, r, n. split; [done|]. split; [done|]. split; [done|]. split; [done|].
  pose proof (turn_parents rp p _ x false l k r parentp p_r N E D) as PO.
  assert (UB : uncle_black ((turn (compar key k) x false l k r).1 :: p))
    by (intros H; cbn in H; by rewrite turn_colour in H).
  split; [done|]. intros _. left.
  pose proof (turn_height (compar key k) x false l k r). split; [|lia].
  split; [done|]. split; [done|]. intros Hy.
  assert (is_red (turn (compar key k) x false l k r).2 = false)
    by (apply (turn_sons (fun y => is_red y = false)); done). congruence.
Qed.

Lemma rotated_advances : state_rotated key (Node x c l k r) ->
  (2 * height (turn (compar key k) 0 c l k r).2 + 1 <= S fuel)%nat -> advances.
Proof.
  intros (-> & _ & Hy & Sy) Hf. cbv zeta in *.
  assert (E2 : (turn (compar key k) x true l k r).2 = (turn (compar key k) 0 true l k r).2)
    by (unfold turn; by destruct (compar key k <? 0)).
  rewrite <- E2 in *. clear E2. exists m. split.
  { apply (split_none _ _ _ _ _ _ _ _ _ _ _ _ R). unfold turn in Hy.
    destruct (compar key k <? 0); cbn in Hy; rewrite Hy; [done|apply andb_false_r]. }
  exists p, true, l, r, n. split; [done|]. split; [done|]. split; [done|]. split; [done|]. split.
  - intros E. by rewrite E in Sy.
  - intros _. right. left. split; [|lia]. split; [done|]. split; [by apply turn_dir|done].
Qed.

Lemma normal_advances : state_normal rp p (Node x c l k r) parentp gparentp p_r gp_r ->
  (2 * height (Node x c l k r) <= S fuel)%nat -> advances.
Proof.
  intros (PO & UB & SB) Hf.
  assert (PO' : parentp = parent_loc rp p /\ match p with [] => True | s :: _ => dir s p_r end)
    by (destruct PO as [E PO]; split; [done|destruct p; [done|apply PO]]).
  destruct PO' as [Ep Dp].
  destruct (is_red l && is_red r) eqn:Hs.
  - apply andb_true_iff in Hs as [Hl Hr]. pose proof F as (F1 & _).
    destruct (split_both _ _ _ _ _ _ _ _ _ _ _ _ _ R F Hl Hr PO UB) as (m' & E & RB & D).
    exists m'. split; [exact E|]. clear E.
    pose proof (turn_red_sons (compar key k) x c l k r n Hl Hr F1) as TS. cbv zeta in TS.
    cbn [height] in Hf. rewrite <- (set_colour_height false l), <- (set_colour_height false r) in Hf.
    rewrite keys_plug. cbn [keys]. rewrite <- (set_colour_keys false l), <- (set_colour_keys false r).
    set (l' := set_colour false l) in *. set (r' := set_colour false r) in *.
    destruct D as [(p' & R' & EL & PR & HR & LK & RK)|(a1 & kA & A & a2 & kB & D & p2 & R' & PR & H)].
    + exists p', true, l', r', n. split; [done|]. split; [split; [done|]; split; [done|congruence]|].
      split; [by rewrite keys_plug, LK, RK|]. split; [unfold on_path; rewrite LK, RK; exact OP|].
      split; [by intros H; apply TS in H|]. intros _. right. left.
      pose proof (turn_height (compar key k) x true l' k r'). cbn [height] in *. split; [|lia].
      split; [by cbn; rewrite EL|]. split; [by apply turn_dir|apply TS].
    + destruct H as (BA & NA & BD & ND & LK & RK). apply rb_red in RB as (Bl & Br & Nl & Nr).
      exists p2, false, (Node a1 true A kA l'), (Node a2 true r' kB D), (S n).
      split; [done|]. split.
      { split; [|split; [done|done]]. apply rb_black_S. rewrite !rb_red. tauto. }
      split; [rewrite keys_plug, LK, RK; repeat (cbn; rewrite <- ?app_assoc); done|].
      destruct OP as [O1 O2]. rewrite LK, !list.Forall_app in O1. rewrite RK, list.Forall_cons, list.Forall_app in O2.
      destruct O1 as (O1 & _ & O3). apply list.Forall_cons in O3 as [O3 _]. destruct O2 as (O4 & _ & O5).
      split; [done|].
      assert (TL : turn (compar key kA) 0 true A kA l' = (InRight 0 true A kA, l')).
      { unfold turn. destruct (Z.ltb_spec (compar key kA) 0); [lia|done]. }
      assert (TR : turn (compar key kB) 0 true r' kB D = (InLeft 0 true kB D, r')).
      { unfold turn. destruct (Z.ltb_spec (compar key kB) 0); [done|lia]. }
      split; [unfold turn; by destruct (compar key k <? 0)|]. intros _. right. right.
      assert (Sl : sons_black l' /\ sons_black r').
      { assert (exists n1 n2, rb l n1 /\ rb r n2) as (n1 & n2 & B1 & B2).
        { destruct c; [apply rb_red in F1|apply rb_black in F1]; naive_solver. }
        split; by eapply sons_black_blackened. }
      unfold turn at 1 2. destruct (compar key k <? 0); cbn [snd state_rotated];
        rewrite ?TL, ?TR; cbn [snd]; (split; [split; [done|]; split; [lia|]; split; [done|]; apply Sl|lia]).
  - exists m. split; [by apply (split_none _ _ _ _ _ _ _ _ _ _ _ _ R)|].
    exists p, c, l, r, n. split; [done|]. split; [done|]. split; [done|]. split; [done|].
    pose proof (turn_parents rp p _ x c l k r parentp p_r N Ep Dp) as PO'.
    assert (UB' : uncle_black ((turn (compar key k) x c l k r).1 :: p)).
    { intros H. cbn in H. rewrite turn_colour in H. destruct (SB H) as (s & p' & -> & Hs'). eauto. }
    split; [done|]. intros _. left.
    pose proof (turn_height (compar key k) x c l k r). split; [|lia].
    split; [done|]. split; [done|]. intros Hy. eexists _, p. split; [done|]. by apply turn_sibling.
Qed.
End States.

Lemma tsearch_loop_spec fuel key rp ks : ordered ks ->
  forall p t n m gparentp gp_r p_r parentp, t <> Leaf -> zrep m rp p t -> fits p t n ->
  keys (plug p t) = ks -> on_path key p ->
  descent_state fuel key rp p t parentp gparentp p_r gp_r ->
  exists d m', tsearch_loop compar fuel key (loc rp p) parentp gparentp p_r gp_r m = Some (d, m') /\
    descent_post m' key rp ks d.
Proof.
  intros O. induction fuel as [|fuel IH]; intros p t n m gparentp gp_r p_r parentp Nt R F <- OP DS.
  { destruct t; [done|]. destruct DS as [[_ H]|[[_ H]|[_ H]]]; simpl in H; lia. }
  destruct t as [|x c l k r]; [done|]. cbn [tsearch_loop].
  rewrite (bind_some _ _ _ _ _ (zrep_deref _ _ _ _ R)). cbn [addr].
  rewrite (bind_some _ _ _ _ _ (zrep_key _ _ _ _ _ _ _ _ R)).
  destruct (Z.eqb_spec (compar key k) 0) as [E|N].
  { eexists _, m. split; [reflexivity|]. by exists p, c, l, k, r, n. }
  assert (A : exists m', maybe_split_for_insert (loc rp p) parentp gparentp p_r gp_r 0 m = Some (tt, m') /\
    advance fuel m' key rp (keys (plug p (Node x c l k r))) (loc rp p) parentp x k p_r).
  { destruct DS as [[S H]|[[S H]|[S H]]].
    - by eapply normal_advances.
    - by eapply below_advances.
    - by eapply rotated_advances. }
  destruct A as (m' & E & A). rewrite (bind_some _ _ _ _ _ E).
  apply (advance_loop fuel m' key rp _ (loc rp p) parentp x k p_r A O N).
  intros. by eapply IH.
Qed.

(** ** Lookup *)

(** The node at [a] holds [k]. *)
Definition node_with (t : tree) (a k : Z) : Prop :=
  exists p c l r, t = plug p (Node a c l k r).

Lemma on_path_absent key p : on_path key p ->
  forall k, k ∈ keys (plug p Leaf) -> compar key k <> 0.
Proof.
  intros [P1 P2] k. rewrite keys_plug, elem_of_app. rewrite list.Forall_forall in P1, P2.
  intros [H|H]; [apply P1 in H|apply P2 in H]; lia.
Qed.

Lemma tfind_loop_spec fuel key m rp p t :
  zrep m rp p t -> ordered (keys (plug p t)) -> on_path key p -> (height t < fuel)%nat ->
  exists res, tfind_loop compar fuel key (loc rp p) m = Some (res, m) /\
  ((res = 0 /\ forall k, k ∈ keys (plug p t) -> compar key k <> 0) \/
   (exists k, node_with (plug p t) res k /\ compar key k = 0)).
Proof.
  revert p t. induction fuel as [|fuel IH]; intros p t R O OP Hf; [lia|].
  cbn [tfind_loop]. rewrite (bind_some _ _ _ _ _ (zrep_deref _ _ _ _ R)).
  destruct t as [|x c l k r]; cbn [addr].
  { exists 0. split; [done|]. left. split; [done|]. by apply on_path_absent. }
  destruct (Z.eqb_spec x 0) as [E|_]; [by destruct (zrep_addr_nonzero _ _ _ _ _ _ _ _ R)|].
  rewrite (bind_some _ _ _ _ _ (zrep_key _ _ _ _ _ _ _ _ R)).
  destruct (Z.eqb_spec (compar key k) 0) as [E|N].
  { exists x. split; [done|]. right. exists k. split; [by exists p, c, l, r|done]. }
  pose proof (turn_on_path _ _ _ _ _ _ _ O OP N) as OP'.
  pose proof (turn_zrep _ _ _ (compar key k) _ _ _ _ _ R) as R'.
  pose proof (turn_plug (compar key k) x c l k r) as EP.
  pose proof (turn_loc (compar key k) x c l k r rp p) as EL.
  pose proof (turn_height (compar key k) x c l k r) as EH.
  destruct (turn (compar key k) x c l k r) as [s y]. cbn [fst snd] in *.
  unfold nextp_of in EL. rewrite <- EL, <- EP in *.
  apply (IH (s :: p) y); [done..|]. lia.
Qed.

(** [__tfind] finds the node of a matching key, if there is one, and changes
    nothing. *)
Lemma tfind_spec fuel key m rp t :
  zrep m rp [] t -> ordered (keys t) -> (height t < fuel)%nat ->
  exists res, __tfind compar fuel key (Some rp) m = Some (res, m) /\
  ((res = 0 /\ forall k, k ∈ keys t -> compar key k <> 0) \/
   (exists k, node_with t res k /\ compar key k = 0)).
Proof.
  intros R O Hf. apply (tfind_loop_spec fuel key m rp [] t); [done..| |done].
  split; apply list.Forall_nil; done.
Qed.

(** ** Insertion *)

Lemma keeps_tsearch_loop fuel key rootp parentp gparentp p_r gp_r :
  keeps_cells (tsearch_loop compar fuel key rootp parentp gparentp p_r gp_r).
Proof.
  revert rootp parentp gparentp p_r gp_r. induction fuel as [|fuel IH]; intros; cbn [tsearch_loop];
    unfold DEREFNODEPTR, node_key; keeps; [apply keeps_maybe_split|apply IH].
Qed.

(** [malloc] returned an unused, aligned block. *)
Definition fresh (m : memory) (q : Z) : Prop := node_addr q /\ forall f, m !! (q, f) = None.

Lemma fresh_not_tree m t q : tree_in m t -> fresh m q -> q ∉ addrs t.
Proof.
  intros HT [_ Hq]. induction t as [|a c l IHl k r IHr]; cbn [addrs]; [apply not_elem_of_nil|].
  destruct HT as (K & _ & _ & Tl & Tr). rewrite not_elem_of_cons, not_elem_of_app.
  split; [intros ->; by rewrite Hq in K|]. by split; [apply IHl|apply IHr].
Qed.

Lemma fresh_not_path m rp p v q : path_in m rp p v -> fresh m q -> q ∉ path_addrs p.
Proof.
  intros HP HF. revert v HP. induction p as [|s p IH]; intros v HP; [apply not_elem_of_nil|].
  change (q ∉ step_addrs s ++ path_addrs p). rewrite not_elem_of_app.
  assert (Hs : forall t, tree_in m t -> q ∉ addrs t) by (intros; by eapply fresh_not_tree).
  destruct s as [a c k r|a c l k]; destruct HP as (K & _ & _ & Tt & Pp); cbn [step_addrs];
    rewrite not_elem_of_cons; (split; [split; [|by apply Hs]|by eapply IH]);
    intros ->; destruct HF as [_ HF]; by rewrite HF in K.
Qed.

(** Linking and initialising the new node. *)
Definition link_new (q : Z) (junk : field -> Z) (key : Z) (nextp : cell) (k : T unit) : T unit :=
  malloc_node q junk;;
  assert_aligned q;;
  SETNODEPTR nextp q;;
  store (q, Fkey) key;;
  SETRED q;;
  SETLEFT q 0;;
  SETRIGHT q 0;;
  k.

Lemma link_new_spec m rp p q junk key k :
  zrep m rp p Leaf -> fresh m q ->
  exists m', link_new q junk key (loc rp p) k m = k m' /\
  zrep m' rp p (Node q true Leaf key Leaf) /\
  (forall c, c.1 <> q -> is_Some (m' !! c) <-> is_Some (m !! c)).
Proof.
  intros R HF. pose proof HF as [[Q0 QA] Hq].
  pose proof (fresh_not_path _ _ _ _ _ (zrep_path _ _ _ _ R) HF) as Np.
  assert (NL : forall f, loc rp p <> (q, f)).
  { intros f E. pose proof (zrep_loc _ _ _ _ R) as L. by rewrite E, Hq in L. }
  pose proof (zrep_loc _ _ _ _ R) as L. cbn [addr] in L.
  assert (N1 := NL Fkey). assert (N2 := NL Fleft). assert (N3 := NL Fright).
  set (m1 := <[(q, Fkey) := junk Fkey]> (<[(q, Fleft) := junk Fleft]> (<[(q, Fright) := junk Fright]> m))).
  set (m2 := <[loc rp p := enc q (loc_colour p)]> m1).
  set (v := Z.lor (Z.land (Z.lor (junk Fleft) 1) 1) 0).
  exists (<[(q, Fright) := 0]> (<[(q, Fleft) := v]> (<[(q, Fleft) := Z.lor (junk Fleft) 1]>
    (<[(q, Fkey) := key]> m2)))).
  assert (Ev : v = enc 0 true).
  { unfold v, enc. rewrite Z.land_lor_distr_l. change (Z.land 1 1) with 1.
    rewrite Z.lor_0_r. change (Z.lor 0 (b2z true)) with 1.
    apply Z.bits_inj'. intros i Hi. rewrite Z.lor_spec, Z.land_spec.
    destruct (Z.eq_dec i 0) as [->|Hi0]; [apply orb_true_r|].
    rewrite (Z.bits_above_log2 1 i) by (simpl; lia). by rewrite andb_false_r. }
  split; [|split].
  - unfold link_new, malloc_node, assert_aligned. unfold bind at 1.
    destruct (Z.eqb_spec q 0); [done|]. fold m1. unfold aligned in QA. rewrite QA. cbn [Z.eqb].
    rewrite (bind_some _ _ _ tt m1) by done.
    assert (L1 : m1 !! loc rp p = Some (enc 0 (loc_colour p))) by (unfold m1; by rewrite !lookup_insert_ne).
    rewrite (bind_some _ _ _ _ _ (SETNODEPTR_ok _ _ _ _ q L1 eq_refl)). fold m2.
    unfold SETRED, SETLEFT, SETRIGHT, store, load, bind.
    assert (LK : m2 !! (q, Fkey) = Some (junk Fkey)) by (unfold m2, m1; by rewrite lookup_insert_ne, lookup_insert_eq).
    rewrite LK.
    assert (LL : m2 !! (q, Fleft) = Some (junk Fleft)).
    { unfold m2, m1. rewrite !lookup_insert_ne by congruence. apply lookup_insert_eq. }
    assert (LR : m2 !! (q, Fright) = Some (junk Fright)).
    { unfold m2, m1. rewrite !lookup_insert_ne by congruence. apply lookup_insert_eq. }
    repeat first [ rewrite lookup_insert_eq | rewrite lookup_insert_ne by congruence | rewrite LL | rewrite LR ].
    done.
  - rewrite Ev. split.
    + apply (zrep_root _ _ _ _ R).
    + eapply path_in_relink; [apply (zrep_root _ _ _ _ R)| |apply (zrep_path _ _ _ _ R)| | |].
      * pose proof (zrep_nodup _ _ _ _ R) as ND. by cbn in ND.
      * cbn [addr]. rewrite !lookup_insert_ne by congruence. apply lookup_insert_eq.
      * intros a f Ha Hf Hl. assert (a <> q) by (by intros ->).
        unfold m2, m1. by rewrite !lookup_insert_ne by congruence.
      * intros Hl. assert (HR := zrep_root _ _ _ _ R). unfold m2, m1.
        rewrite !lookup_insert_ne; [done|..]; destruct rp; cbn in *; congruence.
    + cbn [tree_in addr]. split_and!; try done;
        repeat first [ rewrite lookup_insert_eq | rewrite lookup_insert_ne by congruence ]; done.
    + cbn. apply list.NoDup_cons. split; [done|]. apply (zrep_nodup _ _ _ _ R).
    + cbn. apply list.Forall_cons. split; [done|]. apply (zrep_aligned _ _ _ _ R).
  - intros c Hc. unfold m2, m1. rewrite !(lookup_insert_ne _ (q, _)) by (intros <-; done).
    rewrite lookup_insert_is_Some'. rewrite !(lookup_insert_ne _ (q, _)) by (intros <-; done).
    split; [intros [<-|H]; [by rewrite L|done]|by right].
Qed.

(** The last call of [maybe_split_for_insert], at the new node. *)
Lemma insert_fix m rp p q key parentp gparentp r p_r :
  zrep m rp p (Node q true Leaf key Leaf) -> fits p Leaf 0 ->
  parents_ok rp p parentp gparentp r p_r -> uncle_black p ->
  exists m' t' N, maybe_split_for_insert (loc rp p) parentp gparentp r p_r 1 m = Some (tt, m') /\
  zrep m' rp [] t' /\ rb t' N /\ keys t' = lkeys p ++ key :: rkeys p /\ node_with t' q key.
Proof.
  intros R (_ & FP & _) PO UB.
  destruct (split_recolour m rp p q true Leaf key Leaf parentp gparentp r p_r 1 R) as (m1 & R1 & ->); [by left|].
  assert (RB : rb (Node q true Leaf key Leaf) 0) by done.
  destruct (check_parent_spec _ _ _ _ _ _ _ _ parentp gparentp r p_r R1 RB FP PO UB) as (m2 & E & D).
  destruct D as [(p' & R' & EL & PR & HR & LK & RK)|(a1 & kA & A & a2 & kB & D & p2 & R' & PR & BA & NA & BD & ND & LK & RK)].
  - destruct (fits_plug p' (Node q true Leaf key Leaf) 0) as [N FN].
    { split; [done|]. split; [done|]. by rewrite HR. }
    exists m2, (plug p' (Node q true Leaf key Leaf)), N. split; [exact E|].
    split; [apply zrep_plug; by rewrite app_nil_r|]. split; [done|].
    split; [by rewrite keys_plug, LK, RK|]. by exists p', true, Leaf, Leaf.
  - set (t' := Node q false (Node a1 true A kA Leaf) key (Node a2 true Leaf kB D)) in *.
    destruct (fits_plug p2 t' 1) as [N FN].
    { split; [|split; [done|done]]. apply rb_black_S. rewrite !rb_red, rb_leaf. tauto. }
    exists m2, (plug p2 t'), N. split; [exact E|].
    split; [apply zrep_plug; by rewrite app_nil_r|]. split; [done|]. split.
    + rewrite keys_plug, LK, RK. repeat (cbn; rewrite <- ?app_assoc). done.
    + by exists p2, false, (Node a1 true A kA Leaf), (Node a2 true Leaf kB D).
Qed.

Lemma on_path_insert key p : ordered (lkeys p ++ rkeys p) -> on_path key p ->
  ordered (lkeys p ++ key :: rkeys p).
Proof.
  unfold ordered. intros O [P1 P2]. rewrite list.Forall_forall in P1, P2.
  apply StronglySorted_app in O as (O1 & O2 & O3). apply StronglySorted_app_2; [|done|].
  - intros a b Ha Hb. apply elem_of_cons in Hb as [->|Hb]; [|by apply O1].
    apply compar_sym. by apply P1.
  - constructor; [done|]. rewrite list.Forall_forall. intros b Hb. by apply P2.
Qed.

Lemma loc_step_ne m rp s p t : zrep m rp (s :: p) t -> loc rp (s :: p) <> loc rp p.
Proof.
  intros R E. apply (zrep_plug m rp [s] p t) in R.
  assert (Ha : step_addr s ∈ addrs (plug [s] t)) by (destruct s; left).
  destruct s; eapply (zrep_loc_ne _ _ _ _ _ _ R Ha); [|symmetry; exact E| |symmetry; exact E]; done.
Qed.

Definition tsearch_post (m' : memory) (rp : cell) (t : tree) (q key res : Z) : Prop :=
  exists t' n', zrep m' rp [] t' /\ rb t' n' /\ ordered (keys t') /\
  ((exists k, k ∈ keys t /\ compar key k = 0 /\ keys t' = keys t /\ node_with t' res k) \/
   (forall k, k ∈ keys t -> compar key k <> 0) /\ res = q /\
   (if q =? 0 then keys t' = keys t
    else node_with t' q key /\ exists l1 l2, keys t = l1 ++ l2 /\ keys t' = l1 ++ key :: l2)).

(** The end of [__tsearch], when there is no node with the key. *)
Lemma tsearch_insert m rp t q junk key p nextp rootp parentp r p_r :
  zrep m rp p Leaf -> fits p Leaf 0 -> lkeys p ++ rkeys p = keys t -> on_path key p ->
  ordered (keys t) -> q = 0 \/ fresh m q -> nextp = loc rp p ->
  match p with
  | [] => nextp = rootp
  | s :: p' => rootp = loc rp p' /\ parents_ok rp p (Some rootp) parentp r p_r /\ uncle_black p
  end ->
  exists m', (malloc_node q junk;;
    when (negb (q =? 0))
      (assert_aligned q;; SETNODEPTR nextp q;; store (q, Fkey) key;; SETRED q;; SETLEFT q 0;;
       SETRIGHT q 0;;
       when (negb (bool_decide (nextp = rootp)))
         (maybe_split_for_insert nextp (Some rootp) parentp r p_r 1));;
    ret q) m = Some (q, m') /\ tsearch_post m' rp t q key q.
Proof.
  intros R F EK OP O HQ -> HP.
  assert (Abs : forall k, k ∈ keys t -> compar key k <> 0).
  { intros k Hk. apply (on_path_absent key p OP). rewrite keys_plug. cbn. by rewrite EK. }
  destruct HQ as [->|HF].
  { exists m. split; [done|]. destruct (fits_plug p Leaf 0 F) as [N FN].
    assert (EK' : keys (plug p Leaf) = keys t) by (by rewrite keys_plug, <- EK).
    exists (plug p Leaf), N. split; [apply zrep_plug; by rewrite app_nil_r|]. split; [done|].
    rewrite EK'. split; [done|]. right. by split. }
  pose proof HF as [[Q0 _] _]. rewrite (proj2 (Z.eqb_neq q 0)) by done. cbn [negb when].
  set (fin := when (negb (bool_decide (loc rp p = rootp)))
    (maybe_split_for_insert (loc rp p) (Some rootp) parentp r p_r 1)).
  destruct (link_new_spec m rp p q junk key fin R HF) as (m1 & E1 & R1 & _).
  assert (Fin : exists m' t' N, fin m1 = Some (tt, m') /\
    zrep m' rp [] t' /\ rb t' N /\ keys t' = lkeys p ++ key :: rkeys p /\ node_with t' q key).
  { unfold fin. destruct p as [|s p'].
    - rewrite bool_decide_true by done. exists m1, (Node q true Leaf key Leaf), 0%nat.
      repeat (split; [done|]). by exists [], true, Leaf, Leaf.
    - destruct HP as (-> & PO & UB). rewrite bool_decide_false by (by eapply loc_step_ne).
      by apply insert_fix. }
  destruct Fin as (m' & t' & N & E2 & R' & RB & EK' & NW).
  exists m'. split.
  { rewrite E2 in E1. unfold link_new in E1. unfold bind in *.
    destruct (malloc_node q junk m) as [[u m0]|]; [|done].
    match goal with |- match ?e with Some _ => _ | None => _ end = _ =>
      replace e with (Some (tt, m')) by (by rewrite <- E1) end. done. }
  exists t', N. split; [done|]. split; [done|].
  split; [rewrite EK'; apply on_path_insert; [by rewrite EK|done]|].
  right. split; [done|]. split; [done|]. rewrite (proj2 (Z.eqb_neq q 0)) by done.
  split; [done|]. exists (lkeys p), (rkeys p). by rewrite EK.
Qed.

Lemma tsearch_spec fuel q junk key m rp t n :
  zrep m rp [] t -> ordered (keys t) -> rb t n -> q = 0 \/ fresh m q ->
  (2 * height t <= fuel)%nat ->
  exists res m', __tsearch compar fuel q junk key (Some rp) m = Some (res, m') /\
  tsearch_post m' rp t q key res.
Proof.
  intros R O RB HQ Hf. unfold __tsearch.
  assert (D1 := zrep_deref _ _ _ _ R). cbn [loc] in D1. rewrite (bind_some _ _ _ _ _ D1). clear D1.
  destruct (zrep_when_black _ _ _ _ R) as (m1 & E1 & R1). rewrite (bind_some _ _ _ _ _ E1).
  assert (D1 := zrep_deref _ _ _ _ R1). cbn [loc] in D1. rewrite (bind_some _ _ _ _ _ D1). clear D1.
  assert (K1 : forall l, is_Some (m1 !! l) <-> is_Some (m !! l)).
  { intros l. revert E1. unfold when. destruct (negb _); [|by intros [= <-]].
    intros E1. eapply (keeps_bind (load _) _); [apply keeps_load|intros; apply keeps_store|exact E1]. }
  assert (HQ' : q = 0 \/ fresh m1 q).
  { destruct HQ as [|[Hq HN]]; [by left|right]. split; [done|]. intros f.
    apply eq_None_not_Some. rewrite K1, HN. by intros [? [=]]. }
  assert (OPn : on_path key []) by (split; by apply list.Forall_nil).
  destruct t as [|x c l k r]; cbn [set_colour addr] in *.
  { cbn [Z.eqb]. rewrite (bind_some _ _ m1 _ m1) by done. exists q.
    by apply (tsearch_insert m1 rp Leaf q junk key [] rp rp None 0 0). }
  destruct (Z.eqb_spec x 0) as [E|_]; [by destruct (zrep_addr_nonzero _ _ _ _ _ _ _ _ R)|].
  assert (exists n1, rb (Node x false l k r) n1) as [n1 RB1].
  { destruct c; [|by exists n]. exists (S n). apply rb_red in RB. apply rb_black_S. tauto. }
  destruct (tsearch_loop_spec fuel key rp (keys (Node x false l k r)) O [] (Node x false l k r) n1 m1
    None 0 0 None) as (d & m2 & E2 & DP); [done|done|by split|done|done| |].
  { left. split; [|done]. split; [done|]. by split. }
  cbn [loc] in E2. rewrite (bind_some _ _ _ _ _ E2).
  pose proof (keeps_tsearch_loop fuel key rp None None 0 0 m1 d m2 E2) as K2.
  destruct d as [a|nextp rootp parentp r' p_r]; cbn [descent_post] in DP.
  - destruct DP as (p & c' & l' & k' & r1 & n' & R2 & F2 & E0 & EK).
    exists a, m2. split; [done|]. destruct (fits_plug _ _ _ F2) as [N FN].
    exists (plug p (Node a c' l' k' r1)), N. split; [apply zrep_plug; by rewrite app_nil_r|].
    split; [done|]. rewrite EK. split; [done|]. left. exists k'. split.
    + change (keys (Node x c l k r)) with (keys (Node x false l k r)). rewrite <- EK, keys_plug. cbn. set_solver.
    + split; [done|]. split; [done|]. by exists p, c', l', r1.
  - destruct DP as (s & p & R2 & F2 & EK & OP & E3 & E4 & PO & UB).
    assert (HQ2 : q = 0 \/ fresh m2 q).
    { destruct HQ' as [|[Hq HN]]; [by left|right]. split; [done|]. intros f.
      apply eq_None_not_Some. rewrite K2, HN. by intros [? [=]]. }
    exists q. by apply (tsearch_insert m2 rp (Node x c l k r) q junk key (s :: p)).
Qed.
End Descent.
