(* ===== verification/TsearchDelete.v ===== *)
(** * Deletion from search trees

    [__tdelete]: the search that fills [nodestack], the successor that takes
    the place of the deleted node, and the rebalancing loop that gives back
    the black edge that was lost. *)

From stdpp Require Import sorting.
From S2P Require Import Prelude CMonad Tsearch TsearchRep TsearchInsert TsearchDescent.

Open Scope c_scope.
Open Scope Z_scope.

(** The stack that belongs to a path. *)
Fixpoint stack_of (rp : cell) (p : path) : list cell :=
  match p with [] => [] | _ :: p => loc rp p :: stack_of rp p end.

Lemma stack_of_length rp p : length (stack_of rp p) = length p.
Proof. induction p; simpl; congruence. Qed.

Lemma copy_colour_ok m p n x c y c' :
  m !! (p, Fleft) = Some (enc x c) -> aligned x ->
  m !! (n, Fleft) = Some (enc y c') -> aligned y ->
  copy_colour p n m = Some (tt, <[(n, Fleft) := enc y c]> m).
Proof.
  intros Lp Ax Ln Ay. unfold copy_colour. rewrite (bind_some _ _ _ _ _ (RED_ok _ _ _ _ Lp Ax)).
  destruct c; [by eapply SETRED_ok|by eapply SETBLACK_ok].
Qed.

Ltac run2 :=
  first [ run1
        | match goal with |- bind (copy_colour _ _) _ _ = _ =>
            erewrite bind_some by (eapply copy_colour_ok; [lk|assumption|lk|assumption]) end ].

(** ** The repairs of the rebalancing loop

    [red_brother]: the brother of the short subtree [A] is red.
    [repair_inner] and [repair_outer]: the near or the far son of the black
    brother is red. *)

Section Repairs.
Variables (m : memory) (rp : cell) (pth : path) (p : Z) (c : bool) (A : tree) (kp : Z).
Variables (q : Z) (cq : bool) (kq : Z).

Lemma red_brother_left_spec Bt Ct s :
  zrep m rp pth (Node p c A kp (Node q cq Bt kq Ct)) -> sp s < stacksize s ->
  exists m', red_brother_left p q (loc rp pth) s m
    = Some ((addr Bt, (q, Fleft), Stack ((q, Fleft) :: stk s) (stacksize s)), m') /\
  zrep m' rp pth (Node q false (Node p true A kp Bt) kq Ct).
Proof.
  intros R Hs. zopen [p; q] [A; Bt; Ct] R. unfold red_brother_left, push_raw.
  rewrite (proj2 (Z.ltb_lt _ _) Hs). eexists. split.
  - repeat run1. unfold bind at 1, ret at 1. repeat run1. reflexivity.
  - eapply rotate_left_rep; [eassumption|]. compare_cells.
Qed.

Lemma red_brother_right_spec Bt Ct s :
  zrep m rp pth (Node p c (Node q cq Ct kq Bt) kp A) -> sp s < stacksize s ->
  exists m', red_brother_right p q (loc rp pth) s m
    = Some ((addr Bt, (q, Fright), Stack ((q, Fright) :: stk s) (stacksize s)), m') /\
  zrep m' rp pth (Node q false Ct kq (Node p true Bt kp A)).
Proof.
  intros R Hs. zopen [p; q] [A; Bt; Ct] R. unfold red_brother_right, push_raw.
  rewrite (proj2 (Z.ltb_lt _ _) Hs). eexists. split.
  - repeat run1. unfold bind at 1, ret at 1. repeat run1. reflexivity.
  - eapply rotate_right_rep; [eassumption|]. compare_cells.
Qed.

Lemma repair_inner_left q2 c2 Bt k2 Ct Dt :
  zrep m rp pth (Node p c A kp (Node q cq (Node q2 c2 Bt k2 Ct) kq Dt)) -> is_red Dt = false ->
  exists m', repair_left p q (loc rp pth) m = Some (tt, m') /\
  zrep m' rp pth (Node q2 c (Node p false A kp Bt) k2 (Node q cq Ct kq Dt)).
Proof.
  intros R HD. assert (Rd := proj1 (zrep_right _ _ _ _ _ _ _ _) (proj1 (zrep_right _ _ _ _ _ _ _ _) R)).
  zopen [p; q; q2] [A; Bt; Ct; Dt] R. unfold repair_left. eexists. split.
  - run1. rewrite (bind_some _ _ _ _ _ (zrep_black _ _ _ _ Rd)), HD. cbn [negb]. repeat run2.
  - eapply rotate_right_left_rep; [eassumption|]. compare_cells.
Qed.

Lemma repair_inner_right q2 c2 Bt k2 Ct Dt :
  zrep m rp pth (Node p c (Node q cq Dt kq (Node q2 c2 Ct k2 Bt)) kp A) -> is_red Dt = false ->
  exists m', repair_right p q (loc rp pth) m = Some (tt, m') /\
  zrep m' rp pth (Node q2 c (Node q cq Dt kq Ct) k2 (Node p false Bt kp A)).
Proof.
  intros R HD. assert (Rd := proj1 (zrep_left _ _ _ _ _ _ _ _) (proj1 (zrep_left _ _ _ _ _ _ _ _) R)).
  zopen [p; q; q2] [A; Bt; Ct; Dt] R. unfold repair_right. eexists. split.
  - run1. rewrite (bind_some _ _ _ _ _ (zrep_black _ _ _ _ Rd)), HD. cbn [negb]. repeat run2.
  - eapply rotate_left_right_rep; [eassumption|]. compare_cells.
Qed.

Lemma repair_outer_left Bt Dt : 
  zrep m rp pth (Node p c A kp (Node q cq Bt kq Dt)) -> is_red Dt = true ->
  exists m', repair_left p q (loc rp pth) m = Some (tt, m') /\
  zrep m' rp pth (Node q c (Node p false A kp Bt) kq (set_colour false Dt)).
Proof.
  intros R HD. assert (Rd := proj1 (zrep_right _ _ _ _ _ _ _ _) (proj1 (zrep_right _ _ _ _ _ _ _ _) R)).
  destruct Dt as [|d cd Dl kd Dr]; [done|]. zopen [p; q; d] [A; Bt; Dl; Dr] R.
  assert (R' := zrep_colour _ _ _ _ _ false _ _ _ Rd). apply (zrep_right _ _ (_ :: _)), zrep_right in R'.
  unfold repair_left. eexists. split.
  - run1. rewrite (bind_some _ _ _ _ _ (zrep_black _ _ _ _ Rd)), HD. cbn [negb]. repeat run2.
  - eapply rotate_left_rep; [exact R'|]. compare_cells.
Qed.

Lemma repair_outer_right Bt Dt : 
  zrep m rp pth (Node p c (Node q cq Dt kq Bt) kp A) -> is_red Dt = true ->
  exists m', repair_right p q (loc rp pth) m = Some (tt, m') /\
  zrep m' rp pth (Node q c (set_colour false Dt) kq (Node p false Bt kp A)).
Proof.
  intros R HD. assert (Rd := proj1 (zrep_left _ _ _ _ _ _ _ _) (proj1 (zrep_left _ _ _ _ _ _ _ _) R)).
  destruct Dt as [|d cd Dl kd Dr]; [done|]. zopen [p; q; d] [A; Bt; Dl; Dr] R.
  assert (R' := zrep_colour _ _ _ _ _ false _ _ _ Rd). apply (zrep_left _ _ (_ :: _)), zrep_left in R'.
  unfold repair_right. eexists. split.
  - run1. rewrite (bind_some _ _ _ _ _ (zrep_black _ _ _ _ Rd)), HD. cbn [negb]. repeat run2.
  - eapply rotate_right_rep; [exact R'|]. compare_cells.
Qed.
End Repairs.

(** ** The rebalancing loop *)

(** Balanced, but a red root may have red sons. *)
Definition weak (t : tree) (n : nat) : Prop :=
  match t with
  | Leaf => n = 0%nat
  | Node _ c l _ r => exists n', n = (if c then n' else S n') /\ rb l n' /\ rb r n'
  end.

Lemma weak_rb t n : weak t n -> is_red t = false -> rb t n.
Proof.
  destruct t as [|a [] l k r]; [intros ->; done|done|]. intros (n' & -> & Bl & Br) _.
  by apply rb_black_S.
Qed.

Lemma rb_weak t n : rb t n -> weak t n.
Proof.
  destruct t as [|a [] l k r]; [by rewrite rb_leaf| |].
  - rewrite rb_red. intros (? & ? & _). by exists n.
  - rewrite rb_black. intros (n' & -> & ? & ?). by exists n'.
Qed.

(** The same nodes and keys. *)
Definition same_content (t t' : tree) : Prop := keys t' = keys t /\ addrs t' ≡ₚ addrs t.

Lemma same_content_plug p t t' : same_content t t' -> same_content (plug p t) (plug p t').
Proof.
  intros [K A]. split; [by rewrite !keys_plug, K|].
  assert (AP : forall u, addrs (plug p u) ≡ₚ addrs u ++ path_addrs p).
  { clear. induction p as [|s p IH]; intros u; [cbn; by rewrite app_nil_r|].
    cbn [plug]. rewrite IH. destruct s; cbn; solve_Permutation. }
  by rewrite !AP, A.
Qed.

Lemma same_content_trans t1 t2 t3 : same_content t1 t2 -> same_content t2 t3 -> same_content t1 t3.
Proof. intros [K1 A1] [K2 A2]. split; [congruence|by rewrite A2]. Qed.

Lemma set_colour_addrs c t : addrs (set_colour c t) = addrs t.
Proof. by destruct t. Qed.

Ltac content :=
  split; cbn; rewrite ?set_colour_keys, ?set_colour_addrs;
  [repeat (cbn; rewrite <- ?app_assoc); reflexivity|solve_Permutation].

(** What one iteration leaves: a short subtree [t] further up, with its
    ancestors on the stack, or a red-black tree and nothing to do. *)
Definition iteration_post (m : memory) (rp : cell) (pth : path) (t0 : tree)
    (s : nodestack) (r' : Z) (s' : nodestack) : Prop :=
  stacksize s' = stacksize s /\
  exists p t, zrep m rp p t /\ same_content (plug pth t0) (plug p t) /\
  ((r' = addr t /\ t <> Leaf /\ tail (stk s') = stack_of rp p /\
    (p = pth /\ is_red t = is_red t0 \/ is_red t = true) /\ exists n, weak t n /\ path_rb p (S n)) \/
   (r' = 0 /\ tail (stk s') = [] /\ exists n, fits p t n)).

Section Iteration.
Variables (m : memory) (rp : cell) (pth : path) (p : Z) (c : bool) (r : tree) (kp : Z).
Variables (q : Z) (ql : tree) (kq : Z) (qr : tree) (n : nat) (s : nodestack).
Hypothesis Br : rb r n.
Hypothesis Bql : rb ql n.
Hypothesis Bqr : rb qr n.
Hypothesis HP : path_rb pth (if c then S n else S (S n)).
Hypothesis HC : c = true -> head_red pth = false.

Lemma set_sp_1 cc ss z : stk (set_sp 1 (Stack (cc :: ss) z)) <> [] /\
  tail (stk (set_sp 1 (Stack (cc :: ss) z))) = [].
Proof.
  unfold set_sp. cbn [stk length]. replace (S (length ss) - 1)%nat with (length ss) by lia.
  assert (E : exists x, drop (length ss) (cc :: ss) = [x]) by
    (clear; revert cc; induction ss as [|y ss IH]; intros cc; [by exists cc|apply IH]).
  destruct E as [x ->]. done.
Qed.

Lemma black_brother_left_spec :
  zrep m rp pth (Node p c r kp (Node q false ql kq qr)) -> stk s = loc rp pth :: stack_of rp pth ->
  exists r' s' m', black_brother_left p q (loc rp pth) s m = Some ((r', s'), m') /\
  iteration_post m' rp pth (Node p c r kp (Node q false ql kq qr)) s r' s'.
Proof.
  intros R ES. assert (Rq := proj1 (zrep_right _ _ _ _ _ _ _ _) R).
  assert (Rl := proj1 (zrep_left _ _ _ _ _ _ _ _) Rq).
  assert (Rr := proj1 (zrep_right _ _ _ _ _ _ _ _) Rq).
  unfold black_brother_left.
  rewrite (bind_some _ _ _ _ _ (zrep_LEFT _ _ _ _ _ _ _ _ Rq)).
  rewrite (bind_some _ _ _ _ _ (zrep_RIGHT _ _ _ _ _ _ _ _ Rq)).
  rewrite (bind_some _ _ _ (negb (is_red ql) && negb (is_red qr)) m).
  2:{ unfold and_then. rewrite (bind_some _ _ _ _ _ (zrep_black _ _ _ _ Rl)).
      destruct (is_red ql); [done|]. apply (zrep_black _ _ _ _ Rr). }
  destruct (is_red qr) eqn:Hr; [|destruct (is_red ql) eqn:Hl]; cbn [negb andb]; rewrite ?andb_false_r.
  - destruct (repair_outer_left _ _ _ _ _ _ _ _ _ _ _ _ R Hr) as (m' & E & R').
    rewrite (bind_some _ _ _ _ _ E). eexists _, _, m'. split; [reflexivity|]. split; [done|].
    eexists _, _. split; [exact R'|]. split; [apply same_content_plug; content|]. right.
    split; [done|]. split; [destruct s; cbn in ES; subst; apply set_sp_1|].
    exists (if c then S n else S (S n)). split; [|split; [done|]].
    + assert (rb (set_colour false qr) (S n)) by (by apply rb_blacken).
      destruct c; rewrite ?rb_red, !rb_black_S, ?is_red_blackened; done.
    + intros H. cbn. destruct c; [by rewrite HC in H|done].
  - destruct ql as [|q2 [] b k2 d]; [done| |done].
    destruct (repair_inner_left _ _ _ _ _ _ _ _ _ _ _ _ _ _ _ _ R Hr) as (m' & E & R').
    rewrite (bind_some _ _ _ _ _ E). eexists _, _, m'. split; [reflexivity|]. split; [done|].
    eexists _, _. split; [exact R'|]. split; [apply same_content_plug; content|]. right.
    split; [done|]. split; [destruct s; cbn in ES; subst; apply set_sp_1|].
    exists (if c then S n else S (S n)). split; [|split; [done|]].
    + apply rb_red in Bql. destruct c; rewrite ?rb_red, !rb_black_S; tauto.
    + intros H. cbn. destruct c; [by rewrite HC in H|done].
  - destruct (zrep_SETRED _ _ _ _ _ _ _ _ Rq) as (m' & E & R').
    rewrite (bind_some _ _ _ _ _ E). apply zrep_right in R'. eexists _, _, m'.
    split; [reflexivity|]. split; [done|]. eexists pth, _. split; [exact R'|].
    split; [apply same_content_plug; content|]. left. split; [done|]. split; [done|].
    split; [by rewrite ES|]. split; [by left|]. exists (if c then n else S n).
    split; [|by destruct c]. exists n. split; [done|]. split; [done|]. by apply rb_red.
Qed.

Lemma black_brother_right_spec :
  zrep m rp pth (Node p c (Node q false ql kq qr) kp r) -> stk s = loc rp pth :: stack_of rp pth ->
  exists r' s' m', black_brother_right p q (loc rp pth) s m = Some ((r', s'), m') /\
  iteration_post m' rp pth (Node p c (Node q false ql kq qr) kp r) s r' s'.
Proof.
  intros R ES. assert (Rq := proj1 (zrep_left _ _ _ _ _ _ _ _) R).
  assert (Rl := proj1 (zrep_left _ _ _ _ _ _ _ _) Rq).
  assert (Rr := proj1 (zrep_right _ _ _ _ _ _ _ _) Rq).
  unfold black_brother_right.
  rewrite (bind_some _ _ _ _ _ (zrep_RIGHT _ _ _ _ _ _ _ _ Rq)).
  rewrite (bind_some _ _ _ _ _ (zrep_LEFT _ _ _ _ _ _ _ _ Rq)).
  rewrite (bind_some _ _ _ (negb (is_red qr) && negb (is_red ql)) m).
  2:{ unfold and_then. rewrite (bind_some _ _ _ _ _ (zrep_black _ _ _ _ Rr)).
      destruct (is_red qr); [done|]. apply (zrep_black _ _ _ _ Rl). }
  destruct (is_red ql) eqn:Hl; [|destruct (is_red qr) eqn:Hr]; cbn [negb andb]; rewrite ?andb_false_r.
  - destruct (repair_outer_right _ _ _ _ _ _ _ _ _ _ _ _ R Hl) as (m' & E & R').
    rewrite (bind_some _ _ _ _ _ E). eexists _, _, m'. split; [reflexivity|]. split; [done|].
    eexists _, _. split; [exact R'|]. split; [apply same_content_plug; content|]. right.
    split; [done|]. split; [destruct s; cbn in ES; subst; apply set_sp_1|].
    exists (if c then S n else S (S n)). split; [|split; [done|]].
    + assert (rb (set_colour false ql) (S n)) by (by apply rb_blacken).
      destruct c; rewrite ?rb_red, !rb_black_S, ?is_red_blackened; done.
    + intros H. cbn. destruct c; [by rewrite HC in H|done].
  - destruct qr as [|q2 [] b k2 d]; [done| |done].
    destruct (repair_inner_right _ _ _ _ _ _ _ _ _ _ _ _ _ _ _ _ R Hl) as (m' & E & R').
    rewrite (bind_some _ _ _ _ _ E). eexists _, _, m'. split; [reflexivity|]. split; [done|].
    eexists _, _. split; [exact R'|]. split; [apply same_content_plug; content|]. right.
    split; [done|]. split; [destruct s; cbn in ES; subst; apply set_sp_1|].
    exists (if c then S n else S (S n)). split; [|split; [done|]].
    + apply rb_red in Bqr. destruct c; rewrite ?rb_red, !rb_black_S; tauto.
    + intros H. cbn. destruct c; [by rewrite HC in H|done].
  - destruct (zrep_SETRED _ _ _ _ _ _ _ _ Rq) as (m' & E & R').
    rewrite (bind_some _ _ _ _ _ E). apply zrep_left in R'. eexists _, _, m'.
    split; [reflexivity|]. split; [done|]. eexists pth, _. split; [exact R'|].
    split; [apply same_content_plug; content|]. left. split; [done|]. split; [done|].
    split; [by rewrite ES|]. split; [by left|]. exists (if c then n else S n).
    split; [|by destruct c]. exists n. split; [done|]. split; [|done]. by apply rb_red.
Qed.
End Iteration.

(** The iteration below a rotated red brother counts for the whole. *)
Lemma iteration_post_up m rp pth s0 t t' s s1 r' s' :
  iteration_post m rp (s0 :: pth) t' s1 r' s' -> is_red t' = true -> stacksize s1 = stacksize s ->
  same_content t (plug1 s0 t') -> iteration_post m rp pth t s r' s'.
Proof.
  intros (E & p & t1 & R & C & D) HR ES SC. split; [congruence|]. exists p, t1. split; [done|].
  split; [eapply same_content_trans; [by apply (same_content_plug pth), SC|exact C]|].
  destruct D as [(E1 & E2 & E3 & E4 & E5)|D]; [left|by right].
  split; [done|]. split; [done|]. split; [done|]. split; [|done]. right.
  destruct E4 as [[_ E4]|E4]; congruence.
Qed.

Lemma rebalance_left_spec m rp pth p c r kp q n s :
  zrep m rp pth (Node p c r kp q) -> rb r n -> path_rb (InLeft p c kp q :: pth) (S n) ->
  stk s = loc rp pth :: stack_of rp pth -> sp s < stacksize s ->
  exists r' s' m', rebalance_left p (loc rp pth) s m = Some ((r', s'), m') /\
  iteration_post m' rp pth (Node p c r kp q) s r' s'.
Proof.
  intros R Br (Bq & HC & HP) ES HS. cbn [sibling step_colour] in *. unfold rebalance_left.
  rewrite (bind_some _ _ _ _ _ (zrep_RIGHT _ _ _ _ _ _ _ _ R)).
  assert (Rq := proj1 (zrep_right _ _ _ _ _ _ _ _) R).
  destruct q as [|q cq ql kq qr]; [by apply rb_leaf in Bq|]. cbn [addr].
  rewrite (bind_some _ _ _ _ _ (zrep_RED _ _ _ _ _ _ _ _ Rq)).
  destruct cq.
  - assert (c = false) as -> by (destruct c; [by destruct (HC eq_refl)|done]).
    apply rb_red in Bq as (Bl & Bqr & Nl & Nr).
    destruct (red_brother_left_spec _ _ _ _ _ _ _ _ _ _ _ _ s R HS) as (m1 & E1 & R1).
    rewrite (bind_some _ _ _ _ _ E1). destruct ql as [|q' cq' l' k' r1]; [by apply rb_leaf in Bl|].
    cbn in Nl. subst cq'. apply rb_black_S in Bl as [Bl1 Bl2].
    apply zrep_left in R1. cbn [addr].
    destruct (black_brother_left_spec m1 rp (InLeft q false kq qr :: pth) p true r kp q' l' k' r1 n
      (Stack ((q, Fleft) :: stk s) (stacksize s))) as (r' & s' & m2 & E2 & P);
      [done..|by rewrite ES|]. exists r', s', m2. split; [exact E2|].
    eapply iteration_post_up; [exact P|done|done|]. content.
  - rewrite (bind_some _ _ _ (q, loc rp pth, s) m) by done. apply rb_black_S in Bq as [Bl Bqr].
    apply (black_brother_left_spec m rp pth p c r kp q ql kq qr n s); try done. naive_solver.
Qed.

Lemma rebalance_right_spec m rp pth p c r kp q n s :
  zrep m rp pth (Node p c q kp r) -> rb r n -> path_rb (InRight p c q kp :: pth) (S n) ->
  stk s = loc rp pth :: stack_of rp pth -> sp s < stacksize s ->
  exists r' s' m', rebalance_right p (loc rp pth) s m = Some ((r', s'), m') /\
  iteration_post m' rp pth (Node p c q kp r) s r' s'.
Proof.
  intros R Br (Bq & HC & HP) ES HS. cbn [sibling step_colour] in *. unfold rebalance_right.
  rewrite (bind_some _ _ _ _ _ (zrep_LEFT _ _ _ _ _ _ _ _ R)).
  assert (Rq := proj1 (zrep_left _ _ _ _ _ _ _ _) R).
  destruct q as [|q cq ql kq qr]; [by apply rb_leaf in Bq|]. cbn [addr].
  rewrite (bind_some _ _ _ _ _ (zrep_RED _ _ _ _ _ _ _ _ Rq)).
  destruct cq.
  - assert (c = false) as -> by (destruct c; [by destruct (HC eq_refl)|done]).
    apply rb_red in Bq as (Bql & Br1 & Nl & Nr).
    destruct (red_brother_right_spec _ _ _ _ _ _ _ _ _ _ _ _ s R HS) as (m1 & E1 & R1).
    rewrite (bind_some _ _ _ _ _ E1). destruct qr as [|q' cq' l' k' r1]; [by apply rb_leaf in Br1|].
    cbn in Nr. subst cq'. apply rb_black_S in Br1 as [Bl1 Bl2].
    apply zrep_right in R1. cbn [addr].
    destruct (black_brother_right_spec m1 rp (InRight q false ql kq :: pth) p true r kp q' l' k' r1 n
      (Stack ((q, Fright) :: stk s) (stacksize s))) as (r' & s' & m2 & E2 & P);
      [done..|by rewrite ES|]. exists r', s', m2. split; [exact E2|].
    eapply iteration_post_up; [exact P|done|done|]. content.
  - rewrite (bind_some _ _ _ (q, loc rp pth, s) m) by done. apply rb_black_S in Bq as [Bl Bqr].
    apply (black_brother_right_spec m rp pth p c r kp q ql kq qr n s); try done. naive_solver.
Qed.

(** [rebalance] followed by [if (r != NULL) SETBLACK (r);]. *)
Definition rebalance_end (fuel : nat) (r : Z) (s : nodestack) : T unit :=
  let! r := rebalance fuel r s in when (negb (r =? 0)) (SETBLACK r).

Lemma rebalance_spec fuel m rp p t n s :
  zrep m rp p t -> weak t n -> path_rb p (S n) -> stk s = stack_of rp p ->
  is_red t = true \/ Z.of_nat (length p) < stacksize s -> (if is_red t then 0 < fuel else length p + 1 < fuel)%nat ->
  exists m' t' N, rebalance_end fuel (addr t) s m = Some (tt, m') /\ zrep m' rp [] t' /\
  rb t' N /\ same_content (plug p t) t'.
Proof.
  revert m p t n s. induction fuel as [|fuel IH]; intros m p t n s R W HP ES HS Hf.
  { destruct (is_red t); lia. }
  unfold rebalance_end. cbn [rebalance]. rewrite ES.
  assert (Stop : (is_red t = true \/ p = []) -> exists m' t' N,
    when (negb (addr t =? 0)) (SETBLACK (addr t)) m = Some (tt, m') /\ zrep m' rp [] t' /\
    rb t' N /\ same_content (plug p t) t').
  { intros HT. destruct (zrep_when_black _ _ _ _ R) as (m' & E & R').
    assert (exists N, rb (plug p (set_colour false t)) N) as [N HN].
    { destruct t as [|a ct l k r]; [by destruct HT as [HT| ->]; [|exists 0%nat]|].
      destruct W as (n' & -> & Bl & Br). cbn [set_colour].
      assert (rb (Node a false l k r) (S n')) by by apply rb_black_S.
      destruct HT as [HT| ->]; [cbn in HT; subst ct|by exists (S n')].
      apply (fits_plug p _ (S n')). by split. }
    exists m', (plug p (set_colour false t)), N. split; [exact E|].
    split; [apply zrep_plug; by rewrite app_nil_r|]. split; [done|].
    apply same_content_plug. split; [by rewrite set_colour_keys|by rewrite set_colour_addrs]. }
  destruct p as [|st p']; cbn [stack_of].
  { rewrite (bind_some _ _ _ _ _ (eq_refl : ret (addr t) m = _)). apply Stop. by right. }
  rewrite bind_bind, (bind_some _ _ _ _ _ (zrep_black _ _ _ _ R)).
  destruct (is_red t) eqn:Ht; cbn [negb].
  { rewrite (bind_some _ _ _ _ _ (eq_refl : ret (addr t) m = _)). apply Stop. by left. }
  apply weak_rb in W; [|done]. destruct (deref_parent _ _ _ _ _ R) as [Ed _].
  rewrite bind_bind, (bind_some _ _ _ _ _ Ed).
  assert (HS' : sp s < stacksize s) by (unfold sp; rewrite ES, stack_of_length; destruct HS; [done|lia]).
  assert (It : exists r' s' m', (let! l := LEFT (step_addr st) in
      if addr t =? l then rebalance_left (step_addr st) (loc rp p') s
      else rebalance_right (step_addr st) (loc rp p') s) m = Some ((r', s'), m') /\
    iteration_post m' rp p' (plug1 st t) s r' s').
  { destruct st as [a c k q|a c q k]; cbn [step_addr plug1].
    - apply zrep_left in R. rewrite (bind_some _ _ _ _ _ (zrep_LEFT _ _ _ _ _ _ _ _ R)), Z.eqb_refl.
      by apply rebalance_left_spec with n.
    - apply (zrep_right m rp p' a c q k t) in R.
      rewrite (bind_some _ _ _ _ _ (zrep_LEFT _ _ _ _ _ _ _ _ R)).
      destruct (Z.eqb_spec (addr t) (addr q)) as [E|_].
      { exfalso. destruct HP as (Bq & _). destruct q as [|b cb lb kb rb']; [by apply rb_leaf in Bq|].
        pose proof (zrep_nodup _ _ _ _ R) as ND. pose proof (zrep_aligned _ _ _ _ R) as AL.
        destruct t as [|b' ct lt kt rt]; cbn in E; subst.
        - cbn in AL. rewrite !list.Forall_cons in AL. by destruct AL as (_ & [] & _).
        - cbn in ND. rewrite !list.NoDup_cons in ND. destruct ND as (_ & ND & _). set_solver. }
      by apply rebalance_right_spec with n. }
  destruct It as (r' & s' & m' & E & ESZ & p1 & t1 & R1 & SC & D).
  apply bind_inv in E as (l & m1 & E1 & E2).
  rewrite bind_bind, (bind_some _ _ _ _ _ E1), bind_bind, (bind_some _ _ _ _ _ E2).
  destruct D as [(-> & Nt & Et & Ec & n1 & W1 & HP1)|(-> & Et & n1 & F1)]; rewrite Et.
  - destruct (IH m' p1 t1 n1 (Stack (stack_of rp p1) (stacksize s'))) as (m2 & t2 & N & E3 & R2 & B2 & SC2);
      [done..| | |].
    + cbn [stacksize]. rewrite ESZ. destruct Ec as [[-> _]|Ec]; [right|by left].
      cbn [length] in HS. destruct HS; [done|lia].
    + cbn [length] in Hf. destruct Ec as [[-> _]|Ec]; [|rewrite Ec; lia].
      destruct (is_red t1); lia.
    + exists m2, t2, N. split; [exact E3|]. split; [done|]. split; [done|].
      by eapply same_content_trans.
  - cbn [length] in Hf. destruct fuel as [|fuel]; [lia|]. destruct (fits_plug _ _ _ F1) as [N HN].
    exists m', (plug p1 t1), N. split; [done|]. split; [apply zrep_plug; by rewrite app_nil_r|]. done.
Qed.

(** ** The search and the successor *)

Lemma rb_unplug p t N : rb (plug p t) N -> exists n, fits p t n.
Proof.
  revert t N. induction p as [|s p IH]; intros t N B; [by exists N; split|].
  apply IH in B as [n F].
  assert (exists n', n = if step_colour s then n' else S n') as [n' ->].
  { destruct F as (F & _). destruct s as [a [] k r|a [] l k]; cbn in F |- *;
      [by exists n| |by exists n|]; apply rb_black in F as (n' & -> & _); eauto. }
  exists n'. by apply fits_plug1.
Qed.

(** The parent of the node below a path, or [root]. *)
Definition parent_addr (root : Z) (p : path) : Z :=
  match p with [] => root | s :: _ => step_addr s end.

Lemma push_grow_spec c s : stk (push_grow c s) = c :: stk s /\ stacksize s <= stacksize (push_grow c s).
Proof. unfold push_grow. destruct (sp s =? stacksize s); cbn; split; (done || lia). Qed.

Section Delete.
Context (compar : Z -> Z -> Z) `{!Compar compar}.

Lemma tdelete_find_spec fuel key m rp p t root s :
  zrep m rp p t -> t <> Leaf -> ordered compar (keys (plug p t)) -> on_path compar key p ->
  (height t <= fuel)%nat -> stk s = stack_of rp p ->
  exists res, tdelete_find compar fuel key (loc rp p) (addr t) (parent_addr root p) s m = Some (res, m) /\
  match res with
  | None => forall k, k ∈ keys (plug p t) -> compar key k <> 0
  | Some (rootp, retval, s') => exists p' a c l k r,
      rootp = loc rp p' /\ retval = parent_addr root p' /\ plug p' (Node a c l k r) = plug p t /\
      zrep m rp p' (Node a c l k r) /\ compar key k = 0 /\ stk s' = stack_of rp p' /\
      stacksize s <= stacksize s' /\ (length p' + height (Node a c l k r) <= length p + height t)%nat
  end.
Proof.
  revert p t s. induction fuel as [|fuel IH]; intros p t s R Nt O OP Hf ES.
  { destruct t; simpl in Hf; [done|lia]. }
  destruct t as [|x c l k r]; [done|]. cbn [tdelete_find addr].
  rewrite (bind_some _ _ _ _ _ (zrep_key _ _ _ _ _ _ _ _ R)).
  destruct (Z.eqb_spec (compar key k) 0) as [E|N].
  { eexists. split; [reflexivity|]. exists p, x, c, l, k, r. repeat (split; [done|]). done. }
  rewrite (bind_some _ _ _ _ _ (zrep_deref _ _ _ _ R)). cbn [addr].
  pose proof (turn_on_path _ _ _ _ _ _ _ _ O OP N) as OP'.
  pose proof (turn_zrep _ _ _ (compar key k) _ _ _ _ _ R) as R'.
  pose proof (turn_plug (compar key k) x c l k r) as EP.
  pose proof (turn_loc (compar key k) x c l k r rp p) as EL.
  pose proof (turn_height (compar key k) x c l k r) as EH.
  assert (ES' : step_addr (turn (compar key k) x c l k r).1 = x)
    by (unfold turn; by destruct (compar key k <? 0)).
  rewrite (bind_some _ _ m (addr (turn (compar key k) x c l k r).2) m).
  2:{ unfold turn. destruct (compar key k <? 0);
        [apply (zrep_LEFT _ _ _ _ _ _ _ _ R)|apply (zrep_RIGHT _ _ _ _ _ _ _ _ R)]. }
  destruct (turn (compar key k) x c l k r) as [st y]. cbn [fst snd] in *.
  unfold nextp_of in EL. rewrite <- EL.
  destruct y as [|y cy ly ky ry].
  { eexists. split; [reflexivity|]. rewrite <- EP. by apply (on_path_absent _ _ (st :: p)). }
  cbn [addr]. destruct (Z.eqb_spec y 0) as [E|_]; [by destruct (zrep_addr_nonzero _ _ _ _ _ _ _ _ R')|].
  destruct (push_grow_spec (loc rp p) s) as [Q1 Q2].
  destruct (IH (st :: p) (Node y cy ly ky ry) (push_grow (loc rp p) s)) as (res & E & D);
    [done|done|cbn [plug]; by rewrite EP|done|lia|by rewrite Q1, ES|].
  cbn [addr parent_addr] in E. rewrite ES' in E. exists res. split; [exact E|].
  cbn [plug] in D. rewrite EP in D. destruct res as [[[rootp rv] s']|]; [|done].
  destruct D as (p' & a & c' & l' & k' & r' & D1 & D2 & D3 & D4 & D5 & D6 & D7 & D8).
  exists p', a, c', l', k', r'. repeat (split; [done|]). split; [lia|].
  cbn [length] in D8. lia.
Qed.

Lemma tdelete_successor_spec fuel m rp s0 p t s :
  zrep m rp (s0 :: p) t -> t <> Leaf -> (height t <= fuel)%nat -> stk s = stack_of rp p ->
  exists ls u cu ku ru s', tdelete_successor fuel (loc rp p) (loc rp (s0 :: p)) s m
    = Some ((loc rp (ls ++ s0 :: p), s'), m) /\
  plug ls (Node u cu Leaf ku ru) = t /\ lkeys ls = [] /\
  stk s' = stack_of rp (ls ++ s0 :: p) /\ stacksize s <= stacksize s' /\
  (length ls < height t)%nat.
Proof.
  revert s0 p t s. induction fuel as [|fuel IH]; intros s0 p t s R Nt Hf ES.
  { destruct t; simpl in Hf; [done|lia]. }
  destruct t as [|x c l k r]; [done|]. cbn [tdelete_successor].
  rewrite (bind_some _ _ _ _ _ (zrep_deref _ _ _ _ R)). cbn [addr].
  rewrite (bind_some _ _ _ _ _ (zrep_LEFT _ _ _ _ _ _ _ _ R)).
  destruct (push_grow_spec (loc rp p) s) as [Q1 Q2].
  destruct l as [|y cy ly ky ry].
  { exists [], x, c, k, r. eexists. split; [reflexivity|]. split; [done|]. split; [done|].
    split; [by rewrite Q1, ES|]. split; [done|]. simpl. lia. }
  apply zrep_left in R. cbn [addr].
  destruct (Z.eqb_spec y 0) as [E|_]; [by destruct (zrep_addr_nonzero _ _ _ _ _ _ _ _ R)|].
  destruct (IH (InLeft x c k r) (s0 :: p) (Node y cy ly ky ry) (push_grow (loc rp p) s))
    as (ls & u & cu & ku & ru & s' & E & EP & EK & ES' & SZ & HL);
    [done|done|simpl in Hf |- *; lia|by rewrite Q1, ES|].
  exists (ls ++ [InLeft x c k r]), u, cu, ku, ru, s'. rewrite <- app_assoc. split; [exact E|].
  assert (PA : forall ls' v, plug (ls' ++ [InLeft x c k r]) v = plug1 (InLeft x c k r) (plug ls' v))
    by (intros ls'; induction ls' as [|? ? IH']; intros v; [done|apply IH']).
  split; [by rewrite PA, EP|]. split.
  { clear - EK. induction ls as [|[] ls IH]; [done|by apply IH|].
    cbn in EK. by apply app_nil in EK as [_ [_ [=]]%app_nil]. }
  split; [done|]. split; [lia|]. rewrite length_app. simpl in *. lia.
Qed.
End Delete.

(** ** Unchaining and freeing *)

(** [t'] takes the place of [t] below the path. *)
Lemma zrep_unlink m rp p t t' :
  zrep m rp p t -> addrs t' ⊆ addrs t -> NoDup (addrs t') -> tree_in m t' ->
  zrep (<[loc rp p := enc (addr t') (loc_colour p)]> m) rp p t'.
Proof.
  intros R Sub ND' T'. pose proof R as [H1 H2 _ H4 H5].
  apply list.NoDup_app in H4 as (N1 & N2 & N3). apply list.Forall_app in H5 as [A1 A2].
  split; [done| | | |].
  - eapply path_in_relink; [done..| | |].
    + apply lookup_insert_eq.
    + intros a f _ _ Hl. by rewrite lookup_insert_ne.
    + intros Hl. by rewrite lookup_insert_ne.
  - eapply tree_in_frame; [|done]. intros b f Hb Hf. apply lookup_insert_ne.
    by apply (zrep_loc_ne _ _ _ _ _ _ R); [apply Sub|].
  - apply list.NoDup_app. split; [done|]. split; [|done]. intros x Hx. by apply N2, Sub.
  - apply list.Forall_app. split; [|done]. rewrite list.Forall_forall in A1 |- *. auto.
Qed.

Lemma zrep_set_key m rp p a c l k k' r :
  zrep m rp p (Node a c l k r) -> zrep (<[(a, Fkey) := k']> m) rp p (Node a c l k' r).
Proof.
  intros R. pose proof (zrep_loc_ne _ _ _ _ a Fkey R ltac:(left) ltac:(done)) as NL.
  eapply zrep_replace; [exact R|done| | |].
  - pose proof (zrep_nodup _ _ _ _ R) as ND. cbn in ND. apply list.NoDup_cons in ND as [Na _].
    rewrite !not_elem_of_app in Na. destruct Na as [[Nl Nr] _].
    pose proof (zrep_tree _ _ _ _ R) as TT. cbn [tree_in] in TT |- *.
    destruct TT as (K & Lf & Rt & Tl & Tr).
    rewrite lookup_insert_eq, !lookup_insert_ne by congruence.
    split_and!; try done; (eapply tree_in_frame; [|done]; intros b f Hb Hf;
      apply lookup_insert_ne; congruence).
  - rewrite lookup_insert_ne by done. by apply (zrep_loc _ _ _ _ R).
  - intros c0 H0 H1. apply lookup_insert_ne. intros <-. destruct H1 as [H1|H1]; [|done].
    apply H1. left.
Qed.

Lemma unchain_spec m rp p u cu lu ku ru s r rootp :
  zrep m rp p (Node u cu lu ku ru) -> stk s = stack_of rp p -> (p = [] -> rootp = rp) ->
  unchain rootp s u r m = Some (tt, <[loc rp p := enc r (loc_colour p)]> m).
Proof.
  intros R ES ER. unfold unchain. rewrite ES. pose proof (zrep_loc _ _ _ _ R) as L.
  destruct p as [|st p]; cbn [stack_of].
  { rewrite (ER eq_refl). eapply SETNODEPTR_ok; [exact L|by eapply zrep_addr_aligned]. }
  destruct (deref_parent _ _ _ _ _ R) as [Ed _]. rewrite (bind_some _ _ _ _ _ Ed). clear Ed.
  destruct st as [a c k q|a c q k]; cbn [step_addr loc loc_colour] in *.
  - assert (Rp := proj2 (zrep_left m rp p a c _ k q) R).
    rewrite (bind_some _ _ _ _ _ (zrep_RIGHT _ _ _ _ _ _ _ _ Rp)).
    destruct (Z.eqb_spec u (addr q)) as [E|_].
    { exfalso. destruct q as [|b cb lb kb rb']; cbn in E.
      - by destruct (zrep_addr_nonzero _ _ _ _ _ _ _ _ R).
      - pose proof (zrep_nodup _ _ _ _ R) as ND. cbn in ND. subst.
        rewrite list.NoDup_cons in ND. destruct ND as [ND _]. set_solver. }
    eapply SETLEFT_ok; [exact L|by eapply zrep_addr_aligned].
  - assert (Rp := proj2 (zrep_right m rp p a c q k _) R).
    rewrite (bind_some _ _ _ _ _ (zrep_RIGHT _ _ _ _ _ _ _ _ Rp)). cbn [addr].
    rewrite Z.eqb_refl, enc_false. eapply SETRIGHT_ok. exact L.
Qed.

Lemma zrep_free m rp t u v :
  zrep m rp [] t -> u ∉ addrs t -> m !! (u, Fkey) = Some v ->
  exists m', free_node u m = Some (tt, m') /\ zrep m' rp [] t /\ forall f, f <> Froot -> m' !! (u, f) = None.
Proof.
  intros R Nu K. unfold free_node. rewrite K. eexists. split; [reflexivity|]. split.
  - pose proof R as [H1 H2 H3 H4 H5]. split; [done| | |done|done].
    + cbn in *. rewrite !lookup_delete_ne; [done|..]; destruct rp; cbn in *; congruence.
    + eapply tree_in_frame; [|exact H3]. intros b f Hb Hf.
      assert (b <> u) by (by intros ->). by rewrite !lookup_delete_ne by congruence.
  - intros f Hf. destruct f; [by rewrite lookup_delete_eq| | |done].
    + rewrite lookup_delete_ne by done. by rewrite lookup_delete_eq.
    + rewrite !lookup_delete_ne by done. by rewrite lookup_delete_eq.
Qed.

Lemma keeps_rebalance fuel r s : keeps_cells (rebalance_end fuel r s).
Proof.
  unfold rebalance_end. apply keeps_bind.
  - revert r s. induction fuel as [|fuel IH]; intros r s; cbn [rebalance]; [apply keeps_undefined|].
    destruct (stk s); [apply keeps_ret|].
    unfold rebalance_left, rebalance_right, red_brother_left, red_brother_right, black_brother_left,
      black_brother_right, repair_left, repair_right, push_raw, copy_colour, black_or_null, or_else,
      and_then, negM, SETRED, SETBLACK, RED, LEFT, RIGHT, SETLEFT, SETRIGHT, SETNODEPTR, DEREFNODEPTR.
    keeps; apply IH.
  - intros a. unfold when, SETBLACK. keeps.
Qed.

(** [u] is unchained; [r] is its son, at the end of [p]. *)
Lemma tdelete_finish_spec fuel m rp p r u cu x v s :
  zrep m rp p r -> stk s = stack_of rp p -> Z.of_nat (length p) < stacksize s ->
  (length p + 1 < fuel)%nat -> u ∉ addrs (plug p r) ->
  m !! (u, Fleft) = Some (enc x cu) -> aligned x -> m !! (u, Fkey) = Some v ->
  (if cu then exists N, rb (plug p r) N else exists n, rb r n /\ path_rb p (S n)) ->
  exists m' t' N, tdelete_finish fuel u (addr r) s m = Some (tt, m') /\ zrep m' rp [] t' /\ rb t' N /\
  same_content (plug p r) t' /\ forall f, f <> Froot -> m' !! (u, f) = None.
Proof.
  intros R ES HS Hf Nu L A K B. unfold tdelete_finish.
  rewrite (bind_some _ _ _ _ _ (RED_ok _ _ _ _ L A)).
  assert (Bal : exists m1 t' N, when (negb cu) (rebalance_end fuel (addr r) s) m = Some (tt, m1) /\
    zrep m1 rp [] t' /\ rb t' N /\ same_content (plug p r) t' /\ is_Some (m1 !! (u, Fkey))).
  { destruct cu; cbn [negb when].
    - destruct B as [N B]. exists m, (plug p r), N. split; [done|].
      split; [apply zrep_plug; by rewrite app_nil_r|]. split; [done|]. split; [done|]. by rewrite K.
    - destruct B as (n & B & HP).
      destruct (rebalance_spec fuel m rp p r n s) as (m1 & t' & N & E & R' & B' & SC);
        [done|by apply rb_weak|done|done|by right|destruct (is_red r); lia|].
      exists m1, t', N. split; [exact E|]. repeat (split; [done|]).
      apply (keeps_rebalance _ _ _ _ _ _ E). by rewrite K. }
  destruct Bal as (m1 & t' & N & E & R' & B' & SC & [w Hw]). unfold rebalance_end in E.
  rewrite (bind_some _ _ _ _ _ E).
  assert (u ∉ addrs t') by (destruct SC as [_ ->]; done).
  destruct (zrep_free m1 rp t' u w) as (m2 & E2 & R2 & F2); [done..|].
  by exists m2, t', N.
Qed.

Lemma addrs_plug p t : addrs (plug p t) ≡ₚ addrs t ++ path_addrs p.
Proof.
  revert t. induction p as [|s p IH]; intros u; [cbn; by rewrite app_nil_r|].
  cbn [plug]. rewrite IH. destruct s; cbn; solve_Permutation.
Qed.

Lemma path_rb_key ls a c l k k' p n :
  path_rb (ls ++ InRight a c l k :: p) n -> path_rb (ls ++ InRight a c l k' :: p) n.
Proof.
  revert n. induction ls as [|s ls IH]; intros n; [done|]. cbn [app path_rb].
  intros (H1 & H2 & H3). split; [done|]. split; [|by apply IH].
  intros Hs. destruct (H2 Hs) as [H4 H5]. split; [done|]. by destruct ls.
Qed.

Lemma stack_of_key rp ls a c l k k' p :
  stack_of rp (ls ++ InRight a c l k :: p) = stack_of rp (ls ++ InRight a c l k' :: p).
Proof.
  induction ls as [|s ls IH]; [done|]. cbn [app stack_of]. rewrite IH. f_equal. by destruct ls as [|[] ls].
Qed.

Lemma plug_app ls p t : plug (ls ++ p) t = plug p (plug ls t).
Proof. revert t. induction ls as [|s ls IH]; intros t; [done|apply IH]. Qed.

(** The only son [r] of a node [u] of a red-black tree can replace it, with a
    black edge missing if [u] is black. *)
Lemma fits_only_son p u cu lu ku ru r n :
  fits p (Node u cu lu ku ru) n -> (lu = Leaf /\ r = ru) \/ (ru = Leaf /\ r = lu) ->
  if cu then fits p r n else exists n', rb r n' /\ path_rb p (S n').
Proof.
  intros (B & HP & HC) Hr. destruct cu.
  - apply rb_red in B as (B1 & B2 & N1 & N2). destruct Hr as [[-> ->]|[-> ->]]; by split.
  - apply rb_black in B as (n' & -> & B1 & B2). exists n'. by destruct Hr as [[-> ->]|[-> ->]].
Qed.

(** ** The contract of [tdelete_node] *)

Section Node.
Variables (fuel : nat) (m : memory) (rp : cell) (p : path).
Variables (a : Z) (c : bool) (l : tree) (k : Z) (r : tree) (N0 : nat) (s : nodestack).
Hypothesis R : zrep m rp p (Node a c l k r).
Hypothesis B0 : rb (plug p (Node a c l k r)) N0.
Hypothesis ES : stk s = stack_of rp p.
Hypothesis HS : Z.of_nat (length p + height (Node a c l k r)) <= stacksize s.
Hypothesis Hf : (length p + height (Node a c l k r) < fuel)%nat.

Definition deleted (m' : memory) (t' : tree) : Prop :=
  zrep m' rp [] t' /\ (exists N, rb t' N) /\ keys t' = lkeys p ++ (keys l ++ keys r) ++ rkeys p /\
  exists u, addrs (plug p (Node a c l k r)) ≡ₚ u :: addrs t' /\
    forall f, f <> Froot -> m' !! (u, f) = None.

(** [LEFT (u) ? LEFT (u) : RIGHT (u)] *)
Lemma only_son_read m1 p1 u cu lu ku ru r1 :
  zrep m1 rp p1 (Node u cu lu ku ru) -> (lu = Leaf /\ r1 = ru) \/ (ru = Leaf /\ r1 = lu) ->
  bind (LEFT u) (fun r => if r =? 0 then RIGHT u else ret r) m1 = Some (addr r1, m1).
Proof.
  intros R1 H1. rewrite (bind_some _ _ _ _ _ (zrep_LEFT _ _ _ _ _ _ _ _ R1)).
  destruct lu as [|b cb lb kb rb']; cbn [addr].
  - transitivity (RIGHT u m1); [done|]. rewrite (zrep_RIGHT _ _ _ _ _ _ _ _ R1). by destruct H1 as [[_ ->]|[-> ->]].
  - apply zrep_left in R1.
    destruct (Z.eqb_spec b 0) as [E|_]; [by destruct (zrep_addr_nonzero _ _ _ _ _ _ _ _ R1)|].
    by destruct H1 as [[? _]|[_ ->]].
Qed.

(** The node has at most one son and is unchained itself. *)
Lemma delete_unchains_node r1 :
  (l = Leaf /\ r1 = r) \/ (r = Leaf /\ r1 = l) ->
  exists m' t', (unchain (loc rp p) s a (addr r1);; tdelete_finish fuel a (addr r1) s) m
    = Some (tt, m') /\ deleted m' t'.
Proof.
  intros H1. destruct (rb_unplug _ _ _ B0) as [n F].
  rewrite (bind_some _ _ _ _ _ (unchain_spec m rp p a c l k r s (addr r1) (loc rp p) R ES
    (fun E => f_equal (loc rp) E))).
  pose proof (zrep_nodup _ _ _ _ R) as ND. cbn [addrs app] in ND.
  apply list.NoDup_cons in ND as [Na ND].
  pose proof (zrep_tree _ _ _ _ R) as TT. cbn [tree_in] in TT. destruct TT as (Ka & La & _ & Tl & Tr).
  assert (E1 : addrs r1 = addrs l ++ addrs r)
    by (destruct H1 as [[-> ->]|[-> ->]]; cbn; by rewrite ?app_nil_r).
  assert (R1 : zrep (<[loc rp p := enc (addr r1) (loc_colour p)]> m) rp p r1).
  { apply (zrep_unlink m rp p (Node a c l k r)); [done| | |].
    - rewrite E1. cbn. set_solver.
    - rewrite E1. by apply list.NoDup_app in ND as (ND & _).
    - by destruct H1 as [[_ ->]|[_ ->]]. }
  assert (NL := fun f => zrep_loc_ne _ _ _ _ a f R ltac:(left)).
  destruct (tdelete_finish_spec fuel _ rp p r1 a c (addr l) k s R1 ES)
    as (m' & t' & N & E & R' & B' & [SK SA] & Fr).
  - cbn [height] in HS. lia.
  - cbn [height] in Hf. lia.
  - rewrite addrs_plug, E1. done.
  - by rewrite lookup_insert_ne by (by apply NL).
  - apply (zrep_left_aligned _ _ _ _ _ _ _ _ R).
  - by rewrite lookup_insert_ne by (by apply NL).
  - pose proof (fits_only_son _ _ _ _ _ _ r1 _ F H1) as FS.
    destruct c; [by eapply fits_plug|done].
  - exists m', t'. split; [exact E|]. split; [done|]. split; [eauto|]. split.
    + rewrite SK, keys_plug. destruct H1 as [[-> ->]|[-> ->]]; cbn; by rewrite ?app_nil_r.
    + exists a. split; [|done]. rewrite SA, !addrs_plug, E1. done.
Qed.

(** The node has two sons: its successor [u] gives it its key and is
    unchained. *)
Lemma delete_unchains_successor ls u cu ku ru s' :
  plug ls (Node u cu Leaf ku ru) = r -> lkeys ls = [] ->
  stk s' = stack_of rp (ls ++ InRight a c l k :: p) -> stacksize s <= stacksize s' ->
  (length ls < height r)%nat ->
  exists m' t', (unchain (loc rp p) s' u (addr ru);;
    (let! k := node_key u in store (a, Fkey) k);;
    tdelete_finish fuel u (addr ru) s') m = Some (tt, m') /\ u <> a /\ deleted m' t'.
Proof.
  intros EP EK ES' SZ HL. set (pu := ls ++ InRight a c l k :: p) in *.
  set (pu' := ls ++ InRight a c l ku :: p).
  assert (EPu : plug pu (Node u cu Leaf ku ru) = plug p (Node a c l k r))
    by (unfold pu; by rewrite plug_app, EP).
  assert (Ru : zrep m rp pu (Node u cu Leaf ku ru)).
  { apply zrep_plug. rewrite EP. by apply (zrep_right m rp p). }
  assert (B1 := B0). rewrite <- EPu in B1. destruct (rb_unplug _ _ _ B1) as [n F].
  rewrite (bind_some _ _ _ _ _ (unchain_spec m rp pu u cu Leaf ku ru s' (addr ru) (loc rp p) Ru ES'
    ltac:(unfold pu; by intros [_ [=]]%app_nil))).
  set (m1 := <[loc rp pu := enc (addr ru) (loc_colour pu)]> m).
  pose proof (zrep_tree _ _ _ _ Ru) as TT. cbn [tree_in addr] in TT. destruct TT as (Ku & Lu & _ & _ & Tr).
  assert (NL := fun f => zrep_loc_ne _ _ _ _ u f Ru ltac:(left)).
  pose proof (zrep_nodup _ _ _ _ Ru) as ND. cbn [addrs app] in ND.
  apply list.NoDup_cons in ND as [Nu ND].
  assert (R1 : zrep m1 rp pu ru).
  { apply (zrep_unlink m rp pu (Node u cu Leaf ku ru)); [done|cbn; set_solver| |done].
    by apply list.NoDup_app in ND as (ND & _). }
  assert (Ha : a ∈ path_addrs pu).
  { unfold pu, path_addrs. rewrite map_app, concat_app. apply elem_of_app. right. left. }
  assert (Nua : u <> a) by (intros E; apply Nu, elem_of_app; right; by rewrite E).
  assert (Ku1 : m1 !! (u, Fkey) = Some ku) by (unfold m1; by rewrite lookup_insert_ne by (by apply NL)).
  apply zrep_plug, (zrep_right m1 rp p) in R1.
  pose proof (zrep_tree _ _ _ _ R1) as TT. cbn [tree_in] in TT. destruct TT as (Ka & _).
  rewrite (bind_some _ _ m1 tt (<[(a, Fkey) := ku]> m1)).
  2:{ rewrite (bind_some _ _ _ _ _ (node_key_ok _ _ _ Ku1)). unfold store. by rewrite Ka. }
  set (m2 := <[(a, Fkey) := ku]> m1).
  assert (R2 : zrep m2 rp pu' ru).
  { apply zrep_plug, (zrep_right m2 rp p). eapply zrep_set_key. exact R1. }
  destruct (tdelete_finish_spec fuel m2 rp pu' ru u cu 0 ku s' R2)
    as (m' & t' & N & E & R' & B' & [SK SA] & Fr).
  - rewrite ES'. apply stack_of_key.
  - unfold pu'. rewrite length_app. cbn [height length] in *. lia.
  - unfold pu'. rewrite length_app. cbn [height length] in *. lia.
  - rewrite addrs_plug. intros Hu. apply Nu. revert Hu. unfold pu, pu', path_addrs.
    by rewrite !map_app, !concat_app.
  - unfold m2, m1. rewrite lookup_insert_ne by congruence. by rewrite lookup_insert_ne by (by apply NL).
  - done.
  - unfold m2. by rewrite lookup_insert_ne by congruence.
  - pose proof (fits_only_son _ _ _ _ _ _ ru _ F (or_introl (conj eq_refl eq_refl))) as FS.
    destruct cu.
    + destruct FS as (F1 & F2 & F3). eapply fits_plug. split; [exact F1|].
      split; [by apply (path_rb_key _ _ _ _ k ku) in F2|]. revert F3. unfold pu, pu'. by destruct ls.
    + destruct FS as (n' & F1 & F2). exists n'. split; [done|]. by apply (path_rb_key _ _ _ _ k ku) in F2.
  - exists m', t'. split; [exact E|]. split; [done|]. split; [done|]. split; [eauto|]. split.
    + rewrite SK. unfold pu'. rewrite plug_app. cbn [plug plug1]. rewrite keys_plug. cbn [keys].
      rewrite <- EP, !keys_plug, EK. done.
    + exists u. split; [|done]. rewrite SA, <- EPu, !addrs_plug. cbn [addrs app].
      unfold pu, pu', path_addrs. by rewrite !map_app, !concat_app.
Qed.

Lemma tdelete_node_spec :
  exists m' t', tdelete_node fuel (loc rp p) s m = Some (tt, m') /\ deleted m' t'.
Proof.
  unfold tdelete_node. rewrite (bind_some _ _ _ _ _ (zrep_deref _ _ _ _ R)). cbn [addr].
  rewrite (bind_some _ _ _ _ _ (zrep_RIGHT _ _ _ _ _ _ _ _ R)).
  rewrite (bind_some _ _ _ _ _ (zrep_LEFT _ _ _ _ _ _ _ _ R)).
  assert (One : (l = Leaf /\ exists r1, r1 = r) \/ (r = Leaf /\ exists r1, r1 = l) \/ (l <> Leaf /\ r <> Leaf))
    by (destruct l, r; eauto).
  assert (Single : forall r1, (l = Leaf /\ r1 = r) \/ (r = Leaf /\ r1 = l) ->
    (addr l =? 0) || (addr r =? 0) = true).
  { intros r1 [[-> _]|[-> _]]; [done|apply orb_true_r]. }
  assert (Done : forall r1, (l = Leaf /\ r1 = r) \/ (r = Leaf /\ r1 = l) ->
    exists m' t', (let! ' (unchained, s0) :=
      if (addr l =? 0) || (addr r =? 0) then ret (a, s) else
        let! ' (up, s0) := tdelete_successor fuel (loc rp p) (RIGHTPTR a) s in
        let! u := DEREFNODEPTR up in ret (u, s0) in
      let! r := LEFT unchained in
      let! r := if r =? 0 then RIGHT unchained else ret r in
      unchain (loc rp p) s0 unchained r;;
      when (negb (unchained =? a)) (let! k := node_key unchained in store (a, Fkey) k);;
      tdelete_finish fuel unchained r s0) m = Some (tt, m') /\ deleted m' t').
  { intros r1 H1. rewrite (Single _ H1), (bind_some _ _ _ (a, s) m) by done.
    rewrite <- bind_bind, (bind_some _ _ _ _ _ (only_son_read _ _ _ _ _ _ _ _ R H1)).
    rewrite Z.eqb_refl. cbn [negb when].
    destruct (delete_unchains_node r1 H1) as (m' & t' & E & D). exists m', t'. split; [|done].
    rewrite <- E. unfold bind. by destruct (unchain (loc rp p) s a (addr r1) m) as [[[] ?]|]. }
  destruct One as [[H _]|[[H _]|[Hl Hr]]]; [apply (Done r); by left|apply (Done l); by right|].
  clear Done Single.
  assert (Rl := proj1 (zrep_left _ _ _ _ _ _ _ _) R). assert (Rr := proj1 (zrep_right _ _ _ _ _ _ _ _) R).
  destruct (Z.eqb_spec (addr l) 0) as [E|_]; [by destruct Hl; apply (zrep_null _ _ _ _ Rl)|].
  destruct (Z.eqb_spec (addr r) 0) as [E|_]; [by destruct Hr; apply (zrep_null _ _ _ _ Rr)|].
  cbn [orb].
  destruct (tdelete_successor_spec fuel m rp (InRight a c l k) p r s Rr Hr)
    as (ls & u & cu & ku & ru & s' & E & EP & EK & ES' & SZ & HL); [cbn [height] in Hf; lia|done|].
  rewrite bind_bind, (bind_some _ _ _ _ _ E).
  assert (Ru : zrep m rp (ls ++ InRight a c l k :: p) (Node u cu Leaf ku ru)).
  { apply zrep_plug. by rewrite EP. }
  rewrite bind_bind, (bind_some _ _ _ _ _ (zrep_deref _ _ _ _ Ru)). cbn [addr].
  rewrite (bind_some _ _ _ (u, s') m) by done.
  rewrite <- bind_bind, (bind_some _ _ _ _ _ (only_son_read _ _ _ _ _ _ _ _ Ru (or_introl (conj eq_refl eq_refl)))).
  destruct (delete_unchains_successor ls u cu ku ru s' EP EK ES' SZ HL) as (m' & t' & E' & Nu & D).
  exists m', t'. split; [|done]. rewrite (proj2 (Z.eqb_neq u a)) by done. cbn [negb when]. exact E'.
Qed.
End Node.

(** ** The contract of [__tdelete] *)

Section Contract.
Context (compar : Z -> Z -> Z) `{!Compar compar}.

Lemma tdelete_spec fuel key m rp t n :
  zrep m rp [] t -> ordered compar (keys t) -> rb t n -> (height t <= 40)%nat -> (height t < fuel)%nat ->
  exists res m', __tdelete compar fuel key (Some rp) m = Some (res, m') /\
  ((res = 0 /\ m' = m /\ forall k, k ∈ keys t -> compar key k <> 0) \/
   (exists t' n' l1 k l2 u, zrep m' rp [] t' /\ rb t' n' /\ compar key k = 0 /\
      keys t = l1 ++ k :: l2 /\ keys t' = l1 ++ l2 /\ addrs t ≡ₚ u :: addrs t' /\
      res ∈ addrs t /\ forall f, f <> Froot -> m' !! (u, f) = None)).
Proof.
  intros R O B H40 Hf. unfold __tdelete.
  assert (D := zrep_deref _ _ _ _ R). cbn [loc] in D. rewrite (bind_some _ _ _ _ _ D). clear D.
  destruct t as [|x c l k r]; cbn [addr].
  { exists 0, m. split; [done|]. left. split; [done|]. split; [done|]. intros k Hk. by apply elem_of_nil in Hk. }
  destruct (Z.eqb_spec x 0) as [E|_]; [by destruct (zrep_addr_nonzero _ _ _ _ _ _ _ _ R)|].
  destruct (tdelete_find_spec compar fuel key m rp [] (Node x c l k r) x (Stack [] 40)) as (res & E & D);
    [done|done|done|by split; apply list.Forall_nil|lia|done|].
  cbn [loc addr parent_addr] in E. rewrite (bind_some _ _ _ _ _ E).
  destruct res as [[[rootp rv] s']|].
  2:{ exists 0, m. split; [done|]. by left. }
  destruct D as (p' & a & c' & l' & k' & r' & -> & -> & EP & R' & Ek & ES & SZ & HL).
  cbn [plug length] in EP, HL. assert (B' := B). rewrite <- EP in B'. cbn [stacksize] in SZ.
  destruct (tdelete_node_spec fuel m rp p' a c' l' k' r' n s') as (m' & t' & E' & D); [done..|lia|lia|].
  rewrite (bind_some _ _ _ _ _ E'). eexists _, m'. split; [reflexivity|]. right.
  destruct D as (R2 & [N2 B2] & K2 & u & A2 & F2). rewrite EP in A2.
  exists t', N2, (lkeys p' ++ keys l'), k', (keys r' ++ rkeys p'), u.
  split; [done|]. split; [done|]. split; [done|]. split.
  { rewrite <- EP, keys_plug. cbn. by rewrite <- !app_assoc. }
  split; [rewrite K2; by rewrite <- !app_assoc|]. split; [done|]. split; [|done].
  destruct p' as [|st p']; cbn [parent_addr]; [left|].
  rewrite <- EP, addrs_plug. apply elem_of_app. right. destruct st; left.
Qed.
End Contract.
