(* ===== verification/TsearchTheorems.v ===== *)
(** * The search tree theorems

    The contracts of [tsearch], [tfind], [tdelete], [twalk] and [tdestroy] on
    the trees of [TsearchRep], seen as sorted lists of keys; the height of a
    red-black tree; sequences of calls. *)

From stdpp Require Import sorting.
From S2P Require Import Prelude CMonad Tsearch TsearchRep TsearchInsert TsearchDescent TsearchDelete.

Open Scope c_scope.
Open Scope Z_scope.

(** ** Height *)

Lemma rb_size t n : rb t n -> 2 ^ Z.of_nat n <= Z.of_nat (length (keys t)) + 1.
Proof.
  revert n. induction t as [|a [] l IHl k r IHr]; intros n.
  - rewrite rb_leaf. intros ->. done.
  - rewrite rb_red. intros (B1 & B2 & _). apply IHl in B1. cbn. rewrite length_app. simpl. lia.
  - rewrite rb_black. intros (n' & -> & B1 & B2). apply IHl in B1. apply IHr in B2.
    cbn. rewrite length_app. simpl length. rewrite Nat2Z.inj_succ, Z.pow_succ_r by lia. lia.
Qed.

Lemma rb_height t n : rb t n -> (height t <= 2 * n + (if is_red t then 1 else 0))%nat.
Proof.
  revert n. induction t as [|a [] l IHl k r IHr]; intros n.
  - rewrite rb_leaf. intros ->. done.
  - rewrite rb_red. intros (B1 & B2 & N1 & N2). apply IHl in B1. apply IHr in B2.
    rewrite N1 in B1. rewrite N2 in B2. simpl. lia.
  - rewrite rb_black. intros (n' & -> & B1 & B2). apply IHl in B1. apply IHr in B2.
    simpl. destruct (is_red l), (is_red r); lia.
Qed.

Lemma rb_height_log t n : rb t n ->
  Z.of_nat (height t) <= 2 * Z.log2 (Z.of_nat (length (keys t)) + 1) + 1.
Proof.
  intros B. pose proof (rb_height t n B) as H. pose proof (rb_size t n B) as S.
  assert (Z.of_nat n <= Z.log2 (Z.of_nat (length (keys t)) + 1)).
  { apply Z.log2_le_pow2; lia. }
  destruct (is_red t); lia.
Qed.

(** ** Walking *)

(** The calls of [action] a walk of [t] makes; [next] gives the third
    argument of the calls below. *)
Fixpoint visits (next : Z -> Z) (t : tree) (x : Z) : list (Z * VISIT * Z) :=
  match t with
  | Leaf => []
  | Node a _ Leaf _ Leaf => [(a, leaf, x)]
  | Node a _ l _ r =>
      (a, preorder, x) :: visits next l (next x) ++ (a, postorder, x) :: visits next r (next x)
      ++ [(a, endorder, x)]
  end.

(** Nodes from left to right, with their keys. *)
Fixpoint inorder (t : tree) : list (Z * Z) :=
  match t with Leaf => [] | Node a _ l k r => inorder l ++ (a, k) :: inorder r end.

Definition in_order_visit (v : Z * VISIT * Z) : bool :=
  match v.1.2 with leaf | postorder => true | _ => false end.

Lemma visits_inorder next t x :
  map (fun v => v.1.1) (List.filter in_order_visit (visits next t x)) = map fst (inorder t).
Proof.
  revert x. induction t as [|a c l IHl k r IHr]; intros x; [done|].
  assert (G : map (fun v => v.1.1) (List.filter in_order_visit
    ((a, preorder, x) :: visits next l (next x) ++ (a, postorder, x) :: visits next r (next x)
     ++ [(a, endorder, x)])) = map fst (inorder (Node a c l k r))).
  { cbn [List.filter in_order_visit fst snd]. rewrite List.filter_app. cbn [List.filter in_order_visit fst snd].
    rewrite List.filter_app. cbn [List.filter in_order_visit fst snd]. rewrite app_nil_r, map_app.
    cbn [map]. rewrite IHl, IHr. cbn. by rewrite map_app. }
  by destruct l, r.
Qed.

Lemma inorder_keys t : map snd (inorder t) = keys t.
Proof. induction t as [|a c l IHl k r IHr]; [done|]. cbn. by rewrite map_app, IHl, <- IHr. Qed.

Lemma zrep_sons_null m rp p a c l k r : zrep m rp p (Node a c l k r) ->
  (addr l =? 0) = match l with Leaf => true | _ => false end /\
  (addr r =? 0) = match r with Leaf => true | _ => false end.
Proof.
  intros R. split.
  - apply zrep_left in R. destruct l as [|b]; [done|]. apply Z.eqb_neq.
    by apply (zrep_addr_nonzero _ _ _ _ _ _ _ _ R).
  - apply zrep_right in R. destruct r as [|b]; [done|]. apply Z.eqb_neq.
    by apply (zrep_addr_nonzero _ _ _ _ _ _ _ _ R).
Qed.

Lemma trecurse_spec fuel m rp p t x : zrep m rp p t -> t <> Leaf -> (height t <= fuel)%nat ->
  trecurse fuel (addr t) x m = Some (visits (fun x => x + 1) t x, m) /\
  trecurse_r fuel (addr t) x m = Some (visits (fun x => x) t x, m).
Proof.
  revert p t x. induction fuel as [|fuel IH]; intros p t x R Nt Hf.
  { destruct t; simpl in Hf; [done|lia]. }
  destruct t as [|a c l k r]; [done|]. cbn [trecurse trecurse_r addr].
  destruct (zrep_sons_null _ _ _ _ _ _ _ _ R) as [El Er].
  assert (Rl := proj1 (zrep_left _ _ _ _ _ _ _ _) R). assert (Rr := proj1 (zrep_right _ _ _ _ _ _ _ _) R).
  rewrite !(bind_some _ _ _ _ _ (zrep_LEFT _ _ _ _ _ _ _ _ R)).
  rewrite !(bind_some _ _ _ _ _ (zrep_RIGHT _ _ _ _ _ _ _ _ R)). rewrite El, Er.
  cbn [height] in Hf.
  assert (Hl : l <> Leaf -> forall x, trecurse fuel (addr l) x m = Some (visits (fun x => x + 1) l x, m) /\
    trecurse_r fuel (addr l) x m = Some (visits (fun x => x) l x, m))
    by (intros; eapply IH; [exact Rl|done|lia]).
  assert (Hr : r <> Leaf -> forall x, trecurse fuel (addr r) x m = Some (visits (fun x => x + 1) r x, m) /\
    trecurse_r fuel (addr r) x m = Some (visits (fun x => x) r x, m))
    by (intros; eapply IH; [exact Rr|done|lia]).
  destruct l as [|bl cl ll kl rl], r as [|br cr lr kr rr]; cbn [negb andb]; [done|..].
  - destruct (Hr ltac:(done) (x + 1)) as [E1 _]. destruct (Hr ltac:(done) x) as [_ E2].
    rewrite !(bind_some _ _ m [] m) by done.
    rewrite !(bind_some _ _ _ _ _ (zrep_RIGHT _ _ _ _ _ _ _ _ R)). rewrite Er. cbn [negb].
    by rewrite (bind_some _ _ _ _ _ E1), (bind_some _ _ _ _ _ E2).
  - destruct (Hl ltac:(done) (x + 1)) as [E1 _]. destruct (Hl ltac:(done) x) as [_ E2].
    rewrite (bind_some _ _ _ _ _ E1), (bind_some _ _ _ _ _ E2).
    rewrite !(bind_some _ _ _ _ _ (zrep_RIGHT _ _ _ _ _ _ _ _ R)). rewrite Er. cbn [negb].
    rewrite !(bind_some _ _ m [] m) by done. done.
  - destruct (Hl ltac:(done) (x + 1)) as [E1 _]. destruct (Hl ltac:(done) x) as [_ E2].
    rewrite (bind_some _ _ _ _ _ E1), (bind_some _ _ _ _ _ E2).
    rewrite !(bind_some _ _ _ _ _ (zrep_RIGHT _ _ _ _ _ _ _ _ R)). rewrite Er. cbn [negb].
    destruct (Hr ltac:(done) (x + 1)) as [E3 _]. destruct (Hr ltac:(done) x) as [_ E4].
    by rewrite (bind_some _ _ _ _ _ E3), (bind_some _ _ _ _ _ E4).
Qed.

(** ** Destroying *)

Fixpoint postorder_keys (t : tree) : list Z :=
  match t with Leaf => [] | Node _ _ l k r => postorder_keys l ++ postorder_keys r ++ [k] end.

Lemma postorder_keys_perm t : postorder_keys t ≡ₚ keys t.
Proof. induction t as [|a c l IHl k r IHr]; [done|]. cbn. rewrite IHl, IHr. solve_Permutation. Qed.

Lemma tdestroy_spec fuel m t :
  tree_in m t -> NoDup (addrs t) -> Forall node_addr (addrs t) -> t <> Leaf -> (height t <= fuel)%nat ->
  exists m', tdestroy_recurse fuel (addr t) m = Some (postorder_keys t, m') /\
  forall c, m' !! c = if bool_decide (c.1 ∈ addrs t /\ c.2 <> Froot) then None else m !! c.
Proof.
  revert m t. induction fuel as [|fuel IH]; intros m t HT ND AL Nt Hf.
  { destruct t; simpl in Hf; [done|lia]. }
  destruct t as [|a c l k r]; [done|]. cbn [tdestroy_recurse addr].
  cbn [tree_in] in HT. destruct HT as (K & L & Rt & Tl & Tr).
  cbn [addrs] in ND, AL. apply list.NoDup_cons in ND as [Na ND]. apply list.NoDup_app in ND as (NDl & D & NDr).
  apply list.Forall_cons in AL as [Aa AL]. apply list.Forall_app in AL as [Al Ar].
  rewrite not_elem_of_app in Na. destruct Na as [Nal Nar]. cbn [height] in Hf.
  assert (Sub : forall m0 s, tree_in m0 s -> NoDup (addrs s) -> Forall node_addr (addrs s) ->
    (height s <= fuel)%nat -> exists m', (if negb (addr s =? 0) then tdestroy_recurse fuel (addr s) else ret []) m0
      = Some (postorder_keys s, m') /\
    forall c, m' !! c = if bool_decide (c.1 ∈ addrs s /\ c.2 <> Froot) then None else m0 !! c).
  { intros m0 s T0 N0 A0 H0. destruct s as [|b cb lb kb rb'].
    - exists m0. split; [done|]. intros c0. rewrite bool_decide_false; [done|]. cbn. set_solver.
    - cbn [addr]. rewrite (proj2 (Z.eqb_neq b 0)) by (by apply list.Forall_cons in A0 as [[] _]).
      cbn [negb]. by apply (IH m0 (Node b cb lb kb rb')). }
  rewrite (bind_some _ _ _ _ _ (LEFT_ok _ _ _ _ L (subtree_aligned l (addrs l) Al ltac:(done)))).
  destruct (Sub m l Tl NDl Al ltac:(lia)) as (m1 & E1 & F1). rewrite (bind_some _ _ _ _ _ E1).
  assert (S1 : forall b f, b ∉ addrs l -> m1 !! (b, f) = m !! (b, f)).
  { intros b f Hb. rewrite F1, bool_decide_false; [done|]. cbn. tauto. }
  assert (R1 : m1 !! (a, Fright) = Some (addr r)) by by rewrite S1.
  rewrite (bind_some _ _ _ _ _ (RIGHT_ok _ _ _ R1)).
  destruct (Sub m1 r) as (m2 & E2 & F2); [|done|done|lia|].
  { eapply tree_in_frame; [|exact Tr]. intros b f Hb _. apply S1. intros Hb'. by apply (D b). }
  rewrite (bind_some _ _ _ _ _ E2).
  assert (S2 : forall b f, b ∉ addrs r -> m2 !! (b, f) = m1 !! (b, f)).
  { intros b f Hb. rewrite F2, bool_decide_false; [done|]. cbn. tauto. }
  assert (K2 : m2 !! (a, Fkey) = Some k) by by rewrite S2, S1.
  rewrite (bind_some _ _ _ _ _ (node_key_ok _ _ _ K2)). unfold free_node, bind. rewrite K2.
  eexists. split; [reflexivity|]. intros [b f]. cbn [fst snd].
  destruct (decide (b = a)) as [->|Nb].
  { destruct (decide (f = Froot)) as [->|Nf].
    - rewrite !lookup_delete_ne by done. rewrite S2, S1 by done.
      rewrite bool_decide_false; [done|]. naive_solver.
    - rewrite bool_decide_true; [|split; [left|done]].
      destruct f; [by rewrite lookup_delete_eq| | |done]; rewrite lookup_delete_ne by done;
        [by rewrite lookup_delete_eq|]. rewrite lookup_delete_ne by done. by rewrite lookup_delete_eq. }
  rewrite !lookup_delete_ne by congruence. rewrite F2, F1. cbn [fst snd].
  repeat case_bool_decide; try done; set_solver.
Qed.

(** ** Keys are distinct *)

Lemma node_with_inorder t a k : node_with t a k -> (a, k) ∈ inorder t.
Proof.
  intros (p & c & l & r & ->).
  assert (G : forall t', (a, k) ∈ inorder t' -> (a, k) ∈ inorder (plug p t')).
  { induction p as [|s p IH]; intros t' H; [done|]. apply IH. destruct s; cbn; set_solver. }
  apply G. cbn. set_solver.
Qed.

Lemma split_unique (l1 l2 l1' l2' : list Z) k :
  NoDup (l1 ++ k :: l2) -> l1 ++ k :: l2 = l1' ++ k :: l2' -> l1 = l1' /\ l2 = l2'.
Proof.
  revert l1'. induction l1 as [|x l1 IH]; intros [|x' l1']; cbn; rewrite list.NoDup_cons.
  - by intros _ [= ->].
  - intros [N _] [= <- ->]. set_solver.
  - intros [N _] [= -> <-]. set_solver.
  - intros [_ N] [= -> E]. destruct (IH l1' N E) as [-> ->]. done.
Qed.

Lemma ordered_nodup compar `{!Compar compar} l : ordered compar l -> NoDup l.
Proof.
  induction 1 as [|x l S IH F]; [apply list.NoDup_nil; done|]. apply list.NoDup_cons. split; [|done].
  intros Hx. rewrite list.Forall_forall in F. pose proof (F x Hx) as L. pose proof (proj1 (compar_sym x x) L). lia.
Qed.

Lemma node_with_unique compar `{!Compar compar} t a b k :
  ordered compar (keys t) -> node_with t a k -> node_with t b k -> a = b.
Proof.
  intros O%ordered_nodup Ha%node_with_inorder Hb%node_with_inorder; [|done].
  rewrite <- inorder_keys in O. apply list_elem_of_split in Ha as (l1 & l2 & E). rewrite E in *.
  rewrite map_app in O. cbn in O. apply list.NoDup_app in O as (_ & O1 & O2).
  apply list.NoDup_cons in O2 as [O2 _].
  apply elem_of_app in Hb as [Hb|Hb].
  - exfalso. apply (O1 k); [|left]. apply list_elem_of_In, in_map_iff. exists (b, k). by rewrite list_elem_of_In in Hb.
  - apply elem_of_cons in Hb as [Hb|Hb]; [congruence|].
    exfalso. apply O2. apply list_elem_of_In, in_map_iff. exists (b, k). by rewrite list_elem_of_In in Hb.
Qed.

(** ** The properties *)

Section Properties.
Context (compar : Z -> Z -> Z) `{!Compar compar}.

(** A tree the functions accept: in memory, in order, red-black. *)
Definition search_tree (m : memory) (rp : cell) (t : tree) : Prop :=
  zrep m rp [] t /\ ordered compar (keys t) /\ exists n, rb t n.

(** Enough loop iterations for a tree of [n] nodes. *)
Definition enough_fuel (n : Z) (fuel : nat) : Prop := 4 * Z.log2 (n + 1) + 2 <= Z.of_nat fuel.

Lemma enough_fuel_height m rp t fuel :
  search_tree m rp t -> enough_fuel (Z.of_nat (length (keys t))) fuel -> (2 * height t <= fuel)%nat.
Proof. intros (_ & _ & n & B) E. apply rb_height_log in B. unfold enough_fuel in E. lia. Qed.

(** C11: [tsearch] finds the node with a matching key, or inserts [key] at its
    place in the order in the node [malloc] returned (nothing is inserted when
    memory is exhausted); the tree stays an ordered red-black tree, and a
    logarithmic number of steps is enough. *)
Theorem tsearch_correct fuel q junk key m rp t :
  search_tree m rp t -> q = 0 \/ fresh m q -> enough_fuel (Z.of_nat (length (keys t))) fuel ->
  exists res m' t', __tsearch compar fuel q junk key (Some rp) m = Some (res, m') /\
  search_tree m' rp t' /\
  ((exists k, k ∈ keys t /\ compar key k = 0 /\ keys t' = keys t /\ node_with t' res k) \/
   (forall k, k ∈ keys t -> compar key k <> 0) /\ res = q /\
   if q =? 0 then keys t' = keys t
   else node_with t' q key /\ exists l1 l2, keys t = l1 ++ l2 /\ keys t' = l1 ++ key :: l2).
Proof.
  intros S HQ Hf. pose proof (enough_fuel_height _ _ _ _ S Hf) as Hh. destruct S as (R & O & n & B).
  destruct (tsearch_spec compar fuel q junk key m rp t n R O B HQ Hh) as (res & m' & E & P).
  destruct P as (t' & n' & R' & B' & O' & D). exists res, m', t'. split; [done|].
  split; [|done]. split; [done|]. split; [done|]. by exists n'.
Qed.

(** [tfind] returns the node with a matching key if there is one and a
    null pointer otherwise, and does not change memory. *)
Theorem tfind_correct fuel key m rp t :
  search_tree m rp t -> enough_fuel (Z.of_nat (length (keys t))) fuel ->
  exists res, __tfind compar fuel key (Some rp) m = Some (res, m) /\
  (res <> 0 <-> exists k, k ∈ keys t /\ compar key k = 0) /\
  (res <> 0 -> exists k, node_with t res k /\ compar key k = 0).
Proof.
  intros S Hf. pose proof (enough_fuel_height _ _ _ _ S Hf) as Hh. destruct S as (R & O & n & B).
  assert (Hh' : (height t < fuel)%nat).
  { destruct t; [|simpl in *; lia]. unfold enough_fuel in Hf. simpl in Hf. lia. }
  destruct (tfind_spec compar fuel key m rp t R O Hh') as (res & E & D). exists res. split; [done|].
  destruct D as [[-> D]|(k & NW & Ek)].
  - split; [|done]. split; [done|]. intros (k & Hk & Ek). by apply D in Hk.
  - split; [|eauto]. split; [|].
    + intros _. exists k. split; [|done]. destruct NW as (p & c & l & r & ->).
      rewrite keys_plug. cbn. set_solver.
    + intros _. destruct NW as (p & c & l & r & ->). rewrite <- (app_nil_r p) in R.
      rewrite plug_app in R. apply (zrep_plug m rp p []) in R.
      by apply (zrep_addr_nonzero _ _ _ _ _ _ _ _ R).
Qed.

(** C1: [tdelete] removes exactly one matching key and frees one node, keeps
    the tree an ordered red-black tree and returns a node of the old tree; a
    missing key changes nothing.  Trees of fewer than [2^20 - 1] nodes never
    fill the 40 entries of [nodestack]. *)
Theorem tdelete_correct fuel key m rp t :
  search_tree m rp t -> enough_fuel (Z.of_nat (length (keys t))) fuel ->
  Z.of_nat (length (keys t)) < 2 ^ 20 - 1 ->
  exists res m', __tdelete compar fuel key (Some rp) m = Some (res, m') /\
  ((res = 0 /\ m' = m /\ forall k, k ∈ keys t -> compar key k <> 0) \/
   (exists t' l1 k l2 u, search_tree m' rp t' /\ compar key k = 0 /\
      keys t = l1 ++ k :: l2 /\ keys t' = l1 ++ l2 /\ addrs t ≡ₚ u :: addrs t' /\
      res ∈ addrs t /\ forall f, f <> Froot -> m' !! (u, f) = None)).
Proof.
  intros S Hf H20. pose proof (enough_fuel_height _ _ _ _ S Hf) as Hh. destruct S as (R & O & n & B).
  assert (H40 : (height t <= 40)%nat).
  { pose proof (rb_height _ _ B). pose proof (rb_size _ _ B) as HS.
    assert (Z.of_nat n < 20) by (apply (Z.pow_lt_mono_r_iff 2); lia). destruct (is_red t); lia. }
  assert (Hh' : (height t < fuel)%nat).
  { destruct t; [|simpl in *; lia]. unfold enough_fuel in Hf. simpl in Hf. lia. }
  destruct (tdelete_spec compar fuel key m rp t n R O B H40 Hh') as (res & m' & E & D).
  exists res, m'. split; [done|]. destruct D as [D|(t' & n' & l1 & k & l2 & u & R' & B' & Ek & K1 & K2 & D)];
    [by left|right].
  exists t', l1, k, l2, u. split; [|done]. split; [done|]. split; [|by exists n'].
  unfold ordered in *. rewrite K2. rewrite K1 in O.
  apply StronglySorted_app in O as (O1 & O2 & O3). apply StronglySorted_inv in O3 as [O3 _].
  apply StronglySorted_app_2; [|done|done]. intros x y Hx Hy. apply O1; [done|]. by right.
Qed.

(** after [tsearch] stored a new key, [tfind] with it returns that node,
    and [tdelete] with it brings back the keys there were. *)
Theorem tsearch_tfind_tdelete fuel q junk key m rp t :
  search_tree m rp t -> fresh m q -> (forall k, k ∈ keys t -> compar key k <> 0) ->
  compar key key = 0 -> (forall k, compar key k = 0 -> k = key) ->
  enough_fuel (Z.of_nat (length (keys t)) + 1) fuel -> Z.of_nat (length (keys t)) < 2 ^ 20 - 2 ->
  exists m1 m2 t2 rv, __tsearch compar fuel q junk key (Some rp) m = Some (q, m1) /\
  __tfind compar fuel key (Some rp) m1 = Some (q, m1) /\
  __tdelete compar fuel key (Some rp) m1 = Some (rv, m2) /\
  search_tree m2 rp t2 /\ keys t2 = keys t.
Proof.
  intros S HF Abs Er Eq Hf H20.
  assert (Hf0 : enough_fuel (Z.of_nat (length (keys t))) fuel).
  { unfold enough_fuel in *. pose proof (Z.log2_le_mono (Z.of_nat (length (keys t)) + 1)
      (Z.of_nat (length (keys t)) + 1 + 1)). lia. }
  pose proof (enough_fuel_height _ _ _ _ S Hf0) as Hh. destruct S as (R & O & n & B).
  destruct (tsearch_spec compar fuel q junk key m rp t n R O B (or_intror HF) Hh) as (res & m1 & E1 & P).
  destruct P as (t1 & n1 & R1 & B1 & O1 & [(k & Hk & Ek & _)|(_ & -> & D)]); [by apply Abs in Hk|].
  pose proof HF as [[Q0 _] _]. rewrite (proj2 (Z.eqb_neq q 0)) in D by done.
  destruct D as (NW & l1 & l2 & K & K1).
  assert (L1 : Z.of_nat (length (keys t1)) = Z.of_nat (length (keys t)) + 1).
  { rewrite K, K1, !length_app. simpl. lia. }
  assert (S1 : search_tree m1 rp t1) by (split; [done|]; split; [done|by exists n1]).
  rewrite <- L1 in Hf. pose proof (enough_fuel_height _ _ _ _ S1 Hf) as Hh1.
  assert (Hh' : (height t1 < fuel)%nat).
  { destruct t1; [|simpl in *; lia]. simpl in L1. lia. }
  assert (H40 : (height t1 <= 40)%nat).
  { pose proof (rb_height _ _ B1). pose proof (rb_size _ _ B1) as HS.
    assert (Z.of_nat n1 < 20) by (apply (Z.pow_lt_mono_r_iff 2); lia). destruct (is_red t1); lia. }
  destruct (tfind_spec compar fuel key m1 rp t1 R1 O1 Hh') as (res & E2 & D2).
  destruct (tdelete_spec compar fuel key m1 rp t1 n1 R1 O1 B1 H40 Hh') as (rv & m2 & E3 & D3).
  assert (Kin : key ∈ keys t1) by (rewrite K1; set_solver).
  destruct D2 as [[_ D2]|(k & NW' & Ek)]; [by apply D2 in Kin|].
  destruct D3 as [(_ & _ & D3)|(t2 & n2 & l1' & k' & l2' & u & R2 & B2 & Ek' & K2 & K3 & _)];
    [by apply D3 in Kin|].
  rewrite (Eq _ Ek) in NW'. rewrite (node_with_unique compar _ _ _ _ O1 NW' NW) in E2.
  rewrite (Eq _ Ek') in K2. pose proof (ordered_nodup compar _ O1) as ND. rewrite K1 in ND, K2.
  destruct (split_unique _ _ _ _ _ ND K2) as [-> ->].
  exists m1, m2, t2, rv. split; [done|]. split; [done|]. split; [done|].
  assert (K4 : keys t2 = keys t) by congruence. split; [|done].
  split; [done|]. split; [by rewrite K4|by exists n2].
Qed.

(** [twalk] and [twalk_r] call [action] in the documented order and
    change nothing; the [leaf] and [postorder] calls are the nodes in the
    order of the keys. *)
Theorem twalk_correct fuel m rp t closure :
  search_tree m rp t -> (height t <= fuel)%nat ->
  __twalk fuel (addr t) true m = Some (visits (fun level => level + 1) t 0, m) /\
  __twalk_r fuel (addr t) true closure m = Some (visits (fun c => c) t closure, m) /\
  map (fun v => v.1.1) (List.filter in_order_visit (visits (fun level => level + 1) t 0))
  = map fst (inorder t) /\ ordered compar (map snd (inorder t)).
Proof.
  intros (R & O & _) Hf. rewrite visits_inorder, inorder_keys.
  destruct t as [|a c l k r]; [done|]. unfold __twalk, __twalk_r. cbn [addr].
  rewrite (proj2 (Z.eqb_neq a 0)) by (apply (zrep_addr_nonzero _ _ _ _ _ _ _ _ R)). cbn [negb andb].
  destruct (trecurse_spec fuel m rp [] (Node a c l k r) 0 R ltac:(done) Hf) as [E1 _].
  destruct (trecurse_spec fuel m rp [] (Node a c l k r) closure R ltac:(done) Hf) as [_ E2].
  done.
Qed.

(** [tdestroy] frees every node of the tree and nothing else, and calls
    [freefct] once for every key, after the nodes below it are gone. *)
Theorem tdestroy_correct fuel m rp t :
  search_tree m rp t -> (height t <= fuel)%nat ->
  exists m', __tdestroy fuel (addr t) m = Some (postorder_keys t, m') /\
  postorder_keys t ≡ₚ keys t /\
  forall c, m' !! c = if bool_decide (c.1 ∈ addrs t /\ c.2 <> Froot) then None else m !! c.
Proof.
  intros (R & _ & _) Hf. pose proof R as [_ _ HT ND AL]. cbn in ND, AL. rewrite app_nil_r in ND, AL.
  pose proof (postorder_keys_perm t) as PK. unfold __tdestroy. destruct t as [|a c l k r].
  { exists m. split; [done|]. split; [done|]. intros c. rewrite bool_decide_false; [done|]. cbn. set_solver. }
  cbn [addr]. rewrite (proj2 (Z.eqb_neq a 0)) by (apply (zrep_addr_nonzero _ _ _ _ _ _ _ _ R)). cbn [negb].
  destruct (tdestroy_spec fuel m (Node a c l k r)) as (m' & E & F); [done..|]. by exists m'.
Qed.
End Properties.

(** ** Witnesses: a tree of four nodes *)

Definition w_root : cell := (1, Froot).

Definition w_tree : tree :=
  Node 16 false (Node 8 false Leaf 5 Leaf) 10 (Node 24 false Leaf 20 (Node 32 true Leaf 30 Leaf)).

Definition w_memory : memory := list_to_map
  [(w_root, 16);
   ((16, Fkey), 10); ((16, Fleft), 8); ((16, Fright), 24);
   ((8, Fkey), 5); ((8, Fleft), 0); ((8, Fright), 0);
   ((24, Fkey), 20); ((24, Fleft), 0); ((24, Fright), 32);
   ((32, Fkey), 30); ((32, Fleft), 1); ((32, Fright), 0)].

Definition w_compar (a b : Z) : Z := a - b.
#[export] Instance w_compar_ok : Compar w_compar := compar_sub.

Lemma w_search_tree : search_tree w_compar w_memory w_root w_tree.
Proof.
  split; [split|split].
  - done.
  - by vm_compute.
  - cbn [tree_in w_tree]. repeat split; by vm_compute.
  - cbn. apply (bool_decide_unpack _). by vm_compute.
  - cbn. repeat constructor; by vm_compute.
  - unfold ordered. repeat constructor.
  - by exists 2%nat.
Qed.

Lemma w_fresh : fresh w_memory 40.
Proof. split; [split; by vm_compute|]. intros []; by vm_compute. Qed.

Lemma tsearch_correct_witness :
  exists res m' t', __tsearch w_compar 12 40 (fun _ => 77) 25 (Some w_root) w_memory = Some (res, m') /\
  search_tree w_compar m' w_root t' /\ res = 40.
Proof.
  destruct (tsearch_correct w_compar 12 40 (fun _ => 77) 25 w_memory w_root w_tree)
    as (res & m' & t' & E & S & D); [apply w_search_tree|right; apply w_fresh|by vm_compute|].
  exists res, m', t'. split; [exact E|]. split; [exact S|].
  assert (X : option_map fst (__tsearch w_compar 12 40 (fun _ => 77) 25 (Some w_root) w_memory) = Some 40)
    by by vm_compute.
  rewrite E in X. by injection X.
Defined.

Lemma tfind_correct_witness :
  exists res, __tfind w_compar 12 20 (Some w_root) w_memory = Some (res, w_memory) /\ res <> 0.
Proof.
  destruct (tfind_correct w_compar 12 20 w_memory w_root w_tree) as (res & E & H & _);
    [apply w_search_tree|by vm_compute|].
  exists res. split; [exact E|]. apply H. exists 20. split; [|done].
  apply (bool_decide_unpack _). by vm_compute.
Defined.

Lemma tdelete_correct_witness :
  exists res m', __tdelete w_compar 12 10 (Some w_root) w_memory = Some (res, m') /\ m' <> w_memory.
Proof.
  destruct (tdelete_correct w_compar 12 10 w_memory w_root w_tree) as (res & m' & E & D);
    [apply w_search_tree|by vm_compute|by vm_compute|].
  exists res, m'. split; [exact E|]. destruct D as [(_ & _ & D)|(t' & l1 & k & l2 & u & S & _ & K1 & K2 & A & _ & F)].
  - exfalso. apply (D 10); [|done]. apply (bool_decide_unpack _). by vm_compute.
  - intros ->. assert (Hu : u ∈ addrs w_tree) by (rewrite A; left).
    specialize (F Fkey ltac:(done)). revert F. cbn in Hu.
    repeat (apply elem_of_cons in Hu as [->|Hu]; [by vm_compute|]). by apply elem_of_nil in Hu.
Defined.

Lemma tsearch_tfind_tdelete_witness :
  exists m1 m2 t2 rv, __tsearch w_compar 14 40 (fun _ => 77) 25 (Some w_root) w_memory = Some (40, m1) /\
  __tfind w_compar 14 25 (Some w_root) m1 = Some (40, m1) /\
  __tdelete w_compar 14 25 (Some w_root) m1 = Some (rv, m2) /\
  search_tree w_compar m2 w_root t2 /\ keys t2 = [5; 10; 20; 30].
Proof.
  apply (tsearch_tfind_tdelete w_compar 14 40 (fun _ => 77) 25 w_memory w_root w_tree).
  - apply w_search_tree.
  - apply w_fresh.
  - intros k Hk. cbn in Hk. unfold w_compar.
    repeat (apply elem_of_cons in Hk as [->|Hk]; [lia|]). by apply elem_of_nil in Hk.
  - done.
  - unfold w_compar. lia.
  - by vm_compute.
  - by vm_compute.
Defined.

Lemma twalk_correct_witness :
  __twalk 3 16 true w_memory =
  Some ([(16, preorder, 0); (8, leaf, 1); (16, postorder, 0); (24, preorder, 1); (24, postorder, 1);
         (32, leaf, 2); (24, endorder, 1); (16, endorder, 0)], w_memory).
Proof.
  apply (twalk_correct w_compar 3 w_memory w_root w_tree 0); [apply w_search_tree|by vm_compute; lia].
Defined.

Lemma tdestroy_correct_witness :
  exists m', __tdestroy 3 16 w_memory = Some ([5; 30; 20; 10], m') /\ m' !! (24, Fkey) = None.
Proof.
  destruct (tdestroy_correct w_compar 3 w_memory w_root w_tree) as (m' & E & _ & F);
    [apply w_search_tree|by vm_compute; lia|].
  exists m'. split; [exact E|]. rewrite F. by vm_compute.
Defined.
