(* ===== verification/CLoop.v ===== *)
(** * Loops with a budget

    A C loop whose bound is only known at run time, as a step function that
    goes on with a new state ([inl]) or leaves with a result ([inr]).
    [while k step s] runs up to [2^k] iterations and stops at the first
    result, so the budget of a 32-bit counter is [k = 32] and costs nothing
    when the loop ends early.  [while_spec] is the total-correctness rule: an
    invariant indexed by a bound on the iterations left, which is below
    [2^k] at the start. *)

From S2P Require Import Prelude.

Fixpoint while {S R : Type} (k : nat) (step : S -> S + R) (s : S) : S + R :=
  match k with
  | O => step s
  | S k => match while k step s with
           | inl s' => while k step s'
           | inr r => inr r
           end
  end.

(** The result of a loop, or undefined behaviour when it did not end within
    the budget. *)
Definition run {S R : Type} (k : nat) (step : S -> S + option R) (s : S) : option R :=
  match while k step s with
  | inl _ => None
  | inr r => r
  end.

Section While.
Context {S R : Type} (step : S -> S + R) (Inv : Z -> S -> Prop) (Post : R -> Prop).
(** [Inv n s]: at [s] there are at most [n] iterations to go. *)
Hypothesis step_ok : forall n s, Inv n s ->
  match step s with
  | inl s' => exists n', 0 <= n' < n /\ Inv n' s'
  | inr r => Post r
  end.

Lemma while_progress k n s : Inv n s ->
  match while k step s with
  | inl s' => exists n', 0 <= n' <= n - 2 ^ Z.of_nat k /\ Inv n' s'
  | inr r => Post r
  end.
Proof.
  revert n s. induction k as [|k IH]; intros n s Hs; cbn [while].
  { specialize (step_ok n s Hs). destruct (step s); [|done].
    destruct step_ok as (n' & B & H). exists n'. simpl. split; [lia|done]. }
  specialize (IH n s Hs) as IH1. destruct (while k step s) as [s'|r]; [|done].
  destruct IH1 as (n' & B1 & H1). specialize (IH n' s' H1).
  destruct (while k step s') as [s''|r]; [|done].
  destruct IH as (n'' & B2 & H2). exists n''. split; [|done].
  rewrite Nat2Z.inj_succ, Z.pow_succ_r by lia. lia.
Qed.

Lemma while_spec k n s : Inv n s -> n < 2 ^ Z.of_nat k ->
  exists r, while k step s = inr r /\ Post r.
Proof.
  intros Hs M. pose proof (while_progress k n s Hs) as P.
  destruct (while k step s) as [s'|r]; [|eauto]. destruct P as (n' & ? & _). lia.
Qed.
End While.

Lemma run_spec {S R} (step : S -> S + option R) (Inv : Z -> S -> Prop) (Post : R -> Prop) k n s :
  (forall n s, Inv n s ->
    match step s with
    | inl s' => exists n', 0 <= n' < n /\ Inv n' s'
    | inr (Some r) => Post r
    | inr None => False
    end) ->
  Inv n s -> n < 2 ^ Z.of_nat k -> exists r, run k step s = Some r /\ Post r.
Proof.
  intros Hstep Hs M.
  destruct (while_spec step Inv (fun o => match o with Some r => Post r | None => False end))
    with k n s as (o & E & P); [|done..|].
  { intros n' s' H'. specialize (Hstep n' s' H'). by destruct (step s') as [|[|]]. }
  unfold run. rewrite E. destruct o; [eauto|done].
Qed.

(** Partial correctness: what every state satisfies holds of the result. *)
Lemma while_inv {S R} (step : S -> S + R) (Inv : S -> Prop) (Post : R -> Prop) k s :
  (forall s, Inv s -> match step s with inl s' => Inv s' | inr r => Post r end) -> Inv s ->
  match while k step s with inl s' => Inv s' | inr r => Post r end.
Proof.
  intros H. revert s. induction k as [|k IH]; intros s Hs; cbn [while]; [by apply H|].
  specialize (IH s Hs) as Hk. destruct (while k step s); [by apply IH|done].
Qed.

Lemma run_inv {S R} (step : S -> S + option R) (Inv : S -> Prop) (Post : R -> Prop) k s r :
  (forall s, Inv s -> match step s with inl s' => Inv s' | inr (Some r) => Post r | inr None => True end) ->
  Inv s -> run k step s = Some r -> Post r.
Proof.
  intros H Hs E. unfold run in E.
  pose proof (while_inv step Inv (fun o => match o with Some r => Post r | None => True end) k s) as W.
  destruct (while k step s) as [|o]; [done|]. rewrite E in W. apply W; [|done]. intros s' H'. specialize (H s' H').
  by destruct (step s') as [|[|]].
Qed.
