(* ===== verification/Hsearch.v ===== *)
(** * Hash tables: [misc/hsearch_r.c] and [misc/hsearch.c]

    Open addressing with double hashing in a table of prime size.  Slot 0 is
    never used, so [used] holds the full hash of the slot's key and [0] for a
    free slot.  The table keeps the caller's key pointers; [str] is what the
    memory holds at them (the characters before the terminating zero).

    A pointer result [ENTRY *] is the index of the slot it points into.
    [None] of the whole call is undefined behaviour: a [NULL] table, an index
    outside it, a remainder by zero. *)

From S2P Require Import Prelude CLoop.

Inductive ACTION := FIND | ENTER.

Record ENTRY := mkENTRY { key : Z; data : Z }.

Record _ENTRY := mk_ENTRY { used : Z; entry : ENTRY }.

Record hsearch_data := mkHtab { table : option (list _ENTRY); size : Z; filled : Z }.

Inductive errno := EINVAL | ENOMEM | ESRCH.

Definition UINT_MAX : Z := 2 ^ 32 - 1.
Definition uint (x : Z) : Z := wrap 32 x.

(** ** The size of the table *)

(** One round of the trial division: leave with an answer, or go on with the
    next odd divisor. *)
Definition isprime_step (number div : Z) : Z + option bool :=
  if div <=? number / div
  then if number mod div =? 0 then inr (Some false) else inl (uint (div + 2))
  else inr (Some true).

Definition isprime (number : Z) : option bool := run 17 (isprime_step number) 3.

(** [for (nel |= 1; ; nel += 2)]: [Some nel] when it leaves with [break], [None]
    when it returns with [ENOMEM]. *)
Definition hcreate_step (nel : Z) : Z + option (option Z) :=
  if UINT_MAX - 2 <? nel then inr (Some None)
  else match isprime (uint nel) with
       | Some true => inr (Some (Some nel))
       | Some false => inl (wrap 64 (nel + 2))
       | None => inr None
       end.

(** What [calloc] gives: [n] zeroed slots, or [NULL]. *)
Definition zero_ENTRY : _ENTRY := mk_ENTRY 0 (mkENTRY 0 0).
Definition calloc (ok : bool) (n : Z) : option (list _ENTRY) :=
  if ok then Some (replicate (Z.to_nat n) zero_ENTRY) else None.

(** [hcreate_r]; [mem_ok] tells whether [calloc] finds memory.  The result is
    the return value, the error number set, and the table descriptor. *)
Definition __hcreate_r (mem_ok : bool) (nel : Z) (htab : option hsearch_data)
  : option (Z * option errno * option hsearch_data) :=
  match htab with
  | None => Some (0, Some EINVAL, None)
  | Some h =>
    match table h with
    | Some _ => Some (0, None, Some h)
    | None =>
      let nel := if nel <? 3 then 3 else nel in
      match run 33 hcreate_step (Z.lor nel 1) with
      | None => None
      | Some None => Some (0, Some ENOMEM, Some h)
      | Some (Some nel) =>
        let size := uint nel in
        match calloc mem_ok (uint (size + 1)) with
        | None => Some (0, Some ENOMEM, Some (mkHtab None size 0))
        | Some t => Some (1, None, Some (mkHtab (Some t) size 0))
        end
      end
    end
  end.

Definition __hdestroy_r (htab : option hsearch_data) : option errno * option hsearch_data :=
  match htab with
  | None => (Some EINVAL, None)
  | Some h => (None, Some (mkHtab None (size h) (filled h)))
  end.

(** ** Searching *)

Section Str.
(** The string at an address. *)
Variable str : Z -> list Z.

(** [while (count-- > 0)]: the characters below [len] from the last to the
    first. *)
Fixpoint hash_loop (chars : list Z) (hval : Z) : Z :=
  match chars with
  | [] => hval
  | c :: chars => hash_loop chars (uint (uint (Z.shiftl hval 4) + c))
  end.

Definition hash (s : list Z) : Z :=
  let len := uint (Z.of_nat (length s)) in
  let hval := hash_loop (rev (take (Z.to_nat len) s)) len in
  if hval =? 0 then uint (hval + 1) else hval.

Definition slot (t : list _ENTRY) (idx : Z) : option _ENTRY :=
  if idx <? 0 then None else t !! Z.to_nat idx.

(** [used == hval && strcmp (item.key, entry.key) == 0] *)
Definition slot_matches (hval : Z) (item : ENTRY) (e : _ENTRY) : bool :=
  (used e =? hval) && bool_decide (str (key item) = str (key (entry e))).

(** How the probing ended: at a matching slot, or at the slot to fill. *)
Inductive probe := Found (idx : Z) | Vacant (idx : Z).

(** One round of [do ... while (htab->table[idx].used)]. *)
Definition probe_step (t : list _ENTRY) (size hval hval2 first_idx : Z) (item : ENTRY) (idx : Z)
  : Z + option probe :=
  let idx := if idx <=? hval2 then uint (size + idx - hval2) else uint (idx - hval2) in
  if idx =? first_idx then inr (Some (Vacant idx))
  else match slot t idx with
       | None => inr None
       | Some e =>
         if slot_matches hval item e then inr (Some (Found idx))
         else if used e =? 0 then inr (Some (Vacant idx)) else inl idx
       end.

Definition find_slot (t : list _ENTRY) (size hval : Z) (item : ENTRY) : option probe :=
  if size =? 0 then None else
  let idx := uint (hval mod size + 1) in
  match slot t idx with
  | None => None
  | Some e =>
    if used e =? 0 then Some (Vacant idx)
    else if slot_matches hval item e then Some (Found idx)
    else if uint (size - 2) =? 0 then None
    else let hval2 := uint (1 + hval mod uint (size - 2)) in
         run 32 (probe_step t size hval hval2 idx item) idx
  end.

Definition __hsearch_r (item : ENTRY) (action : ACTION) (h : hsearch_data)
  : option (Z * option Z * option errno * hsearch_data) :=
  match table h with
  | None => None
  | Some t =>
    let hval := hash (str (key item)) in
    match find_slot t (size h) hval item with
    | None => None
    | Some (Found idx) => Some (1, Some idx, None, h)
    | Some (Vacant idx) =>
      match action with
      | ENTER =>
        if filled h =? size h then Some (0, None, Some ENOMEM, h)
        else Some (1, Some idx, None,
                   mkHtab (Some (<[Z.to_nat idx := mk_ENTRY hval item]> t)) (size h)
                          (uint (filled h + 1)))
      | FIND => Some (0, None, Some ESRCH, h)
      end
    end
  end.

(** The functions on the one static table of [hsearch.c]. *)
Definition hsearch (item : ENTRY) (action : ACTION) (htab : hsearch_data)
  : option (option Z * option errno * hsearch_data) :=
  match __hsearch_r item action htab with
  | Some (_, result, e, htab) => Some (result, e, htab)
  | None => None
  end.
End Str.

Definition hcreate (mem_ok : bool) (nel : Z) (htab : hsearch_data)
  : option (Z * option errno * hsearch_data) :=
  match __hcreate_r mem_ok nel (Some htab) with
  | Some (r, e, Some htab) => Some (r, e, htab)
  | _ => None
  end.

Definition __hdestroy (htab : hsearch_data) : hsearch_data :=
  match __hdestroy_r (Some htab) with
  | (_, Some htab) => htab
  | _ => htab
  end.
