(* ===== verification/HsearchTheorems.v ===== *)
(** * What the hash tables promise

    [represents] ties a table descriptor to a finite map from strings to
    entries: the slots in use hold exactly the map's entries, each at a place
    of its probe sequence behind slots that are all in use.  [hcreate_r]
    establishes it for the empty map and [hsearch_r] implements lookup and
    insertion on the map. *)

From S2P Require Import Prelude CLoop Hsearch.

(** ** The table size is prime *)

Lemma isprime_trial number : 3 <= number < 2 ^ 32 -> Z.odd number = true ->
  exists b, isprime number = Some b /\ (b = true <-> Z.prime number).
Proof.
  intros Hn Ho.
  apply (run_spec (isprime_step number) (fun n div => n = 2 ^ 16 + 3 - div /\ 3 <= div <= 2 ^ 16 + 2 /\
    Z.odd div = true /\ forall d, 2 <= d < div -> ~ (d | number))
    (fun b => b = true <-> Z.prime number) 17 (2 ^ 16) 3).
  2: { split; [lia|]. split; [lia|]. split; [done|]. intros d Hd [q Hq].
       assert (d = 2) by lia. subst. by rewrite Z.mul_comm, Z.odd_even in Ho. }
  2: done.
  intros n div (-> & Hd & Od & Hs). unfold isprime_step.
  destruct (Z.leb_spec div (number / div)) as [L|L].
  - assert (div * div <= number) by (pose proof (Z.mul_div_le number div); nia).
    assert (div < 2 ^ 16) by nia.
    destruct (Z.eqb_spec (number mod div) 0) as [E|E].
    + apply Z.mod_divide in E; [|lia]. split; [done|]. intros [_ P]. by destruct (P div ltac:(nia)).
    + unfold uint. rewrite wrap_small by lia. exists (2 ^ 16 + 3 - (div + 2)). split; [lia|].
      split; [done|]. split; [lia|]. split; [by rewrite Z.odd_add, Od|].
      intros d H2 Dv. destruct (decide (d < div)) as [|]; [apply (Hs d); [lia|done]|].
      destruct (decide (d = div)) as [->|]; [apply E, Z.mod_divide; [lia|done]|].
      assert (d = div + 1) by lia. subst. destruct Dv as [q ->].
      by rewrite Z.odd_mul, (Z.odd_add div), Od, andb_false_r in Ho.
  - split; [intros _|done]. split; [lia|]. intros d H1 [q Hq].
    assert (number < div * div).
    { pose proof (Z.mod_pos_bound number div ltac:(lia)).
      pose proof (Z.div_mod number div ltac:(lia)). nia. }
    destruct (decide (d < div)) as [|]; [apply (Hs d); [lia|by exists q]|].
    apply (Hs q); [nia|]. exists d. lia.
Qed.

Lemma hcreate_loop nel : 3 <= nel -> Z.odd nel = true ->
  exists r, run 33 hcreate_step nel = Some r /\
  match r with
  | Some p => nel <= p <= UINT_MAX - 2 /\ Z.prime p /\ forall q, nel <= q < p -> ~ Z.prime q
  | None => forall q, nel <= q <= UINT_MAX - 2 -> ~ Z.prime q
  end.
Proof.
  intros Hn Ho.
  apply (run_spec hcreate_step (fun n x => n = Z.max 0 (UINT_MAX + 1 - x) /\
    nel <= x <= Z.max nel UINT_MAX /\
    Z.odd x = true /\ forall q, nel <= q < x -> ~ Z.prime q)
    (fun r => match r with
     | Some p => nel <= p <= UINT_MAX - 2 /\ Z.prime p /\ forall q, nel <= q < p -> ~ Z.prime q
     | None => forall q, nel <= q <= UINT_MAX - 2 -> ~ Z.prime q end) 33 (Z.max 0 (UINT_MAX + 1 - nel))).
  2: { split; [done|]. split; [lia|]. split; [done|]. intros q; lia. }
  2: { unfold UINT_MAX. lia. }
  intros n x (-> & Hx & Ox & Hs). unfold hcreate_step.
  destruct (Z.ltb_spec (UINT_MAX - 2) x) as [H|H].
  { intros q Hq. apply Hs. lia. }
  unfold UINT_MAX in *. unfold uint. rewrite wrap_small by lia.
  destruct (isprime_trial x) as (b & -> & Hb); [lia|done|]. destruct b.
  { split; [lia|]. split; [by apply Hb|done]. }
  rewrite wrap_small by lia. exists (Z.max 0 (2 ^ 32 - 1 + 1 - (x + 2))). split; [lia|]. split; [done|].
  split; [lia|]. split; [by rewrite Z.odd_add, Ox|].
  intros q Hq P. destruct (decide (q < x)) as [|]; [apply (Hs q); [lia|done]|].
  destruct (decide (q = x)) as [->|]; [by apply Hb in P|].
  assert (q = x + 1) by lia. subst. destruct P as [_ P]. apply (P 2); [lia|].
  apply Z.mod_divide; [lia|]. by rewrite Zmod_odd, Z.odd_add, Ox.
Qed.

(** ** The probe sequence *)

Section Probe.
Context (sz h : Z) (Psz : Z.prime sz) (Hsz : 3 <= sz <= UINT_MAX - 2) (Hh : 0 <= h).

(** [hval2] of the code. *)
Definition stride : Z := 1 + h mod (sz - 2).

(** The [j]-th slot tried for hash [h]. *)
Definition probe_at (j : Z) : Z := (h - j * stride) mod sz + 1.

Lemma stride_bounds : 1 <= stride <= sz - 2.
Proof using Hsz. unfold stride. pose proof (Z.mod_pos_bound h (sz - 2) ltac:(lia)). lia. Qed.

Lemma probe_at_bounds j : 1 <= probe_at j <= sz.
Proof using Hsz. unfold probe_at. pose proof (Z.mod_pos_bound (h - j * stride) sz ltac:(lia)). lia. Qed.

Lemma probe_at_0 : probe_at 0 = h mod sz + 1.
Proof. unfold probe_at. f_equal. f_equal. lia. Qed.

Lemma probe_at_next j :
  (if probe_at j <=? stride then uint (sz + probe_at j - stride) else uint (probe_at j - stride))
  = probe_at (j + 1).
Proof using Hsz.
  pose proof stride_bounds. pose proof (probe_at_bounds j) as B. unfold UINT_MAX, uint in *.
  assert (E : probe_at (j + 1) = (probe_at j - 1 - stride) mod sz + 1).
  { unfold probe_at. f_equal. rewrite Z.add_simpl_r.
    rewrite Zminus_mod_idemp_l. f_equal. lia. }
  rewrite E. destruct (Z.leb_spec (probe_at j) stride) as [L|L].
  - rewrite wrap_small by lia. rewrite <- (Z_mod_plus_full _ 1), Z.mod_small by lia. lia.
  - rewrite wrap_small by lia. rewrite Z.mod_small by lia. lia.
Qed.

Lemma probe_at_full : probe_at sz = probe_at 0.
Proof. unfold probe_at. f_equal. rewrite (Z.mul_comm sz). by rewrite Zminus_mod, Z_mod_mult, Z.sub_0_r, Zmod_mod, Z.mul_0_l, Z.sub_0_r. Qed.

Lemma probe_at_first j : 0 <= j < sz -> probe_at j = probe_at 0 -> j = 0.
Proof using Psz Hsz.
  intros Hj E. unfold probe_at in E. pose proof stride_bounds.
  assert (D : (sz | j * stride)).
  { apply Z.mod_divide; [lia|]. rewrite Z.mul_0_l, Z.sub_0_r in E.
    replace (j * stride) with (h - (h - j * stride)) by lia.
    rewrite Zminus_mod. replace ((h - j * stride) mod sz) with (h mod sz) by lia.
    by rewrite Z.sub_diag, Zmod_0_l. }
  apply (Z.divide_prime_mul j stride sz Psz) in D as [D|D].
  - destruct (decide (j = 0)) as [|]; [done|]. apply Z.divide_pos_le in D; lia.
  - apply Z.divide_pos_le in D; lia.
Qed.

Lemma probe_at_onto i : 1 <= i <= sz -> exists j, 0 <= j < sz /\ probe_at j = i.
Proof using Psz Hsz.
  intros Hi. pose proof stride_bounds. set (u := Z.invmod stride sz).
  assert (U : (u * stride) mod sz = 1).
  { apply Z.invmod_prime; [done|]. rewrite Z.mod_small; lia. }
  exists (((h - (i - 1)) * u) mod sz). split; [apply Z.mod_pos_bound; lia|].
  unfold probe_at. cut ((h - ((h - (i - 1)) * u) mod sz * stride) mod sz = i - 1); [lia|].
  rewrite Zminus_mod, Zmult_mod_idemp_l, <- Z.mul_assoc, Zmult_mod, U, Z.mul_1_r, Zmod_mod.
  rewrite <- Zminus_mod. replace (h - (h - (i - 1))) with (i - 1) by lia. apply Z.mod_small. lia.
Qed.
End Probe.

(** ** Counting the slots in use *)

Definition in_use (e : _ENTRY) : Prop := used e <> 0.
#[export] Instance in_use_dec e : Decision (in_use e).
Proof. unfold in_use. apply _. Defined.

Definition count (t : list _ENTRY) : Z := Z.of_nat (length (filter in_use t)).

Lemma count_cons e t : count (e :: t) = (if decide (in_use e) then 1 else 0) + count t.
Proof. unfold count. rewrite filter_cons. destruct (decide _); simpl; lia. Qed.

Lemma count_le t : count t <= Z.of_nat (length t).
Proof. unfold count. pose proof (length_filter in_use t). lia. Qed.

Lemma count_insert t i e e' : t !! i = Some e -> used e = 0 -> in_use e' ->
  count (<[i := e']> t) = count t + 1.
Proof.
  intros E U U'. revert i E. induction t as [|x t IH]; intros [|i] E; try done; cbn.
  - injection E as ->. rewrite !count_cons. destruct (decide (in_use e')), (decide (in_use e)); done || lia.
  - rewrite !count_cons, IH by done. lia.
Qed.

Lemma count_full t : (forall i e, t !! i = Some e -> in_use e) -> count t = Z.of_nat (length t).
Proof.
  induction t as [|x t IH]; intros H; [done|]. rewrite count_cons.
  rewrite IH by (intros i e; apply (H (S i))). rewrite decide_True by by apply (H O). simpl. lia.
Qed.

Lemma count_not_full t i e : t !! i = Some e -> used e = 0 -> count t < Z.of_nat (length t).
Proof.
  revert i. induction t as [|x t IH]; intros [|i] E U; try done; rewrite count_cons; cbn [length].
  - injection E as ->. rewrite decide_False by by intros ?. pose proof (count_le t). lia.
  - specialize (IH i E U). destruct (decide _); lia.
Qed.

(** ** The representation of a finite map *)

Section Table.
Variable str : Z -> list Z.
Local Abbreviation hash_of e := (hash (str (key e))).

Definition occupied (t : list _ENTRY) (i : Z) : Prop := exists e, slot t i = Some e /\ in_use e.

(** An entry in slot [i] is found by following the probe sequence of its
    hash. *)
Definition reachable (t : list _ENTRY) (sz h i : Z) : Prop :=
  exists j, 0 <= j < sz /\ i = probe_at sz h j /\
  forall j', 0 <= j' < j -> occupied t (probe_at sz h j').

Record tab_inv (t : list _ENTRY) (sz n : Z) (m : gmap (list Z) ENTRY) : Prop := {
  ti_prime : Z.prime sz;
  ti_range : 3 <= sz <= UINT_MAX - 2;
  ti_len : length t = Z.to_nat (sz + 1);
  ti_zero : forall e, slot t 0 = Some e -> used e = 0;
  ti_count : n = count t;
  ti_size : n = Z.of_nat (base.size m);
  ti_used : forall i e, slot t i = Some e -> in_use e ->
    used e = hash_of (entry e) /\ m !! str (key (entry e)) = Some (entry e) /\
    reachable t sz (used e) i;
  ti_map : forall s e, m !! s = Some e ->
    s = str (key e) /\ exists i, slot t i = Some (mk_ENTRY (hash s) e) }.

Definition represents (h : hsearch_data) (m : gmap (list Z) ENTRY) : Prop :=
  exists t, table h = Some t /\ tab_inv t (size h) (filled h) m.

Lemma hash_bounds s : 0 < hash s < 2 ^ 32.
Proof.
  unfold hash. set (x := hash_loop _ _).
  assert (B : 0 <= x < 2 ^ 32).
  { subst x. generalize (rev (take (Z.to_nat (uint (Z.of_nat (length s)))) s)). intros l.
    assert (B : 0 <= uint (Z.of_nat (length s)) < 2 ^ 32) by (apply wrap_bounds; lia). revert B.
    generalize (uint (Z.of_nat (length s))). induction l as [|c l IH]; intros v B; [done|].
    simpl. apply IH, wrap_bounds. lia. }
  destruct (Z.eqb_spec x 0) as [->|]; [by vm_compute|lia].
Qed.

Lemma slot_in_range t i e : slot t i = Some e -> 0 <= i < Z.of_nat (length t).
Proof. unfold slot. case (Z.ltb_spec i 0); [done|]. intros ? E%lookup_lt_Some. lia. Qed.

Lemma slot_some t i : 0 <= i < Z.of_nat (length t) -> exists e, slot t i = Some e.
Proof.
  intros B. unfold slot. rewrite (proj2 (Z.ltb_ge _ _)) by lia.
  apply lookup_lt_is_Some. lia.
Qed.

Lemma slot_insert t i e : 0 <= i < Z.of_nat (length t) -> slot (<[Z.to_nat i := e]> t) i = Some e.
Proof.
  intros B. unfold slot. rewrite (proj2 (Z.ltb_ge _ _)) by lia. apply list_lookup_insert_eq. lia.
Qed.

Lemma slot_insert_ne t i i' e : 0 <= i -> i <> i' -> slot (<[Z.to_nat i := e]> t) i' = slot t i'.
Proof.
  intros B N. unfold slot. case (Z.ltb_spec i' 0); [done|]. intros ?.
  apply list_lookup_insert_ne. lia.
Qed.

(** Slot 0 is never in use, so a full table counts one less than its
    slots. *)
Lemma slot_0 t e0 : slot (e0 :: t) 0 = Some e0.
Proof. done. Qed.

Lemma slot_cons t e0 i : 1 <= i -> slot (e0 :: t) i = t !! Z.to_nat (i - 1).
Proof.
  intros. unfold slot. rewrite (proj2 (Z.ltb_ge _ _)) by lia.
  by replace (Z.to_nat i) with (Datatypes.S (Z.to_nat (i - 1))) by lia.
Qed.

Lemma count_all_slots t : 0 < Z.of_nat (length t) -> (forall e, slot t 0 = Some e -> used e = 0) ->
  (forall i, 1 <= i < Z.of_nat (length t) -> occupied t i) -> count t = Z.of_nat (length t) - 1.
Proof.
  intros L Z0 O. destruct t as [|e0 t]; [simpl in L; lia|]. rewrite count_cons.
  rewrite decide_False by (intros U; by apply U, Z0, slot_0).
  rewrite count_full; [cbn [length]; lia|]. intros i e E. pose proof (lookup_lt_Some _ _ _ E).
  destruct (O (Z.of_nat i + 1)) as (e' & E' & U); [cbn [length]; lia|].
  rewrite slot_cons in E' by lia. replace (Z.to_nat _) with i in E' by lia. congruence.
Qed.

Lemma count_vacant_slot t i e : (forall e, slot t 0 = Some e -> used e = 0) ->
  1 <= i -> slot t i = Some e -> used e = 0 -> count t < Z.of_nat (length t) - 1.
Proof.
  intros Z0 Hi E U. destruct t as [|e0 t].
  { apply slot_in_range in E. simpl in E. lia. }
  rewrite slot_cons in E by done. rewrite count_cons.
  rewrite decide_False by (intros U0; by apply U0, Z0, slot_0).
  pose proof (count_not_full _ _ _ E U). cbn [length]. lia.
Qed.

(** ** The search *)

Section Search.
Context (t : list _ENTRY) (sz n : Z) (m : gmap (list Z) ENTRY) (I : tab_inv t sz n m).
Context (item : ENTRY).
Local Abbreviation h := (hash_of item).
Local Abbreviation at_ := (probe_at sz h).

Lemma probe_slot j : exists e, slot t (at_ j) = Some e.
Proof using I.
  apply slot_some. rewrite (ti_len _ _ _ _ I).
  pose proof (ti_range _ _ _ _ I). pose proof (probe_at_bounds sz h ltac:(lia) j). lia.
Qed.

(** The first [j] slots of the sequence are in use by other keys. *)
Definition scanned (j : Z) : Prop :=
  forall j', 0 <= j' < j -> exists e, slot t (at_ j') = Some e /\ in_use e /\
  slot_matches str h item e = false.

Lemma scanned_S j e : 0 <= j -> scanned j -> slot t (at_ j) = Some e -> in_use e ->
  slot_matches str h item e = false -> scanned (j + 1).
Proof using.
  intros Hj S E U F j' H. destruct (decide (j' < j)) as [|]; [apply S; lia|].
  assert (j' = j) by lia. subst. eauto.
Qed.

(** A slot that ends the search, or the whole table. *)
Definition vacancy (i : Z) : Prop :=
  (exists j e, 0 <= j < sz /\ i = at_ j /\ scanned j /\ slot t i = Some e /\ used e = 0) \/
  scanned sz.

Definition probe_post (r : probe) : Prop :=
  match r with
  | Found i => exists e, slot t i = Some e /\ slot_matches str h item e = true
  | Vacant i => vacancy i
  end.

Lemma slot_matches_true e : slot_matches str h item e = true <->
  used e = h /\ str (key item) = str (key (entry e)).
Proof. unfold slot_matches. by rewrite andb_true_iff, bool_decide_eq_true, Z.eqb_eq. Qed.

Lemma unused_no_match e : used e = 0 -> slot_matches str h item e = false.
Proof.
  intros U. pose proof (hash_bounds (str (key item))). unfold slot_matches. rewrite U.
  rewrite (proj2 (Z.eqb_neq _ _)) by lia. done.
Qed.

(** Every round of the loop moves to the next slot of the sequence. *)
Lemma probe_loop_spec e0 : slot t (at_ 0) = Some e0 -> in_use e0 ->
  slot_matches str h item e0 = false ->
  exists r, run 32 (probe_step str t sz h (stride sz h) (at_ 0) item) (at_ 0) = Some r /\
  probe_post r.
Proof using I.
  intros E0 U0 F0. destruct I as [P R L _ _ _ _ _].
  pose proof (hash_bounds (str (key item))) as Hb.
  apply (run_spec _ (fun k i => exists j, k = sz - j /\ 0 <= j < sz /\ i = at_ j /\ scanned (j + 1))
    probe_post 32 sz).
  2: { exists 0. split; [lia|]. split; [lia|]. split; [done|].
       apply (scanned_S 0 e0); try done. intros j'. lia. }
  2: { unfold UINT_MAX in *. lia. }
  intros k i (j & -> & Hj & -> & S). unfold probe_step. rewrite probe_at_next by lia.
  destruct (Z.eqb_spec (at_ (j + 1)) (at_ 0)) as [E|E].
  { right. destruct (decide (j + 1 < sz)) as [|].
    - apply probe_at_first in E; [|done|lia|lia]. lia.
    - by replace sz with (j + 1) by lia. }
  assert (j + 1 < sz).
  { destruct (decide (j + 1 = sz)) as [K|]; [|lia]. by rewrite K, probe_at_full in E. }
  destruct (probe_slot (j + 1)) as [e Ee]. rewrite Ee.
  destruct (slot_matches str h item e) eqn:F; [by exists e|].
  destruct (Z.eqb_spec (used e) 0) as [U|U].
  { left. exists (j + 1), e. repeat (split; [done || lia|]). done. }
  exists (sz - (j + 1)). split; [lia|]. exists (j + 1). split; [done|]. split; [lia|].
  split; [done|]. by apply (scanned_S (j + 1) e); [lia|..].
Qed.

Lemma find_slot_spec : exists r, find_slot str t sz h item = Some r /\ probe_post r.
Proof using I.
  destruct I as [P R L _ _ _ _ _]. unfold find_slot. unfold UINT_MAX in R.
  pose proof (hash_bounds (str (key item))) as Hb.
  rewrite (proj2 (Z.eqb_neq _ _)) by lia.
  pose proof (Z.mod_pos_bound h sz ltac:(lia)). pose proof (stride_bounds sz h ltac:(unfold UINT_MAX; lia)).
  assert (E1 : uint (h mod sz + 1) = at_ 0) by (rewrite probe_at_0; apply wrap_small; lia).
  assert (E2 : uint (sz - 2) = sz - 2) by (apply wrap_small; lia).
  assert (E3 : uint (1 + h mod (sz - 2)) = stride sz h) by (apply wrap_small; fold (stride sz h); lia).
  cbv zeta. rewrite E1, E2, E3.
  destruct (probe_slot 0) as [e E]. rewrite E.
  destruct (Z.eqb_spec (used e) 0) as [U|U].
  { exists (Vacant (at_ 0)). split; [done|]. left. exists 0, e.
    repeat (split; [done || lia|]). split; [intros j'; lia|done]. }
  destruct (slot_matches str h item e) eqn:F.
  { exists (Found (at_ 0)). split; [done|]. by exists e. }
  rewrite (proj2 (Z.eqb_neq _ _)) by lia.
  by apply probe_loop_spec with e.
Qed.

Lemma found_in_map i e : slot t i = Some e -> slot_matches str h item e = true ->
  m !! str (key item) = Some (entry e).
Proof using I.
  intros E [U K]%slot_matches_true. pose proof (hash_bounds (str (key item))).
  rewrite K. apply (ti_used _ _ _ _ I i e E). unfold in_use. lia.
Qed.

Lemma vacancy_absent i : vacancy i -> m !! str (key item) = None.
Proof using I.
  intros V. destruct (m !! str (key item)) as [e|] eqn:E; [exfalso|done].
  pose proof (hash_bounds (str (key item))) as Hb.
  apply (ti_map _ _ _ _ I) in E as [K [i0 E]].
  assert (F : slot_matches str h item (mk_ENTRY h e) = true) by by apply slot_matches_true.
  destruct (ti_used _ _ _ _ I _ _ E) as (_ & _ & j0 & Hj & -> & O); [unfold in_use; simpl; lia|].
  simpl in E, O. assert (S : scanned (j0 + 1) -> False).
  { intros S. destruct (S j0) as (e' & E' & _ & F'); [lia|]. rewrite E in E'.
    injection E' as <-. by rewrite F in F'. }
  destruct V as [(j & e' & Hj' & -> & Sj & Ej & U)|Sz]; [|apply S; intros j'; by intros; apply Sz; lia].
  destruct (Z.lt_trichotomy j j0) as [L|[->|L]].
  - destruct (O j) as (e'' & E'' & U''); [lia|]. rewrite Ej in E''. by injection E'' as <-.
  - rewrite E in Ej. injection Ej as <-. simpl in U. lia.
  - apply S. intros j' Hj''. apply Sj. lia.
Qed.

Lemma full_count : scanned sz -> n = sz.
Proof using I.
  intros S. destruct I as [P R L Z0 -> _ _ _]. rewrite count_all_slots; [lia|lia|done|].
  intros i Hi. destruct (probe_at_onto sz h P ltac:(lia) i) as (j & Hj & <-); [lia|].
  destruct (S j Hj) as (e & E & U & _). by exists e.
Qed.

Lemma vacant_count i e : 1 <= i -> slot t i = Some e -> used e = 0 -> n < sz.
Proof using I.
  intros Hi E U. destruct I as [P R L Z0 -> _ _ _].
  pose proof (count_vacant_slot t i e Z0 Hi E U). lia.
Qed.

(** Filling the vacant slot adds the item to the map. *)
Lemma insert_inv i e j : 0 <= j < sz -> i = at_ j -> scanned j -> slot t i = Some e -> used e = 0 ->
  m !! str (key item) = None ->
  tab_inv (<[Z.to_nat i := mk_ENTRY h item]> t) sz (n + 1) (<[str (key item) := item]> m).
Proof using I.
  intros Hj Ei Sj E U N. pose proof (hash_bounds (str (key item))) as Hb.
  pose proof (slot_in_range _ _ _ E) as Bi. destruct I as [P R L Z0 C S Us Mp].
  pose proof (probe_at_bounds sz h ltac:(lia) j) as Bj. rewrite <- Ei in Bj.
  assert (Occ : forall i', occupied t i' -> occupied (<[Z.to_nat i := mk_ENTRY h item]> t) i').
  { intros i' (e' & E' & U'). destruct (decide (i = i')) as [<-|Ne].
    - exists (mk_ENTRY h item). split; [by apply slot_insert|]. unfold in_use. simpl. lia.
    - exists e'. by rewrite slot_insert_ne by (done || lia). }
  constructor; try done.
  - by rewrite length_insert.
  - intros e'. rewrite slot_insert_ne by lia. apply Z0.
  - rewrite C. symmetry. apply count_insert with e; [|done|unfold in_use; simpl; lia].
    unfold slot in E. by rewrite (proj2 (Z.ltb_ge _ _)) in E by lia.
  - rewrite map_size_insert_None by done. lia.
  - intros i' e' E' U'. destruct (decide (i = i')) as [<-|Ne].
    + rewrite slot_insert in E' by done. injection E' as <-. simpl.
      split; [done|]. split; [by rewrite lookup_insert_eq|]. exists j. split; [done|]. split; [done|].
      intros j' Hj'. apply Occ. destruct (Sj j' Hj') as (e' & ? & ? & _). by exists e'.
    + rewrite slot_insert_ne in E' by (done || lia). destruct (Us i' e' E' U') as (A & B & j' & ? & ? & O).
      split; [done|]. split; [rewrite lookup_insert_ne by congruence; done|].
      exists j'. split; [done|]. split; [done|]. intros j'' H'. by apply Occ, O.
  - intros s0 e' E'. destruct (decide (str (key item) = s0)) as [<-|Ne].
    + rewrite lookup_insert_eq in E'. injection E' as <-. split; [done|]. exists i. by apply slot_insert.
    + rewrite lookup_insert_ne in E' by done. destruct (Mp s0 e' E') as [? [i' Ei']].
      split; [done|]. exists i'. rewrite slot_insert_ne; [done|lia|]. intros <-.
      rewrite E in Ei'. injection Ei' as ->. simpl in U. pose proof (hash_bounds s0). lia.
Qed.
End Search.

(** ** The abstract table: a map of at most [cap] entries *)

Definition abs_hsearch (cap : Z) (m : gmap (list Z) ENTRY) (item : ENTRY) (action : ACTION)
  : option ENTRY * option errno * gmap (list Z) ENTRY :=
  match m !! str (key item), action with
  | Some e, _ => (Some e, None, m)
  | None, FIND => (None, Some ESRCH, m)
  | None, ENTER =>
    if Z.of_nat (base.size m) =? cap then (None, Some ENOMEM, m)
    else (Some item, None, <[str (key item) := item]> m)
  end.

(** What a returned pointer points to. *)
Definition pointee (h : hsearch_data) (retval : option Z) : option ENTRY :=
  t ← table h; i ← retval; e ← slot t i; Some (entry e).

Lemma hsearch_r_step h m item action : represents h m ->
  exists r retval err h' m', __hsearch_r str item action h = Some (r, retval, err, h') /\
  abs_hsearch (size h) m item action = (pointee h' retval, err, m') /\ represents h' m' /\
  size h' = size h /\ r = b2z (bool_decide (is_Some retval)).
Proof.
  intros (t & Et & I). unfold __hsearch_r, abs_hsearch. rewrite Et.
  destruct (find_slot_spec t (size h) (filled h) m I item) as (r & -> & P).
  destruct r as [i|i]; simpl in P.
  { destruct P as (e & E & F). rewrite (found_in_map t (size h) (filled h) m I item i e) by done.
    exists 1, (Some i), None, h, m. split; [done|]. unfold pointee. rewrite Et. simpl. rewrite E.
    split; [done|]. split; [by exists t|]. done. }
  rewrite (vacancy_absent t _ _ m I item i P). destruct action.
  { exists 0, None, (Some ESRCH), h, m. split; [done|]. unfold pointee. rewrite Et. simpl.
    split; [done|]. split; [by exists t|]. done. }
  rewrite <- (ti_size _ _ _ _ I). destruct P as [(j & e & Hj & Ei & S & E & U)|S].
  - pose proof (probe_at_bounds (size h) (hash_of item) ltac:(apply I) j).
    pose proof (vacant_count t _ _ m I i e ltac:(lia) E U). rewrite (proj2 (Z.eqb_neq _ _)) by lia.
    pose proof (insert_inv t _ _ m I item i e j Hj Ei S E U
      (vacancy_absent t _ _ m I item i ltac:(left; eauto 10))) as I'.
    assert (uint (filled h + 1) = filled h + 1) as ->.
    { apply wrap_small. pose proof (ti_range _ _ _ _ I). pose proof (ti_size _ _ _ _ I).
      unfold UINT_MAX in *. lia. }
    eexists 1, (Some i), None, _, _. split; [done|]. unfold pointee. simpl.
    rewrite slot_insert by (by eapply slot_in_range). simpl. split; [done|].
    split; [by eexists|]. done.
  - rewrite (full_count t _ _ m I item S), Z.eqb_refl.
    exists 0, None, (Some ENOMEM), h, m. split; [done|]. unfold pointee. rewrite Et. simpl.
    split; [done|]. split; [by exists t|]. done.
Qed.
End Table.

(** ** Creation *)

Lemma fresh_table_inv str p : Z.prime p -> 3 <= p <= UINT_MAX - 2 ->
  tab_inv str (replicate (Z.to_nat (p + 1)) zero_ENTRY) p 0 ∅.
Proof.
  intros P R.
  assert (Z : forall i e, slot (replicate (Z.to_nat (p + 1)) zero_ENTRY) i = Some e -> e = zero_ENTRY).
  { intros i e. unfold slot. case (i <? 0); [done|]. by intros [? _]%lookup_replicate. }
  constructor; try done.
  - apply length_replicate.
  - by intros e ->%Z.
  - symmetry. generalize (Z.to_nat (p + 1)). intros k. induction k as [|k IH]; [done|].
    cbn [replicate]. rewrite count_cons, IH. by rewrite decide_False by (intros U; by apply U).
  - intros i e ->%Z U. by destruct U.
Qed.

(** The next prime the table size may be. *)
Definition next_prime (nel p : Z) : Prop :=
  nel <= p <= UINT_MAX - 2 /\ 3 <= p /\ Z.prime p /\ forall q, nel <= q < p -> 3 <= q -> ~ Z.prime q.

Lemma odd_start nel : 3 <= nel ->
  nel <= Z.lor nel 1 /\ Z.odd (Z.lor nel 1) = true /\
  forall q, nel <= q < Z.lor nel 1 -> ~ Z.prime q.
Proof.
  intros Hn. destruct (Z.odd nel) eqn:O.
  - assert (Z.lor nel 1 = nel) as ->.
    { apply Z.bits_inj'. intros i Hi. rewrite Z.lor_spec. destruct (decide (i = 0)) as [->|].
      - by rewrite Z.bit0_odd, O.
      - change 1 with (2 ^ 0). rewrite Z.pow2_bits_false by lia. apply orb_false_r. }
    split; [lia|]. split; [done|]. intros q. lia.
  - assert (E : Z.lor nel 1 = nel + 1).
    { rewrite (Zdiv2_odd_eqn nel), O, Z.add_0_r, (Z.mul_comm 2).
      apply (lor_mul_pow2_add _ 1 1); lia. }
    rewrite E. split; [lia|]. split; [by rewrite Z.odd_add, O|].
    intros q Hq [_ P]. assert (q = nel) by lia. subst q. apply (P 2); [lia|].
    apply Z.mod_divide; [lia|]. by rewrite Zmod_odd, O.
Qed.

(** The table after a successful [hcreate_r]. *)
Definition fresh_table (p : Z) : hsearch_data :=
  mkHtab (Some (replicate (Z.to_nat (p + 1)) zero_ENTRY)) p 0.

Lemma hcreate_r_spec mem_ok nel h : 0 <= nel -> table h = None ->
  (exists p, next_prime nel p /\ __hcreate_r mem_ok nel (Some h) =
    Some (if mem_ok then (1, None, Some (fresh_table p))
          else (0, Some ENOMEM, Some (mkHtab None p 0)))) \/
  ((forall q, 3 <= q -> nel <= q <= UINT_MAX - 2 -> ~ Z.prime q) /\
   __hcreate_r mem_ok nel (Some h) = Some (0, Some ENOMEM, Some h)).
Proof.
  intros Hn T. unfold __hcreate_r. rewrite T. set (n0 := if nel <? 3 then 3 else nel).
  assert (N0 : n0 = Z.max 3 nel) by (subst n0; bool_cases; lia).
  destruct (odd_start n0) as (L & O & G); [lia|].
  destruct (hcreate_loop (Z.lor n0 1)) as (r & -> & P); [lia|done|]. destruct r as [p|].
  - left. destruct P as (B & P & Q). exists p. split.
    { split; [lia|]. split; [lia|]. split; [done|]. intros q Hq H3.
      destruct (decide (q < Z.lor n0 1)) as [|]; [apply G|apply Q]; lia. }
    unfold UINT_MAX in B.
    assert (uint p = p) as -> by (apply wrap_small; lia).
    assert (uint (p + 1) = p + 1) as -> by (apply wrap_small; lia). by destruct mem_ok.
  - right. split; [|done]. intros q H3 Hq. destruct (decide (q < Z.lor n0 1)) as [|]; [apply G|apply P]; lia.
Qed.

Section Theorems.
Variable str : Z -> list Z.

(** [hcreate_r] makes an empty table of the next prime number of slots
    that is at least 3, and reports [ENOMEM] exactly when there is none below
    [UINT_MAX - 1] or there is no memory; it refuses a missing descriptor and
    leaves an active table alone. *)
Theorem hcreate_r_correct mem_ok nel htab : 0 <= nel < 2 ^ 64 ->
  match htab with
  | None => __hcreate_r mem_ok nel htab = Some (0, Some EINVAL, None)
  | Some (mkHtab (Some _) _ _) => __hcreate_r mem_ok nel htab = Some (0, None, htab)
  | Some (mkHtab None sz n) =>
    (exists p h', next_prime nel p /\ __hcreate_r mem_ok nel htab =
       Some (if mem_ok then (1, None, Some h') else (0, Some ENOMEM, Some (mkHtab None p 0))) /\
       size h' = p /\ represents str h' ∅) \/
    ((forall q, 3 <= q -> nel <= q <= UINT_MAX - 2 -> ~ Z.prime q) /\
     __hcreate_r mem_ok nel htab = Some (0, Some ENOMEM, htab))
  end.
Proof.
  intros Hn. destruct htab as [[[t|] sz n]|]; [done| |done].
  destruct (hcreate_r_spec mem_ok nel (mkHtab None sz n)) as [(p & P & E)|R]; [lia|done| |by right].
  left. exists p, (fresh_table p). split; [done|]. split; [done|]. split; [done|].
  eexists. split; [done|]. destruct P as (? & ? & ? & _). apply fresh_table_inv; [done|]. simpl. lia.
Qed.

(** The calls of a client, and what it observes. *)
Fixpoint calls (h : hsearch_data) (l : list (ENTRY * ACTION))
  : option (list (option ENTRY * option errno) * hsearch_data) :=
  match l with
  | [] => Some ([], h)
  | (item, action) :: l =>
    match hsearch str item action h with
    | None => None
    | Some (result, err, h') =>
      match calls h' l with
      | None => None
      | Some (obs, h'') => Some ((pointee h' result, err) :: obs, h'')
      end
    end
  end.

Fixpoint abs_calls (cap : Z) (m : gmap (list Z) ENTRY) (l : list (ENTRY * ACTION))
  : list (option ENTRY * option errno) * gmap (list Z) ENTRY :=
  match l with
  | [] => ([], m)
  | (item, action) :: l =>
    let '(r, err, m') := abs_hsearch str cap m item action in
    let '(obs, m'') := abs_calls cap m' l in ((r, err) :: obs, m'')
  end.

(** C7: [hsearch] implements a finite map of at most [size] entries: every
    sequence of calls terminates, shows the client the results and errors of
    the map, and leaves a table that represents the map. *)
Theorem hsearch_refines_map h m l : represents str h m ->
  let (obs, m') := abs_calls (size h) m l in
  exists h', calls h l = Some (obs, h') /\ represents str h' m' /\ size h' = size h.
Proof.
  revert h m. induction l as [|[item action] l IH]; intros h m R; cbn [calls abs_calls].
  { by exists h. }
  destruct (hsearch_r_step str h m item action R) as (r & rv & err & h1 & m1 & E & A & R1 & S1 & _).
  unfold hsearch. rewrite E, A. specialize (IH h1 m1 R1). rewrite S1 in IH.
  destruct (abs_calls (size h) m1 l) as [obs m2]. destruct IH as (h2 & -> & R2 & S2). by exists h2.
Qed.

(** entering a key that is present returns the old entry and changes
    nothing: the new data is not stored. *)
Theorem enter_keeps_existing h m item e : represents str h m ->
  m !! str (key item) = Some e ->
  exists i, __hsearch_r str item ENTER h = Some (1, Some i, None, h) /\ pointee h (Some i) = Some e.
Proof.
  intros (t & Et & I) E. unfold __hsearch_r. rewrite Et.
  destruct (find_slot_spec str t (size h) (filled h) m I item) as (r & -> & P).
  destruct r as [i|i]; simpl in P.
  - exists i. destruct P as (e' & E' & F). split; [done|]. unfold pointee. rewrite Et. simpl.
    rewrite E'. simpl. rewrite <- E. symmetry. by eapply found_in_map.
  - by rewrite (vacancy_absent str t _ _ m I item i P) in E.
Qed.
End Theorems.

(** ** A table of three slots *)

Definition w_str (a : Z) : list Z := if a <? 0 then [] else [97 + a; 98].

Lemma w_fresh_represents : represents w_str (fresh_table 3) ∅.
Proof.
  eexists. split; [done|]. apply fresh_table_inv; [exact Z.prime_3|by vm_compute].
Qed.

Lemma hcreate_r_correct_witness :
  __hcreate_r true 10 (Some (mkHtab None 0 0)) = Some (1, None, Some (fresh_table 11)) /\
  ((exists p h', next_prime 10 p /\ __hcreate_r true 10 (Some (mkHtab None 0 0)) =
     Some (1, None, Some h') /\ size h' = p /\ represents w_str h' ∅) \/
   ((forall q, 3 <= q -> 10 <= q <= UINT_MAX - 2 -> ~ Z.prime q) /\
    __hcreate_r true 10 (Some (mkHtab None 0 0)) = Some (0, Some ENOMEM, Some (mkHtab None 0 0)))).
Proof.
  split; [by vm_compute|].
  apply (hcreate_r_correct w_str true 10 (Some (mkHtab None 0 0))). by vm_compute.
Defined.

(** Four keys into three slots: the fourth is refused, the others stay. *)
Definition w_calls : list (ENTRY * ACTION) :=
  [(mkENTRY 1 10, ENTER); (mkENTRY 4 20, ENTER); (mkENTRY 7 30, ENTER); (mkENTRY 10 40, ENTER);
   (mkENTRY 4 0, FIND); (mkENTRY 10 0, FIND)].

Lemma hsearch_refines_map_witness :
  exists h', calls w_str (fresh_table 3) w_calls =
    Some ([(Some (mkENTRY 1 10), None); (Some (mkENTRY 4 20), None); (Some (mkENTRY 7 30), None);
           (None, Some ENOMEM); (Some (mkENTRY 4 20), None); (None, Some ESRCH)], h').
Proof.
  pose proof (hsearch_refines_map w_str (fresh_table 3) ∅ w_calls w_fresh_represents) as H.
  destruct (abs_calls w_str (size (fresh_table 3)) ∅ w_calls) as [obs m'] eqn:E.
  destruct H as (h' & -> & _). exists h'. apply (f_equal fst) in E. simpl in E. rewrite <- E.
  by vm_compute.
Defined.

Definition w_one : hsearch_data :=
  mkHtab (Some [zero_ENTRY; mk_ENTRY (hash (w_str 1)) (mkENTRY 1 10); zero_ENTRY; zero_ENTRY]) 3 1.

Lemma w_one_represents : represents w_str w_one {[ w_str 1 := mkENTRY 1 10 ]}.
Proof.
  destruct (hsearch_r_step w_str (fresh_table 3) ∅ (mkENTRY 1 10) ENTER w_fresh_represents)
    as (r & rv & err & h' & m' & E & A & R & _).
  assert (H : h' = w_one) by (revert E; vm_compute; by intros [= _ _ _ <-]).
  rewrite H in R. unfold abs_hsearch in A. rewrite lookup_empty in A. injection A as _ _ <-. exact R.
Qed.

Lemma enter_keeps_existing_witness :
  exists i, __hsearch_r w_str (mkENTRY 1 99) ENTER w_one = Some (1, Some i, None, w_one) /\
  pointee w_one (Some i) = Some (mkENTRY 1 10).
Proof.
  apply (enter_keeps_existing w_str w_one {[ w_str 1 := mkENTRY 1 10 ]}).
  - exact w_one_represents.
  - apply lookup_singleton_eq.
Defined.
