(* ===== verification/Buffer.v ===== *)
(** * Code that fills a buffer

    The state is a buffer of bytes; an access outside it is undefined
    behaviour.  [puts_at] is what a run of stores at consecutive places does. *)

From S2P Require Import Prelude CMonad.
Open Scope c_scope.

Abbreviation T := (M (list Z)).

Definition put (i v : Z) : T unit := fun t =>
  if (0 <=? i) && (i <? Z.of_nat (length t)) then Some (tt, <[Z.to_nat i := v]> t) else None.
Definition get (i : Z) : T Z := fun t =>
  if 0 <=? i then match t !! Z.to_nat i with Some v => Some (v, t) | None => None end else None.

Definition byte (b : Z) : Prop := 0 <= b < 256.

Definition len (l : list Z) : Z := Z.of_nat (length l).

Lemma len_app l k : len (l ++ k) = len l + len k.
Proof. unfold len. rewrite length_app. lia. Qed.

Lemma len_cons x l : len (x :: l) = 1 + len l.
Proof. unfold len. cbn [length]. lia. Qed.

Lemma put_at pre i v x r : i = len pre -> put i v (pre ++ x :: r) = Some (tt, pre ++ v :: r).
Proof.
  intros ->. unfold put, len. rewrite length_app. cbn [length].
  rewrite (proj2 (Z.leb_le _ _)), (proj2 (Z.ltb_lt _ _)) by lia. simpl.
  rewrite Nat2Z.id. replace (length pre) with (length pre + 0)%nat by lia. by rewrite insert_app_r.
Qed.

Lemma get_at pre i x r : i = len pre -> get i (pre ++ x :: r) = Some (x, pre ++ x :: r).
Proof.
  intros ->. unfold get, len. rewrite (proj2 (Z.leb_le _ _)) by lia.
  by rewrite Nat2Z.id, list_lookup_middle.
Qed.

(** Stores at consecutive places. *)
Fixpoint puts (i : Z) (l : list Z) : T unit :=
  match l with
  | [] => ret tt
  | v :: l => put i v;; puts (i + 1) l
  end.

Lemma puts_at pre i l old r : i = len pre -> length old = length l ->
  puts i l (pre ++ old ++ r) = Some (tt, pre ++ l ++ r).
Proof.
  revert pre i old. induction l as [|v l IH]; intros pre i old Hi Ho.
  { by destruct old. }
  destruct old as [|x old]; [done|]. injection Ho as Ho. cbn [puts app].
  erewrite bind_some by by apply put_at. rewrite (cons_middle v pre), app_assoc.
  rewrite IH; [by rewrite <- app_assoc| |done]. rewrite len_app, Hi. unfold len. simpl. lia.
Qed.

Lemma puts_app {A} i l k (f : T A) s : (puts i (l ++ k);; f) s = (puts i l;; puts (i + len l) k;; f) s.
Proof.
  revert i s. induction l as [|v l IH]; intros i s; cbn [puts app].
  { unfold len. simpl. by rewrite Z.add_0_r. }
  rewrite !bind_bind. unfold bind at 1 3. destruct (put i v s) as [[[] s']|]; [|done]. rewrite IH, len_cons.
  by rewrite Z.add_assoc.
Qed.

(** A buffer with room for [n] more bytes behind the first ones. *)
Lemma split_room (b : list Z) n : 0 <= n <= len b -> exists l r, b = l ++ r /\ len l = n.
Proof.
  intros H. exists (take (Z.to_nat n) b), (drop (Z.to_nat n) b). split; [by rewrite take_drop|].
  unfold len in *. rewrite length_take. lia.
Qed.
