(* ===== verification/Base64.v ===== *)
(** * Base 64: [resolv/base64.c]

    The state of both functions is the target buffer, a list of bytes; an
    access outside it is undefined behaviour ([None] of the monad), a failed
    [Assert] too.  The source string of [b64_pton] is the list of its
    characters before the terminating zero. *)

From Stdlib Require Import String Ascii.
From S2P Require Import Prelude CMonad Buffer.
Open Scope c_scope.

(** The bytes of a string literal. *)
Definition chars (s : string) : list Z :=
  map (fun a => Z.of_N (N_of_ascii a)) (list_ascii_of_string s).

Definition Base64 : list Z :=
  chars "ABCDEFGHIJKLMNOPQRSTUVWXYZabcdefghijklmnopqrstuvwxyz0123456789+/".
Definition Pad64 : Z := 61.

Definition Assert (c : bool) : T unit := if c then ret tt else undefined.

Definition u_char (x : Z) : Z := wrap 8 x.

(** Conversion of a [size_t] to the [int] that is returned. *)
Definition to_int (x : Z) : Z := (x + 2 ^ 31) mod 2 ^ 32 - 2 ^ 31.
Definition INT_MAX : Z := 2 ^ 31 - 1.

(** [Base64[o]] *)
Definition base64_char (o : Z) : T Z :=
  match Base64 !! Z.to_nat o with Some c => ret c | None => undefined end.

(** ** Encoding *)

Definition output0 (i0 : Z) : Z := u_char (Z.shiftr i0 2).
Definition output1 (i0 i1 : Z) : Z := u_char (Z.shiftl (Z.land i0 0x03) 4 + Z.shiftr i1 4).
Definition output2 (i1 i2 : Z) : Z := u_char (Z.shiftl (Z.land i1 0x0f) 2 + Z.shiftr i2 6).
Definition output3 (i2 : Z) : Z := u_char (Z.land i2 0x3f).

Definition put_char (datalength o : Z) : T unit :=
  let! c := base64_char o in put datalength c.

(** [while (2 < srclength)]: [None] for the return of [-1], else what is left
    of the source and [datalength]. *)
Fixpoint ntop_loop (src : list Z) (datalength targsize : Z) : T (option (list Z * Z)) :=
  match src with
  | i0 :: i1 :: i2 :: src =>
    let o0 := output0 i0 in let o1 := output1 i0 i1 in
    let o2 := output2 i1 i2 in let o3 := output3 i2 in
    Assert (o0 <? 64) ;; Assert (o1 <? 64) ;; Assert (o2 <? 64) ;; Assert (o3 <? 64) ;;
    if targsize <? datalength + 4 then ret None
    else put_char datalength o0 ;; put_char (datalength + 1) o1 ;;
         put_char (datalength + 2) o2 ;; put_char (datalength + 3) o3 ;;
         ntop_loop src (datalength + 4) targsize
  | _ => ret (Some (src, datalength))
  end.

(** The padding of the last one or two bytes. *)
Definition ntop_pad (src : list Z) (datalength targsize : Z) : T (option Z) :=
  match src with
  | [] => ret (Some datalength)
  | i0 :: src' =>
    let i1 := match src' with i1 :: _ => i1 | [] => 0 end in
    let o0 := output0 i0 in let o1 := output1 i0 i1 in let o2 := output2 i1 0 in
    Assert (o0 <? 64) ;; Assert (o1 <? 64) ;; Assert (o2 <? 64) ;;
    if targsize <? datalength + 4 then ret None
    else put_char datalength o0 ;; put_char (datalength + 1) o1 ;;
         (if bool_decide (src' = []) then put (datalength + 2) Pad64
          else put_char (datalength + 2) o2) ;;
         put (datalength + 3) Pad64 ;; ret (Some (datalength + 4))
  end.

Definition b64_ntop (src : list Z) (targsize : Z) : T Z :=
  let! r := ntop_loop src 0 targsize in
  match r with
  | None => ret (-1)
  | Some (src, datalength) =>
    let! r := ntop_pad src datalength targsize in
    match r with
    | None => ret (-1)
    | Some datalength =>
      if targsize <=? datalength then ret (-1)
      else put datalength 0 ;; ret (to_int datalength)
    end
  end.

(** ** Decoding *)

(** [isspace] of the C locale. *)
Definition isspace (ch : Z) : bool := (ch =? 32) || ((9 <=? ch) && (ch <=? 13)).

(** [strchr (Base64, ch) - Base64] for [ch != 0]. *)
Fixpoint strchr (s : list Z) (ch : Z) : option Z :=
  match s with
  | [] => None
  | c :: s => if c =? ch then Some 0 else option_map (Z.add 1) (strchr s ch)
  end.

(** [tarindex++] on an [int]. *)
Definition incr (tarindex : Z) : T Z :=
  if tarindex <? INT_MAX then ret (tarindex + 1) else undefined.

(** [target[i] |= v] *)
Definition put_or (i v : Z) : T unit := let! x := get i in put i (u_char (Z.lor x v)).

(** The [switch (state)] for a digit [pos]: [None] for the return of [-1],
    else the new state and index. *)
Definition pton_digit (target : bool) (targsize state tarindex pos : Z) : T (option (Z * Z)) :=
  if state =? 0 then
    if target && (targsize <=? tarindex) then ret None else
    when target (put tarindex (u_char (Z.shiftl pos 2))) ;;
    ret (Some (1, tarindex))
  else if state =? 1 then
    if target && (targsize <=? tarindex + 1) then ret None else
    when target (put_or tarindex (Z.shiftr pos 4) ;;
                 put (tarindex + 1) (u_char (Z.shiftl (Z.land pos 0x0f) 4))) ;;
    let! tarindex := incr tarindex in ret (Some (2, tarindex))
  else if state =? 2 then
    if target && (targsize <=? tarindex + 1) then ret None else
    when target (put_or tarindex (Z.shiftr pos 2) ;;
                 put (tarindex + 1) (u_char (Z.shiftl (Z.land pos 0x03) 6))) ;;
    let! tarindex := incr tarindex in ret (Some (3, tarindex))
  else if state =? 3 then
    if target && (targsize <=? tarindex) then ret None else
    when target (put_or tarindex pos) ;;
    let! tarindex := incr tarindex in ret (Some (0, tarindex))
  else undefined.

(** The main loop: [None] for the return of [-1], else the character that
    ended it (0 or the pad), the string after it, [state] and [tarindex]. *)
Fixpoint pton_loop (src : list Z) (target : bool) (targsize state tarindex : Z)
  : T (option (Z * list Z * Z * Z)) :=
  match src with
  | [] => ret (Some (0, [], state, tarindex))
  | ch :: src =>
    if isspace ch then pton_loop src target targsize state tarindex
    else if ch =? Pad64 then ret (Some (ch, src, state, tarindex))
    else match strchr Base64 ch with
         | None => ret None
         | Some pos =>
           let! r := pton_digit target targsize state tarindex pos in
           match r with
           | None => ret None
           | Some (state, tarindex) => pton_loop src target targsize state tarindex
           end
         end
  end.

(** [for (; ch != '\0'; ch = *src++) if (!isspace (ch)) break;]: the string
    from the character the loop stopped at. *)
Fixpoint skip_spaces (src : list Z) : list Z :=
  match src with
  | ch :: src' => if isspace ch then skip_spaces src' else src
  | [] => []
  end.

(** [case 3] of the second [switch]. *)
Definition pton_trailing (src : list Z) (target : bool) (tarindex : Z) : T Z :=
  match skip_spaces src with
  | _ :: _ => ret (-1)
  | [] =>
    let! extra := (if target then get tarindex else ret 0) in
    if target && negb (extra =? 0) then ret (-1) else ret tarindex
  end.

Definition b64_pton (src : list Z) (target : bool) (targsize : Z) : T Z :=
  let! r := pton_loop src target targsize 0 0 in
  match r with
  | None => ret (-1)
  | Some (ch, src, state, tarindex) =>
    if ch =? Pad64 then
      if (state =? 0) || (state =? 1) then ret (-1)
      else if state =? 2 then
        match skip_spaces src with
        | ch :: src => if ch =? Pad64 then pton_trailing src target tarindex else ret (-1)
        | [] => ret (-1)
        end
      else if state =? 3 then pton_trailing src target tarindex
      else ret tarindex
    else if negb (state =? 0) then ret (-1) else ret tarindex
  end.
