(* ===== verification/Base64Theorems.v ===== *)
(** * What the base 64 functions compute

    [encode] is RFC 1521: groups of 24 bits cut into 6-bit digits, the last
    group completed with zero bits and padded.  [b64_ntop] writes [encode] and
    [b64_pton] accepts exactly the strings that are [encode] of some bytes
    with white space anywhere. *)

From S2P Require Import Prelude CMonad Buffer Base64.
Open Scope c_scope.
#[local] Ltac Zify.zify_post_hook ::= Z.to_euclidean_division_equations.

Definition digit (d : Z) : Prop := 0 <= d < 64.

(** ** The encoding *)

(** The 6-bit digits of a byte string. *)
Fixpoint unpack (l : list Z) : list Z :=
  match l with
  | a :: b :: c :: l =>
    let v := (a * 256 + b) * 256 + c in
    v / 2 ^ 18 :: (v / 2 ^ 12) mod 64 :: (v / 2 ^ 6) mod 64 :: v mod 64 :: unpack l
  | [a; b] => let v := (a * 256 + b) * 4 in [v / 2 ^ 12; (v / 2 ^ 6) mod 64; v mod 64]
  | [a] => let v := a * 16 in [v / 2 ^ 6; v mod 64]
  | [] => []
  end.

Definition char_of (d : Z) : Z := nth (Z.to_nat d) Base64 0.

Definition padding (l : list Z) : list Z :=
  match (Z.of_nat (length l) mod 3) with
  | 1 => [Pad64; Pad64]
  | 2 => [Pad64]
  | _ => []
  end.

Definition encode (l : list Z) : list Z := map char_of (unpack l) ++ padding l.

(** The bytes and the left-over bits of a digit string. *)
Fixpoint pack (ds : list Z) : list Z :=
  match ds with
  | d0 :: d1 :: d2 :: d3 :: ds =>
    d0 * 4 + d1 / 16 :: (d1 mod 16) * 16 + d2 / 4 :: (d2 mod 4) * 64 + d3 :: pack ds
  | [d0; d1; d2] => [d0 * 4 + d1 / 16; (d1 mod 16) * 16 + d2 / 4]
  | [d0; d1] => [d0 * 4 + d1 / 16]
  | _ => []
  end.

Fixpoint leftover (ds : list Z) : Z :=
  match ds with
  | _ :: _ :: _ :: _ :: ds => leftover ds
  | [_; _; d2] => (d2 mod 4) * 64
  | [_; d1] => (d1 mod 16) * 16
  | [d0] => d0 * 4
  | [] => 0
  end.

Lemma list_ind3 (P : list Z -> Prop) :
  P [] -> (forall a, P [a]) -> (forall a b, P [a; b]) ->
  (forall a b c l, P l -> P (a :: b :: c :: l)) -> forall l, P l.
Proof.
  intros H0 H1 H2 H3. fix IH 1. intros [|a [|b [|c l]]]; [apply H0|apply H1|apply H2|apply H3, IH].
Qed.

Lemma list_ind4 (P : list Z -> Prop) :
  P [] -> (forall a, P [a]) -> (forall a b, P [a; b]) -> (forall a b c, P [a; b; c]) ->
  (forall a b c d l, P l -> P (a :: b :: c :: d :: l)) -> forall l, P l.
Proof.
  intros H0 H1 H2 H3 H4. fix IH 1. intros [|a [|b [|c [|d l]]]]; [apply H0|apply H1|apply H2|apply H3|apply H4, IH].
Qed.

Ltac list_facts := repeat match goal with
  | H : Forall _ (_ :: _) |- _ => apply list.Forall_cons in H as [? H]
  end; unfold byte, digit in *.

Lemma pack_unpack l : Forall byte l -> pack (unpack l) = l /\ leftover (unpack l) = 0.
Proof.
  induction l as [| | |a b c l IH] using list_ind3; intros H; list_facts; cbn [unpack pack leftover];
    cbv zeta; [done|split; [f_equal|]; lia|split; [repeat f_equal|]; lia|].
  destruct (IH H) as [-> ->]. split; [repeat f_equal|]; lia.
Qed.

Lemma unpack_digits l : Forall byte l -> Forall digit (unpack l).
Proof.
  induction l as [| | |a b c l IH] using list_ind3; intros H; list_facts; cbn [unpack]; cbv zeta;
    repeat (apply list.Forall_cons; split; [unfold digit; lia|]); [apply list.Forall_nil; done..|auto].
Qed.

Lemma unpack_pack ds : Forall digit ds -> len ds mod 4 <> 1 -> leftover ds = 0 -> unpack (pack ds) = ds.
Proof.
  induction ds as [| | | |a b c d ds IH] using list_ind4; intros H M L; list_facts; try done;
    cbn [leftover pack unpack] in *; cbv zeta; [repeat f_equal; lia|repeat f_equal; lia|].
  rewrite IH; [repeat f_equal; lia|done| |done].
  unfold len in *. cbn [length] in M. lia.
Qed.

Lemma pack_bytes ds : Forall digit ds -> Forall byte (pack ds).
Proof.
  induction ds as [| | | |a b c d ds IH] using list_ind4; intros H; list_facts; cbn [pack];
    repeat (apply list.Forall_cons; split; [unfold byte; lia|]); [apply list.Forall_nil; done..|auto].
Qed.

Lemma pack_length ds : len (pack ds) = 3 * (len ds / 4) + Z.max 0 (len ds mod 4 - 1).
Proof.
  unfold len. induction ds as [| | | |a b c d ds IH] using list_ind4; try done.
  cbn [pack length]. lia.
Qed.

(** One more digit. *)
Lemma pack_snoc ds p : Forall digit ds ->
  pack (ds ++ [p]) = pack ds ++
    (match len ds mod 4 with
     | 0 => [] | 1 => [leftover ds + p / 16] | 2 => [leftover ds + p / 4]
     | _ => [leftover ds + p] end) /\
  leftover (ds ++ [p]) =
    match len ds mod 4 with
    | 0 => p * 4 | 1 => (p mod 16) * 16 | 2 => (p mod 4) * 64 | _ => 0 end.
Proof.
  induction ds as [| | | |a b c d ds IH] using list_ind4; intros H; list_facts; try done.
  destruct (IH H) as [E1 E2]. cbn [app pack leftover]. rewrite E1, E2.
  replace (len (a :: b :: c :: d :: ds) mod 4) with (len ds mod 4) by (unfold len; cbn [length]; lia).
  done.
Qed.

(** ** The alphabet *)

Lemma base64_char_ok d t : digit d -> base64_char d t = Some (char_of d, t).
Proof.
  intros D. unfold base64_char, char_of.
  destruct (Base64 !! Z.to_nat d) as [c|] eqn:E.
  - by rewrite (nth_lookup_Some _ _ 0 _ E).
  - apply lookup_ge_None in E. change (length Base64) with 64%nat in E. unfold digit in D. lia.
Qed.

Definition digits : list Z := seqZ 0 64.

Lemma digit_elem d : digit d -> d ∈ digits.
Proof. intros D. apply elem_of_seqZ. unfold digit in D. lia. Qed.

(** The characters of the alphabet are found by [strchr] and are neither
    white space nor the pad. *)
Lemma alphabet_check : Forall (fun d => strchr Base64 (char_of d) = Some d /\
  isspace (char_of d) = false /\ (char_of d =? Pad64) = false) digits.
Proof. repeat (apply list.Forall_cons; split; [by vm_compute|]). by apply list.Forall_nil. Qed.

Lemma alphabet d : digit d -> strchr Base64 (char_of d) = Some d /\
  isspace (char_of d) = false /\ (char_of d =? Pad64) = false.
Proof. intros D. exact (proj1 (list.Forall_forall _ _) alphabet_check d (digit_elem d D)). Qed.

Lemma strchr_nth s ch p : strchr s ch = Some p ->
  0 <= p < Z.of_nat (length s) /\ nth (Z.to_nat p) s 0 = ch.
Proof.
  revert p. induction s as [|c s IH]; intros p; simpl; [done|].
  destruct (Z.eqb_spec c ch) as [->|]; [intros [= <-]; split; [lia|done]|].
  destruct (strchr s ch) as [q|] eqn:E; [|done]. intros [= <-].
  destruct (IH q eq_refl) as [B N]. split; [lia|].
  by replace (Z.to_nat _) with (S (Z.to_nat q)) by lia.
Qed.

Lemma strchr_char ch p : strchr Base64 ch = Some p -> digit p /\ char_of p = ch.
Proof. apply (strchr_nth Base64). Qed.

(** ** Encoding *)

Lemma put_char_at pre i d x r : digit d -> i = len pre ->
  put_char i d (pre ++ x :: r) = Some (tt, pre ++ char_of d :: r).
Proof.
  intros D ->. unfold put_char. rewrite (bind_some _ _ _ _ _ (base64_char_ok d _ D)). by apply put_at.
Qed.

(** The bit operations of the code on bytes. *)
Lemma output_digits a b c : byte a -> byte b -> byte c ->
  output0 a = a / 4 /\ output1 a b = (a mod 4) * 16 + b / 16 /\
  output2 b c = (b mod 16) * 4 + c / 64 /\ output3 c = c mod 64.
Proof.
  unfold byte, output0, output1, output2, output3, u_char. intros.
  change 0x03 with (Z.ones 2). change 0x0f with (Z.ones 4). change 0x3f with (Z.ones 6).
  rewrite !Z.land_ones, !Z.shiftl_mul_pow2, !Z.shiftr_div_pow2 by lia.
  rewrite !wrap_small by lia. done.
Qed.

Lemma split4 (r : list Z) : 4 <= len r -> exists w x y z r', r = w :: x :: y :: z :: r'.
Proof.
  unfold len. intros L. do 4 (destruct r as [|? r]; [simpl in L; lia|]). by repeat eexists.
Qed.

Lemma put_char4 {A} pre r d0 d1 d2 d3 i (k : T A) :
  digit d0 -> digit d1 -> digit d2 -> digit d3 -> i = len pre -> 4 <= len r ->
  (put_char i d0 ;; put_char (i + 1) d1 ;; put_char (i + 2) d2 ;; put_char (i + 3) d3 ;; k) (pre ++ r)
  = k ((pre ++ map char_of [d0; d1; d2; d3]) ++ drop 4 r).
Proof.
  intros D0 D1 D2 D3 -> L. destruct (split4 r L) as (w & x & y & z & r' & ->).
  erewrite bind_some by by apply put_char_at. rewrite cons_middle, app_assoc.
  erewrite bind_some by (apply put_char_at; [done|by rewrite len_app]).
  rewrite (cons_middle (char_of d1)), app_assoc.
  erewrite bind_some by (apply put_char_at; [done|rewrite !len_app; unfold len; simpl; lia]).
  rewrite (cons_middle (char_of d2)), app_assoc.
  erewrite bind_some by (apply put_char_at; [done|rewrite !len_app; unfold len; simpl; lia]).
  f_equal. simpl. by rewrite <- !app_assoc.
Qed.

Lemma Assert_ok {A} b (k : T A) t : b = true -> (Assert b ;; k) t = k t.
Proof. by intros ->. Qed.

(** The part of the source the main loop encodes, in groups of three. *)
Fixpoint body3 (l : list Z) : list Z :=
  match l with a :: b :: c :: l => a :: b :: c :: body3 l | _ => [] end.
Fixpoint tail3 (l : list Z) : list Z :=
  match l with _ :: _ :: _ :: l => tail3 l | _ => l end.

Lemma unpack_split l : unpack l = unpack (body3 l) ++ unpack (tail3 l).
Proof.
  induction l as [| | |a b c l IH] using list_ind3; try done. cbn [unpack body3 tail3].
  rewrite IH. done.
Qed.

Lemma tail3_spec l : len (tail3 l) = len l mod 3 /\ (Forall byte l -> Forall byte (tail3 l)).
Proof.
  induction l as [| | |a b c l [IH1 IH2]] using list_ind3; try done. cbn [tail3].
  rewrite !len_cons, IH1. split; [lia|]. intros H. list_facts. auto.
Qed.

Lemma unpack_len l : len (unpack l) = 4 * (len l / 3) + (if len l mod 3 =? 0 then 0 else len l mod 3 + 1).
Proof.
  induction l as [| | |a b c l IH] using list_ind3; try done. cbn [unpack]. cbv zeta.
  rewrite !len_cons, IH.
  replace ((1 + (1 + (1 + len l))) mod 3) with (len l mod 3) by lia. lia.
Qed.

Lemma ntop_loop_spec src pre r : Forall byte src ->
  let e := map char_of (unpack (body3 src)) in
  exists t', length t' = length (pre ++ r) /\
  ntop_loop src (len pre) (len (pre ++ r)) (pre ++ r) =
  if len e <=? len r
  then Some (Some (tail3 src, len pre + len e), pre ++ e ++ drop (length e) r)
  else Some (None, t').
Proof.
  revert pre r. induction src as [|a|a b|a b c src IH] using list_ind3; intros pre r H;
    cbn [ntop_loop body3 tail3 unpack map].
  1-3: exists (pre ++ r); split; [done|]; rewrite (proj2 (Z.leb_le _ _)) by (unfold len; simpl; lia);
    rewrite Z.add_0_r; done.
  list_facts. destruct (output_digits a b c) as (-> & -> & -> & ->); [done..|]. cbv zeta.
  rewrite !Assert_ok by (apply Z.ltb_lt; lia). rewrite len_app.
  destruct (Z.ltb_spec (len pre + len r) (len pre + 4)) as [S|S].
  { exists (pre ++ r). split; [done|]. rewrite (proj2 (Z.leb_gt _ _)); [done|]. rewrite !len_cons. unfold len in *. lia. }
  rewrite put_char4 by (done || unfold digit; lia).
  set (g := map char_of _).
  assert (Eg : g = map char_of [((a * 256 + b) * 256 + c) / 2 ^ 18; (((a * 256 + b) * 256 + c) / 2 ^ 12) mod 64;
    (((a * 256 + b) * 256 + c) / 2 ^ 6) mod 64; ((a * 256 + b) * 256 + c) mod 64]).
  { subst g. f_equal. do 3 (f_equal; [lia|]). f_equal. lia. }
  assert (L : len (drop 4 r) = len r - 4) by (unfold len in *; rewrite length_drop; lia).
  assert (Lg : len (pre ++ g) = len pre + 4) by (by rewrite len_app).
  destruct (IH (pre ++ g) (drop 4 r) H) as (t' & Lt & E). exists t'.
  rewrite <- Lg. replace (len pre + len r) with (len ((pre ++ g) ++ drop 4 r))
    by (rewrite len_app; lia).
  split. { clear E. rewrite Lt, !length_app. unfold len in *. rewrite length_app in Lg. lia. }
  rewrite E. clear E IH. rewrite L. clearbody g. subst g. cbn [map]. rewrite !len_cons. unfold len in *.
  repeat case_match; try lia; [|done]. f_equal. f_equal; [f_equal; f_equal; rewrite length_app; cbn [length]; lia|].
  cbn [length app]. by rewrite <- !app_assoc, drop_drop.
Qed.

Lemma ntop_pad_spec tl pre r : Forall byte tl -> len tl < 3 ->
  ntop_pad tl (len pre) (len (pre ++ r)) (pre ++ r) =
  if len (encode tl) <=? len r
  then Some (Some (len pre + len (encode tl)), pre ++ encode tl ++ drop (length (encode tl)) r)
  else Some (None, pre ++ r).
Proof.
  intros H L. destruct tl as [|a tl].
  { change (encode []) with (@nil Z). change (len []) with 0. cbn [ntop_pad].
    rewrite (proj2 (Z.leb_le _ _)) by (unfold len; lia). by rewrite Z.add_0_r. }
  destruct tl as [|b tl].
  - list_facts. unfold ntop_pad.
    destruct (output_digits a 0 0) as (-> & -> & -> & _); [done || (unfold byte; lia)..|]. cbv zeta.
    rewrite !Assert_ok by (apply Z.ltb_lt; lia). rewrite len_app. change (len (encode [a])) with 4.
    destruct (Z.leb_spec 4 (len r)) as [S|S]; [|by rewrite (proj2 (Z.ltb_lt _ _)) by lia].
    rewrite (proj2 (Z.ltb_ge _ _)) by lia. destruct (split4 r S) as (w & x & y & z & r' & ->).
    erewrite bind_some by (apply put_char_at; [unfold digit; lia|done]). rewrite cons_middle, app_assoc.
    erewrite bind_some by (apply put_char_at; [unfold digit; lia|by rewrite len_app]).
    rewrite (cons_middle (char_of _) (pre ++ _)), app_assoc. rewrite bool_decide_true by done.
    erewrite bind_some by (apply put_at; rewrite !len_app; unfold len; simpl; lia).
    rewrite (cons_middle Pad64), app_assoc.
    erewrite bind_some by (apply put_at; rewrite !len_app; unfold len; simpl; lia).
    assert (encode [a] = [char_of (a / 4); char_of (a mod 4 * 16 + 0 / 16); Pad64; Pad64]) as ->.
    { change (encode [a]) with (map char_of [a * 16 / 64; (a * 16) mod 64] ++ [Pad64; Pad64]). simpl.
      f_equal; [f_equal; lia|]. f_equal. f_equal. lia. }
    unfold ret. by rewrite <- !app_assoc.
  - destruct tl as [|? ?]; [|rewrite !len_cons in L; unfold len in L; lia]. list_facts. unfold ntop_pad.
    destruct (output_digits a b 0) as (-> & -> & -> & _); [done || (unfold byte; lia)..|]. cbv zeta.
    rewrite !Assert_ok by (apply Z.ltb_lt; lia). rewrite len_app. change (len (encode [a; b])) with 4.
    destruct (Z.leb_spec 4 (len r)) as [S|S]; [|by rewrite (proj2 (Z.ltb_lt _ _)) by lia].
    rewrite (proj2 (Z.ltb_ge _ _)) by lia. destruct (split4 r S) as (w & x & y & z & r' & ->).
    erewrite bind_some by (apply put_char_at; [unfold digit; lia|done]). rewrite cons_middle, app_assoc.
    erewrite bind_some by (apply put_char_at; [unfold digit; lia|by rewrite len_app]).
    rewrite (cons_middle (char_of _) (pre ++ _)), app_assoc. rewrite bool_decide_false by done.
    erewrite bind_some by (apply put_char_at; [unfold digit; lia|rewrite !len_app; unfold len; simpl; lia]).
    rewrite (cons_middle (char_of _) ((pre ++ _) ++ _)), app_assoc.
    erewrite bind_some by (apply put_at; rewrite !len_app; unfold len; simpl; lia).
    assert (encode [a; b] = [char_of (a / 4); char_of (a mod 4 * 16 + b / 16);
                             char_of (b mod 16 * 4 + 0 / 64); Pad64]) as ->.
    { change (encode [a; b]) with (map char_of [(a * 256 + b) * 4 / 4096;
        ((a * 256 + b) * 4 / 64) mod 64; ((a * 256 + b) * 4) mod 64] ++ [Pad64]). simpl.
      f_equal; [f_equal; lia|]. f_equal; [f_equal; lia|]. f_equal. f_equal. lia. }
    unfold ret. by rewrite <- !app_assoc.
Qed.

Lemma encode_split l : encode l = map char_of (unpack (body3 l)) ++ encode (tail3 l).
Proof.
  unfold encode. rewrite unpack_split, map_app, <- app_assoc. do 2 f_equal.
  unfold padding. fold (len l) (len (tail3 l)). rewrite (proj1 (tail3_spec l)).
  by rewrite Zmod_mod.
Qed.

Lemma b64_ntop_spec src t : Forall byte src ->
  exists t', length t' = length t /\ b64_ntop src (len t) t =
  Some (if len (encode src) <? len t
        then (to_int (len (encode src)), encode src ++ 0 :: drop (S (length (encode src))) t)
        else (-1, t')).
Proof.
  intros H. destruct (tail3_spec src) as [L3 B3]. unfold b64_ntop.
  destruct (ntop_loop_spec src [] t H) as (t1 & L1 & E1). cbn [app] in E1, L1.
  change (len []) with 0 in E1. unfold bind at 1. rewrite E1. clear E1.
  rewrite (encode_split src). set (e1 := map char_of (unpack (body3 src))). rewrite len_app.
  set (e2 := encode (tail3 src)).
  destruct (Z.leb_spec (len e1) (len t)) as [S1|S1].
  2: { exists t1. split; [done|]. rewrite (proj2 (Z.ltb_ge _ _)); [done|]. unfold len in *. lia. }
  assert (Ld : len (e1 ++ drop (length e1) t) = len t).
  { rewrite len_app. unfold len in *. rewrite length_drop. lia. }
  pose proof (ntop_pad_spec (tail3 src) e1 (drop (length e1) t) (B3 H) ltac:(lia)) as E2.
  rewrite Z.add_0_l. unfold bind at 1. rewrite <- Ld. rewrite E2. fold e2. clear E2.
  replace (len (drop (length e1) t)) with (len t - len e1) by (unfold len in *; rewrite length_drop; lia).
  destruct (Z.leb_spec (len e2) (len t - len e1)) as [S2|S2].
  2: { eexists. split; [|rewrite (proj2 (Z.ltb_ge _ _)) by lia; done].
       unfold len in Ld. lia. }
  rewrite drop_drop, app_assoc, <- length_app. rewrite Ld.
  destruct (Z.leb_spec (len t) (len e1 + len e2)) as [S3|S3].
  { eexists. split; [|by rewrite (proj2 (Z.ltb_ge _ _)) by lia].
    rewrite length_app, length_drop. unfold len in *. rewrite length_app. lia. }
  rewrite (proj2 (Z.ltb_lt _ _)) by lia.
  destruct (drop (length (e1 ++ e2)) t) as [|x r] eqn:Ed.
  { apply (f_equal length) in Ed. rewrite length_drop, length_app in Ed. unfold len in *. simpl in Ed. lia. }
  exists t. split; [done|]. erewrite bind_some by by apply put_at; rewrite len_app.
  unfold ret. do 3 f_equal. f_equal. 
  replace (S (length (e1 ++ e2))) with (length (e1 ++ e2) + 1)%nat by lia.
  by rewrite <- drop_drop, Ed.
Qed.

(** ** Decoding *)

(** The space the digits need: one byte more than they make when some bits
    are left over. *)
Definition need (ds : list Z) : Z := len (pack ds) + (if len ds mod 4 =? 0 then 0 else 1).

Lemma need_mono ds ds' : need ds <= need (ds ++ ds').
Proof.
  unfold need. rewrite !pack_length, len_app. assert (0 <= len ds') by (unfold len; lia).
  assert (0 <= len ds) by (unfold len; lia).
  destruct (Z.eqb_spec (len ds mod 4) 0), (Z.eqb_spec ((len ds + len ds') mod 4) 0); lia.
Qed.

(** The buffer holds the bytes of [ds], and then the bits left over. *)
Definition decoded (ds : list Z) (state tarindex : Z) (t : list Z) : Prop :=
  state = len ds mod 4 /\ tarindex = len (pack ds) /\
  exists rest, t = pack ds ++ rest /\ (state <> 0 -> exists r, rest = leftover ds :: r).

Lemma leftover_bounds ds : Forall digit ds -> 0 <= leftover ds < 256 /\
  leftover ds mod (match len ds mod 4 with 1 => 4 | 2 => 16 | 3 => 64 | _ => 1 end) = 0.
Proof.
  induction ds as [| | | |a b c d ds IH] using list_ind4; intros H; list_facts; cbn [leftover];
    try (split; [lia|simpl; lia]).
  replace (len (a :: b :: c :: d :: ds) mod 4) with (len ds mod 4) by (rewrite !len_cons; lia). auto.
Qed.

Lemma lor_disjoint x y k : 0 <= k -> x mod 2 ^ k = 0 -> 0 <= y < 2 ^ k -> Z.lor x y = x + y.
Proof.
  intros Hk M Hy. rewrite (Z.div_mod x (2 ^ k)), M, Z.add_0_r, Z.mul_comm by lia.
  by apply lor_mul_pow2_add.
Qed.

Lemma put_or_at pre i v x r : i = len pre ->
  put_or i v (pre ++ x :: r) = Some (tt, pre ++ u_char (Z.lor x v) :: r).
Proof.
  intros E. unfold put_or. erewrite bind_some by by apply get_at. by apply put_at.
Qed.

(** Two more cells: the bits of [v] into the left-over byte, [w] after it. *)
Lemma put_two {A} pre i x v y w r (k : T A) : i = len pre ->
  (((put_or i v ;; put (i + 1) w) ;; k) (pre ++ x :: y :: r)) =
  k ((pre ++ [u_char (Z.lor x v)]) ++ w :: r).
Proof.
  intros E. rewrite bind_bind. erewrite bind_some by by apply put_or_at.
  rewrite cons_middle, app_assoc. erewrite bind_some; [done|].
  apply put_at. by rewrite len_app, E.
Qed.

Lemma merge_bits x v k : 0 <= x < 256 -> k = 2 \/ k = 4 \/ k = 6 -> x mod 2 ^ k = 0 ->
  0 <= v < 2 ^ k -> u_char (Z.lor x v) = x + v.
Proof.
  intros Hx Hk M Hv. rewrite (lor_disjoint x v k) by lia. apply wrap_small.
  destruct Hk as [->|[->| ->]]; lia.
Qed.

Lemma pos_bits pos : digit pos ->
  Z.shiftl pos 2 = pos * 4 /\ Z.shiftr pos 4 = pos / 16 /\ Z.shiftr pos 2 = pos / 4 /\
  Z.shiftl (Z.land pos 0x0f) 4 = (pos mod 16) * 16 /\ Z.shiftl (Z.land pos 0x03) 6 = (pos mod 4) * 64.
Proof.
  intros _. change 0x0f with (Z.ones 4). change 0x03 with (Z.ones 2).
  rewrite !Z.land_ones, !Z.shiftl_mul_pow2, !Z.shiftr_div_pow2 by lia. done.
Qed.

(** A digit in the middle of a group: the rest of a byte and the start of
    the next one. *)
Ltac middle_digit ds L st k := 
  replace ((len ds + 1) mod 4) with st by lia; cbn [Z.eqb];
  destruct (L ltac:(lia)) as [[|y r] ->]; rewrite ?len_cons; change (len []) with 0;
  [ exists 0, 0, []; rewrite (proj2 (Z.leb_le _ _)), (proj2 (Z.leb_gt _ _)) by lia; split; [done|lia] |];
  assert (0 <= len r) by (unfold len; lia);
  rewrite (proj2 (Z.leb_gt _ _)), (proj2 (Z.leb_le _ _)) by lia;
  rewrite put_two by done; rewrite (merge_bits _ _ k) by (simpl in *; lia);
  eexists st, _, _; split; [done|]; intros _; split; [rewrite !length_app; simpl; lia|];
  split; [done|]; split; [lia|]; eexists; split; [done|];
  unfold u_char; rewrite wrap_small by lia; eauto.

(** One digit, on a buffer with or without room for it. *)
Lemma pton_digit_spec ds state tarindex pos t : Forall digit ds -> digit pos ->
  decoded ds state tarindex t -> tarindex < INT_MAX ->
  exists state' tarindex' t',
  pton_digit true (len t) state tarindex pos t =
    (if need (ds ++ [pos]) <=? len t then Some (Some (state', tarindex'), t') else Some (None, t)) /\
  (need (ds ++ [pos]) <= len t -> length t' = length t /\ decoded (ds ++ [pos]) state' tarindex' t').
Proof.
  intros D P (Es & Et & rest & -> & L) Hi.
  destruct (pack_snoc ds pos D) as [Ep El]. destruct (leftover_bounds ds D) as [B M].
  destruct (pos_bits pos P) as (B1 & B2 & B3 & B4 & B5).
  assert (Ns : state = 0 \/ state = 1 \/ state = 2 \/ state = 3) by lia.
  assert (Nl : len (ds ++ [pos]) = len ds + 1) by (by rewrite len_app).
  unfold need, pton_digit, incr, decoded. rewrite Nl, B1, B2, B3, B4, B5.
  rewrite (proj2 (Z.ltb_lt tarindex _)) by done. cbn [andb when].
  unfold digit in P.
  destruct Ns as [->|[->|[->| ->]]]; cbn [Z.eqb Pos.eqb]; rewrite <- Es in Ep, El, M;
    rewrite Ep, El, !len_app.
  - replace ((len ds + 1) mod 4) with 1 by lia. cbn [Z.eqb]. change (len []) with 0.
    exists 1, tarindex. destruct rest as [|x r].
    { exists []. change (len []) with 0. rewrite (proj2 (Z.leb_le _ _)), (proj2 (Z.leb_gt _ _)) by lia.
      split; [done|lia]. }
    rewrite !len_cons. assert (0 <= len r) by (unfold len; lia).
    rewrite (proj2 (Z.leb_gt _ _)), (proj2 (Z.leb_le _ _)) by lia.
    erewrite bind_some by by apply put_at. exists (pack ds ++ u_char (pos * 4) :: r).
    split; [done|]. intros _. split; [by rewrite !length_app|].
    split; [done|]. split; [lia|]. exists (pos * 4 :: r). unfold u_char.
    rewrite wrap_small by lia. rewrite app_nil_r. eauto.
  - middle_digit ds L 2 2.
  - middle_digit ds L 3 4.
  - replace ((len ds + 1) mod 4) with 0 by lia. cbn [Z.eqb].
    destruct (L ltac:(lia)) as [r ->]. exists 0, (tarindex + 1). rewrite len_cons. change (len [_]) with 1.
    assert (0 <= len r) by (unfold len; lia).
    rewrite (proj2 (Z.leb_gt _ _)), (proj2 (Z.leb_le _ _)) by lia.
    erewrite bind_some by by apply put_or_at. rewrite (merge_bits _ _ 6) by (simpl in *; lia).
    eexists. split; [done|]. intros _. split; [by rewrite !length_app|].
    split; [done|]. split; [lia|]. exists r. by rewrite <- app_assoc.
Qed.

(** ** The strings that are accepted *)

(** The digits before a pad or the end, and what follows the pad. *)
Fixpoint scan (s : list Z) : option (list Z * option (list Z)) :=
  match s with
  | [] => Some ([], None)
  | ch :: s =>
    if isspace ch then scan s
    else if ch =? Pad64 then Some ([], Some s)
    else match strchr Base64 ch, scan s with
         | Some p, Some (ds, stop) => Some (p :: ds, stop)
         | _, _ => None
         end
  end.

Definition stop_char (stop : option (list Z)) : Z := match stop with Some _ => Pad64 | None => 0 end.
Definition stop_rest (stop : option (list Z)) : list Z := match stop with Some s => s | None => [] end.

Lemma pack_shorter ds : len (pack ds) <= len ds.
Proof. rewrite pack_length. assert (0 <= len ds) by (unfold len; lia). lia. Qed.

Lemma scan_digits s ds stop : scan s = Some (ds, stop) -> Forall digit ds.
Proof.
  revert ds. induction s as [|c s IH]; intros ds; cbn [scan]; [by intros [= <- _]|].
  destruct (isspace c); [apply IH|]. destruct (c =? Pad64); [by intros [= <- _]|].
  destruct (strchr Base64 c) as [p|] eqn:E; [|done]. destruct (scan s) as [[ds' stop']|]; [|done].
  intros [= <- ->]. apply list.Forall_cons. split; [by apply strchr_char in E as [? _]|by apply IH].
Qed.

Lemma pton_loop_spec s ds state tarindex t : Forall digit ds -> decoded ds state tarindex t ->
  need ds <= len t -> len ds + len s <= INT_MAX ->
  exists t' state' tarindex', length t' = length t /\
  match scan s with
  | None => pton_loop s true (len t) state tarindex t = Some (None, t')
  | Some (ds', stop) =>
    Forall digit (ds ++ ds') /\
    (need (ds ++ ds') <= len t -> decoded (ds ++ ds') state' tarindex' t') /\
    pton_loop s true (len t) state tarindex t =
    if need (ds ++ ds') <=? len t
    then Some (Some (stop_char stop, stop_rest stop, state', tarindex'), t') else Some (None, t')
  end.
Proof.
  revert ds state tarindex t. induction s as [|ch s IH]; intros ds state tarindex t D C N L;
    cbn [pton_loop scan].
  { exists t, state, tarindex. split; [done|]. rewrite app_nil_r.
    rewrite (proj2 (Z.leb_le _ _)) by done. done. }
  rewrite len_cons in L. destruct (isspace ch); [apply IH; [done..|lia]|].
  destruct (Z.eqb_spec ch Pad64) as [->|].
  { exists t, state, tarindex. split; [done|]. rewrite app_nil_r.
    rewrite (proj2 (Z.leb_le _ _)) by done. done. }
  destruct (strchr Base64 ch) as [p|] eqn:E; [|by exists t, 0, 0].
  apply strchr_char in E as [P _]. assert (0 <= len s) by (unfold len; lia).
  assert (Hi : tarindex < INT_MAX).
  { destruct C as (_ & -> & _). pose proof (pack_shorter ds). lia. }
  destruct (pton_digit_spec ds state tarindex p t D P C Hi) as (st1 & ti1 & t1 & E1 & C1).
  unfold bind. rewrite E1. clear E1. destruct (Z.leb_spec (need (ds ++ [p])) (len t)) as [R|R].
  - destruct (C1 R) as [L1 C1']. clear C1.
    replace (len t) with (len t1) in R |- * by (unfold len; lia).
    assert (D1 : Forall digit (ds ++ [p])) by (apply list.Forall_app; split; [done|by apply list.Forall_singleton]).
    destruct (IH (ds ++ [p]) st1 ti1 t1) as (t' & st' & ti' & L' & H'); [done..|rewrite len_app; change (len [p]) with 1; lia|].
    exists t', st', ti'. split; [congruence|]. destruct (scan s) as [[ds' stop]|]; [|done].
    replace (ds ++ p :: ds') with ((ds ++ [p]) ++ ds') by (by rewrite <- app_assoc). done.
  - exists t, 0, 0. split; [done|]. destruct (scan s) as [[ds' stop]|] eqn:E; [|done].
    pose proof (need_mono (ds ++ [p]) ds') as Mo. rewrite <- app_assoc in Mo. simpl in Mo.
    split. { apply list.Forall_app. split; [done|]. apply list.Forall_cons. split; [done|].
      by apply scan_digits in E. }
    rewrite (proj2 (Z.leb_gt _ _)) by lia. split; [lia|done].
Qed.

Definition nonspace (s : list Z) : list Z := filter (fun ch => isspace ch = false) s.

Lemma nonspace_cons ch s : nonspace (ch :: s) = (if isspace ch then [] else [ch]) ++ nonspace s.
Proof. unfold nonspace. rewrite filter_cons. by destruct (isspace ch). Qed.

Lemma skip_spaces_spec s :
  match skip_spaces s with
  | [] => nonspace s = []
  | ch :: r => nonspace s = ch :: nonspace r
  end.
Proof.
  induction s as [|ch s IH]; [done|]. cbn [skip_spaces]. rewrite nonspace_cons.
  by destruct (isspace ch).
Qed.

(** What [scan] reads is what the string without white space says. *)
Lemma scan_sound s ds stop : scan s = Some (ds, stop) ->
  nonspace s = map char_of ds ++ match stop with Some r => Pad64 :: nonspace r | None => [] end.
Proof.
  revert ds. induction s as [|c s IH]; intros ds; cbn [scan]; [by intros [= <- <-]|].
  rewrite nonspace_cons. destruct (isspace c); [apply IH|].
  destruct (Z.eqb_spec c Pad64) as [->|]; [by intros [= <- <-]|].
  destruct (strchr Base64 c) as [p|] eqn:E; [|done]. destruct (scan s) as [[ds' stop']|]; [|done].
  intros [= <- ->]. apply strchr_char in E as [_ <-]. simpl. f_equal. by apply IH.
Qed.

Lemma scan_complete s ds tl : Forall digit ds -> nonspace s = map char_of ds ++ tl ->
  match tl with
  | [] => scan s = Some (ds, None)
  | ch :: tl' => ch = Pad64 -> exists r, scan s = Some (ds, Some r) /\ nonspace r = tl'
  end.
Proof.
  revert ds. induction s as [|c s IH]; intros ds D; cbn [scan].
  { destruct ds; [|done]. by destruct tl. }
  rewrite nonspace_cons. destruct (isspace c) eqn:Sc; [apply (IH _ D)|].
  destruct ds as [|d ds]; cbn [map app].
  - destruct tl as [|ch tl']; [done|]. intros [= -> E] ->. by exists s.
  - intros [= -> E]. apply list.Forall_cons in D as [Dd D]. destruct (alphabet d Dd) as (-> & _ & ->).
    specialize (IH ds D E). destruct tl as [|ch tl']; [by rewrite IH|].
    intros Ec. destruct (IH Ec) as (r & -> & Er). by exists r.
Qed.

(** How the string must end. *)
Definition well_ended (ds : list Z) (stop : option (list Z)) : bool :=
  match stop with
  | None => len ds mod 4 =? 0
  | Some r => (leftover ds =? 0) &&
    ((len ds mod 4 =? 2) && bool_decide (nonspace r = [Pad64]) ||
     (len ds mod 4 =? 3) && bool_decide (nonspace r = []))
  end.

Lemma pton_trailing_spec ds state tarindex t r : decoded ds state tarindex t -> state <> 0 ->
  pton_trailing r true tarindex t =
  Some (if bool_decide (nonspace r = []) && (leftover ds =? 0) then tarindex else -1, t).
Proof.
  intros (_ & Et & rest & -> & L) Hs. destruct (L Hs) as [r' ->]. unfold pton_trailing.
  pose proof (skip_spaces_spec r) as Sp. destruct (skip_spaces r) as [|ch r''].
  - rewrite bool_decide_true by done. erewrite bind_some by by apply get_at. simpl.
    by destruct (leftover ds =? 0).
  - by rewrite bool_decide_false by (rewrite Sp; done).
Qed.

Lemma b64_pton_run s t : len s <= INT_MAX ->
  exists r t', b64_pton s true (len t) t = Some (r, t') /\ length t' = length t /\
  match scan s with
  | Some (ds, stop) =>
    if (need ds <=? len t) && well_ended ds stop
    then r = len (pack ds) /\ take (length (pack ds)) t' = pack ds else r = -1
  | None => r = -1
  end.
Proof.
  intros L. unfold b64_pton.
  destruct (pton_loop_spec s [] 0 0 t) as (t' & st & ti & Lt & H).
  { done. } { split; [done|]. split; [done|]. exists t. done. } { unfold need, len. simpl. lia. }
  { change (len []) with 0. lia. }
  destruct (scan s) as [[ds stop]|]; [|by exists (-1), t'; rewrite (bind_some _ _ _ _ _ H)].
  cbn [app] in H. destruct H as (D & C & E). rewrite (bind_some _ _ _ _ _ E) || unfold bind; rewrite E.
  clear E. destruct (Z.leb_spec (need ds) (len t)) as [R|R]; [|by exists (-1), t'].
  specialize (C R). pose proof C as (Es & Et & rest & Er & _).
  assert (Tk : take (length (pack ds)) t' = pack ds) by (rewrite Er; by apply take_app_length).
  unfold well_ended. rewrite <- Es. destruct stop as [r|]; simpl.
  2: { destruct (Z.eqb_spec st 0) as [->|]; [exists ti, t'|exists (-1), t']; done. }
  assert (Ns : st = 0 \/ st = 1 \/ st = 2 \/ st = 3) by lia.
  destruct Ns as [->|[->|[->| ->]]]; cbn [Z.eqb Pos.eqb orb andb];
    [exists (-1), t'; by rewrite andb_false_r..| |].
  - pose proof (skip_spaces_spec r) as Sp. destruct (skip_spaces r) as [|ch r'].
    { exists (-1), t'. rewrite Sp. by rewrite andb_false_r. }
    rewrite Sp, orb_false_r. destruct (Z.eqb_spec ch Pad64) as [->|Nc].
    + rewrite (pton_trailing_spec ds _ _ _ _ C) by done. eexists _, t'. split; [done|]. split; [done|].
      replace (bool_decide (Pad64 :: nonspace r' = [Pad64])) with (bool_decide (nonspace r' = []))
        by (apply bool_decide_ext; split; [by intros ->|by intros [= ->]]).
      rewrite andb_comm. by case_match.
    + exists (-1), t'. rewrite bool_decide_false by congruence. by rewrite andb_false_r.
  - rewrite (pton_trailing_spec ds _ _ _ _ C) by done. eexists _, t'. split; [done|]. split; [done|].
    rewrite andb_comm. by case_match.
Qed.

Lemma leftover_mod4 ds : len ds mod 4 = 0 -> leftover ds = 0.
Proof.
  induction ds as [| | | |a b c d ds IH] using list_ind4; intros M; try done.
  apply IH. rewrite !len_cons in M. lia.
Qed.

Lemma padding_pack ds : len ds mod 4 <> 1 -> padding (pack ds) =
  match len ds mod 4 with 2 => [Pad64; Pad64] | 3 => [Pad64] | _ => [] end.
Proof.
  intros N. unfold padding. fold (len (pack ds)). rewrite pack_length. assert (0 <= len ds) by (unfold len; lia).
  assert (M : len ds mod 4 = 0 \/ len ds mod 4 = 2 \/ len ds mod 4 = 3) by lia.
  destruct M as [M|[M|M]]; rewrite M; simpl;
    [replace (_ mod 3) with 0 by lia|replace (_ mod 3) with 1 by lia|replace (_ mod 3) with 2 by lia]; done.
Qed.

(** [scan] succeeds with a good ending exactly on the encodings. *)
Lemma accepted_sound s ds stop : scan s = Some (ds, stop) -> well_ended ds stop = true ->
  nonspace s = encode (pack ds) /\ Forall byte (pack ds).
Proof.
  intros E W. pose proof (scan_digits _ _ _ E) as D. split; [|by apply pack_bytes].
  rewrite (scan_sound _ _ _ E). unfold well_ended in W. unfold encode.
  assert (G : len ds mod 4 <> 1 /\ leftover ds = 0 /\
    match stop with Some r => Pad64 :: nonspace r | None => [] end =
    match len ds mod 4 with 2 => [Pad64; Pad64] | 3 => [Pad64] | _ => [] end).
  { destruct stop as [r|].
    - apply andb_true_iff in W as [L W]. apply Z.eqb_eq in L.
      apply orb_true_iff in W as [W|W]; apply andb_true_iff in W as [M%Z.eqb_eq W%bool_decide_eq_true];
        rewrite M, W; repeat split; lia.
    - apply Z.eqb_eq in W. rewrite W. repeat split; [lia|by apply leftover_mod4]. }
  destruct G as (M & L & ->). by rewrite unpack_pack, padding_pack.
Qed.

Lemma unpack_mod4 l : len (unpack l) mod 4 = match len l mod 3 with 1 => 2 | 2 => 3 | _ => 0 end.
Proof.
  rewrite unpack_len. assert (0 <= len l) by (unfold len; lia).
  assert (M : len l mod 3 = 0 \/ len l mod 3 = 1 \/ len l mod 3 = 2) by lia.
  destruct M as [M|[M|M]]; rewrite M; simpl; lia.
Qed.

Lemma accepted_complete s l : Forall byte l -> nonspace s = encode l ->
  exists stop, scan s = Some (unpack l, stop) /\ well_ended (unpack l) stop = true.
Proof.
  intros B E. pose proof (scan_complete s (unpack l) (padding l) (unpack_digits l B) E) as H.
  destruct (pack_unpack l B) as [_ L0]. unfold well_ended. rewrite L0, unpack_mod4. unfold padding in H.
  fold (len l) in H. assert (M : len l mod 3 = 0 \/ len l mod 3 = 1 \/ len l mod 3 = 2) by lia.
  destruct M as [M|[M|M]]; rewrite M in H |- *.
  - by exists None.
  - destruct (H eq_refl) as (r & Er & Nr). exists (Some r). split; [done|].
    by rewrite Nr.
  - destruct (H eq_refl) as (r & Er & Nr). exists (Some r). split; [done|].
    by rewrite Nr.
Qed.

(** ** The theorems *)

Lemma encode_len l : len (encode l) = 4 * ((len l + 2) / 3).
Proof.
  unfold encode. rewrite len_app. unfold len at 1. rewrite length_map. fold (len (unpack l)).
  rewrite unpack_len. unfold padding. fold (len l). assert (0 <= len l) by (unfold len; lia).
  assert (M : len l mod 3 = 0 \/ len l mod 3 = 1 \/ len l mod 3 = 2) by lia.
  destruct M as [M|[M|M]]; rewrite M; rewrite ?len_cons; change (len []) with 0; cbn [Z.eqb Pos.eqb]; lia.
Qed.

(** The space [b64_pton] asks for to store [l]. *)
Definition room (l : list Z) : Z := len l + (if len l mod 3 =? 0 then 0 else 1).

Lemma need_room l : Forall byte l -> need (unpack l) = room l.
Proof.
  intros B. unfold need, room. rewrite (proj1 (pack_unpack l B)), unpack_mod4.
  assert (M : len l mod 3 = 0 \/ len l mod 3 = 1 \/ len l mod 3 = 2) by (unfold len; lia).
  by destruct M as [M|[M|M]]; rewrite M.
Qed.

(** [b64_ntop] never writes outside the buffer and no assertion fails; it
    writes the encoding and a terminating zero and returns the length,
    [4 * ceil (n / 3)], or returns -1 exactly when that does not fit. *)
Theorem b64_ntop_correct src t : Forall byte src -> len (encode src) <= INT_MAX ->
  exists r t', b64_ntop src (len t) t = Some (r, t') /\ length t' = length t /\
  len (encode src) = 4 * ((len src + 2) / 3) /\
  if len (encode src) <? len t
  then r = len (encode src) /\ take (S (length (encode src))) t' = encode src ++ [0]
  else r = -1.
Proof.
  intros B I. destruct (b64_ntop_spec src t B) as (t' & L & E). rewrite E. clear E.
  pose proof (encode_len src). destruct (Z.ltb_spec (len (encode src)) (len t)) as [R|R].
  2: { by exists (-1), t'. }
  eexists _, _. split; [done|]. split.
  { rewrite length_app. cbn [length]. rewrite length_drop. unfold len in *. lia. }
  split; [done|]. split.
  - unfold to_int. unfold INT_MAX in I. assert (0 <= len (encode src)) by (unfold len; lia).
    rewrite Z.mod_small by lia. lia.
  - rewrite (cons_middle 0), app_assoc. apply take_app_length'. rewrite length_app. simpl. lia.
Qed.

(** C21: [b64_pton] accepts exactly the encodings of byte strings, with white
    space (that of the C locale) anywhere: it stores the bytes and returns their number, or returns
    -1 when the string is no encoding (a stray character, bad padding,
    non-zero bits after the last byte) or the buffer is too small.  It never
    touches memory outside the buffer. *)
Theorem b64_pton_correct s t : len s <= INT_MAX ->
  exists r t', b64_pton s true (len t) t = Some (r, t') /\ length t' = length t /\
  ((exists l, Forall byte l /\ nonspace s = encode l /\ room l <= len t /\
      r = len l /\ take (length l) t' = l) \/
   (r = -1 /\ forall l, Forall byte l -> nonspace s = encode l -> len t < room l)).
Proof.
  intros L. destruct (b64_pton_run s t L) as (r & t' & E & Lt & H). exists r, t'.
  split; [done|]. split; [done|]. destruct (scan s) as [[ds stop]|] eqn:Sc.
  - destruct ((need ds <=? len t) && well_ended ds stop) eqn:W.
    + apply andb_true_iff in W as [R%Z.leb_le W]. left. exists (pack ds).
      destruct (accepted_sound s ds stop Sc W) as [En By]. split; [done|]. split; [done|]. split; [|done].
      destruct (accepted_complete s (pack ds) By En) as (stop' & Sc' & _).
      rewrite <- need_room by done. rewrite Sc in Sc'. injection Sc' as Eq _. by rewrite <- Eq.
    + right. split; [done|]. intros l By En.
      destruct (accepted_complete s l By En) as (stop' & Sc' & W'). rewrite Sc in Sc'.
      injection Sc' as -> ->. rewrite W', andb_true_r in W. apply Z.leb_gt in W.
      by rewrite <- need_room.
  - right. split; [done|]. intros l By En. destruct (accepted_complete s l By En) as (? & ? & _). congruence.
Qed.

Lemma nonspace_encode l : Forall byte l -> nonspace (encode l) = encode l.
Proof.
  intros B. unfold encode. pose proof (unpack_digits l B) as D. revert D. generalize (unpack l). intros ds D.
  assert (P : nonspace (padding l) = padding l) by (unfold padding; by repeat case_match).
  induction ds as [|d ds IH]; [done|]. apply list.Forall_cons in D as [Dd D]. cbn [map app].
  rewrite nonspace_cons. destruct (alphabet d Dd) as (_ & -> & _). simpl. by rewrite IH.
Qed.

(** what [b64_ntop] writes [b64_pton] reads back, byte for byte. *)
Theorem b64_roundtrip src t u : Forall byte src -> len (encode src) < len t -> room src <= len u ->
  len (encode src) <= INT_MAX ->
  exists n t' u', b64_ntop src (len t) t = Some (n, t') /\ take (S (Z.to_nat n)) t' = encode src ++ [0] /\
  b64_pton (take (Z.to_nat n) t') true (len u) u = Some (len src, u') /\ take (length src) u' = src.
Proof.
  intros B R1 R2 I. destruct (b64_ntop_spec src t B) as (t' & L & E).
  rewrite (proj2 (Z.ltb_lt _ _)) in E by done.
  assert (to_int (len (encode src)) = len (encode src)) as Ei.
  { unfold to_int, INT_MAX in *. assert (0 <= len (encode src)) by (unfold len; lia).
    rewrite Z.mod_small by lia. lia. }
  rewrite Ei in E. eexists _, _. unfold len in E at 2 |- * at 2. rewrite Nat2Z.id.
  set (t1 := encode src ++ _) in E.
  destruct (b64_pton_run (encode src) u I) as (r & u' & E2 & Lu & H). exists u'.
  split; [exact E|]. subst t1. rewrite take_app_length.
  split; [rewrite (cons_middle 0), app_assoc; apply take_app_length'; rewrite length_app; simpl; lia|].
  destruct (accepted_complete (encode src) src B (nonspace_encode src B)) as (stop & Sc & W).
  rewrite Sc, W, need_room, andb_true_r in H by done. rewrite (proj2 (Z.leb_le _ _)) in H by done.
  rewrite (proj1 (pack_unpack src B)) in H. destruct H as [-> H]. done.
Qed.

(** ** Witnesses *)

(** "Fooba", its encoding "Rm9vYmE=" and that with two spaces in it. *)
Definition w_src : list Z := [70; 111; 111; 98; 97].
Definition w_enc : list Z := [82; 109; 57; 118; 89; 109; 69; 61].
Definition w_spaced : list Z := [82; 109; 32; 57; 118; 89; 109; 69; 32; 61].

Lemma w_src_bytes : Forall byte w_src.
Proof. unfold w_src, byte. repeat (apply list.Forall_cons; split; [lia|]). by apply list.Forall_nil. Qed.

Lemma b64_ntop_correct_witness :
  exists r t', b64_ntop w_src (len (replicate 9 255)) (replicate 9 255) = Some (r, t') /\ r = 8 /\
  take 9 t' = w_enc ++ [0].
Proof.
  destruct (b64_ntop_correct w_src (replicate 9 255) w_src_bytes) as (r & t' & E & _ & _ & H); [by vm_compute|].
  exists r, t'. split; [done|]. vm_compute in H. done.
Defined.

Lemma b64_pton_correct_witness :
  exists r t', b64_pton w_spaced true (len (replicate 6 7)) (replicate 6 7) = Some (r, t') /\
  length t' = 6%nat /\ r = 5 /\ take 5 t' = w_src.
Proof.
  destruct (b64_pton_correct w_spaced (replicate 6 7)) as (r & t' & E & L & _); [by vm_compute|].
  exists r, t'. split; [done|]. split; [done|]. revert E. vm_compute. by intros [= <- <-].
Defined.

Lemma b64_roundtrip_witness :
  exists n t' u', b64_ntop w_src (len (replicate 9 255)) (replicate 9 255) = Some (n, t') /\
  b64_pton (take (Z.to_nat n) t') true (len (replicate 6 7)) (replicate 6 7) = Some (5, u') /\
  take 5 u' = w_src.
Proof.
  destruct (b64_roundtrip w_src (replicate 9 255) (replicate 6 7) w_src_bytes)
    as (n & t' & u' & E1 & _ & E2 & E3); [by vm_compute..|].
  by exists n, t', u'.
Defined.
