(* ===== verification/ByteMem.v ===== *)
(** * Byte memory and arrays of equally sized elements

    A memory is a function from addresses to bytes.  [elem m p s] are the [s]
    bytes at [p], [store] and [memcpy] write a run of bytes, and [arr m b s n]
    are the [n] elements of an array.  [same m m' p n] says that two memories
    agree on a range and [same_except] that they agree outside a set of
    addresses. *)

From S2P Require Import Prelude.

Abbreviation bytes := (Z -> Z).

(** The [n] bytes at [p]. *)
Definition elem (m : bytes) (p n : Z) : list Z := map m (seqZ p n).

Definition store (m : bytes) (p : Z) (l : list Z) : bytes :=
  fun q => if (p <=? q) && (q <? p + Z.of_nat (length l)) then nth (Z.to_nat (q - p)) l 0 else m q.

Definition memcpy (m : bytes) (dst src n : Z) : bytes := store m dst (elem m src n).

(** The elements of an array. *)
Definition arr (m : bytes) (b s n : Z) : list (list Z) :=
  map (fun i => elem m (b + i * s) s) (seqZ 0 n).

(** ** Agreement of memories *)

Definition same (m m' : bytes) (p n : Z) : Prop := forall q, p <= q < p + n -> m q = m' q.

(** Ranges of addresses. *)
Definition range (p n : Z) (q : Z) : Prop := p <= q < p + n.
Definition same_except (A : Z -> Prop) (m m' : bytes) : Prop := forall q, ~ A q -> m q = m' q.

Lemma same_except_refl A m : same_except A m m.
Proof. done. Qed.

Lemma same_except_trans A m1 m2 m3 : same_except A m1 m2 -> same_except A m2 m3 -> same_except A m1 m3.
Proof. intros H1 H2 q Hq. rewrite H1 by done. by apply H2. Qed.

Lemma same_except_weaken (A B : Z -> Prop) m m' :
  same_except A m m' -> (forall q, A q -> B q) -> same_except B m m'.
Proof. intros H S q Hq. apply H. auto. Qed.

Lemma same_except_same (A : Z -> Prop) m m' p n : same_except A m m' ->
  (forall q, p <= q < p + n -> ~ A q) -> same m m' p n.
Proof. intros H D q Hq. apply H. auto. Qed.

(** ** Elements *)

Lemma elem_length m p n : length (elem m p n) = Z.to_nat n.
Proof. unfold elem. by rewrite length_map, length_seqZ. Qed.

Lemma elem_lookup m p n i : 0 <= i < n -> elem m p n !! Z.to_nat i = Some (m (p + i)).
Proof.
  intros Hi. unfold elem. rewrite list_lookup_fmap. rewrite lookup_seqZ_lt by lia. simpl. do 2 f_equal. lia.
Qed.

Lemma elem_nth m p n i : 0 <= i < n -> nth (Z.to_nat i) (elem m p n) 0 = m (p + i).
Proof. intros Hi. by apply nth_lookup_Some, elem_lookup. Qed.

(** Elements are equal when their bytes are. *)
Lemma elem_ext m m' p p' n : (forall i, 0 <= i < n -> m (p + i) = m' (p' + i)) ->
  elem m p n = elem m' p' n.
Proof.
  intros H. apply list_eq_same_length with (Z.to_nat n).
  - apply elem_length.
  - apply elem_length.
  - intros i x y Hi Hx Hy. rewrite <- (Nat2Z.id i), elem_lookup in Hx, Hy by lia. rewrite H in Hx by lia. congruence.
Qed.

Lemma elem_same m m' p n : same m m' p n -> elem m p n = elem m' p n.
Proof. intros H. apply elem_ext. intros i Hi. apply H. lia. Qed.

Lemma elem_inv m m' p p' n i : elem m p n = elem m' p' n -> 0 <= i < n -> m (p + i) = m' (p' + i).
Proof. intros H Hi. rewrite <- !(elem_nth _ _ n) by done. by rewrite H. Qed.

(** ** Writing *)

Lemma store_in m p l q : p <= q < p + Z.of_nat (length l) -> store m p l q = nth (Z.to_nat (q - p)) l 0.
Proof. intros. unfold store. by rewrite (proj2 (Z.leb_le _ _)), (proj2 (Z.ltb_lt _ _)) by lia. Qed.

Lemma store_out m p l q : ~ (p <= q < p + Z.of_nat (length l)) -> store m p l q = m q.
Proof.
  intros. unfold store. destruct (Z.leb_spec p q), (Z.ltb_spec q (p + Z.of_nat (length l))); try done; lia.
Qed.

Lemma memcpy_in m dst src n q : 0 <= n -> dst <= q < dst + n -> memcpy m dst src n q = m (src + (q - dst)).
Proof.
  intros Hn Hq. unfold memcpy. rewrite store_in by (rewrite elem_length; lia). apply elem_nth. lia.
Qed.

Lemma memcpy_out m dst src n q : 0 <= n -> ~ (dst <= q < dst + n) -> memcpy m dst src n q = m q.
Proof. intros Hn Hq. apply store_out. rewrite elem_length. lia. Qed.

Lemma memcpy_except m dst src n : 0 <= n -> same_except (range dst n) m (memcpy m dst src n).
Proof. intros Hn q Hq. by rewrite memcpy_out. Qed.

Lemma store_except m p l : same_except (range p (Z.of_nat (length l))) m (store m p l).
Proof. intros q Hq. by rewrite store_out. Qed.

Lemma elem_memcpy m dst src n : 0 <= n -> elem (memcpy m dst src n) dst n = elem m src n.
Proof. intros Hn. apply elem_ext. intros i Hi. rewrite memcpy_in by lia. f_equal. lia. Qed.

Lemma elem_store m p l : elem (store m p l) p (Z.of_nat (length l)) = l.
Proof.
  apply list_eq_same_length with (length l).
  - done.
  - rewrite elem_length. lia.
  - intros i x y Hi Hx Hy. rewrite <- (Nat2Z.id i), elem_lookup in Hx by lia.
    rewrite store_in in Hx by lia. replace (p + Z.of_nat i - p) with (Z.of_nat i) in Hx by lia.
    rewrite Nat2Z.id, (nth_lookup_Some _ _ _ _ Hy) in Hx. congruence.
Qed.

(** ** Arrays *)

Lemma arr_length m b s n : length (arr m b s n) = Z.to_nat n.
Proof. unfold arr. by rewrite length_map, length_seqZ. Qed.

Lemma arr_lookup m b s n i : 0 <= i < n -> arr m b s n !! Z.to_nat i = Some (elem m (b + i * s) s).
Proof.
  intros Hi. unfold arr. rewrite list_lookup_fmap. rewrite lookup_seqZ_lt by lia.
  by rewrite Z2Nat.id by lia.
Qed.

Lemma arr_lookup_inv m b s n i x : arr m b s n !! i = Some x ->
  Z.of_nat i < n /\ x = elem m (b + Z.of_nat i * s) s.
Proof.
  intros E. assert (Z.of_nat i < n) by (apply lookup_lt_Some in E; rewrite arr_length in E; lia).
  split; [done|]. rewrite <- (Nat2Z.id i), arr_lookup in E by lia. congruence.
Qed.

Lemma arr_ext m m' b b' s n :
  (forall i, 0 <= i < n -> elem m (b + i * s) s = elem m' (b' + i * s) s) -> arr m b s n = arr m' b' s n.
Proof.
  intros H. unfold arr. apply map_ext_in. intros i Hi. apply H.
  apply list_elem_of_In, elem_of_seqZ in Hi. lia.
Qed.

Lemma arr_same m m' b s n : 0 <= s -> same m m' b (n * s) -> arr m b s n = arr m' b s n.
Proof. intros Hs H. apply arr_ext. intros i Hi. apply elem_same. intros q Hq. apply H. nia. Qed.

Lemma arr_app m b s n1 n2 : 0 <= n1 -> 0 <= n2 -> arr m b s (n1 + n2) = arr m b s n1 ++ arr m (b + n1 * s) s n2.
Proof.
  intros H1 H2. unfold arr. rewrite seqZ_app, map_app by done. f_equal.
  rewrite Z.add_0_l.
  apply list_eq. intros i. rewrite !list_lookup_fmap.
  destruct (decide (Z.of_nat i < n2)) as [L|L].
  - rewrite !lookup_seqZ_lt by lia. simpl. do 2 f_equal. lia.
  - rewrite !lookup_seqZ_ge by lia. done.
Qed.

Lemma arr_cons m b s n : 0 < n -> arr m b s n = elem m b s :: arr m (b + s) s (n - 1).
Proof.
  intros Hn. replace n with (1 + (n - 1)) at 1 by lia. rewrite arr_app by lia.
  unfold arr at 1. simpl. f_equal; [by rewrite Z.add_0_r|]. f_equal. lia.
Qed.

Lemma arr_nil m b s : arr m b s 0 = [].
Proof. done. Qed.

(** Copying a run of elements. *)
Lemma arr_memcpy m dst src s n : 0 <= s -> 0 <= n ->
  arr (memcpy m dst src (n * s)) dst s n = arr m src s n.
Proof.
  intros Hs Hn. apply arr_ext. intros i Hi. apply elem_ext. intros j Hj.
  rewrite memcpy_in by nia. f_equal. lia.
Qed.
