(* ===== verification/Qsort.v ===== *)
(** * Sorting: [stdlib/qsort.c] and [sysdeps/generic/memswap.h]

    The code on a byte memory.  The comparison function is called with two
    addresses and reads the memory ([cmp m p q]; its [arg] is fixed).  A word
    read through [u32_alias_t] or [u64_alias_t] is its bytes; a pointer stored
    in memory is [ptr_size] bytes ([PtrRep]).  Sizes and indices are integers:
    an array is an object of less than 2^63 bytes, so the [size_t] expressions
    do not wrap.  [None] is a loop that does not end within its budget. *)

From S2P Require Import Prelude CLoop ByteMem.

(** How pointers are stored. *)
Class PtrRep := {
  ptr_size : Z;
  ptr_bytes : Z -> list Z;
  bytes_ptr : list Z -> Z;
  ptr_size_pos : 0 < ptr_size <= 8;
  ptr_bytes_length : forall p, Z.of_nat (length (ptr_bytes p)) = ptr_size;
  bytes_ptr_bytes : forall p, 0 <= p < 2 ^ (8 * ptr_size) -> bytes_ptr (ptr_bytes p) = p }.

Definition load_ptr `{PtrRep} (m : bytes) (p : Z) : Z := bytes_ptr (elem m p ptr_size).
Definition store_ptr `{PtrRep} (m : bytes) (p v : Z) : bytes := store m p (ptr_bytes v).

(** ** Swapping *)

Inductive swap_type_t := SWAP_WORDS_64 | SWAP_WORDS_32 | SWAP_VOID_ARG | SWAP_BYTES.

(** Exchange the [w] bytes at [a] and [b] through a temporary. *)
Definition swap_word (w : Z) (m : bytes) (a b : Z) : bytes :=
  let t := elem m a w in
  let m := memcpy m a b w in
  store m b t.

(** [k] words of [w] bytes, from the last to the first. *)
Fixpoint swap_words (w : Z) (k : nat) (m : bytes) (a b : Z) : bytes :=
  match k with
  | O => m
  | S k => let n := Z.of_nat k * w in swap_words w k (swap_word w m (a + n) (b + n)) a b
  end.

(** Called with [n] a positive multiple of the word size. *)
Definition swap_words_64 (m : bytes) (a b n : Z) : bytes := swap_words 8 (Z.to_nat (n / 8)) m a b.
Definition swap_words_32 (m : bytes) (a b n : Z) : bytes := swap_words 4 (Z.to_nat (n / 4)) m a b.

Definition SWAP_GENERIC_SIZE : Z := 32.

(** [while (n > SWAP_GENERIC_SIZE)], then byte by byte from the last. *)
Fixpoint memswap_loop (fuel : nat) (m : bytes) (p1 p2 n : Z) : bytes :=
  match fuel with
  | S fuel =>
    if SWAP_GENERIC_SIZE <? n
    then memswap_loop fuel (swap_word SWAP_GENERIC_SIZE m p1 p2)
           (p1 + SWAP_GENERIC_SIZE) (p2 + SWAP_GENERIC_SIZE) (n - SWAP_GENERIC_SIZE)
    else swap_words 1 (Z.to_nat n) m p1 p2
  | O => swap_words 1 (Z.to_nat n) m p1 p2
  end.

Definition __memswap (m : bytes) (p1 p2 n : Z) : bytes :=
  memswap_loop (Z.to_nat (n / SWAP_GENERIC_SIZE)) m p1 p2 n.

Definition do_swap (m : bytes) (a b size : Z) (swap_type : swap_type_t) : bytes :=
  match swap_type with
  | SWAP_WORDS_64 => swap_words_64 m a b size
  | SWAP_WORDS_32 => swap_words_32 m a b size
  | _ => __memswap m a b size
  end.

Definition get_swap_type (pbase size : Z) : swap_type_t :=
  if (Z.land size 3 =? 0) && (pbase mod 4 =? 0) then
    if size =? 4 then SWAP_WORDS_32
    else if (size =? 8) && (pbase mod 8 =? 0) then SWAP_WORDS_64
    else SWAP_BYTES
  else SWAP_BYTES.

(** ** Heap sort *)

Section Heap.
Variable cmp : bytes -> Z -> Z -> Z.
Variables (base size : Z) (swap_type : swap_type_t).

(** One round of the loop of [siftdown] at index [k]. *)
Definition siftdown_step (n : Z) (st : bytes * Z) : bytes * Z + option bytes :=
  let '(m, k) := st in
  if 2 * k + 1 <=? n then
    let j := 2 * k + 1 in
    let j := if (j <? n) && (cmp m (base + j * size) (base + (j + 1) * size) <? 0) then j + 1 else j in
    if (j =? k) || (0 <=? cmp m (base + k * size) (base + j * size)) then inr (Some m)
    else inl (do_swap m (base + size * j) (base + k * size) size swap_type, j)
  else inr (Some m).

Definition siftdown (m : bytes) (k n : Z) : option bytes := run 64 (siftdown_step n) (m, k).

(** [k] from its start value down to 0. *)
Fixpoint heapify_loop (k : nat) (m : bytes) (n : Z) : option bytes :=
  m ← siftdown m (Z.of_nat k) n;
  match k with O => Some m | S k => heapify_loop k m n end.

Definition heapify (m : bytes) (n : Z) : option bytes := heapify_loop (Z.to_nat (n / 2)) m n.

(** The extraction loop with [n + 1] elements in the heap, [n > 0]. *)
Fixpoint extract_loop (n : nat) (m : bytes) : option bytes :=
  match n with
  | O => Some m
  | S n' =>
    let m := do_swap m base (base + Z.of_nat n * size) size swap_type in
    match n' with
    | O => Some m
    | S _ => m ← siftdown m 0 (Z.of_nat n'); extract_loop n' m
    end
  end.
End Heap.

(** Sorts the [n + 1] elements at [base]. *)
Definition heapsort_r (cmp : bytes -> Z -> Z -> Z) (m : bytes) (base n size : Z) : option bytes :=
  if n =? 0 then Some m else
  let swap_type := get_swap_type base size in
  m ← heapify cmp base size swap_type m n;
  extract_loop cmp base size swap_type (Z.to_nat n) m.

(** ** Merge sort *)

Record msort_param := { msort_s : Z; msort_var : swap_type_t;
  msort_cmp : bytes -> Z -> Z -> Z; msort_t : Z }.

(** The variables of the merge loops. *)
Record merging := mkMerging { mg_mem : bytes; mg_tmp : Z; mg_b1 : Z; mg_n1 : Z; mg_b2 : Z; mg_n2 : Z }.

(** One round of a merge loop: elements of [w] bytes, compared by [call]. *)
Definition merge_step (call : bytes -> Z -> Z -> Z) (w : Z) (g : merging) : merging + option merging :=
  let 'mkMerging m tmp b1 n1 b2 n2 := g in
  if (0 <? n1) && (0 <? n2) then
    inl (if call m b1 b2 <=? 0
         then mkMerging (memcpy m tmp b1 w) (tmp + w) (b1 + w) (n1 - 1) b2 n2
         else mkMerging (memcpy m tmp b2 w) (tmp + w) b1 n1 (b2 + w) (n2 - 1))
  else inr (Some g).

Definition merge_loop (call : bytes -> Z -> Z -> Z) (w : Z) (g : merging) : option merging :=
  run 64 (merge_step call w) g.

Section Msort.
Context `{PtrRep}.

(** The [switch (p->var)]. *)
Definition merge_by (p : msort_param) (g : merging) : option merging :=
  match msort_var p with
  | SWAP_WORDS_32 => merge_loop (msort_cmp p) 4 g
  | SWAP_WORDS_64 => merge_loop (msort_cmp p) 8 g
  | SWAP_VOID_ARG =>
    merge_loop (fun m b1 b2 => msort_cmp p m (load_ptr m b1) (load_ptr m b2)) ptr_size g
  | SWAP_BYTES => merge_loop (msort_cmp p) (msort_s p) g
  end.

Fixpoint msort_with_tmp (fuel : nat) (p : msort_param) (m : bytes) (b n : Z) : option bytes :=
  if n <=? 1 then Some m else
  match fuel with
  | O => None
  | S fuel =>
    let s := msort_s p in
    let n1 := n / 2 in
    let n2 := n - n1 in
    let b1 := b in
    let b2 := b + n1 * s in
    m ← msort_with_tmp fuel p m b1 n1;
    m ← msort_with_tmp fuel p m b2 n2;
    g ← merge_by p (mkMerging m (msort_t p) b1 n1 b2 n2);
    let m := if 0 <? mg_n1 g then memcpy (mg_mem g) (mg_tmp g) (mg_b1 g) (mg_n1 g * s)
             else mg_mem g in
    Some (memcpy m b (msort_t p) ((n - mg_n2 g) * s))
  end.

(** ** Indirect sorting *)

(** [while (t < tmp_storage)]: [n] pointers to the elements. *)
Fixpoint fill_ptrs (n : nat) (m : bytes) (t ip s : Z) : bytes :=
  match n with
  | O => m
  | S n => fill_ptrs n (store_ptr m t ip) (t + ptr_size) (ip + s) s
  end.

(** One round of the [do ... while (kp != ip)] loop that moves the elements of
    a cycle. *)
Definition cycle_step (b s tp ip : Z) (st : bytes * Z * Z * Z) : bytes * Z * Z * Z + option (bytes * Z * Z) :=
  let '(m, j, jp, kp) := st in
  let k := (kp - b) / s in
  let m := store_ptr m (tp + j * ptr_size) jp in
  let m := memcpy m jp kp s in
  let j := k in
  let jp := kp in
  let kp := load_ptr m (tp + k * ptr_size) in
  if kp =? ip then inr (Some (m, j, jp)) else inl (m, j, jp, kp).

(** [for (i = 0, ip = b; i < n; i++, ip += s)] from index [i], [k] rounds. *)
Fixpoint permute_loop (k : nat) (m : bytes) (b s tp tmp_storage i ip : Z) : option bytes :=
  match k with
  | O => Some m
  | S k =>
    let kp := load_ptr m (tp + i * ptr_size) in
    m ← (if kp =? ip then Some m
         else let m := memcpy m tmp_storage ip s in
              r ← run 64 (cycle_step b s tp ip) (m, i, ip, kp);
              let '(m, j, jp) := r in
              let m := store_ptr m (tp + j * ptr_size) jp in
              Some (memcpy m jp tmp_storage s));
    permute_loop k m b s tp tmp_storage (i + 1) (ip + s)
  end.

Definition indirect_msort_with_tmp (p : msort_param) (m : bytes) (b n s : Z) : option bytes :=
  let tp := msort_t p + n * ptr_size in
  let tmp_storage := tp + n * ptr_size in
  let m := fill_ptrs (Z.to_nat n) m tp b s in
  m ← msort_with_tmp 64 p m tp n;
  permute_loop (Z.to_nat n) m b s tp tmp_storage 0 b.

(** ** The entry points *)

Definition QSORT_STACK_SIZE : Z := 1024.
Definition INDIRECT_SORT_SIZE_THRES : Z := 32.

(** [tmp] is the address of the buffer on the stack and [malloc] what the
    allocator returns for a larger one.  The sizes are [size_t]s; they do not
    wrap for an array that is an object. *)
Definition __qsort_r (tmp : Z) (malloc : option Z) (cmp : bytes -> Z -> Z -> Z)
    (m : bytes) (pbase total_elems size : Z) : option bytes :=
  if total_elems <=? 1 then Some m else
  let total_size := if INDIRECT_SORT_SIZE_THRES <? size
                    then 2 * total_elems * ptr_size + size else total_elems * size in
  match (if total_size <=? QSORT_STACK_SIZE then Some tmp else malloc) with
  | None => heapsort_r cmp m pbase (total_elems - 1) size
  | Some buf =>
    if INDIRECT_SORT_SIZE_THRES <? size then
      indirect_msort_with_tmp
        {| msort_s := ptr_size; msort_cmp := cmp; msort_var := SWAP_VOID_ARG; msort_t := buf |}
        m pbase total_elems size
    else
      msort_with_tmp 64
        {| msort_s := size; msort_cmp := cmp; msort_var := get_swap_type pbase size; msort_t := buf |}
        m pbase total_elems
  end.

Definition qsort (tmp : Z) (malloc : option Z) (cmp : bytes -> Z -> Z -> Z)
    (m : bytes) (b n s : Z) : option bytes :=
  __qsort_r tmp malloc cmp m b n s.
End Msort.

(** Little-endian 64-bit pointers. *)
Fixpoint le_bytes (k : nat) (v : Z) : list Z :=
  match k with O => [] | S k => v mod 256 :: le_bytes k (v / 256) end.
Fixpoint le_value (l : list Z) : Z :=
  match l with [] => 0 | x :: l => x + 256 * le_value l end.

Lemma le_value_bytes k v : 0 <= v < 256 ^ Z.of_nat k -> le_value (le_bytes k v) = v.
Proof.
  revert v. induction k as [|k IH]; intros v Hv; simpl; [simpl in Hv; lia|].
  rewrite Nat2Z.inj_succ, Z.pow_succ_r in Hv by lia.
  pose proof (Z.div_mod v 256). rewrite IH; [lia|].
  split; [apply Z.div_pos; lia|apply Z.div_lt_upper_bound; lia].
Qed.

Lemma le_bytes_length k v : length (le_bytes k v) = k.
Proof. revert v. induction k as [|k IH]; intros v; simpl; [done|]. by rewrite IH. Qed.

#[export] Program Instance ptr64 : PtrRep := {
  ptr_size := 8; ptr_bytes := le_bytes 8; bytes_ptr := le_value }.
Next Obligation. lia. Qed.
Next Obligation. intros p. by rewrite le_bytes_length. Qed.
Next Obligation. intros p Hp. by apply le_value_bytes. Qed.
