(* ===== verification/QsortMerge.v ===== *)
(** * Merge sort

    [merge] is the reference: it takes from the first list as long as the
    head is not greater.  The loops of the code compute it in the temporary
    buffer ([merge_loop_spec]), and [msort_with_tmp] sorts the array stably
    and changes nothing but the array and the buffer ([msort_spec]). *)

From Stdlib Require Import Sorted.
From S2P Require Import Prelude CLoop ByteMem Qsort.

(** The contract of a comparison function, on the contents of elements. *)
Class Comparison (C : list Z -> list Z -> Z) := {
  cmp_sign : forall x y, C x y <= 0 <-> 0 <= C y x;
  cmp_trans : forall x y z, C x y <= 0 -> C y z <= 0 -> C x z <= 0 }.

Section Sorted.
Context (C : list Z -> list Z -> Z).

Definition le (x y : list Z) : Prop := C x y <= 0.
Definition eqv (x y : list Z) : Prop := C x y <= 0 /\ C y x <= 0.
#[export] Instance eqv_dec x y : Decision (eqv x y).
Proof. unfold eqv. apply _. Defined.

Definition sorted : list (list Z) -> Prop := StronglySorted le.

(** [l'] is [l] in ascending order, equal elements in their old order. *)
Definition stable_sort (l l' : list (list Z)) : Prop :=
  l' ≡ₚ l /\ sorted l' /\ forall x, filter (eqv x) l' = filter (eqv x) l.

Fixpoint merge (l1 : list (list Z)) : list (list Z) -> list (list Z) :=
  fix merge_into l2 :=
  match l1, l2 with
  | [], _ => l2
  | _, [] => l1
  | x :: l1', y :: l2' => if C x y <=? 0 then x :: merge l1' l2 else y :: merge_into l2'
  end.

Lemma merge_nil_l l : merge [] l = l.
Proof. by destruct l. Qed.

Lemma merge_nil_r l : merge l [] = l.
Proof. by destruct l. Qed.

Lemma merge_cons x l1 y l2 : merge (x :: l1) (y :: l2) =
  if C x y <=? 0 then x :: merge l1 (y :: l2) else y :: merge (x :: l1) l2.
Proof. done. Qed.

(** Induction along the run of [merge]. *)
Lemma merge_ind (P : list (list Z) -> list (list Z) -> Prop) :
  (forall l, P [] l) -> (forall l, P l []) ->
  (forall x l1 y l2, C x y <= 0 -> P l1 (y :: l2) -> P (x :: l1) (y :: l2)) ->
  (forall x l1 y l2, 0 < C x y -> P (x :: l1) l2 -> P (x :: l1) (y :: l2)) ->
  forall l1 l2, P l1 l2.
Proof.
  intros H1 H2 H3 H4. induction l1 as [|x l1 IH1]; [done|].
  induction l2 as [|y l2 IH2]; [done|]. destruct (Z.le_gt_cases (C x y) 0) as [L|L]; auto.
Qed.

Lemma merge_perm l1 l2 : merge l1 l2 ≡ₚ l1 ++ l2.
Proof.
  revert l1 l2. apply merge_ind.
  - intros l. by rewrite merge_nil_l.
  - intros l. by rewrite merge_nil_r, app_nil_r.
  - intros x l1 y l2 L IH. rewrite merge_cons, (proj2 (Z.leb_le _ _)) by done. by rewrite IH.
  - intros x l1 y l2 L IH. rewrite merge_cons, (proj2 (Z.leb_gt _ _)) by done.
    rewrite IH. by rewrite Permutation_middle.
Qed.

Context `{!Comparison C}.

Lemma le_of_gt x y : 0 < C x y -> le y x.
Proof using All. intros L. apply cmp_sign. lia. Qed.

Lemma sorted_cons x l : sorted (x :: l) <-> sorted l /\ Forall (le x) l.
Proof. split; [by intros [? ?]%StronglySorted_inv|intros [? ?]; by constructor]. Qed.

Lemma merge_sorted l1 l2 : sorted l1 -> sorted l2 -> sorted (merge l1 l2).
Proof using All.
  revert l1 l2. apply (merge_ind (fun l1 l2 => sorted l1 -> sorted l2 -> sorted (merge l1 l2))).
  - intros l. by rewrite merge_nil_l.
  - intros l. by rewrite merge_nil_r.
  - intros x l1 y l2 L IH S1 S2. rewrite merge_cons, (proj2 (Z.leb_le _ _)) by done.
    apply sorted_cons in S1 as [S1 F1]. apply sorted_cons. split; [auto|]. rewrite merge_perm.
    apply list.Forall_app. split; [done|]. apply list.Forall_cons. split; [done|].
    apply sorted_cons in S2 as [_ F2]. eapply list.Forall_impl; [exact F2|].
    intros z. by apply cmp_trans.
  - intros x l1 y l2 L IH S1 S2. rewrite merge_cons, (proj2 (Z.leb_gt _ _)) by done.
    apply sorted_cons in S2 as [S2 F2]. apply sorted_cons. split; [auto|]. rewrite merge_perm.
    apply list.Forall_app. split; [|done]. pose proof (le_of_gt _ _ L). apply list.Forall_cons. split; [done|].
    apply sorted_cons in S1 as [_ F1]. eapply list.Forall_impl; [exact F1|].
    intros z. by apply cmp_trans.
Qed.

Lemma filter_none (P : list Z -> Prop) `{!forall x, Decision (P x)} l :
  Forall (fun x => ~ P x) l -> filter P l = [].
Proof.
  induction 1 as [|x l N F IH]; [done|]. rewrite filter_cons. by rewrite decide_False.
Qed.

Lemma merge_stable x l1 l2 : sorted l1 -> filter (eqv x) (merge l1 l2) = filter (eqv x) (l1 ++ l2).
Proof using All.
  revert l1 l2.
  apply (merge_ind (fun l1 l2 => sorted l1 -> filter (eqv x) (merge l1 l2) = filter (eqv x) (l1 ++ l2))).
  - intros l _. by rewrite merge_nil_l.
  - intros l _. by rewrite merge_nil_r, app_nil_r.
  - intros z l1 y l2 L IH [S1 _]%sorted_cons. rewrite merge_cons, (proj2 (Z.leb_le _ _)) by done.
    cbn [app]. rewrite !(filter_cons _ z), IH by done. done.
  - intros z l1 y l2 L IH S1. rewrite merge_cons, (proj2 (Z.leb_gt _ _)) by done.
    rewrite filter_cons, IH by done. rewrite !list.filter_app, (filter_cons _ y).
    destruct (decide (eqv x y)) as [[Exy Eyx]|]; [|done].
    rewrite filter_none; [done|].
    apply sorted_cons in S1 as [_ F1]. apply list.Forall_cons. split.
    + intros [_ Ezx]. pose proof (cmp_trans _ _ _ Ezx Exy). lia.
    + eapply list.Forall_impl; [exact F1|]. intros w Lw [_ Ewx].
      pose proof (cmp_trans _ _ _ Lw (cmp_trans _ _ _ Ewx Exy)). lia.
Qed.

Lemma merge_stable_sort l1 l2 k1 k2 : stable_sort l1 k1 -> stable_sort l2 k2 ->
  stable_sort (l1 ++ l2) (merge k1 k2).
Proof using All.
  intros (P1 & S1 & F1) (P2 & S2 & F2). split; [by rewrite merge_perm, P1, P2|].
  split; [by apply merge_sorted|]. intros x. by rewrite merge_stable, !list.filter_app, F1, F2 by done.
Qed.

Lemma stable_sort_short l : (length l <= 1)%nat -> stable_sort l l.
Proof using.
  intros L. split; [done|]. split; [|done]. destruct l as [|x [|y l]]; [constructor| |simpl in L; lia].
  apply sorted_cons. split; [constructor|done].
Qed.
End Sorted.

(** ** The merge loop *)

(** The comparison calls of the code, made while the memory satisfies [I]
    and on elements that satisfy [V], agree with [C] on the contents; [I] is
    not affected by writes to the addresses in [A]. *)
Record compares (call : bytes -> Z -> Z -> Z) (s : Z) (C : list Z -> list Z -> Z)
    (I : bytes -> Prop) (V : list Z -> Prop) (A : Z -> Prop) : Prop := {
  compares_call : forall m p q, I m -> V (elem m p s) -> V (elem m q s) ->
    call m p q = C (elem m p s) (elem m q s);
  compares_stable : forall m m', I m -> same_except A m m' -> I m' }.

Section Merge.
Context (call : bytes -> Z -> Z -> Z) (s : Z) (C : list Z -> list Z -> Z).
Context (I : bytes -> Prop) (V : list Z -> Prop) (A : Z -> Prop).
Hypothesis Hs : 0 < s.
Hypothesis Hcall : compares call s C I V A.

(** [k] elements are in the buffer, [n1] and [n2] are left. *)
Definition merge_inv (m0 : bytes) (t b N1 N2 : Z) (out : list (list Z)) (g : merging) : Prop :=
  let 'mkMerging m tmp b1 n1 b2 n2 := g in
  let k := N1 - n1 + (N2 - n2) in
  0 <= n1 <= N1 /\ 0 <= n2 <= N2 /\
  tmp = t + k * s /\ b1 = b + (N1 - n1) * s /\ b2 = b + (N1 + N2 - n2) * s /\
  same_except (range t (k * s)) m0 m /\
  arr m t s k ++ merge C (arr m0 b1 s n1) (arr m0 b2 s n2) = out.

(** Appending an element to the buffer. *)
Lemma append_elem m t k p : 0 <= k -> same m (memcpy m (t + k * s) p s) t (k * s) /\
  arr (memcpy m (t + k * s) p s) t s (k + 1) = arr m t s k ++ [elem m p s].
Proof using Hs.
  intros Hk.
  assert (S : same m (memcpy m (t + k * s) p s) t (k * s)).
  { intros q Hq. rewrite memcpy_out by lia. done. }
  split; [done|]. rewrite arr_app by lia. f_equal.
  - symmetry. apply arr_same; [lia|done].
  - rewrite arr_cons by lia. simpl. by rewrite elem_memcpy by lia.
Qed.

(** One round keeps the invariant and takes one element. *)
Lemma merge_step_inv m0 t b N1 N2 out g :
  I m0 -> (forall q, range t ((N1 + N2) * s) q -> A q) ->
  (forall q, range t ((N1 + N2) * s) q -> ~ range b ((N1 + N2) * s) q) ->
  Forall V (arr m0 b s (N1 + N2)) -> merge_inv m0 t b N1 N2 out g ->
  match merge_step call s g with
  | inl g' => merge_inv m0 t b N1 N2 out g' /\ mg_n1 g' + mg_n2 g' = mg_n1 g + mg_n2 g - 1 /\
              0 <= mg_n1 g' + mg_n2 g'
  | inr (Some g') => g' = g /\ (mg_n1 g = 0 \/ mg_n2 g = 0)
  | inr None => False
  end.
Proof using Hs Hcall.
  intros HI HA D HV. destruct g as [m tmp b1 n1 b2 n2].
  intros (H1 & H2 & -> & -> & -> & SE & Out). unfold merge_step, mg_n1, mg_n2.
  destruct (Z.ltb_spec 0 n1) as [P1|]; [|split; [done|left; lia]].
  destruct (Z.ltb_spec 0 n2) as [P2|]; [|split; [done|right; lia]]. cbn [andb].
  set (k := N1 - n1 + (N2 - n2)) in *.
  assert (Sub : forall x, 0 <= x < N1 + N2 -> elem m (b + x * s) s = elem m0 (b + x * s) s).
  { intros x Hx. symmetry. apply elem_same. eapply same_except_same; [exact SE|].
    intros q Hq R. apply (D q); unfold range in *; nia. }
  assert (Vx : forall x, 0 <= x < N1 + N2 -> V (elem m (b + x * s) s)).
  { intros x Hx. rewrite Sub by done. apply (list.Forall_lookup_1 _ _ (Z.to_nat x) _ HV).
    by apply arr_lookup. }
  rewrite (compares_call _ _ _ _ _ _ Hcall); [| |apply Vx; lia|apply Vx; lia].
  2: { eapply compares_stable; [exact Hcall|exact HI|]. eapply same_except_weaken; [exact SE|].
       intros q Hq. apply HA. unfold range in *. nia. }
  rewrite (arr_cons m0 _ s n1), (arr_cons m0 _ s n2), merge_cons in Out by lia.
  rewrite (Sub (N1 - n1)), (Sub (N1 + N2 - n2)) by lia.
  destruct (C _ _ <=? 0) eqn:Ec.
  - destruct (append_elem m t k (b + (N1 - n1) * s)) as [S' E']; [lia|].
    split; [|lia]. unfold merge_inv. replace (N1 - (n1 - 1) + (N2 - n2)) with (k + 1) by lia.
    split; [lia|]. split; [lia|]. split; [lia|]. split; [lia|]. split; [lia|]. split.
    { intros q Hq. rewrite SE by (unfold range in *; nia). rewrite memcpy_out by (unfold range in *; nia). done. }
    rewrite E', <- app_assoc, <- Out, (Sub (N1 - n1)) by lia. simpl. f_equal. f_equal.
    by rewrite (arr_cons m0 (b + (N1 + N2 - n2) * s)) by lia.
  - destruct (append_elem m t k (b + (N1 + N2 - n2) * s)) as [S' E']; [lia|].
    split; [|lia]. unfold merge_inv. replace (N1 - n1 + (N2 - (n2 - 1))) with (k + 1) by lia.
    split; [lia|]. split; [lia|]. split; [lia|]. split; [lia|]. split; [lia|]. split.
    { intros q Hq. rewrite SE by (unfold range in *; nia). rewrite memcpy_out by (unfold range in *; nia). done. }
    rewrite E', <- app_assoc, <- Out, (Sub (N1 + N2 - n2)) by lia. simpl. f_equal. f_equal.
    by rewrite (arr_cons m0 (b + (N1 - n1) * s)) by lia.
Qed.

Section Finish.
Context (m0 : bytes) (t b N1 N2 : Z).
Hypothesis HN : 0 <= N1 /\ 0 <= N2 /\ N1 + N2 < 2 ^ 64.
Hypothesis HI : I m0.
Hypothesis HA : forall q, range t ((N1 + N2) * s) q -> A q.
Hypothesis Hdisj : forall q, range t ((N1 + N2) * s) q -> ~ range b ((N1 + N2) * s) q.
Hypothesis HV : Forall V (arr m0 b s (N1 + N2)).
Local Abbreviation out := (merge C (arr m0 b s N1) (arr m0 (b + N1 * s) s N2)).

Lemma merge_loop_spec : exists g,
  merge_loop call s (mkMerging m0 t b N1 (b + N1 * s) N2) = Some g /\
  merge_inv m0 t b N1 N2 out g /\ (mg_n1 g = 0 \/ mg_n2 g = 0).
Proof using Hs Hcall HN HI HA Hdisj HV.
  apply (run_spec (merge_step call s)
    (fun n g => n = mg_n1 g + mg_n2 g /\ merge_inv m0 t b N1 N2 out g)
    (fun g => merge_inv m0 t b N1 N2 out g /\ (mg_n1 g = 0 \/ mg_n2 g = 0)) 64 (N1 + N2)).
  - intros n g [-> Inv]. pose proof (merge_step_inv m0 t b N1 N2 out g HI HA Hdisj HV Inv) as H.
    destruct (merge_step call s g) as [g'|[g'|]]; [|by destruct H as [-> ?]|done].
    destruct H as (Inv' & E & P). exists (mg_n1 g' + mg_n2 g'). split; [lia|done].
  - split; [done|]. unfold merge_inv. rewrite !Z.sub_diag, Z.add_0_l, !Z.mul_0_l, !Z.add_0_r.
    split; [lia|]. split; [lia|]. split; [done|]. split; [done|].
    split; [f_equal; f_equal; lia|]. split; [done|]. done.
  - lia.
Qed.

Lemma merge_finish g : merge_inv m0 t b N1 N2 out g -> mg_n1 g = 0 \/ mg_n2 g = 0 ->
  let m1 := if 0 <? mg_n1 g then memcpy (mg_mem g) (mg_tmp g) (mg_b1 g) (mg_n1 g * s) else mg_mem g in
  let m2 := memcpy m1 b t ((N1 + N2 - mg_n2 g) * s) in
  arr m2 b s (N1 + N2) = out /\
  same_except (fun q => range b ((N1 + N2) * s) q \/ range t ((N1 + N2) * s) q) m0 m2.
Proof using Hs HN Hdisj.
  destruct g as [m tmp b1 n1 b2 n2]. unfold mg_n1, mg_n2, mg_mem, mg_tmp, mg_b1.
  intros (H1 & H2 & -> & -> & -> & SE & Out) Z0. set (k := N1 - n1 + (N2 - n2)) in *.
  set (c := N1 + N2 - n2). cbv zeta. set (m1 := if 0 <? n1 then _ else _).
  assert (Hb : same m0 m b ((N1 + N2) * s)).
  { eapply same_except_same; [exact SE|]. intros q Hq R. apply (Hdisj q); unfold range in *; nia. }
  assert (E1 : arr m1 t s c = arr m t s k ++ arr m0 (b + (N1 - n1) * s) s n1 /\ same_except (range t (c * s)) m m1).
  { subst m1. destruct (Z.ltb_spec 0 n1) as [P|P].
    - replace c with (k + n1) by lia. split.
      + rewrite arr_app by lia. f_equal.
        * apply arr_same; [lia|]. intros q Hq. rewrite memcpy_out by nia. done.
        * rewrite arr_memcpy by lia. symmetry. apply arr_same; [lia|]. intros q Hq. apply Hb. nia.
      + eapply same_except_weaken; [apply memcpy_except; nia|]. unfold range. intros q. nia.
    - assert (n1 = 0) by lia. subst n1. rewrite arr_nil, app_nil_r. split; [f_equal; lia|done]. }
  destruct E1 as [E1 SE1]. split.
  - replace (N1 + N2) with (c + n2) by lia. rewrite arr_app, arr_memcpy, E1 by lia.
    rewrite <- Out, <- app_assoc. f_equal.
    assert (arr (memcpy m1 b t (c * s)) (b + c * s) s n2 = arr m0 (b + c * s) s n2) as ->.
    { apply arr_same; [lia|]. intros q Hq. rewrite memcpy_out by nia.
      rewrite <- SE1 by (intros R; apply (Hdisj q); unfold range in *; nia). rewrite Hb; [done|nia]. }
    destruct Z0 as [->| ->].
    + by rewrite arr_nil, merge_nil_l.
    + by rewrite arr_nil, merge_nil_r, app_nil_r.
  - intros q Hq. rewrite memcpy_out by (unfold range in Hq; nia).
    rewrite <- SE1 by (unfold range in *; nia). apply SE. unfold range in *. nia.
Qed.
End Finish.
End Merge.

(** ** The sort *)

Section Sort.
Context `{PR : PtrRep}.
Context (p : msort_param) (C : list Z -> list Z -> Z) (HC : Comparison C).
Context (I : bytes -> Prop) (V : list Z -> Prop) (A : Z -> Prop).
Local Abbreviation s := (msort_s p).
Local Abbreviation t := (msort_t p).

(** The comparison the chosen loop makes, and the width it copies. *)
Definition msort_call : bytes -> Z -> Z -> Z :=
  match msort_var p with
  | SWAP_VOID_ARG => fun m b1 b2 => msort_cmp p m (load_ptr m b1) (load_ptr m b2)
  | _ => msort_cmp p
  end.

Definition width_ok : Prop :=
  match msort_var p with
  | SWAP_WORDS_32 => s = 4
  | SWAP_WORDS_64 => s = 8
  | SWAP_VOID_ARG => s = ptr_size
  | SWAP_BYTES => True
  end.

Hypothesis Hw : width_ok.
Hypothesis Hs : 0 < s.
Hypothesis Hcall : compares msort_call s C I V A.

Lemma merge_by_loop g : merge_by p g = merge_loop msort_call s g.
Proof using Hw. revert Hw. unfold width_ok, merge_by, msort_call. destruct (msort_var p); [by intros ->..|done]. Qed.

Lemma perm_valid l l' : l' ≡ₚ l -> Forall V l -> Forall V l'.
Proof using. by intros ->. Qed.

(** Merging two sorted halves in place. *)
Lemma merge_halves m b n1 n2 l1 l2 : 0 <= n1 -> 0 <= n2 -> n1 + n2 < 2 ^ 64 ->
  I m -> Forall V l1 -> Forall V l2 ->
  stable_sort C l1 (arr m b s n1) -> stable_sort C l2 (arr m (b + n1 * s) s n2) ->
  (forall q, range t ((n1 + n2) * s) q -> A q) ->
  (forall q, range t ((n1 + n2) * s) q -> ~ range b ((n1 + n2) * s) q) ->
  exists g, merge_by p (mkMerging m t b n1 (b + n1 * s) n2) = Some g /\
  let m1 := if 0 <? mg_n1 g then memcpy (mg_mem g) (mg_tmp g) (mg_b1 g) (mg_n1 g * s) else mg_mem g in
  let m2 := memcpy m1 b t ((n1 + n2 - mg_n2 g) * s) in
  stable_sort C (l1 ++ l2) (arr m2 b s (n1 + n2)) /\
  same_except (fun q => range b ((n1 + n2) * s) q \/ range t ((n1 + n2) * s) q) m m2.
Proof using HC Hw Hs Hcall.
  intros H1 H2 H HI V1 V2 S1 S2 At D. rewrite merge_by_loop.
  assert (V12 : Forall V (arr m b s (n1 + n2))).
  { rewrite arr_app by done. apply list.Forall_app.
    split; [apply (perm_valid l1); [apply S1|done]|apply (perm_valid l2); [apply S2|done]]. }
  destruct (merge_loop_spec msort_call s C I V A Hs Hcall m t b n1 n2 ltac:(lia) HI At D V12)
    as (g & -> & Inv & Z0).
  destruct (merge_finish s C Hs m t b n1 n2 ltac:(lia) D g Inv Z0) as [F SE].
  exists g. split; [done|]. cbv zeta. split; [|done]. rewrite F. by apply merge_stable_sort.
Qed.

Lemma msort_spec fuel m b n :
  0 <= n <= 2 ^ Z.of_nat fuel -> n < 2 ^ 64 -> I m -> Forall V (arr m b s n) ->
  (forall q, range t (n * s) q -> A q) -> (forall q, range b (n * s) q -> A q) ->
  (forall q, range t (n * s) q -> ~ range b (n * s) q) ->
  exists m', msort_with_tmp fuel p m b n = Some m' /\
  stable_sort C (arr m b s n) (arr m' b s n) /\
  same_except (fun q => range b (n * s) q \/ range t (n * s) q) m m'.
Proof using HC Hw Hs Hcall.
  revert m b n. induction fuel as [|fuel IH]; intros m b n Hn Hf HI HV At Ab D.
  { assert (n = 0 \/ n = 1) as E by (simpl in Hn; lia). exists m. simpl. rewrite (proj2 (Z.leb_le _ _)) by lia.
    split; [done|]. split; [|done]. apply stable_sort_short. rewrite arr_length. lia. }
  cbn [msort_with_tmp]. destruct (Z.leb_spec n 1) as [L|L].
  { exists m. split; [done|]. split; [|done]. apply stable_sort_short. rewrite arr_length. lia. }
  rewrite Nat2Z.inj_succ, Z.pow_succ_r in Hn by lia.
  pose proof (Z.div_mod n 2 ltac:(lia)). pose proof (Z.mod_pos_bound n 2 ltac:(lia)).
  set (n1 := n / 2) in *. set (n2 := n - n1).
  assert (En : n = n1 + n2) by lia.
  assert (Earr : forall m, arr m b s n = arr m b s n1 ++ arr m (b + n1 * s) s n2).
  { intros m'. rewrite En at 1. apply arr_app; lia. }
  rewrite Earr in HV. apply list.Forall_app in HV as [V1 V2].
  destruct (IH m b n1) as (m1 & -> & S1 & E1); [lia|lia|done|done|
    intros q R; apply At; unfold range in *; nia|intros q R; apply Ab; unfold range in *; nia|
    intros q R R'; apply (D q); unfold range in *; nia|].
  assert (A1 : arr m1 (b + n1 * s) s n2 = arr m (b + n1 * s) s n2).
  { symmetry. apply arr_same; [lia|]. eapply same_except_same; [exact E1|]. intros q Hq [R|R].
    - unfold range in R. lia.
    - apply (D q); unfold range in *; nia. }
  destruct (IH m1 (b + n1 * s) n2) as (m2 & E2' & S2 & E2); [lia|lia| |by rewrite A1|
    intros q R; apply At; unfold range in *; nia|intros q R; apply Ab; unfold range in *; nia|
    intros q R R'; apply (D q); unfold range in *; nia|].
  { eapply compares_stable; [exact Hcall|exact HI|]. eapply same_except_weaken; [exact E1|].
    intros q [R|R]; [apply Ab|apply At]; unfold range in *; nia. }
  cbn [mbind option_bind]. rewrite E2'. cbn [mbind option_bind].
  assert (E12 : same_except (fun q => range b (n * s) q \/ range t (n * s) q) m m2).
  { eapply same_except_trans; (eapply same_except_weaken; [eassumption|]); cbv beta; unfold range; intros q; nia. }
  assert (A2 : arr m2 b s n1 = arr m1 b s n1).
  { symmetry. apply arr_same; [lia|]. eapply same_except_same; [exact E2|]. intros q Hq [R|R].
    - unfold range in R. lia.
    - apply (D q); unfold range in *; nia. }
  rewrite <- A2 in S1. rewrite A1 in S2. rewrite En in At, Ab, D.
  assert (I2 : I m2).
  { eapply compares_stable; [exact Hcall|exact HI|]. eapply same_except_weaken; [exact E12|].
    rewrite En. intros q [R|R]; auto. }
  destruct (merge_halves m2 b n1 n2 _ _ ltac:(lia) ltac:(lia) ltac:(lia) I2 V1 V2 S1 S2 At D)
    as (g & -> & S & SE).
  cbn [mbind option_bind]. eexists. split; [done|]. rewrite <- En in S, SE. rewrite Earr.
  split; [done|]. by eapply same_except_trans.
Qed.
End Sort.
