(* ===== verification/QsortHeap.v ===== *)
(** * Heap sort

    The fallback of [qsort] without memory: every swapping routine exchanges
    two elements, [siftdown] restores the heap order below an index, and
    [heapsort_r] leaves a sorted permutation of the array. *)

From Stdlib Require Import Sorted.
From S2P Require Import Prelude CLoop ByteMem Qsort QsortMerge.

(** ** Swapping *)

Definition apart (a b n : Z) : Prop := a + n <= b \/ b + n <= a.

(** [m'] is [m] with the [n] bytes at [a] and [b] exchanged. *)
Definition swapped (m m' : bytes) (a b n : Z) : Prop :=
  (forall i, 0 <= i < n -> m' (a + i) = m (b + i) /\ m' (b + i) = m (a + i)) /\
  same_except (fun q => range a n q \/ range b n q) m m'.

Lemma swap_word_spec w m a b : 0 <= w -> apart a b w -> swapped m (swap_word w m a b) a b w.
Proof.
  intros Hw D. unfold apart in D. unfold swap_word. split.
  - intros i Hi. split.
    + rewrite store_out by (rewrite elem_length; lia). rewrite memcpy_in by lia. f_equal. lia.
    + rewrite store_in by (rewrite elem_length; lia). rewrite elem_nth by lia. f_equal. lia.
  - intros q Hq. unfold range in Hq. rewrite store_out by (rewrite elem_length; lia).
    rewrite memcpy_out by lia. done.
Qed.

(** Exchanging the low part and then the high part. *)
Lemma swapped_app m m1 m2 a b n k : 0 <= n -> 0 <= k -> apart a b (n + k) ->
  swapped m m1 a b n -> swapped m1 m2 (a + n) (b + n) k -> swapped m m2 a b (n + k).
Proof.
  intros Hn Hk D [S1 E1] [S2 E2]. unfold apart in D. split.
  - intros i Hi. destruct (decide (i < n)) as [L|L].
    + rewrite <- !E2 by (unfold range; lia). apply S1. lia.
    + specialize (S2 (i - n)). replace (a + n + (i - n)) with (a + i) in S2 by lia.
      replace (b + n + (i - n)) with (b + i) in S2 by lia. destruct S2 as [-> ->]; [lia|].
      rewrite <- !E1 by (unfold range; lia). done.
  - intros q Hq. unfold range in Hq. rewrite E1 by (unfold range; lia). apply E2. unfold range. lia.
Qed.

(** The same in the other order. *)
Lemma swapped_app_high m m1 m2 a b n k : 0 <= n -> 0 <= k -> apart a b (n + k) ->
  swapped m m1 (a + n) (b + n) k -> swapped m1 m2 a b n -> swapped m m2 a b (n + k).
Proof.
  intros Hn Hk D [S1 E1] [S2 E2]. unfold apart in D. split.
  - intros i Hi. destruct (decide (i < n)) as [L|L].
    + destruct (S2 i) as [-> ->]; [lia|]. rewrite <- !E1 by (unfold range; lia). done.
    + rewrite <- !E2 by (unfold range; lia). specialize (S1 (i - n)).
      replace (a + n + (i - n)) with (a + i) in S1 by lia.
      replace (b + n + (i - n)) with (b + i) in S1 by lia. apply S1. lia.
  - intros q Hq. unfold range in Hq. rewrite E1 by (unfold range; lia). apply E2. unfold range. lia.
Qed.

Lemma swap_words_spec w k m a b : 0 <= w -> apart a b (Z.of_nat k * w) ->
  swapped m (swap_words w k m a b) a b (Z.of_nat k * w).
Proof.
  intros Hw. revert m. induction k as [|k IH]; intros m D; cbn [swap_words].
  { split; [intros i; lia|done]. }
  replace (Z.of_nat (S k) * w) with (Z.of_nat k * w + w) in * by lia. unfold apart in D.
  eapply swapped_app_high; [lia|lia|done| |apply IH; unfold apart; lia].
  apply swap_word_spec; [done|unfold apart; lia].
Qed.

Lemma swap_bytes_spec n m a b : 0 <= n -> apart a b n -> swapped m (swap_words 1 (Z.to_nat n) m a b) a b n.
Proof.
  intros Hn D. pose proof (swap_words_spec 1 (Z.to_nat n) m a b) as H.
  rewrite Z2Nat.id, Z.mul_1_r in H by lia. apply H; [lia|done].
Qed.

Lemma memswap_loop_spec fuel m a b n : 0 <= n -> apart a b n ->
  swapped m (memswap_loop fuel m a b n) a b n.
Proof.
  revert m a b n. induction fuel as [|fuel IH]; intros m a b n Hn D; cbn [memswap_loop].
  { by apply swap_bytes_spec. }
  destruct (Z.ltb_spec SWAP_GENERIC_SIZE n) as [L|L]; [|by apply swap_bytes_spec].
  unfold SWAP_GENERIC_SIZE in *. unfold apart in D.
  match goal with |- swapped _ ?m' _ _ _ => cut (swapped m m' a b (32 + (n - 32))) end.
  { by replace (32 + (n - 32)) with n by lia. }
  eapply swapped_app; [lia|lia|unfold apart; lia| |apply IH; unfold apart; lia].
  apply swap_word_spec; unfold apart; lia.
Qed.

Definition swap_ok (ty : swap_type_t) (size : Z) : Prop :=
  match ty with SWAP_WORDS_64 => size = 8 | SWAP_WORDS_32 => size = 4 | _ => True end.

Lemma get_swap_type_ok pbase size : swap_ok (get_swap_type pbase size) size.
Proof.
  unfold get_swap_type. destruct (_ && _); [|done]. destruct (Z.eqb_spec size 4); [done|].
  destruct (Z.eqb_spec size 8); simpl; [|done]. by destruct (_ =? _).
Qed.

Lemma do_swap_spec ty m a b size : 0 <= size -> swap_ok ty size -> apart a b size ->
  swapped m (do_swap m a b size ty) a b size.
Proof.
  intros Hs Ok D. destruct ty; simpl in *; [subst..| |].
  - by apply (swap_words_spec 8 1).
  - by apply (swap_words_spec 4 1).
  - by apply memswap_loop_spec.
  - by apply memswap_loop_spec.
Qed.

(** Lists that differ by an exchange are permutations of each other. *)
Lemma exchange_perm {A : Type} (l l' : list A) i j : length l' = length l ->
  l' !! i = l !! j -> l' !! j = l !! i -> (forall k, k <> i -> k <> j -> l' !! k = l !! k) -> l' ≡ₚ l.
Proof.
  intros L Ei Ej Ek. apply Permutation_inj. split; [done|].
  exists (fun k => if decide (k = i) then j else if decide (k = j) then i else k). split.
  - intros x y. repeat case_decide; congruence.
  - intros k. repeat case_decide; subst; auto.
Qed.

Lemma sorted_lookup C l : (forall i j x y, (i < j)%nat -> l !! i = Some x -> l !! j = Some y -> le C x y) ->
  sorted C l.
Proof.
  induction l as [|x l IH]; intros H; [constructor|]. apply sorted_cons. split.
  - apply IH. intros i j u v Hij. apply (H (S i) (S j)). lia.
  - apply list.Forall_lookup. intros i y E. apply (H O (S i)); [lia|done|done].
Qed.

(** ** The heap order *)

Section HeapOrder.
Context (C : list Z -> list Z -> Z) `{!Comparison C}.

Definition child (p c : Z) : Prop := c = 2 * p + 1 \/ c = 2 * p + 2.
Definition geq (x y : list Z) : Prop := 0 <= C x y.

Lemma geq_trans x y z : geq x y -> geq y z -> geq x z.
Proof using All. unfold geq. rewrite <- !cmp_sign. intros H1 H2. by apply (cmp_trans z y x). Qed.

Lemma lt_geq x y : C x y < 0 -> geq y x.
Proof using All. intros L. apply cmp_sign. lia. Qed.

(** The nodes from [k0] on are not less than their children. *)
Definition heap_from (a : Z -> list Z) (k0 n : Z) : Prop :=
  forall p c, k0 <= p -> child p c -> c <= n -> geq (a p) (a c).

(** The same but for node [k], whose parent is above its children. *)
Definition sifting (a : Z -> list Z) (k0 n k : Z) : Prop :=
  k0 <= k /\
  (forall p c, k0 <= p -> p <> k -> child p c -> c <= n -> geq (a p) (a c)) /\
  (forall p c, k0 <= p -> child p k -> child k c -> c <= n -> geq (a p) (a c)).

Definition exchanged (a a' : Z -> list Z) (i j : Z) : Prop :=
  a' i = a j /\ a' j = a i /\ forall x, x <> i -> x <> j -> a' x = a x.

(** [j] is the largest child of [k]. *)
Definition largest (a : Z -> list Z) (n k j : Z) : Prop :=
  child k j /\ j <= n /\ forall c, child k c -> c <= n -> geq (a j) (a c).

Lemma sifting_done a k0 n k j : sifting a k0 n k -> largest a n k j -> geq (a k) (a j) -> heap_from a k0 n.
Proof using All.
  intros (Hk & H1 & _) (_ & _ & M) G p c Hp Hc Hn. destruct (decide (p = k)) as [->|]; [|by apply H1].
  eapply geq_trans; [exact G|]. by apply M.
Qed.

Lemma sifting_leaf a k0 n k : sifting a k0 n k -> n < 2 * k + 1 -> heap_from a k0 n.
Proof using.
  intros (Hk & H1 & _) L p c Hp Hc Hn. destruct (decide (p = k)) as [->|]; [|by apply H1].
  unfold child in Hc. lia.
Qed.

Lemma sifting_step a a' k0 n k j : 0 <= k0 -> sifting a k0 n k -> largest a n k j ->
  C (a k) (a j) < 0 -> exchanged a a' k j -> sifting a' k0 n j.
Proof using All.
  intros H0 (Hk & H1 & H2) (Cj & Hj & M) L (Ek & Ej & Ex). unfold sifting, child in *. split; [lia|]. split.
  - intros p c Hp Np Hc Hn. destruct (decide (p = k)) as [->|Npk].
    + rewrite Ek. destruct (decide (c = j)) as [->|].
      * rewrite Ej. by apply lt_geq.
      * rewrite Ex by lia. by apply M.
    + rewrite (Ex p) by done. destruct (decide (c = k)) as [->|].
      * rewrite Ek. by apply H2.
      * rewrite Ex by lia. by apply H1.
  - intros p c Hp Hpj Hc Hn. assert (p = k) by lia. subst p. rewrite Ek, Ex by lia. apply H1; lia.
Qed.

Lemma heap_sifting a n k : 0 <= k -> heap_from a (k + 1) n -> sifting a k n k.
Proof using.
  intros Hk H. unfold sifting, child in *. split; [lia|]. split.
  - intros p c Hp Np Hc Hn. apply H; unfold child; lia.
  - intros p c Hp Hc. lia.
Qed.

(** The root is the largest. *)
Lemma heap_root a n i : heap_from a 0 n -> 0 <= i <= n -> geq (a 0) (a i).
Proof using All.
  intros H Hi. assert (R : geq (a 0) (a 0)).
  { unfold geq. destruct (Z.le_gt_cases 0 (C (a 0) (a 0))); [done|]. apply cmp_sign. lia. }
  remember (Z.to_nat i) as k eqn:E. revert i Hi E.
  induction (lt_wf k) as [k _ IH]. intros i Hi E. destruct (decide (i = 0)) as [->|]; [done|].
  assert (D : child ((i - 1) / 2) i) by (unfold child; pose proof (Z.div_mod (i - 1) 2);
    pose proof (Z.mod_pos_bound (i - 1) 2); lia).
  assert (0 <= (i - 1) / 2 < i) by (unfold child in D; lia).
  apply geq_trans with (a ((i - 1) / 2)); [|apply H; [lia|done|lia]].
  apply (IH (Z.to_nat ((i - 1) / 2))); lia.
Qed.
End HeapOrder.

(** ** [siftdown], [heapify] and the extraction on memory *)

Section Heapsort.
Context (C : list Z -> list Z -> Z) `{!Comparison C} (cmp : bytes -> Z -> Z -> Z).
Context (base size N : Z) (ty : swap_type_t).
Hypothesis Hcmp : forall m p q, cmp m p q = C (elem m p size) (elem m q size).
Hypothesis Hsize : 0 < size.
Hypothesis Hty : swap_ok ty size.
Hypothesis HN : 0 <= N < 2 ^ 63.

Definition at_ (m : bytes) (x : Z) : list Z := elem m (base + x * size) size.

Lemma do_swap_exchanged m i j : 0 <= i <= N -> 0 <= j <= N -> i <> j ->
  let m' := do_swap m (base + i * size) (base + j * size) size ty in
  exchanged (at_ m) (at_ m') i j /\ arr m' base size (N + 1) ≡ₚ arr m base size (N + 1) /\
  same_except (range base ((N + 1) * size)) m m'.
Proof using Hsize Hty HN.
  intros Hi Hj Ne m'. assert (D : apart (base + i * size) (base + j * size) size) by (unfold apart; nia).
  destruct (do_swap_spec ty m (base + i * size) (base + j * size) size ltac:(lia) Hty D) as [Sw SE].
  fold m' in Sw, SE.
  assert (Ex : exchanged (at_ m) (at_ m') i j).
  { split; [apply elem_ext; intros x Hx; by apply Sw|]. split; [apply elem_ext; intros x Hx; by apply Sw|].
    intros x Hx1 Hx2. symmetry. apply elem_same. eapply same_except_same; [exact SE|].
    intros q Hq [R|R]; unfold range in R; nia. }
  split; [done|]. split.
  - destruct Ex as (Ei & Ej & Ek). apply exchange_perm with (Z.to_nat i) (Z.to_nat j).
    + by rewrite !arr_length.
    + rewrite !arr_lookup by lia. by f_equal.
    + rewrite !arr_lookup by lia. by f_equal.
    + intros k Nk1 Nk2. destruct (decide (Z.of_nat k < N + 1)) as [L|L].
      * rewrite <- (Nat2Z.id k), !arr_lookup by lia. f_equal. apply Ek; lia.
      * rewrite !(proj2 (lookup_ge_None _ _)) by (rewrite arr_length; lia). done.
  - eapply same_except_weaken; [exact SE|]. unfold range. intros q. nia.
Qed.

(** What a call of [siftdown] at [k0] for the heap [0 .. n] does. *)
Definition sifted (m m' : bytes) (k0 n : Z) : Prop :=
  arr m' base size (N + 1) ≡ₚ arr m base size (N + 1) /\
  same_except (range base ((N + 1) * size)) m m' /\
  (forall x, n < x <= N -> at_ m' x = at_ m x) /\
  (forall P : list Z -> Prop, (forall x, k0 <= x <= n -> P (at_ m x)) ->
     forall x, k0 <= x <= n -> P (at_ m' x)).

Lemma sifted_refl m k0 n : sifted m m k0 n.
Proof. split; [done|]. split; [done|]. by split. Qed.

Lemma sifted_swap m m1 k0 n k j : 0 <= k0 <= k -> k < j <= n -> n <= N -> sifted m m1 k0 n ->
  sifted m (do_swap m1 (base + j * size) (base + k * size) size ty) k0 n.
Proof using Hsize Hty HN.
  intros H0 Hj Hn (P1 & S1 & X1 & Q1).
  destruct (do_swap_exchanged m1 j k) as ((Ek & Ej & Ex) & P2 & S2); [lia..|]. split; [by rewrite P2|].
  split; [by eapply same_except_trans|]. split.
  - intros x Hx. rewrite Ex by lia. by apply X1.
  - intros P HP x Hx. destruct (decide (x = k)) as [->|]; [rewrite Ej; apply Q1; [done|lia]|].
    destruct (decide (x = j)) as [->|]; [rewrite Ek; apply Q1; [done|lia]|].
    rewrite Ex by done. by apply Q1.
Qed.

(** The child the code picks. *)
Lemma picked_largest m n k : 2 * k + 1 <= n ->
  let j := 2 * k + 1 in
  let j' := if (j <? n) && (cmp m (base + j * size) (base + (j + 1) * size) <? 0) then j + 1 else j in
  largest C (at_ m) n k j'.
Proof using Hcmp Comparison0.
  intros L j j'. subst j' j. rewrite Hcmp. fold (at_ m (2 * k + 1)) (at_ m (2 * k + 1 + 1)).
  assert (R : forall x, geq C x x).
  { intros x. unfold geq. destruct (Z.le_gt_cases 0 (C x x)); [done|]. apply cmp_sign. lia. }
  destruct (Z.ltb_spec (2 * k + 1) n) as [Ln|Ln]; cbn [andb].
  - destruct (Z.ltb_spec (C (at_ m (2 * k + 1)) (at_ m (2 * k + 1 + 1))) 0) as [G|G].
    + split; [unfold child; lia|]. split; [lia|]. intros c [->| ->] _; [by apply lt_geq|].
      by replace (2 * k + 2) with (2 * k + 1 + 1) by lia.
    + split; [by left|]. split; [lia|]. intros c [->| ->] _; [done|].
      by replace (2 * k + 2) with (2 * k + 1 + 1) by lia.
  - split; [by left|]. split; [lia|]. intros c [->| ->] ?; [done|lia].
Qed.

Lemma siftdown_spec m k n : 0 <= k <= N -> n <= N -> heap_from C (at_ m) (k + 1) n ->
  exists m', siftdown cmp base size ty m k n = Some m' /\ heap_from C (at_ m') k n /\ sifted m m' k n.
Proof using All.
  intros Hk Hn H.
  apply (run_spec (siftdown_step cmp base size ty n)
    (fun i st => i = N - snd st /\ k <= snd st <= N /\ sifting C (at_ (fst st)) k n (snd st) /\
                 sifted m (fst st) k n)
    (fun m' => heap_from C (at_ m') k n /\ sifted m m' k n) 64 (N - k)).
  - intros i [m1 k1] (-> & Hk1 & Sf & Sd). cbn [fst snd] in *. unfold siftdown_step.
    destruct (Z.leb_spec (2 * k1 + 1) n) as [L|L].
    2: { split; [|done]. by eapply sifting_leaf. }
    pose proof (picked_largest m1 n k1 L) as Lj. cbv zeta in Lj |- *.
    set (j := if _ && _ then _ else _) in *. pose proof Lj as (Cj & Bj & _).
    assert (Nj : k1 < j) by (unfold child in Cj; lia). rewrite (proj2 (Z.eqb_neq _ _)) by lia.
    rewrite Hcmp. fold (at_ m1 k1) (at_ m1 j). cbn [orb].
    destruct (Z.leb_spec 0 (C (at_ m1 k1) (at_ m1 j))) as [G|G].
    + split; [|done]. by eapply sifting_done.
    + exists (N - j). split; [lia|]. cbn [fst snd]. rewrite (Z.mul_comm size j). split; [done|].
      split; [lia|]. split; [|by apply sifted_swap; [lia|lia|lia|]].
      destruct (do_swap_exchanged m1 j k1) as ((E1 & E2 & E3) & _); [lia..|].
      apply (sifting_step C (at_ m1) _ k n k1 j); [lia|done|done|done|].
      split; [done|]. split; [done|]. intros x X1 X2. by apply E3.
  - cbn [fst snd]. split; [done|]. split; [lia|]. split; [apply heap_sifting; [lia|done]|apply sifted_refl].
  - lia.
Qed.

Lemma heapify_loop_spec k m n : Z.of_nat k <= N -> n <= N -> heap_from C (at_ m) (Z.of_nat k + 1) n ->
  exists m', heapify_loop cmp base size ty k m n = Some m' /\ heap_from C (at_ m') 0 n /\
  arr m' base size (N + 1) ≡ₚ arr m base size (N + 1) /\
  same_except (range base ((N + 1) * size)) m m'.
Proof using All.
  revert m. induction k as [|k IH]; intros m Hk Hn H; cbn [heapify_loop].
  - destruct (siftdown_spec m 0 n) as (m1 & E & H1 & P & SE & _); [lia|done|done|].
    change (Z.of_nat 0) with 0. rewrite E. by exists m1.
  - destruct (siftdown_spec m (Z.of_nat (S k)) n) as (m1 & E & H1 & P & SE & _); [lia|done|done|].
    rewrite E. cbn [mbind option_bind].
    destruct (IH m1) as (m2 & E2 & H2 & P2 & SE2); [lia|done|by replace (Z.of_nat k + 1) with (Z.of_nat (S k)) by lia|].
    exists m2. split; [done|]. split; [done|]. split; [by rewrite P2|by eapply same_except_trans].
Qed.

(** Above [n] the elements are sorted and not less than those of the heap. *)
Definition tail_sorted (a : Z -> list Z) (n : Z) : Prop :=
  forall i j, 0 <= i < j -> n < j <= N -> geq C (a j) (a i).

Lemma extract_loop_spec n m : Z.of_nat n <= N -> heap_from C (at_ m) 0 (Z.of_nat n) ->
  tail_sorted (at_ m) (Z.of_nat n) ->
  exists m', extract_loop cmp base size ty n m = Some m' /\ tail_sorted (at_ m') 0 /\
  arr m' base size (N + 1) ≡ₚ arr m base size (N + 1) /\
  same_except (range base ((N + 1) * size)) m m'.
Proof using All.
  revert m. induction n as [|n IH]; intros m Hn H T; [by exists m|]. cbn [extract_loop].
  destruct (do_swap_exchanged m 0 (Z.of_nat (S n))) as ((E0 & En & Ex) & P & SE); [lia..|].
  rewrite Z.mul_0_l, Z.add_0_r in *. set (m1 := do_swap m base _ _ _) in *.
  assert (T1 : tail_sorted (at_ m1) (Z.of_nat n)).
  { intros i j Hij Hj. destruct (decide (j = Z.of_nat (S n))) as [->|Nj].
    - rewrite En. destruct (decide (i = 0)) as [->|]; [rewrite E0|rewrite Ex by lia]; (apply heap_root with (Z.of_nat (S n)); [done|done|lia]).
    - rewrite (Ex j) by lia. destruct (decide (i = 0)) as [->|]; [rewrite E0; apply T; lia|].
      destruct (decide (i = Z.of_nat (S n))) as [->|]; [rewrite En; apply T; lia|].
      rewrite Ex by lia. apply T; lia. }
  destruct n as [|n']; [by exists m1|]. set (n := S n') in *.
  destruct (siftdown_spec m1 0 (Z.of_nat n)) as (m2 & E & H2 & P2 & SE2 & X2 & Q2); [lia|lia| |].
  { intros p c Hp Hc Hcn. unfold child in Hc. rewrite !Ex by lia. apply H; [lia|done|lia]. }
  rewrite E. cbn [mbind option_bind].
  destruct (IH m2) as (m3 & E3 & T3 & P3 & SE3); [lia|done| |].
  { intros i j Hij Hj. rewrite X2 by lia. destruct (decide (i <= Z.of_nat n)) as [L|L].
    - apply (Q2 (fun x => geq C (at_ m1 j) x)); [|lia]. intros x Hx. apply T1; lia.
    - rewrite X2 by lia. apply T1; lia. }
  exists m3. split; [done|]. split; [done|]. split; [by rewrite P3, P2, P|].
  do 2 (eapply same_except_trans; [eassumption|]). done.
Qed.

Lemma tail_sorted_arr m : tail_sorted (at_ m) 0 -> sorted C (arr m base size (N + 1)).
Proof using Comparison0.
  intros T. apply sorted_lookup. intros i j x y Hij [Hi ->]%arr_lookup_inv [Hj ->]%arr_lookup_inv.
  unfold le. apply cmp_sign. apply (T (Z.of_nat i) (Z.of_nat j)); lia.
Qed.
End Heapsort.

Lemma heapsort_spec C `{!Comparison C} cmp m base n size :
  (forall m p q, cmp m p q = C (elem m p size) (elem m q size)) -> 0 < size -> 0 <= n < 2 ^ 63 ->
  exists m', heapsort_r cmp m base n size = Some m' /\
  sorted C (arr m' base size (n + 1)) /\ arr m' base size (n + 1) ≡ₚ arr m base size (n + 1) /\
  same_except (range base ((n + 1) * size)) m m'.
Proof.
  intros Hcmp Hs Hn. unfold heapsort_r. destruct (Z.eqb_spec n 0) as [->|Nn].
  { exists m. split; [done|]. split; [|done]. rewrite arr_cons by lia. rewrite arr_nil.
    apply sorted_cons. split; [constructor|done]. }
  pose proof (get_swap_type_ok base size) as Hty. set (ty := get_swap_type base size) in *.
  pose proof (Z.div_mod n 2 ltac:(lia)). pose proof (Z.mod_pos_bound n 2 ltac:(lia)).
  destruct (heapify_loop_spec C cmp base size n ty Hcmp Hs Hty Hn (Z.to_nat (n / 2)) m n)
    as (m1 & E1 & H1 & P1 & S1); [lia|lia| |].
  { intros p c Hp Hc. unfold child in Hc. lia. }
  unfold heapify. rewrite E1. cbn [mbind option_bind].
  destruct (extract_loop_spec C cmp base size n ty Hcmp Hs Hty Hn (Z.to_nat n) m1)
    as (m2 & E2 & T2 & P2 & S2); [lia|by rewrite Z2Nat.id by lia|intros i j; lia|].
  exists m2. split; [done|]. split; [by apply tail_sorted_arr|].
  split; [by rewrite P2|by eapply same_except_trans].
Qed.
