(* ===== verification/QsortIndirect.v ===== *)
(** * Indirect sorting

    Large elements are sorted through an array of pointers, and then moved to
    their places along the cycles of the permutation (Knuth, exercise
    5.2-10).  [permute_spec] shows that every element ends where the sorted
    pointers say; [indirect_spec] that the result is the stable sort of the
    array. *)

From Stdlib Require Import Sorted.
From S2P Require Import Prelude CLoop ByteMem Qsort QsortMerge.

(** ** Pointers in memory *)

Section Ptr.
Context `{PR : PtrRep}.

Definition ptr_ok (v : Z) : Prop := 0 <= v < 2 ^ (8 * ptr_size).

Lemma store_ptr_except m p v : same_except (range p ptr_size) m (store_ptr m p v).
Proof. unfold store_ptr. rewrite <- (ptr_bytes_length v). apply store_except. Qed.

Lemma elem_store_ptr m p v : elem (store_ptr m p v) p ptr_size = ptr_bytes v.
Proof. unfold store_ptr. rewrite <- (ptr_bytes_length v). apply elem_store. Qed.

Lemma load_store_ptr m p v : ptr_ok v -> load_ptr (store_ptr m p v) p = v.
Proof. intros Hv. unfold load_ptr. rewrite elem_store_ptr. by apply bytes_ptr_bytes. Qed.

Lemma load_ptr_same m m' p : same m m' p ptr_size -> load_ptr m p = load_ptr m' p.
Proof. intros H. unfold load_ptr. by rewrite (elem_same m m'). Qed.

(** The pointers to the elements, in order. *)
Lemma fill_ptrs_spec n m t ip s : let m' := fill_ptrs n m t ip s in
  same_except (range t (Z.of_nat n * ptr_size)) m m' /\
  arr m' t ptr_size (Z.of_nat n) = map (fun i => ptr_bytes (ip + i * s)) (seqZ 0 (Z.of_nat n)).
Proof.
  pose proof ptr_size_pos as Pp. revert m t ip. induction n as [|n IH]; intros m t ip; cbn [fill_ptrs].
  { split; [done|]. done. }
  destruct (IH (store_ptr m t ip) (t + ptr_size) (ip + s)) as [SE E]. set (m' := fill_ptrs _ _ _ _ _) in *.
  split.
  - intros q Hq. rewrite (store_ptr_except m t ip) by (unfold range in *; nia).
    apply SE. unfold range in *. nia.
  - rewrite arr_cons by lia. rewrite seqZ_cons by lia. cbn [map].
    replace (Z.of_nat (S n) - 1) with (Z.of_nat n) by lia. rewrite E. f_equal.
    + rewrite Z.mul_0_l, Z.add_0_r, <- (elem_store_ptr m t ip). apply elem_same. intros q Hq.
      symmetry. apply SE. unfold range. lia.
    + replace (Z.pred (Z.of_nat (S n))) with (Z.of_nat n) by lia. apply list_eq. intros i.
      rewrite !list_lookup_fmap. destruct (decide (Z.of_nat i < Z.of_nat n)) as [L|L].
      * rewrite !lookup_seqZ_lt by lia. simpl. do 2 f_equal. lia.
      * rewrite !lookup_seqZ_ge by lia. done.
Qed.
End Ptr.

(** ** Moving the elements *)

Section Permute.
Context `{PR : PtrRep}.
Context (b s n tp : Z) (A0 : Z -> list Z) (sg : Z -> Z).
Local Abbreviation ts := (tp + n * ptr_size).
Hypothesis Hs : 0 < s.
Hypothesis Hn : 0 <= n < 2 ^ 63.
Hypothesis Hptr : forall i, 0 <= i < n -> ptr_ok (b + i * s).
Hypothesis Happ : b + n * s <= tp \/ ts + s <= b.
Hypothesis sg_range : forall i, 0 <= i < n -> 0 <= sg i < n.
Hypothesis sg_inj : forall i j, 0 <= i < n -> 0 <= j < n -> sg i = sg j -> i = j.

Definition area (q : Z) : Prop := range b (n * s) q \/ range tp (n * ptr_size + s) q.

(** The elements of [D] are in their final places, the others untouched. *)
Definition mixed (m : bytes) (D : gset Z) : Prop := forall x, 0 <= x < n ->
  if decide (x ∈ D)
  then load_ptr m (tp + x * ptr_size) = b + x * s /\ elem m (b + x * s) s = A0 (sg x)
  else load_ptr m (tp + x * ptr_size) = b + sg x * s /\ elem m (b + x * s) s = A0 x.

Lemma move_elem m D j src : mixed m D -> j ∉ D -> 0 <= j < n -> elem m src s = A0 (sg j) ->
  src = ts \/ (exists y, 0 <= y < n /\ src = b + y * s) ->
  let m' := memcpy (store_ptr m (tp + j * ptr_size) (b + j * s)) (b + j * s) src s in
  mixed m' ({[j]} ∪ D) /\ elem m' ts s = elem m ts s /\ same_except area m m'.
Proof using Hs Hn Hptr Happ.
  clear sg_range sg_inj. intros M Nj Hj Es Src m'. pose proof ptr_size_pos as Pp.
  set (m1 := store_ptr m (tp + j * ptr_size) (b + j * s)).
  assert (S1 : same_except (range (tp + j * ptr_size) ptr_size) m m1) by apply store_ptr_except.
  assert (S2 : same_except (range (b + j * s) s) m1 m') by (apply memcpy_except; lia).
  assert (Esrc : elem m1 src s = A0 (sg j)).
  { rewrite <- Es. symmetry. apply elem_same. eapply same_except_same; [exact S1|].
    intros q Hq R. unfold range in R. destruct Src as [->|(y & Hy & ->)]; nia. }
  assert (X : forall x, 0 <= x < n -> x <> j ->
    load_ptr m' (tp + x * ptr_size) = load_ptr m (tp + x * ptr_size) /\
    elem m' (b + x * s) s = elem m (b + x * s) s).
  { intros x Hx Nx. split; [symmetry; apply load_ptr_same|symmetry; apply elem_same];
      intros q Hq; rewrite S1 by (unfold range; nia); apply S2; unfold range; nia. }
  split.
  - intros x Hx. destruct (decide (x = j)) as [->|Nx].
    + rewrite decide_True by set_solver. split.
      * rewrite <- (load_store_ptr m (tp + j * ptr_size) (b + j * s)) by by apply Hptr.
        symmetry. apply load_ptr_same. intros q Hq. apply S2. unfold range. nia.
      * rewrite <- Esrc. apply elem_memcpy. lia.
    + specialize (M x Hx). destruct (X x Hx Nx) as [-> ->].
      destruct (decide (x ∈ D)); [rewrite decide_True by set_solver|rewrite decide_False by set_solver]; done.
  - split.
    + symmetry. apply elem_same. intros q Hq. rewrite S1 by (unfold range; nia). apply S2. unfold range. nia.
    + intros q Hq. unfold area, range in Hq. rewrite S1 by (unfold range; nia). apply S2. unfold range. nia.
Qed.

Definition indices (D : gset Z) : Prop := forall x, x ∈ D -> 0 <= x < n.

Lemma indices_size D : indices D -> Z.of_nat (size D) <= n.
Proof using Hn.
  intros H. assert (Sub : D ⊆ list_to_set (seqZ 0 n)).
  { intros x Hx. apply elem_of_list_to_set, elem_of_seqZ. specialize (H x Hx). lia. }
  apply subseteq_size in Sub. rewrite size_list_to_set in Sub by apply NoDup_seqZ.
  rewrite length_seqZ in Sub. lia.
Qed.

(** Each element of [D] but [i] has its source in [D]. *)
Definition chained (D : gset Z) (i : Z) : Prop :=
  forall y, y ∈ D -> y <> i -> exists x, (x ∈ D) /\ sg x = y.
Definition closed (D : gset Z) : Prop := forall y, y ∈ D -> exists x, (x ∈ D) /\ sg x = y.

(** Inside a cycle started at [i]: [j] is to be filled from [sg j]. *)
Record cycle_inv (m0 : bytes) (i : Z) (D : gset Z) (m : bytes) (j : Z) : Prop := {
  ci_mixed : mixed m D;
  ci_ind : indices D;
  ci_j : (j ∉ D) /\ 0 <= j < n;
  ci_i : 0 <= i < n;
  ci_tmp : elem m ts s = A0 i;
  ci_chain : chained D i;
  ci_from : j = i \/ exists x, (x ∈ D) /\ sg x = j;
  ci_area : same_except area m0 m }.

Lemma next_untouched m0 i D m j : cycle_inv m0 i D m j -> sg j <> i -> sg j ∉ {[j]} ∪ D.
Proof using sg_range sg_inj.
  intros [_ Di [Nj Hj] Hi _ Ch Fr _] Ne [E%elem_of_singleton|E]%elem_of_union.
  - destruct Fr as [->|(x & Hx & Ex)]; [done|].
    apply Nj. by rewrite (sg_inj j x) by (auto || congruence).
  - destruct (Ch _ E Ne) as (x & Hx & Ex). apply Nj.
    by rewrite (sg_inj j x) by (auto || congruence).
Qed.

Lemma cycle_advance m0 i D m j : cycle_inv m0 i D m j -> sg j <> i ->
  cycle_inv m0 i ({[j]} ∪ D)
    (memcpy (store_ptr m (tp + j * ptr_size) (b + j * s)) (b + j * s) (b + sg j * s) s) (sg j).
Proof using All.
  intros I Ne. pose proof (next_untouched _ _ _ _ _ I Ne) as Nu. destruct I as [M Di [Nj Hj] Hi Tm Ch Fr Ar].
  assert (Esg : elem m (b + sg j * s) s = A0 (sg j)).
  { specialize (M (sg j) (sg_range j Hj)). rewrite decide_False in M by set_solver. apply M. }
  destruct (move_elem m D j (b + sg j * s) M Nj Hj Esg) as (M' & T' & A'); [right; eauto|].
  constructor; [done|intros x [->%elem_of_singleton|Hx]%elem_of_union; auto|split; [done|auto]|done|congruence| | |by eapply same_except_trans].
  - intros y [->%elem_of_singleton|Hy]%elem_of_union Ny; [|destruct (Ch y Hy Ny) as (x & ? & ?); set_solver].
    destruct Fr as [->|(x & Hx & Ex)]; [done|]. set_solver.
  - right. exists j. set_solver.
Qed.

Lemma slot_value m D x : mixed m D -> 0 <= x < n -> x ∉ D ->
  load_ptr m (tp + x * ptr_size) = b + sg x * s.
Proof using. intros M Hx Nx. specialize (M x Hx). by rewrite decide_False in M by done; destruct M. Qed.

Lemma same_place x y : b + x * s = b + y * s -> x = y.
Proof using Hs. nia. Qed.

Lemma cycle_spec m0 i D m : cycle_inv m0 i D m i -> sg i <> i ->
  exists m' j jp, run 64 (cycle_step b s tp (b + i * s)) (m, i, b + i * s, b + sg i * s) = Some (m', j, jp) /\
  jp = b + j * s /\ sg j = i /\ exists D', cycle_inv m0 i D' m' j /\ D ⊆ D' /\ i ∈ D'.
Proof using All.
  intros I0 Ne.
  destruct (run_spec (cycle_step b s tp (b + i * s))
    (fun c st => let '(m, j, jp, kp) := st in exists D', cycle_inv m0 i D' m j /\ sg j <> i /\
       jp = b + j * s /\ kp = b + sg j * s /\ c = n - Z.of_nat (size D') /\ D ⊆ D' /\ (j = i \/ i ∈ D'))
    (fun r => let '(m, j, jp) := r in jp = b + j * s /\ sg j = i /\
       exists D', cycle_inv m0 i D' m j /\ D ⊆ D' /\ i ∈ D')
    64 (n - Z.of_nat (size D)) (m, i, b + i * s, b + sg i * s)) as ([[m' j] jp] & E & P).
  - intros c [[[m1 j] jp] kp] (D1 & I1 & Nj & -> & -> & -> & Sub & Hi). unfold cycle_step.
    assert ((b + sg j * s - b) / s = sg j) as ->.
    { replace (b + sg j * s - b) with (sg j * s) by lia. apply Z.div_mul. lia. }
    pose proof (next_untouched _ _ _ _ _ I1 Nj) as Nu. pose proof (cycle_advance _ _ _ _ _ I1 Nj) as I2.
    set (m2 := memcpy _ _ _ _) in *. pose proof (ci_j _ _ _ _ _ I1) as [NjD Hj].
    rewrite (slot_value m2 _ (sg j) (ci_mixed _ _ _ _ _ I2) (sg_range j Hj) Nu).
    destruct (Z.eqb_spec (b + sg (sg j) * s) (b + i * s)) as [E|E].
    + apply same_place in E. split; [done|]. split; [done|]. exists ({[j]} ∪ D1).
      split; [done|]. split; [set_solver|]. destruct Hi as [->|]; set_solver.
    + exists (n - Z.of_nat (size ({[j]} ∪ D1))).
      assert (Sz : size ({[j]} ∪ D1) = S (size D1)) by (rewrite size_union by set_solver; by rewrite size_singleton).
      pose proof (indices_size _ (ci_ind _ _ _ _ _ I2)) as B. rewrite Sz in B |- *. split; [lia|].
      exists ({[j]} ∪ D1). rewrite Sz. split; [done|]. split; [congruence|]. split; [done|]. split; [done|].
      split; [lia|]. split; [set_solver|]. right. destruct Hi as [->|]; set_solver.
  - exists D. split; [done|]. split; [done|]. split; [done|]. split; [done|]. split; [done|]. split; [done|by left].
  - lia.
  - exists m', j, jp. by split.
Qed.

(** The elements of a cycle are all in place when it is closed. *)
Lemma cycle_close m0 i D m j : cycle_inv m0 i D m j -> sg j = i ->
  let m' := memcpy (store_ptr m (tp + j * ptr_size) (b + j * s)) (b + j * s) ts s in
  mixed m' ({[j]} ∪ D) /\ indices ({[j]} ∪ D) /\ closed ({[j]} ∪ D) /\ same_except area m0 m'.
Proof using All.
  intros [M Di [Nj Hj] Hi Tm Ch Fr Ar] E.
  destruct (move_elem m D j ts M Nj Hj) as (M' & _ & A'); [by rewrite E|by left|].
  split; [done|]. split; [intros x [->%elem_of_singleton|Hx]%elem_of_union; auto|].
  split; [|by eapply same_except_trans].
  intros y Hy. destruct (decide (y = i)) as [->|Ny]; [exists j; set_solver|].
  apply elem_of_union in Hy as [->%elem_of_singleton|Hy].
  - destruct Fr as [->|(x & Hx & Ex)]; [done|]. exists x. set_solver.
  - destruct (Ch y Hy Ny) as (x & Hx & Ex). exists x. set_solver.
Qed.

Lemma permute_spec k m i D : i + Z.of_nat k = n -> 0 <= i -> mixed m D -> indices D -> closed D ->
  (forall x, 0 <= x < i -> x ∈ D) ->
  exists m', permute_loop k m b s tp ts i (b + i * s) = Some m' /\
  (forall x, 0 <= x < n -> elem m' (b + x * s) s = A0 (sg x)) /\ same_except area m m'.
Proof using All.
  revert m i D. induction k as [|k IH]; intros m i D Hk Hi M Di Cl Dn; cbn [permute_loop].
  { exists m. split; [done|]. split; [|done]. intros x Hx. specialize (M x Hx).
    rewrite decide_True in M by (apply Dn; lia). apply M. }
  assert (Hin : 0 <= i < n) by lia.
  assert (Next : forall m1 D', mixed m1 D' -> indices D' -> closed D' -> (forall x, 0 <= x < i -> x ∈ D') ->
    i ∈ D' -> same_except area m m1 ->
    exists m', permute_loop k m1 b s tp ts (i + 1) (b + i * s + s) = Some m' /\
    (forall x, 0 <= x < n -> elem m' (b + x * s) s = A0 (sg x)) /\ same_except area m m').
  { intros m1 D' M1 Di1 Cl1 Dn1 Ini Ar1. replace (b + i * s + s) with (b + (i + 1) * s) by lia.
    destruct (IH m1 (i + 1) D') as (m' & E & F & Ar); [lia|lia|done|done|done| |].
    - intros x Hx. destruct (decide (x = i)) as [->|]; [done|]. apply Dn1. lia.
    - exists m'. split; [done|]. split; [done|]. by eapply same_except_trans. }
  pose proof (M i Hin) as Mi. destruct (decide (i ∈ D)) as [Ii|Ni].
  { destruct Mi as [-> _]. rewrite Z.eqb_refl. cbn [mbind option_bind]. by apply (Next m D). }
  destruct Mi as [-> Ei]. destruct (Z.eqb_spec (b + sg i * s) (b + i * s)) as [E|E].
  - apply same_place in E. cbn [mbind option_bind]. apply (Next m ({[i]} ∪ D)); [| | |set_solver|set_solver|done].
    + intros x Hx. specialize (M x Hx). destruct (decide (x = i)) as [->|Nx].
      * rewrite decide_True by set_solver. rewrite decide_False in M by done. by rewrite E in M |- *.
      * destruct (decide (x ∈ D)); [rewrite decide_True by set_solver|rewrite decide_False by set_solver]; done.
    + intros x [->%elem_of_singleton|Hx]%elem_of_union; auto.
    + intros y [->%elem_of_singleton|Hy]%elem_of_union; [exists i; set_solver|].
      destruct (Cl y Hy) as (x & ? & ?). exists x. set_solver.
  - assert (Ne : sg i <> i) by congruence. pose proof ptr_size_pos as Pp.
    set (m1 := memcpy m ts (b + i * s) s).
    assert (S1 : same_except (range ts s) m m1) by (apply memcpy_except; lia).
    assert (I1 : cycle_inv m i D m1 i).
    { constructor; [|done|done|done|by unfold m1; rewrite elem_memcpy by lia|intros y Hy _; by apply Cl|by left|].
      - intros x Hx. specialize (M x Hx).
        rewrite <- (load_ptr_same m m1), <- (elem_same m m1); [done| |];
          (eapply same_except_same; [exact S1|]); unfold range; clear - Hx Hs Pp Happ Hn; nia.
      - eapply same_except_weaken; [exact S1|]. unfold area, range. clear - Pp Hn. nia. }
    destruct (cycle_spec m i D m1 I1 Ne) as (m2 & j & jp & -> & -> & Ej & D2 & I2 & Sub & Ii).
    cbn [mbind option_bind]. destruct (cycle_close m i D2 m2 j I2 Ej) as (M3 & Di3 & Cl3 & Ar3).
    apply (Next _ ({[j]} ∪ D2)); [done|done|done|set_solver|set_solver|done].
Qed.
End Permute.

(** ** From pointers to elements *)

Lemma filter_map_in (P Q : list Z -> Prop) `{!forall x, Decision (P x), !forall x, Decision (Q x)}
    (f g : Z -> list Z) l : (forall i, i ∈ l -> P (f i) <-> Q (g i)) ->
  exists k, (forall i, i ∈ k -> i ∈ l) /\ filter P (map f l) = map f k /\ filter Q (map g l) = map g k.
Proof.
  induction l as [|i l IH]; intros Hl; [exists []; set_solver|].
  destruct IH as (k & Sub & E1 & E2); [set_solver|]. specialize (Hl i ltac:(set_solver)). cbn [map].
  destruct (decide (P (f i))) as [Y|N].
  - exists (i :: k). rewrite !filter_cons, !decide_True by tauto. rewrite E1, E2. set_solver.
  - exists k. rewrite !filter_cons, !decide_False by tauto. set_solver.
Qed.

Lemma map_inj_in (f : Z -> list Z) l k : (forall i j, i ∈ l -> j ∈ k -> f i = f j -> i = j) ->
  map f l = map f k -> l = k.
Proof.
  revert k. induction l as [|i l IH]; intros [|j k] H E; simpl in E; try done.
  injection E as Ei El. f_equal; [apply H; [set_solver|set_solver|done]|].
  apply IH; [|done]. intros x y Hx Hy. apply H; set_solver.
Qed.

Lemma stable_sort_map C C' `{!Comparison C} (f g : Z -> list Z) l σ : σ ≡ₚ l ->
  (forall i j, i ∈ l -> j ∈ l -> C' (f i) (f j) = C (g i) (g j)) ->
  (forall i j, i ∈ l -> j ∈ l -> f i = f j -> i = j) ->
  stable_sort C' (map f l) (map f σ) -> stable_sort C (map g l) (map g σ).
Proof.
  intros P HC Inj (_ & S & F). assert (In : forall i, i ∈ σ <-> i ∈ l) by (intros i; by rewrite P).
  split; [by rewrite P|]. split.
  - assert (In' : forall i, i ∈ σ -> i ∈ l) by (intros i; apply In). clear P F In.
    induction σ as [|i σ IH]; [constructor|]. apply sorted_cons in S as [S L]. apply sorted_cons.
    split; [apply IH; [done|set_solver]|]. apply list.Forall_forall. intros y Hy.
    apply list_elem_of_In, in_map_iff in Hy as (j & <- & Hj%list_elem_of_In).
    unfold le. rewrite <- HC by set_solver. apply (proj1 (list.Forall_forall _ _) L).
    apply list_elem_of_In, in_map. by apply list_elem_of_In.
  - intros x. destruct (decide (Exists (fun i => eqv C x (g i)) l)) as [Ex|Nx].
    + apply list.Exists_exists in Ex as (i0 & Hi0 & E1 & E2).
      assert (Eq : forall i, i ∈ l -> eqv C' (f i0) (f i) <-> eqv C x (g i)).
      { intros i Hi. unfold eqv. rewrite !HC by done. split; intros [A1 A2]; split;
          eapply cmp_trans; eassumption. }
      destruct (filter_map_in (eqv C' (f i0)) (eqv C x) f g σ) as (k1 & K1 & Ef1 & ->); [intros i Hi; by apply Eq, In|].
      destruct (filter_map_in (eqv C' (f i0)) (eqv C x) f g l) as (k2 & K2 & Ef2 & ->); [done|].
      rewrite (map_inj_in f k1 k2); [done| |by rewrite <- Ef1, <- Ef2].
      intros i j Hi Hj. apply Inj; [by apply In, K1|by apply K2].
    + assert (N : forall i, i ∈ l -> ~ eqv C x (g i)).
      { intros i Hi E. apply Nx, list.Exists_exists. by exists i. }
      rewrite !filter_none; [done| |]; apply list.Forall_forall; intros y Hy;
        apply list_elem_of_In, in_map_iff in Hy as (j & <- & Hj%list_elem_of_In); apply N; [done|by apply In].
Qed.

(** ** The whole of [indirect_msort_with_tmp] *)

Section Indirect.
Context `{PR : PtrRep} (C : list Z -> list Z -> Z) `{!Comparison C} (cmp : bytes -> Z -> Z -> Z).
Context (m0 : bytes) (b s n t : Z).
Local Abbreviation tp := (t + n * ptr_size).
Local Abbreviation ts := (tp + n * ptr_size).
Hypothesis Hcmp : forall m p q, cmp m p q = C (elem m p s) (elem m q s).
Hypothesis Hs : 0 < s.
Hypothesis Hn : 0 <= n < 2 ^ 63.
Hypothesis Hptr : forall i, 0 <= i < n -> ptr_ok (b + i * s).
Hypothesis Happ : b + n * s <= t \/ ts + s <= b.

Local Abbreviation p := {| msort_s := ptr_size; msort_cmp := cmp; msort_var := SWAP_VOID_ARG; msort_t := t |}.
Local Abbreviation ptr i := (ptr_bytes (b + i * s)).
Local Abbreviation el i := (elem m0 (b + i * s) s).

(** Comparing pointers by what they point to in the initial memory. *)
Definition cmp_ptr (x y : list Z) : Z := C (elem m0 (bytes_ptr x) s) (elem m0 (bytes_ptr y) s).
Definition is_ptr (x : list Z) : Prop := exists i, 0 <= i < n /\ x = ptr i.
Definition ptr_area (q : Z) : Prop := range t (2 * n * ptr_size) q.

Lemma cmp_ptr_comparison : Comparison cmp_ptr.
Proof using Comparison0.
  split; unfold cmp_ptr; [intros x y; apply cmp_sign|intros x y z; apply cmp_trans].
Qed.

Lemma ptr_compares : compares (msort_call p) ptr_size cmp_ptr (fun m => same m0 m b (n * s)) is_ptr ptr_area.
Proof using Hcmp Hs Hn Hptr Happ.
  pose proof ptr_size_pos as Pp. split.
  - intros m x y S (i & Hi & Ei) (j & Hj & Ej). unfold msort_call, cmp_ptr, load_ptr. cbn [msort_var msort_cmp].
    rewrite Hcmp, Ei, Ej, !bytes_ptr_bytes by by apply Hptr.
    f_equal; symmetry; apply elem_same; intros q Hq; apply S; clear - Hq Hi Hj Hs; nia.
  - intros m m' S SE q Hq. rewrite S by done. apply SE. unfold ptr_area, range. clear - Hq Happ Pp Hn Hs. nia.
Qed.

(** After sorting, the pointers name a permutation of the elements. *)
Lemma sort_ptrs : exists m2 σ, 
  msort_with_tmp 64 p (fill_ptrs (Z.to_nat n) m0 tp b s) tp n = Some m2 /\
  arr m2 tp ptr_size n = map (fun i => ptr i) σ /\ σ ≡ₚ seqZ 0 n /\
  stable_sort cmp_ptr (map (fun i => ptr i) (seqZ 0 n)) (map (fun i => ptr i) σ) /\
  same_except ptr_area m0 m2.
Proof using All.
  pose proof ptr_size_pos as Pp.
  destruct (fill_ptrs_spec (Z.to_nat n) m0 tp b s) as [SE E]. rewrite Z2Nat.id in SE, E by lia.
  set (m1 := fill_ptrs _ _ _ _ _) in *.
  assert (SE1 : same_except ptr_area m0 m1).
  { eapply same_except_weaken; [exact SE|]. unfold ptr_area, range. clear - Pp Hn. nia. }
  destruct (msort_spec p cmp_ptr cmp_ptr_comparison (fun m => same m0 m b (n * s)) is_ptr ptr_area)
    with (fuel := 64%nat) (m := m1) (b := tp) (n := n) as (m2 & E2 & S2 & SE2); cbn [msort_s msort_t].
  { done. } { lia. } { exact ptr_compares. } { lia. } { lia. }
  { exact (compares_stable _ _ _ _ _ _ ptr_compares m0 m1 (fun _ _ => eq_refl) SE1). }
  { rewrite E. apply list.Forall_forall. intros x Hx.
    apply list_elem_of_In, in_map_iff in Hx as (i & <- & Hi%list_elem_of_In). apply elem_of_seqZ in Hi.
    exists i. split; [lia|done]. }
  { unfold ptr_area, range. clear - Pp Hn. nia. } { unfold ptr_area, range. clear - Pp Hn. nia. }
  { unfold range. clear - Pp Hn. nia. }
  cbn [msort_s msort_t] in *. rewrite E in S2.
  destruct (Permutation_map_inv _ _ (proj1 S2)) as (σ & Eσ & Pσ).
  exists m2, σ. split; [done|]. split; [done|]. split; [by rewrite Pσ|]. rewrite <- Eσ. split; [done|].
  eapply same_except_trans; [exact SE1|]. eapply same_except_weaken; [exact SE2|].
  unfold ptr_area, range. clear - Pp Hn. nia.
Qed.

Lemma indirect_spec : exists m', indirect_msort_with_tmp p m0 b n s = Some m' /\
  stable_sort C (arr m0 b s n) (arr m' b s n) /\
  same_except (fun q => range b (n * s) q \/ range t (2 * n * ptr_size + s) q) m0 m'.
Proof using All.
  pose proof ptr_size_pos as Pp. destruct sort_ptrs as (m2 & σ & E2 & Ea & Pσ & St & SE).
  unfold indirect_msort_with_tmp. cbn [msort_t]. rewrite E2. cbn [mbind option_bind].
  assert (Lσ : length σ = Z.to_nat n) by (by rewrite Pσ, length_seqZ).
  set (sg := fun i => nth (Z.to_nat i) σ 0).
  assert (Lk : forall i, 0 <= i < n -> σ !! Z.to_nat i = Some (sg i)).
  { intros i Hi. destruct (lookup_lt_is_Some_2 σ (Z.to_nat i)) as [x Hx]; [lia|].
    unfold sg. by rewrite (nth_lookup_Some _ _ _ _ Hx). }
  assert (Rg : forall i, 0 <= i < n -> 0 <= sg i < n).
  { intros i Hi. apply Lk, list_elem_of_lookup_2 in Hi. rewrite Pσ in Hi. apply elem_of_seqZ in Hi. lia. }
  assert (Nd : NoDup σ) by (rewrite Pσ; apply NoDup_seqZ).
  assert (Ij : forall i j, 0 <= i < n -> 0 <= j < n -> sg i = sg j -> i = j).
  { intros i j Hi Hj E. pose proof (Lk i Hi) as L1. rewrite E in L1.
    pose proof (NoDup_lookup σ _ _ _ Nd L1 (Lk j Hj)). lia. }
  assert (Ap : b + n * s <= tp \/ ts + s <= b) by (clear - Happ Pp Hn; nia).
  destruct (permute_spec b s n tp (fun i => el i) sg Hs Hn Hptr Ap Rg Ij (Z.to_nat n) m2 0 ∅)
    as (m' & E & F & Ar); [lia|lia| |intros x Hx; by apply not_elem_of_empty in Hx
    |intros x Hx; by apply not_elem_of_empty in Hx|lia|].
  { intros x Hx. rewrite decide_False by apply not_elem_of_empty. split.
    - unfold load_ptr. pose proof (arr_lookup m2 tp ptr_size n x Hx) as L. rewrite Ea, list_lookup_fmap, Lk in L by done.
      injection L as <-. apply bytes_ptr_bytes, Hptr. auto.
    - symmetry. apply elem_same. eapply same_except_same; [exact SE|]. unfold ptr_area, range. clear - Hx Happ Pp Hn Hs. nia. }
  rewrite Z.mul_0_l, Z.add_0_r in E. exists m'. split; [done|]. split.
  - assert (arr m' b s n = map (fun i => el i) σ) as ->.
    { apply list_eq_same_length with (Z.to_nat n); [by rewrite length_map|by rewrite arr_length|].
      intros i x y Hi Hx Hy. rewrite <- (Nat2Z.id i), arr_lookup, F in Hx by lia.
      rewrite <- (Nat2Z.id i), list_lookup_fmap, Lk in Hy by lia. simpl in Hy. congruence. }
    apply (stable_sort_map C cmp_ptr (fun i => ptr i) (fun i => el i)); [done| | |done].
    + intros i j Hi%elem_of_seqZ Hj%elem_of_seqZ. unfold cmp_ptr. rewrite !bytes_ptr_bytes by (apply Hptr; lia). done.
    + intros i j Hi%elem_of_seqZ Hj%elem_of_seqZ Eq. apply (f_equal bytes_ptr) in Eq.
      rewrite !bytes_ptr_bytes in Eq by (apply Hptr; lia). clear - Eq Hs. nia.
  - eapply same_except_trans; (eapply same_except_weaken; [eassumption|]); unfold ptr_area, area, range;
      clear - Pp Hn Hs; nia.
Qed.
End Indirect.
