(* ===== verification/QsortTheorems.v ===== *)
(** * What [qsort] promises

    With a buffer the result is the stable sort of the array, whatever the
    element size, the alignment and the way the elements are moved; without
    memory it is a sorted permutation.  Nothing but the array and the buffer
    is written. *)

From Stdlib Require Import Sorted.
From S2P Require Import Prelude CLoop ByteMem Qsort QsortMerge QsortHeap QsortIndirect.

(** A list has one stable sort. *)
Lemma stable_sort_unique C `{!Comparison C} l l1 l2 : stable_sort C l l1 -> stable_sort C l l2 -> l1 = l2.
Proof.
  intros (P1 & S1 & F1) (P2 & S2 & F2).
  assert (P : l1 ≡ₚ l2) by by rewrite P1, P2.
  assert (F : forall x, filter (eqv C x) l1 = filter (eqv C x) l2) by (intros x; by rewrite F1, F2).
  clear P1 P2 F1 F2. revert l2 S2 P F. induction l1 as [|x l1 IH]; intros [|y l2] S2 P F.
  - done.
  - by apply Permutation_nil_cons in P.
  - symmetry in P. by apply Permutation_nil_cons in P.
  - apply sorted_cons in S1 as [S1 L1]. apply sorted_cons in S2 as [S2 L2].
    assert (R : forall z, C z z <= 0).
    { intros z. destruct (Z.le_gt_cases (C z z) 0); [done|]. apply cmp_sign. lia. }
    assert (E : eqv C x y).
    { assert (Hy : y ∈ x :: l1) by (rewrite P; set_solver). assert (Hx : x ∈ y :: l2) by (rewrite <- P; set_solver).
      split.
      - apply elem_of_cons in Hy as [->|Hy]; [done|]. by apply (proj1 (list.Forall_forall _ _) L1).
      - apply elem_of_cons in Hx as [->|Hx]; [done|]. by apply (proj1 (list.Forall_forall _ _) L2). }
    pose proof (F x) as Fx. rewrite !filter_cons, !decide_True in Fx by (done || by split). injection Fx as -> Ft.
    f_equal. apply IH; [done|done|by apply Permutation_cons_inv in P|].
    intros z. specialize (F z). rewrite !filter_cons in F. case_decide; [by injection F|done].
Qed.

Section Theorems.
Context `{PR : PtrRep} (C : list Z -> list Z -> Z) `{!Comparison C} (cmp : bytes -> Z -> Z -> Z).

(** The buffer [qsort] asks for, and where it gets it. *)
Definition buf_size (n s : Z) : Z :=
  if INDIRECT_SORT_SIZE_THRES <? s then 2 * n * ptr_size + s else n * s.
Definition buf_of (tmp : Z) (malloc : option Z) (n s : Z) : option Z :=
  if buf_size n s <=? QSORT_STACK_SIZE then Some tmp else malloc.

(** [cmp] compares the contents of elements of [s] bytes, the array is an
    object and the buffer does not overlap it. *)
Record sortable (b n s buf : Z) : Prop := {
  so_cmp : forall m p q, cmp m p q = C (elem m p s) (elem m q s);
  so_size : 0 < s;
  so_count : 0 <= n < 2 ^ 63;
  so_ptr : forall i, 0 <= i < n -> ptr_ok (b + i * s);
  so_apart : b + n * s <= buf \/ buf + buf_size n s <= b }.

Lemma direct_width b s buf : width_ok {| msort_s := s; msort_cmp := cmp; msort_var := get_swap_type b s; msort_t := buf |}.
Proof using. pose proof (get_swap_type_ok b s) as H. unfold width_ok. cbn [msort_var msort_s].
  unfold get_swap_type in *. by repeat case_match. Qed.

Lemma direct_call b s buf : msort_call {| msort_s := s; msort_cmp := cmp; msort_var := get_swap_type b s; msort_t := buf |} = cmp.
Proof using. unfold msort_call. cbn [msort_var msort_cmp]. unfold get_swap_type. by repeat case_match. Qed.

Lemma direct_spec m b n s buf : sortable b n s buf -> s <= INDIRECT_SORT_SIZE_THRES ->
  exists m', msort_with_tmp 64 {| msort_s := s; msort_cmp := cmp; msort_var := get_swap_type b s; msort_t := buf |}
    m b n = Some m' /\ stable_sort C (arr m b s n) (arr m' b s n) /\
  same_except (fun q => range b (n * s) q \/ range buf (n * s) q) m m'.
Proof using Comparison0.
  intros [Hc Hs Hn _ Ha] L. unfold buf_size in Ha. rewrite (proj2 (Z.ltb_ge _ _)) in Ha by done.
  apply (msort_spec _ C Comparison0 (fun _ => True) (fun _ => True) (fun _ => True) (direct_width b s buf));
    cbn [msort_s msort_t]; try done; try lia.
  - split; [|done]. intros m1 p q _ _ _. rewrite direct_call. apply Hc.
  - apply list.Forall_forall. done.
  - unfold range. lia.
Qed.

Lemma qsort_spec tmp malloc m b n s buf : buf_of tmp malloc n s = Some buf -> sortable b n s buf ->
  exists m', qsort tmp malloc cmp m b n s = Some m' /\ stable_sort C (arr m b s n) (arr m' b s n) /\
  same_except (fun q => range b (n * s) q \/ range buf (buf_size n s) q) m m'.
Proof using Comparison0.
  intros Eb S. pose proof S as [Hc Hs Hn Hp Ha]. unfold qsort, __qsort_r. destruct (Z.leb_spec n 1) as [L|L].
  { exists m. split; [done|]. split; [|done]. apply stable_sort_short. rewrite arr_length. lia. }
  fold (buf_size n s). unfold buf_of in Eb. rewrite Eb.
  destruct (Z.ltb_spec INDIRECT_SORT_SIZE_THRES s) as [Ls|Ls].
  - unfold buf_size in *. rewrite (proj2 (Z.ltb_lt _ _)) in * by done.
    apply (indirect_spec C cmp m b s n buf Hc Hs Hn Hp). lia.
  - unfold buf_size in *. rewrite (proj2 (Z.ltb_ge _ _)) in * by done.
    apply direct_spec; [|done]. constructor; [done..|]. unfold buf_size. by rewrite (proj2 (Z.ltb_ge _ _)) by done.
Qed.

(** C4: with a buffer, on the stack or from [malloc], [qsort] terminates and
    leaves the stable sort of the array, for every element size; it writes
    only the array and the buffer.  The manual ([manual/search.texi]) still warns
    that the sorting is not stable: programs must not rely on this property of
    the merge sort, which the heap sort used without a buffer does not have. *)
Theorem qsort_stable tmp malloc m b n s buf : buf_of tmp malloc n s = Some buf -> sortable b n s buf ->
  exists m', qsort tmp malloc cmp m b n s = Some m' /\
  arr m' b s n ≡ₚ arr m b s n /\ sorted C (arr m' b s n) /\
  (forall x, filter (eqv C x) (arr m' b s n) = filter (eqv C x) (arr m b s n)) /\
  (forall q, ~ range b (n * s) q -> ~ range buf (buf_size n s) q -> m' q = m q).
Proof using Comparison0.
  intros Eb S. destruct (qsort_spec tmp malloc m b n s buf Eb S) as (m' & E & (P & So & F) & SE).
  exists m'. split; [done|]. split; [done|]. split; [done|]. split; [done|].
  intros q H1 H2. symmetry. apply SE. tauto.
Qed.

(** C37: without memory for a large array, [qsort] sorts it in place by heap
    sort: the result is a sorted permutation and no other byte changes. *)
Theorem qsort_without_memory tmp m b n s : QSORT_STACK_SIZE < buf_size n s ->
  (forall m p q, cmp m p q = C (elem m p s) (elem m q s)) -> 0 < s -> 1 < n < 2 ^ 63 ->
  exists m', qsort tmp None cmp m b n s = Some m' /\
  arr m' b s n ≡ₚ arr m b s n /\ sorted C (arr m' b s n) /\ (forall q, ~ range b (n * s) q -> m' q = m q).
Proof using Comparison0.
  intros L Hc Hs Hn. unfold qsort, __qsort_r. rewrite (proj2 (Z.leb_gt n 1)) by lia.
  fold (buf_size n s). rewrite (proj2 (Z.leb_gt _ _)) by done.
  destruct (heapsort_spec C cmp m b (n - 1) s Hc Hs ltac:(lia)) as (m' & E & So & P & SE).
  rewrite Z.sub_add in *. exists m'. split; [done|]. split; [done|]. split; [done|].
  intros q Hq. symmetry. by apply SE.
Qed.

(** the order [qsort] produces does not depend on where the array and the
    buffer are, how they are aligned or which copying and swapping routines
    that selects. *)
Theorem qsort_layout_independent tmp1 malloc1 m1 b1 buf1 tmp2 malloc2 m2 b2 buf2 n s :
  buf_of tmp1 malloc1 n s = Some buf1 -> sortable b1 n s buf1 ->
  buf_of tmp2 malloc2 n s = Some buf2 -> sortable b2 n s buf2 ->
  arr m1 b1 s n = arr m2 b2 s n ->
  exists m1' m2', qsort tmp1 malloc1 cmp m1 b1 n s = Some m1' /\ qsort tmp2 malloc2 cmp m2 b2 n s = Some m2' /\
  arr m1' b1 s n = arr m2' b2 s n.
Proof using Comparison0.
  intros E1 S1 E2 S2 Ea. destruct (qsort_spec tmp1 malloc1 m1 b1 n s buf1 E1 S1) as (m1' & Q1 & T1 & _).
  destruct (qsort_spec tmp2 malloc2 m2 b2 n s buf2 E2 S2) as (m2' & Q2 & T2 & _).
  exists m1', m2'. split; [done|]. split; [done|]. rewrite Ea in T1.
  by apply (stable_sort_unique C (arr m2 b2 s n)).
Qed.
End Theorems.

(** ** Witnesses: elements compared by their first byte *)

Definition w_cmp (m : bytes) (p q : Z) : Z := m p - m q.
Definition w_C (x y : list Z) : Z := nth 0 x 0 - nth 0 y 0.

#[export] Instance w_comparison : Comparison w_C.
Proof. split; unfold w_C; intros; lia. Qed.

Definition w_bytes (s : nat) (l : list Z) : bytes := fun q => nth (Z.to_nat q) (concat (map (fun x => replicate s x) l)) 0.

Definition w_keys : list Z := [5; 3; 9; 1; 7; 3; 2].

Lemma w_sortable_4 : sortable w_C w_cmp 0 7 4 1000.
Proof. constructor; [done|lia|lia| |left; by vm_compute]. intros i Hi. unfold ptr_ok. simpl. lia. Qed.

Lemma w_sortable_40 : sortable w_C w_cmp 0 7 40 1000.
Proof. constructor; [done|lia|lia| |left; by vm_compute]. intros i Hi. unfold ptr_ok. simpl. lia. Qed.

Lemma qsort_stable_witness :
  exists m', qsort 1000 None w_cmp (w_bytes 40 w_keys) 0 7 40 = Some m' /\
  arr m' 0 40 7 ≡ₚ arr (w_bytes 40 w_keys) 0 40 7 /\ sorted w_C (arr m' 0 40 7).
Proof.
  destruct (qsort_stable w_C w_cmp 1000 None (w_bytes 40 w_keys) 0 7 40 1000)
    as (m' & E & P & S & _); [by vm_compute|exact w_sortable_40|].
  exists m'. split; [exact E|]. split; [exact P|exact S].
Defined.

Lemma qsort_without_memory_witness :
  exists m', qsort 5000 None w_cmp (w_bytes 300 w_keys) 0 7 1000 = Some m' /\
  arr m' 0 1000 7 ≡ₚ arr (w_bytes 300 w_keys) 0 1000 7.
Proof.
  destruct (qsort_without_memory w_C w_cmp 5000 (w_bytes 300 w_keys) 0 7 1000)
    as (m' & E & P & _); [by vm_compute|done|lia|lia|].
  exists m'. split; [exact E|exact P].
Defined.

Lemma qsort_layout_independent_witness :
  exists m1' m2', qsort 1000 None w_cmp (w_bytes 4 w_keys) 0 7 4 = Some m1' /\
  qsort 1000 None w_cmp (fun q => w_bytes 4 w_keys (q - 1)) 1 7 4 = Some m2' /\
  arr m1' 0 4 7 = arr m2' 1 4 7.
Proof.
  apply (qsort_layout_independent w_C w_cmp 1000 None (w_bytes 4 w_keys) 0 1000 1000 None
    (fun q => w_bytes 4 w_keys (q - 1)) 1 1000 7 4).
  - by vm_compute.
  - exact w_sortable_4.
  - by vm_compute.
  - constructor; [done|lia|lia| |left; by vm_compute]. intros i Hi. unfold ptr_ok. simpl. lia.
  - by vm_compute.
Defined.
