(* ===== verification/Random.v ===== *)
(** * Random numbers: [stdlib/random_r.c], [stdlib/random.c], [stdlib/rand_r.c]

    The state arrays live in a memory of 32-bit words; a pointer to [int32_t]
    is a word address and [NULL] is 0.  Every operation takes and returns the
    memory and the [struct random_data]; the error number it sets is part of
    its result.  The functions of [random.c] work on one static [random_data]
    under a lock and are modelled as the sequential operations they are
    between [lock] and [unlock]. *)

From S2P Require Import Prelude.

Abbreviation words := (Z -> Z).

Definition wset (m : words) (p v : Z) : words := fun q => if q =? p then v else m q.

(** Conversions to [int32_t] and [uint32_t]. *)
Definition int32 (x : Z) : Z := (x + 2 ^ 31) mod 2 ^ 32 - 2 ^ 31.
Definition uint32 (x : Z) : Z := x mod 2 ^ 32.

(** ** The kinds of generators *)

Definition TYPE_0 : Z := 0.
Definition BREAK_0 : Z := 8.
Definition TYPE_1 : Z := 1.
Definition BREAK_1 : Z := 32.
Definition TYPE_2 : Z := 2.
Definition BREAK_2 : Z := 64.
Definition TYPE_3 : Z := 3.
Definition BREAK_3 : Z := 128.
Definition TYPE_4 : Z := 4.
Definition BREAK_4 : Z := 256.
Definition MAX_TYPES : Z := 5.

Definition DEG_0 : Z := 0.
Definition DEG_1 : Z := 7.
Definition DEG_2 : Z := 15.
Definition DEG_3 : Z := 31.
Definition DEG_4 : Z := 63.
Definition SEP_0 : Z := 0.
Definition SEP_1 : Z := 3.
Definition SEP_2 : Z := 1.
Definition SEP_3 : Z := 3.
Definition SEP_4 : Z := 1.

(** [random_poly_info], indexed with a type below [MAX_TYPES]. *)
Definition seps (type : Z) : Z := nth (Z.to_nat type) [SEP_0; SEP_1; SEP_2; SEP_3; SEP_4] 0.
Definition degrees (type : Z) : Z := nth (Z.to_nat type) [DEG_0; DEG_1; DEG_2; DEG_3; DEG_4] 0.

Record random_data := mkData {
  fptr : Z; rptr : Z; state : Z; rand_type : Z; rand_deg : Z; rand_sep : Z; end_ptr : Z }.

Inductive errno := EINVAL.

(** ** One random number *)

(** The step of a generator that is not linear congruential. *)
Definition feedback (m : words) (buf : random_data) : Z * words * random_data :=
  let val := int32 (m (fptr buf) + uint32 (m (rptr buf))) in
  let m := wset m (fptr buf) val in
  let result := Z.shiftr (uint32 val) 1 in
  let f := fptr buf + 1 in
  let '(f, r) :=
    if end_ptr buf <=? f then (state buf, rptr buf + 1)
    else let r := rptr buf + 1 in (f, if end_ptr buf <=? r then state buf else r) in
  (result, m, mkData f r (state buf) (rand_type buf) (rand_deg buf) (rand_sep buf) (end_ptr buf)).

(** [random_r]: the return value, the error, [*result], and the new memory
    and data.  [result] tells whether the pointer for the result is there. *)
Definition __random_r (m : words) (buf : option random_data) (result : bool)
  : Z * option errno * Z * words * option random_data :=
  match buf with
  | Some d =>
    if result then
      if rand_type d =? TYPE_0 then
        let val := Z.land (uint32 (uint32 (m (state d)) * 1103515245 + 12345)) 0x7fffffff in
        (0, None, val, wset m (state d) val, Some d)
      else let '(r, m, d) := feedback m d in (0, None, r, m, Some d)
    else (-1, Some EINVAL, 0, m, buf)
  | None => (-1, Some EINVAL, 0, m, None)
  end.

(** ** Seeding *)

(** [word = 16807 * word % 2147483647] without overflowing 31 bits; [/] and
    [%] truncate. *)
Definition next_word (word : Z) : Z :=
  let hi := Z.quot word 127773 in
  let lo := Z.rem word 127773 in
  let word := int32 (16807 * lo - 2836 * hi) in
  if word <? 0 then int32 (word + 2147483647) else word.

(** [for (i = 1; i < kc; ++i)], [k] rounds. *)
Fixpoint seed_loop (k : nat) (m : words) (dst word : Z) : words :=
  match k with
  | O => m
  | S k => let word := next_word word in seed_loop k (wset m (dst + 1) word) (dst + 1) word
  end.

(** [while (--kc >= 0)], [k] rounds. *)
Fixpoint discard_loop (k : nat) (m : words) (d : random_data) : words * random_data :=
  match k with
  | O => (m, d)
  | S k => match __random_r m (Some d) true with
           | (_, _, _, m, Some d) => discard_loop k m d
           | (_, _, _, m, None) => (m, d)
           end
  end.

Definition __srandom_r (m : words) (seed : Z) (buf : option random_data)
  : Z * words * option random_data :=
  match buf with
  | None => (-1, m, None)
  | Some d =>
    let type := rand_type d in
    if MAX_TYPES <=? uint32 type then (-1, m, buf) else
    let state := state d in
    let seed := if seed =? 0 then 1 else seed in
    let m := wset m state (int32 seed) in
    if type =? TYPE_0 then (0, m, buf) else
    let m := seed_loop (Z.to_nat (rand_deg d - 1)) m state (int32 seed) in
    let d := mkData (state + rand_sep d) state state type (rand_deg d) (rand_sep d) (end_ptr d) in
    let '(m, d) := discard_loop (Z.to_nat (rand_deg d * 10)) m d in
    (0, m, Some d)
  end.

(** ** Switching states *)

(** The word before the state array: the type and the rear position. *)
Definition save_state (m : words) (d : random_data) : words :=
  wset m (state d - 1)
    (if rand_type d =? TYPE_0 then TYPE_0
     else int32 (MAX_TYPES * (rptr d - state d) + rand_type d)).

(** The generator for [n] bytes of state. *)
Definition choose_type (n : Z) : option Z :=
  if BREAK_3 <=? n then Some (if n <? BREAK_4 then TYPE_3 else TYPE_4)
  else if n <? BREAK_1 then if n <? BREAK_0 then None else Some TYPE_0
  else Some (if n <? BREAK_2 then TYPE_1 else TYPE_2).

Definition __initstate_r (m : words) (seed arg_state n : Z) (buf : option random_data)
  : Z * option errno * words * option random_data :=
  match buf with
  | None => (-1, Some EINVAL, m, None)
  | Some d =>
    let m := if state d =? 0 then m else save_state m d in
    match choose_type n with
    | None => (-1, Some EINVAL, m, buf)
    | Some type =>
      let degree := degrees type in
      let separation := seps type in
      let state := arg_state + 1 in
      let d := mkData (fptr d) (rptr d) state type degree separation (state + degree) in
      let '(_, m, buf) := __srandom_r m seed (Some d) in
      match buf with
      | None => (-1, None, m, None)
      | Some d =>
        let m := wset m (state - 1) TYPE_0 in
        let m := if type =? TYPE_0 then m
                 else wset m (state - 1) (int32 ((rptr d - state) * MAX_TYPES + type)) in
        (0, None, m, Some d)
      end
    end
  end.

Definition __setstate_r (m : words) (arg_state : Z) (buf : option random_data)
  : Z * option errno * words * option random_data :=
  match buf with
  | None => (-1, Some EINVAL, m, None)
  | Some d =>
    if arg_state =? 0 then (-1, Some EINVAL, m, buf) else
    let new_state := 1 + arg_state in
    let m := save_state m d in
    let type := Z.rem (m (new_state - 1)) MAX_TYPES in
    if (type <? TYPE_0) || (TYPE_4 <? type) then (-1, Some EINVAL, m, buf) else
    let degree := degrees type in
    let separation := seps type in
    let '(f, r) :=
      if type =? TYPE_0 then (fptr d, rptr d)
      else let rear := Z.quot (m (new_state - 1)) MAX_TYPES in
           (new_state + Z.rem (rear + separation) degree, new_state + rear) in
    (0, None, m, Some (mkData f r new_state type degree separation (new_state + degree)))
  end.

(** ** The static generator of [random.c] *)

(** [randtbl], at the address [tbl]. *)
Definition randtbl_words : list Z :=
  [TYPE_3;
   -1726662223; 379960547; 1735697613; 1040273694; 1313901226;
   1627687941; -179304937; -2073333483; 1780058412; -1989503057;
   -615974602; 344556628; 939512070; -1249116260; 1507946756;
   -812545463; 154635395; 1388815473; -1926676823; 525320961;
   -1009028674; 968117788; -123449607; 1284210865; 435012392;
   -2017506339; -911064859; -370259173; 1132637927; 1398500161;
   -205601318].

Definition unsafe_state (randtbl : Z) : random_data :=
  mkData (randtbl + (SEP_3 + 1)) (randtbl + 1) (randtbl + 1) TYPE_3 DEG_3 SEP_3
         (randtbl + Z.of_nat (length randtbl_words)).

(** The state of the package: the memory and [unsafe_state]. *)
Record package := mkPackage { pk_mem : words; pk_data : random_data }.

Definition __srandom (g : package) (x : Z) : package :=
  match __srandom_r (pk_mem g) x (Some (pk_data g)) with
  | (_, m, Some d) => mkPackage m d
  | (_, m, None) => mkPackage m (pk_data g)
  end.

Definition __initstate (g : package) (seed arg_state n : Z) : Z * option errno * package :=
  let ostate := state (pk_data g) - 1 in
  match __initstate_r (pk_mem g) seed arg_state n (Some (pk_data g)) with
  | (ret, e, m, Some d) => (if ret =? -1 then 0 else ostate, e, mkPackage m d)
  | (ret, e, m, None) => (0, e, mkPackage m (pk_data g))
  end.

Definition __setstate (g : package) (arg_state : Z) : Z * option errno * package :=
  let ostate := state (pk_data g) - 1 in
  match __setstate_r (pk_mem g) arg_state (Some (pk_data g)) with
  | (ret, e, m, Some d) => (if ret <? 0 then 0 else ostate, e, mkPackage m d)
  | (ret, e, m, None) => (0, e, mkPackage m (pk_data g))
  end.

Definition __random (g : package) : Z * package :=
  match __random_r (pk_mem g) (Some (pk_data g)) true with
  | (_, _, retval, m, Some d) => (retval, mkPackage m d)
  | (_, _, retval, m, None) => (retval, mkPackage m (pk_data g))
  end.

(** ** [rand_r] *)

Definition rand_r (seed : Z) : Z * Z :=
  let next := uint32 (uint32 (seed * 1103515245) + 12345) in
  let result := (next / 65536) mod 2048 in
  let next := uint32 (uint32 (next * 1103515245) + 12345) in
  let result := Z.lxor (Z.shiftl result 10) ((next / 65536) mod 1024) in
  let next := uint32 (uint32 (next * 1103515245) + 12345) in
  let result := Z.lxor (Z.shiftl result 10) ((next / 65536) mod 1024) in
  (result, next).
