(* ===== verification/RandomTheorems.v ===== *)
(** * What the random number generators compute

    [lagged] is the abstract generator: a window of the last [deg] words, each
    new word the sum of the oldest and of the one [sep] places back
    ([x^deg + x^sep + 1]).  [random_r] implements it on a circular array with
    two pointers; [srandom_r] fills the window by the minimal standard
    generator modulo [2^31 - 1]; [setstate_r] resumes a generator where it
    was left. *)

From S2P Require Import Prelude Random.

Definition M31 : Z := 2147483647.

(** ** The abstract generator *)

Definition lagged (sep : Z) (w : list Z) : Z * list Z :=
  let v := (nth 0 w 0 + nth (Z.to_nat (Z.of_nat (length w) - sep)) w 0) mod 2 ^ 32 in
  (v / 2, tl w ++ [v]).

Fixpoint lagged_seq (k : nat) (sep : Z) (w : list Z) : list Z * list Z :=
  match k with
  | O => ([], w)
  | S k => let (r, w) := lagged sep w in let (l, w) := lagged_seq k sep w in (r :: l, w)
  end.

(** ** The invariant of the pointers *)

Record gen_ok (d : random_data) : Prop := {
  go_type : 1 <= rand_type d <= 4;
  go_deg : rand_deg d = degrees (rand_type d);
  go_sep : rand_sep d = seps (rand_type d);
  go_end : end_ptr d = state d + rand_deg d;
  go_rptr : state d <= rptr d < end_ptr d;
  go_fptr : fptr d = state d + (rptr d - state d + rand_sep d) mod rand_deg d }.

Lemma gen_bounds d : gen_ok d -> 1 <= rand_sep d < rand_deg d /\ rand_deg d <= 63.
Proof.
  intros [T -> -> _ _ _]. assert (E : rand_type d = 1 \/ rand_type d = 2 \/ rand_type d = 3 \/ rand_type d = 4) by lia.
  destruct E as [->|[->|[->| ->]]]; by vm_compute.
Qed.

(** The words of the array, oldest first. *)
Definition window (m : words) (d : random_data) : list Z :=
  map (fun k => uint32 (m (state d + (rptr d - state d + rand_sep d + k) mod rand_deg d)))
      (seqZ 0 (rand_deg d)).

Definition same_generator (d d' : random_data) : Prop :=
  state d' = state d /\ rand_type d' = rand_type d /\ rand_deg d' = rand_deg d /\
  rand_sep d' = rand_sep d /\ end_ptr d' = end_ptr d.

Lemma mod_once y n : 0 <= y < 2 * n -> y mod n = if y <? n then y else y - n.
Proof.
  intros H. destruct (Z.ltb_spec y n); [apply Z.mod_small; lia|].
  rewrite <- (Z_mod_plus_full y (-1)). apply Z.mod_small. lia.
Qed.

(** The pointers stay [rand_sep] apart: not testing the rear pointer when the
    front one wraps is right. *)
Lemma pointers_next s n p x : 0 <= x < n -> 1 <= p < n ->
  (let f := s + (x + p) mod n + 1 in
   if s + n <=? f then (s, s + x + 1)
   else let r := s + x + 1 in (f, if s + n <=? r then s else r))
  = (s + ((x + 1) mod n + p) mod n, s + (x + 1) mod n).
Proof.
  intros Hx Hp. cbv zeta. rewrite (mod_once (x + p)), (mod_once (x + 1)) by lia.
  destruct (Z.ltb_spec (x + 1) n) as [L|L].
  - rewrite (mod_once (x + 1 + p)) by lia. bool_cases; try lia; f_equal; lia.
  - replace (x + 1 - n + p) with p by lia. rewrite (Z.mod_small p) by lia. bool_cases; try lia; f_equal; lia.
Qed.

Lemma feedback_next m d : gen_ok d ->
  exists d', let val := int32 (m (fptr d) + uint32 (m (rptr d))) in
  feedback m d = (uint32 val / 2, wset m (fptr d) val, d') /\ same_generator d d' /\
  rptr d' - state d = (rptr d - state d + 1) mod rand_deg d /\ gen_ok d'.
Proof.
  intros G. pose proof (gen_bounds d G) as [S D]. destruct G as [T Ed Es Ee Er Ef]. rewrite Ee in Er.
  pose proof (pointers_next (state d) (rand_deg d) (rand_sep d) (rptr d - state d) ltac:(lia) S) as P.
  cbv zeta in P. rewrite <- Ef, <- Ee in P. replace (state d + (rptr d - state d)) with (rptr d) in P by lia.
  unfold feedback. cbv zeta. rewrite P. rewrite Z.shiftr_div_pow2 by lia.
  pose proof (Z.mod_pos_bound (rptr d - state d + 1) (rand_deg d) ltac:(lia)).
  eexists. split; [done|]. split; [done|]. cbn [rptr].
  split; [lia|]. constructor; cbn [rand_type rand_deg rand_sep end_ptr state rptr fptr]; [done..|lia|].
  f_equal. f_equal. lia.
Qed.

(** ** [random_r] implements [lagged] *)

Lemma uint32_int32 x : uint32 (int32 x) = uint32 x.
Proof.
  unfold uint32, int32. rewrite Zminus_mod_idemp_l. f_equal. lia.
Qed.

Lemma uint32_sum a b : uint32 (int32 (a + uint32 b)) = (uint32 a + uint32 b) mod 2 ^ 32.
Proof. rewrite uint32_int32. unfold uint32. by rewrite Z.add_mod_idemp_r, <- Zplus_mod by lia. Qed.

Lemma window_length m d : length (window m d) = Z.to_nat (rand_deg d).
Proof. unfold window. by rewrite length_map, length_seqZ. Qed.

Lemma window_lookup m d k : 0 <= k < rand_deg d -> window m d !! Z.to_nat k =
  Some (uint32 (m (state d + (rptr d - state d + rand_sep d + k) mod rand_deg d))).
Proof.
  intros Hk. unfold window. rewrite list_lookup_fmap. rewrite lookup_seqZ_lt by lia. simpl.
  by rewrite Z2Nat.id by lia.
Qed.

Lemma window_nth m d k : 0 <= k < rand_deg d -> nth (Z.to_nat k) (window m d) 0 =
  uint32 (m (state d + (rptr d - state d + rand_sep d + k) mod rand_deg d)).
Proof. intros Hk. by apply nth_lookup_Some, window_lookup. Qed.

Lemma window_head m d : 0 < rand_deg d ->
  nth 0 (window m d) 0 = uint32 (m (state d + (rptr d - state d + rand_sep d) mod rand_deg d)).
Proof. intros Hd. pose proof (window_nth m d 0 ltac:(lia)) as W. by rewrite Z.add_0_r in W. Qed.

Lemma window_next m d d' : gen_ok d -> same_generator d d' ->
  rptr d' - state d = (rptr d - state d + 1) mod rand_deg d ->
  window (wset m (fptr d) (int32 (m (fptr d) + uint32 (m (rptr d))))) d' = snd (lagged (rand_sep d) (window m d)).
Proof.
  intros G (Es & _ & Ed & Ep & _) Er. pose proof (gen_bounds d G) as [Sp _].
  unfold lagged. cbn [snd]. rewrite window_length, Z2Nat.id by lia.
  set (n := rand_deg d) in *. set (p := rand_sep d) in *. set (s := state d) in *. set (x := rptr d - s) in *.
  assert (Hx : 0 <= x < n) by (destruct G as [_ _ _ Ee Hr _]; rewrite Ee in Hr; lia).
  assert (Ef : fptr d = s + (x + p) mod n) by apply G.
  rewrite window_head, window_nth by (fold n; lia). fold n p s x.
  replace ((x + p + (n - p)) mod n) with x
    by (replace (x + p + (n - p)) with (x + 1 * n) by lia; rewrite Z_mod_plus_full; symmetry; apply Z.mod_small; lia).
  replace (s + x) with (rptr d) by lia. rewrite <- Ef, <- uint32_sum.
  set (val := int32 _). apply list_eq_same_length with (Z.to_nat n).
  { rewrite length_app, length_tl, window_length. cbn [length]. fold n. lia. }
  { by rewrite window_length, Ed. }
  intros i u v Hi Hu Hv. rewrite <- (Nat2Z.id i), window_lookup in Hu by lia.
  rewrite Es, Ed, Ep, Er in Hu. fold n in Hu. rewrite <- Z.add_assoc, Zplus_mod_idemp_l in Hu.
  replace (x + 1 + (p + Z.of_nat i)) with (x + p + (Z.of_nat i + 1)) in Hu by lia.
  destruct (decide (Z.of_nat i + 1 < n)) as [L|L].
  - rewrite lookup_app_l in Hv by (rewrite length_tl, window_length; fold n; lia).
    rewrite lookup_tail, <- (Nat2Z.id (S i)), window_lookup in Hv by (fold n; lia). fold n s p x in Hv.
    replace (Z.of_nat (S i)) with (Z.of_nat i + 1) in Hv by lia. unfold wset in Hu.
    rewrite (proj2 (Z.eqb_neq _ _)) in Hu; [congruence|]. rewrite Ef. intros E.
    assert (E' : (x + p + (Z.of_nat i + 1)) mod n = (x + p) mod n) by lia.
    rewrite <- (Z.add_0_r (x + p)) in E' at 2. rewrite (Zplus_mod _ (Z.of_nat i + 1)), (Zplus_mod _ 0) in E'.
    rewrite (Z.mod_small (Z.of_nat i + 1)), (Z.mod_small 0) in E' by lia.
    pose proof (Z.mod_pos_bound (x + p) n ltac:(lia)) as By. revert By E'. generalize ((x + p) mod n).
    intros y By. rewrite !mod_once by lia. bool_cases; lia.
  - rewrite lookup_app_r in Hv by (rewrite length_tl, window_length; fold n; lia).
    rewrite length_tl, window_length in Hv. fold n in Hv. replace (i - _)%nat with O in Hv by lia.
    injection Hv as <-. replace (x + p + (Z.of_nat i + 1)) with (x + p + 1 * n) in Hu by lia.
    rewrite Z_mod_plus_full, <- Ef in Hu. unfold wset in Hu. rewrite Z.eqb_refl in Hu. congruence.
Qed.

Lemma random_r_step m d : gen_ok d ->
  exists r m' d', __random_r m (Some d) true = (0, None, r, m', Some d') /\
  (r, window m' d') = lagged (rand_sep d) (window m d) /\ gen_ok d' /\ same_generator d d' /\
  rptr d' - state d = (rptr d - state d + 1) mod rand_deg d /\
  (forall q, q < state d \/ end_ptr d <= q -> m' q = m q).
Proof.
  intros G. pose proof (gen_bounds d G) as [Sp _]. destruct (feedback_next m d G) as (d' & E & Sg & Er & G').
  set (val := int32 _) in E. exists (uint32 val / 2), (wset m (fptr d) val), d'.
  unfold __random_r. rewrite (proj2 (Z.eqb_neq (rand_type d) TYPE_0)) by (destruct G; unfold TYPE_0; lia).
  rewrite E. split; [done|]. split; [|split; [done|split; [done|split; [done|]]]].
  - subst val. rewrite (window_next m d d' G Sg Er). unfold lagged. cbn [fst snd]. f_equal. f_equal. rewrite uint32_sum.
    rewrite window_length, Z2Nat.id by lia. rewrite window_head, window_nth by lia.
    destruct G as [_ _ _ Ee Hr Ef]. rewrite Ee in Hr. rewrite <- Ef. do 4 f_equal.
    replace (rptr d - state d + rand_sep d + (rand_deg d - rand_sep d)) with (rptr d - state d + 1 * rand_deg d) by lia.
    rewrite Z_mod_plus_full, Z.mod_small by lia. lia.
  - intros q Hq. unfold wset. rewrite (proj2 (Z.eqb_neq _ _)); [done|].
    destruct G as [_ _ _ Ee Hr Ef]. pose proof (Z.mod_pos_bound (rptr d - state d + rand_sep d) (rand_deg d)). lia.
Qed.

(** [k] calls of [random_r]. *)
Fixpoint draws (k : nat) (m : words) (d : random_data) : list Z * words * random_data :=
  match k with
  | O => ([], m, d)
  | S k => match __random_r m (Some d) true with
           | (_, _, r, m, Some d) => let '(l, m, d) := draws k m d in (r :: l, m, d)
           | (_, _, _, m, None) => ([], m, d)
           end
  end.

Lemma same_generator_trans d1 d2 d3 : same_generator d1 d2 -> same_generator d2 d3 -> same_generator d1 d3.
Proof. unfold same_generator. intuition congruence. Qed.

Lemma draws_spec k m d : gen_ok d ->
  let '(l, m', d') := draws k m d in
  lagged_seq k (rand_sep d) (window m d) = (l, window m' d') /\ gen_ok d' /\ same_generator d d' /\
  rptr d' - state d = (rptr d - state d + Z.of_nat k) mod rand_deg d /\
  (forall q, q < state d \/ end_ptr d <= q -> m' q = m q).
Proof.
  revert m d. induction k as [|k IH]; intros m d G; cbn [draws lagged_seq].
  { split; [done|]. split; [done|]. split; [done|]. split; [|done]. rewrite Z.add_0_r.
    destruct G as [_ _ _ Ee Hr _]. symmetry. apply Z.mod_small. lia. }
  destruct (random_r_step m d G) as (r & m1 & d1 & -> & E1 & G1 & S1 & R1 & F1). rewrite <- E1.
  specialize (IH m1 d1 G1). destruct (draws k m1 d1) as [[l m2] d2]. destruct IH as (E2 & G2 & S2 & R2 & F2).
  pose proof S1 as (Es & _ & Ed & Ep & Ee). rewrite Ep in E2. rewrite E2.
  split; [done|]. split; [done|]. split; [by eapply same_generator_trans|]. split.
  - rewrite Es, Ed, R1 in R2. rewrite R2. rewrite Zplus_mod_idemp_l. f_equal. lia.
  - intros q Hq. rewrite F2 by (rewrite Es, Ee; done). by apply F1.
Qed.

(** ** Seeding *)

Lemma int32_small x : - 2 ^ 31 <= x < 2 ^ 31 -> int32 x = x.
Proof. intros H. unfold int32. rewrite Z.mod_small by lia. lia. Qed.

Lemma int32_range x : - 2 ^ 31 <= int32 x < 2 ^ 31.
Proof. unfold int32. pose proof (Z.mod_pos_bound (x + 2 ^ 31) (2 ^ 32)). lia. Qed.

(** Schrage's decomposition: [2^31 - 1 = 16807 * 127773 + 2836]. *)
Lemma next_word_spec w : - 2 ^ 31 <= w < 2 ^ 31 -> next_word w = (16807 * w) mod M31.
Proof.
  intros Hw. unfold next_word. pose proof (Z.quot_rem w 127773 ltac:(lia)) as E.
  set (hi := Z.quot w 127773) in *. set (lo := Z.rem w 127773) in *.
  assert (B : - M31 < 16807 * lo - 2836 * hi < M31).
  { unfold M31. destruct (Z.le_gt_cases 0 w) as [P|P].
    - pose proof (Z.rem_bound_pos w 127773 ltac:(lia) ltac:(lia)) as R. fold lo in R. lia.
    - pose proof (Z.rem_bound_pos_neg w 127773 ltac:(lia) ltac:(lia)) as R. fold lo in R. lia. }
  unfold M31 in *. cbv zeta. rewrite int32_small by lia.
  replace (16807 * w) with (16807 * lo - 2836 * hi + hi * 2147483647) by lia. rewrite Z_mod_plus_full.
  destruct (Z.ltb_spec (16807 * lo - 2836 * hi) 0) as [L|L].
  - rewrite int32_small by lia. rewrite <- (Z_mod_plus_full _ 1), Z.mod_small by lia. lia.
  - by rewrite Z.mod_small by lia.
Qed.

(** The word [i] of the array seeded with [s]. *)
Definition seed_word (s i : Z) : Z := if i =? 0 then s else (16807 ^ i * s) mod M31.

Lemma seed_loop_spec k m dst w : - 2 ^ 31 <= w < 2 ^ 31 ->
  let m' := seed_loop k m dst w in
  (forall i, 1 <= i <= Z.of_nat k -> m' (dst + i) = (16807 ^ i * w) mod M31) /\
  (forall q, q <= dst \/ dst + Z.of_nat k < q -> m' q = m q).
Proof.
  revert m dst w. induction k as [|k IH]; intros m dst w Hw; cbn [seed_loop]; [split; [lia|done]|].
  rewrite next_word_spec by done. set (w' := (16807 * w) mod M31).
  assert (Hw' : - 2 ^ 31 <= w' < 2 ^ 31).
  { subst w'. pose proof (Z.mod_pos_bound (16807 * w) M31 ltac:(done)). unfold M31 in *. lia. }
  destruct (IH (wset m (dst + 1) w') (dst + 1) w' Hw') as [V F]. split.
  - intros i Hi. destruct (decide (i = 1)) as [->|].
    + rewrite F by lia. unfold wset. by rewrite Z.eqb_refl.
    + replace (dst + i) with (dst + 1 + (i - 1)) by lia. rewrite V by lia. subst w'.
      rewrite Zmult_mod_idemp_r. f_equal. rewrite Z.mul_assoc. f_equal.
      replace i with (Z.succ (i - 1)) at 2 by lia.
      rewrite Z.pow_succ_r by lia. lia.
  - intros q Hq. rewrite F by lia. unfold wset. by rewrite (proj2 (Z.eqb_neq _ _)) by lia.
Qed.

Lemma discard_draws k m d : discard_loop k m d = (snd (fst (draws k m d)), snd (draws k m d)).
Proof.
  revert m d. induction k as [|k IH]; intros m d; cbn [discard_loop draws]; [done|].
  destruct (__random_r m (Some d) true) as [[[[? ?] ?] m1] [d1|]]; [|done].
  rewrite IH. by destruct (draws k m1 d1) as [[? ?] ?].
Qed.

(** The fields [initstate_r] sets before seeding. *)
Definition shape_ok (d : random_data) : Prop :=
  1 <= rand_type d <= 4 /\ rand_deg d = degrees (rand_type d) /\ rand_sep d = seps (rand_type d) /\
  end_ptr d = state d + rand_deg d.

Definition seed_value (seed : Z) : Z := int32 (if seed =? 0 then 1 else seed).

(** The window before the first numbers are discarded. *)
Definition seed_window (seed deg sep : Z) : list Z :=
  map (fun k => uint32 (seed_word (seed_value seed) ((sep + k) mod deg))) (seqZ 0 deg).

Lemma srandom_r_spec m seed d : shape_ok d ->
  exists m' d', __srandom_r m seed (Some d) = (0, m', Some d') /\ gen_ok d' /\ same_generator d d' /\
  rptr d' = state d /\
  window m' d' = snd (lagged_seq (Z.to_nat (10 * rand_deg d)) (rand_sep d) (seed_window seed (rand_deg d) (rand_sep d))) /\
  (forall q, q < state d \/ end_ptr d <= q -> m' q = m q).
Proof.
  intros (T & Ed & Es & Ee). unfold __srandom_r. unfold MAX_TYPES, uint32. rewrite Z.mod_small by lia.
  rewrite (proj2 (Z.leb_gt _ _)), (proj2 (Z.eqb_neq _ _)) by (unfold TYPE_0; lia).
  fold (seed_value seed). set (m1 := seed_loop _ _ _ _). set (d1 := mkData _ _ _ _ _ _ _).
  assert (B : 1 <= rand_sep d < rand_deg d).
  { rewrite Ed, Es. assert (E : rand_type d = 1 \/ rand_type d = 2 \/ rand_type d = 3 \/ rand_type d = 4) by lia.
    destruct E as [->|[->|[->| ->]]]; by vm_compute. }
  assert (G1 : gen_ok d1).
  { constructor; unfold d1; cbn [rand_type rand_deg rand_sep end_ptr state rptr fptr]; [done..|lia|].
    rewrite Z.sub_diag, Z.add_0_l, Z.mod_small by lia. done. }
  destruct (seed_loop_spec (Z.to_nat (rand_deg d - 1)) (wset m (state d) (seed_value seed)) (state d) (seed_value seed)
    (int32_range _)) as [V F]. fold m1 in V, F. rewrite Z2Nat.id in V, F by lia.
  assert (W : window m1 d1 = seed_window seed (rand_deg d) (rand_sep d)).
  { unfold window, seed_window, d1. cbn [rand_deg state rptr rand_sep]. apply map_ext. intros k. f_equal.
    rewrite Z.sub_diag, Z.add_0_l. pose proof (Z.mod_pos_bound (rand_sep d + k) (rand_deg d) ltac:(lia)).
    unfold seed_word. destruct (Z.eqb_spec ((rand_sep d + k) mod rand_deg d) 0) as [->|Nz].
    - rewrite F by lia. unfold wset. by rewrite Z.add_0_r, Z.eqb_refl.
    - apply V. lia. }
  rewrite discard_draws. pose proof (draws_spec (Z.to_nat (rand_deg d1 * 10)) m1 d1 G1) as H.
  destruct (draws _ m1 d1) as [[l m2] d2]. destruct H as (E & G2 & S2 & R2 & F2).
  cbn [fst snd]. exists m2, d2. split; [done|]. split; [done|]. rewrite W in E. subst d1.
  cbn [rand_deg rand_sep state rptr end_ptr rand_type] in *.
  split; [done|]. split; [|split].
  - rewrite Z.sub_diag, Z.add_0_l, Z2Nat.id, (Z.mul_comm _ 10), Z_mod_mult in R2 by lia. lia.
  - rewrite (Z.mul_comm 10). by rewrite E.
  - intros q Hq. rewrite F2 by done. rewrite F by lia. unfold wset. by rewrite (proj2 (Z.eqb_neq _ _)) by lia.
Qed.

(** ** Leaving a generator and coming back *)

(** The words a generator may change. *)
Definition array_end (d : random_data) : Z := state d + Z.max 1 (rand_deg d).

Lemma draws_frame k m d : gen_ok d \/ rand_type d = TYPE_0 ->
  let '(_, m', d') := draws k m d in
  state d' = state d /\ rand_type d' = rand_type d /\
  (forall q, q < state d \/ array_end d <= q -> m' q = m q).
Proof.
  unfold array_end. intros [G|T].
  - pose proof (gen_bounds d G) as [B _]. pose proof (go_end d G) as Ee. pose proof (draws_spec k m d G) as H.
    destruct (draws k m d) as [[l m'] d']. destruct H as (_ & _ & (Es & Et & _) & _ & F).
    split; [done|]. split; [done|]. intros q Hq. apply F. lia.
  - revert m. induction k as [|k IH]; intros m; cbn [draws]; [done|]. unfold __random_r.
    rewrite T, Z.eqb_refl. set (v := Z.land _ _). specialize (IH (wset m (state d) v)).
    destruct (draws k _ d) as [[l m'] d']. destruct IH as (Es & Et & F).
    split; [done|]. split; [congruence|]. intros q Hq. rewrite F by done. unfold wset.
    by rewrite (proj2 (Z.eqb_neq _ _)) by lia.
Qed.

Lemma choose_type_spec n ty : choose_type n = Some ty -> 0 <= ty <= 4.
Proof.
  unfold choose_type. intros E. repeat case_match; try done; injection E as <-;
    unfold TYPE_0, TYPE_1, TYPE_2, TYPE_3, TYPE_4; lia.
Qed.

(** The word [save_state] leaves, for a generator with feedback. *)
Definition state_word (d : random_data) : Z := MAX_TYPES * (rptr d - state d) + rand_type d.

Lemma state_word_spec d : gen_ok d -> 0 <= state_word d < 2 ^ 31 /\
  Z.rem (state_word d) MAX_TYPES = rand_type d /\ Z.quot (state_word d) MAX_TYPES = rptr d - state d.
Proof.
  intros G. pose proof (gen_bounds d G) as [_ B]. destruct G as [T _ _ Ee Hr _]. rewrite Ee in Hr.
  unfold state_word, MAX_TYPES. split; [lia|].
  rewrite Z.rem_mod_nonneg, Z.quot_div_nonneg by lia.
  replace (5 * (rptr d - state d) + rand_type d) with (rand_type d + (rptr d - state d) * 5) by lia.
  rewrite Z_mod_plus_full, Z.div_add, Z.mod_small, Z.div_small by lia. lia.
Qed.

Lemma save_state_word m d : gen_ok d -> save_state m d = wset m (state d - 1) (state_word d).
Proof.
  intros G. unfold save_state. rewrite (proj2 (Z.eqb_neq _ _)) by (destruct G; unfold TYPE_0; lia).
  destruct (state_word_spec d G) as [B _]. fold (state_word d). by rewrite int32_small by lia.
Qed.

Lemma wset_eq m p v : wset m p v p = v.
Proof. unfold wset. by rewrite Z.eqb_refl. Qed.

Lemma wset_ne m p v q : q <> p -> wset m p v q = m q.
Proof. intros. unfold wset. by rewrite (proj2 (Z.eqb_neq _ _)). Qed.

(** The new generator is usable and the words outside its array are as
    [save_state] left them. *)
Lemma initstate_r_spec m seed arg_state n d ty : state d <> 0 -> choose_type n = Some ty ->
  exists m' d', __initstate_r m seed arg_state n (Some d) = (0, None, m', Some d') /\
  state d' = arg_state + 1 /\ rand_type d' = ty /\ (gen_ok d' \/ rand_type d' = TYPE_0) /\
  array_end d' = arg_state + 1 + Z.max 1 (degrees ty) /\
  (forall q, q < arg_state \/ arg_state + 1 + Z.max 1 (degrees ty) <= q -> m' q = save_state m d q).
Proof.
  intros Ns Ct. pose proof (choose_type_spec n ty Ct) as Bt. unfold __initstate_r.
  rewrite (proj2 (Z.eqb_neq _ _)), Ct by done. set (d1 := mkData _ _ _ _ _ _ _).
  destruct (decide (ty = TYPE_0)) as [->|Nt].
  - unfold __srandom_r. cbn [rand_type d1 state]. simpl. eexists _, _. split; [done|]. split; [done|].
    split; [done|]. split; [by right|]. split; [done|]. intros q Hq. rewrite !wset_ne by lia. done.
  - destruct (srandom_r_spec (save_state m d) seed d1) as (m2 & d2 & -> & G2 & S2 & R2 & _ & F2).
    { split; [cbn [rand_type d1]; unfold TYPE_0 in Nt; lia|done]. }
    destruct S2 as (Es & Et & Ed & _ & _). cbn [state rand_type rand_deg end_ptr d1] in *.
    rewrite (proj2 (Z.eqb_neq ty TYPE_0)) by done. pose proof (gen_bounds d2 G2) as [B _]. rewrite Ed in B.
    eexists _, d2. split; [done|]. split; [done|]. split; [done|]. split; [by left|].
    split; [unfold array_end; by rewrite Es, Ed|]. intros q Hq. rewrite !wset_ne by lia. apply F2. lia.
Qed.

(** C23: [random_r] computes the trinomial recurrence: the numbers drawn are
    those of the abstract generator, and the pointers stay inside the array
    at their distance. *)
Theorem random_r_refines_lagged m d k : gen_ok d ->
  let '(l, m', d') := draws k m d in
  lagged_seq k (rand_sep d) (window m d) = (l, window m' d') /\ gen_ok d' /\ same_generator d d' /\
  (forall q, q < state d \/ end_ptr d <= q -> m' q = m q).
Proof.
  intros G. pose proof (draws_spec k m d G) as H. destruct (draws k m d) as [[l m'] d'].
  destruct H as (E & G' & S & _ & F). done.
Qed.

(** [srandom_r] seeds the array with the powers of 16807 modulo
    [2^31 - 1], discards ten rounds of numbers and leaves the rear pointer at
    the start of the array. *)
Theorem srandom_r_correct m seed d : shape_ok d ->
  exists m' d', __srandom_r m seed (Some d) = (0, m', Some d') /\ gen_ok d' /\ rptr d' = state d /\
  window m' d' = snd (lagged_seq (Z.to_nat (10 * rand_deg d)) (rand_sep d) (seed_window seed (rand_deg d) (rand_sep d))).
Proof.
  intros S. destruct (srandom_r_spec m seed d S) as (m' & d' & E & G & _ & R & W & _). by exists m', d'.
Qed.

(** C22: switching to another state array and drawing from it does not disturb
    a generator of one of the types with an array ([TYPE_1] to [TYPE_4]):
    [setstate_r] with its array restores the descriptor, and the
    numbers that follow are those that would have followed. *)
Theorem setstate_resumes m d seed arg_state n ty k k' :
  gen_ok d -> 1 < state d -> choose_type n = Some ty ->
  arg_state + 1 + Z.max 1 (degrees ty) < state d \/ end_ptr d <= arg_state ->
  exists m1 d1, __initstate_r m seed arg_state n (Some d) = (0, None, m1, Some d1) /\
  let '(_, m2, d2) := draws k m1 d1 in
  exists m3, __setstate_r m2 (state d - 1) (Some d2) = (0, None, m3, Some d) /\
  fst (fst (draws k' m3 d)) = fst (fst (draws k' m d)).
Proof.
  intros G Ns Ct D. destruct (initstate_r_spec m seed arg_state n d ty ltac:(lia) Ct)
    as (m1 & d1 & -> & Es1 & Et1 & A1 & Ae & F1). exists m1, d1. split; [done|].
  pose proof (draws_frame k m1 d1 A1) as H. destruct (draws k m1 d1) as [[l m2] d2].
  destruct H as (Es2 & Et2 & F2). rewrite Es1 in F2, Es2. rewrite Ae in F2. rewrite save_state_word in F1 by done.
  destruct (state_word_spec d G) as (Bw & Rw & Qw). pose proof (gen_bounds d G) as [Bs _].
  pose proof G as [T Ed Es Ee Hr Ef].
  set (m3 := save_state m2 d2).
  assert (M3 : forall q, q < arg_state \/ arg_state + 1 + Z.max 1 (degrees ty) <= q -> m3 q = wset m (state d - 1) (state_word d) q).
  { intros q Hq. unfold m3, save_state. rewrite wset_ne by lia. rewrite F2, F1 by lia. done. }
  assert (Wd : m3 (state d - 1) = state_word d) by (rewrite M3, wset_eq by lia; done).
  exists m3. split.
  - unfold __setstate_r. rewrite (proj2 (Z.eqb_neq _ _)) by lia. cbv zeta. fold m3.
    replace (1 + (state d - 1)) with (state d) by lia. rewrite Wd, Rw, Qw.
    unfold TYPE_0, TYPE_4. rewrite (proj2 (Z.ltb_ge _ _)), (proj2 (Z.ltb_ge _ _)), (proj2 (Z.eqb_neq _ _)) by lia.
    cbn [orb]. rewrite <- Ed, <- Es, Z.rem_mod_nonneg, <- Ef, <- Ee by lia.
    replace (state d + (rptr d - state d)) with (rptr d) by lia. by destruct d.
  - assert (W : window m3 d = window m d).
    { unfold window. apply map_ext. intros i. f_equal.
      pose proof (Z.mod_pos_bound (rptr d - state d + rand_sep d + i) (rand_deg d) ltac:(lia)).
      rewrite M3 by lia. apply wset_ne. lia. }
    pose proof (draws_spec k' m3 d G) as H3. pose proof (draws_spec k' m d G) as H0.
    destruct (draws k' m3 d) as [[l3 ?] ?], (draws k' m d) as [[l0 ?] ?]. rewrite W in H3.
    destruct H3 as [H3 _], H0 as [H0 _]. rewrite H3 in H0. by injection H0 as -> _.
Qed.

(** The window seeded with 1 after 310 numbers, entry by entry. *)
Lemma table_entry i : 1 <= i < 32 ->
  snd (lagged_seq (Z.to_nat (10 * 31)) 3 (seed_window 1 31 3)) !! Z.to_nat ((i + 27) mod 31)
  = Some (uint32 (nth (Z.to_nat i) randtbl_words 0)).
Proof.
  set (f := fun j => snd (lagged_seq (Z.to_nat (10 * 31)) 3 (seed_window 1 31 3)) !! Z.to_nat ((j + 27) mod 31)).
  set (g := fun j => Some (uint32 (nth (Z.to_nat j) randtbl_words 0))).
  assert (E : map f (seqZ 1 31) = map g (seqZ 1 31)) by (vm_compute; reflexivity).
  intros Hi. change (f i = g i).
  assert (H : seqZ 1 31 !! Z.to_nat (i - 1) = Some i) by (apply lookup_seqZ; lia).
  apply (f_equal (fun l => l !! Z.to_nat (i - 1))) in E. rewrite !list_lookup_fmap, H in E.
  exact (Some_inj _ _ E).
Qed.

(** the table compiled into [random.c] is what [initstate (1, randtbl, 128)]
    computes, and the static descriptor is the one it leaves. *)
Theorem randtbl_is_initstate m randtbl d :
  exists m', __initstate_r m 1 randtbl 128 (Some d) = (0, None, m', Some (unsafe_state randtbl)) /\
  forall i, 0 <= i < 32 -> uint32 (m' (randtbl + i)) = uint32 (nth (Z.to_nat i) randtbl_words 0).
Proof.
  unfold __initstate_r. change (choose_type 128) with (Some TYPE_3). cbn iota.
  set (m0 := if state d =? 0 then m else save_state m d). set (d1 := mkData _ _ _ _ _ _ _).
  destruct (srandom_r_spec m0 1 d1) as (m2 & d2 & -> & G2 & (Es & Et & Ed & Ep & Ee) & R2 & W & _); [done|].
  assert (E2 : d2 = unsafe_state randtbl).
  { destruct G2 as [_ _ _ _ _ Ef]. rewrite R2, Es, Z.sub_diag, Ep, Ed in Ef.
    destruct d2 as [f r st ty de se en]. cbn [fptr rptr state rand_type rand_deg rand_sep end_ptr d1] in *.
    unfold unsafe_state. subst. change (degrees TYPE_3) with 31. change (seps TYPE_3) with 3.
    change (Z.of_nat (length randtbl_words)) with 32. change ((0 + 3) mod 31) with 3.
    unfold SEP_3, DEG_3. f_equal; lia. }
  subst d2. eexists. split; [done|]. change (TYPE_3 =? TYPE_0) with false. cbn iota. intros i Hi.
  destruct (decide (i = 0)) as [->|Ni].
  { replace (randtbl + 0) with (randtbl + 1 - 1) by lia. rewrite wset_eq.
    cbn [rptr unsafe_state]. by rewrite Z.sub_diag. }
  rewrite !wset_ne by lia. pose proof (window_lookup m2 (unsafe_state randtbl) ((i + 27) mod 31)) as L.
  cbn [rand_deg unsafe_state] in L. unfold DEG_3 in L. specialize (L ltac:(apply Z.mod_pos_bound; lia)).
  rewrite W in L. cbn [state rptr unsafe_state rand_sep rand_deg] in L. rewrite Z.sub_diag, Z.add_0_l in L.
  unfold SEP_3, DEG_3 in L. rewrite Zplus_mod_idemp_r in L.
  replace ((3 + (i + 27)) mod 31) with (i - 1) in L
    by (replace (3 + (i + 27)) with (i - 1 + 1 * 31) by lia; rewrite Z_mod_plus_full; symmetry; apply Z.mod_small; lia).
  replace (randtbl + i) with (randtbl + 1 + (i - 1)) by lia.
  pose proof (table_entry i ltac:(lia)) as C. cbn [rand_deg rand_sep d1] in L.
  change (degrees TYPE_3) with 31 in L. change (seps TYPE_3) with 3 in L. rewrite C in L. symmetry. exact (Some_inj _ _ L).
Qed.

(** ** Witnesses *)

Definition w_gen : random_data := mkData 104 101 101 1 7 3 108.
Definition w_words : words := fun q => q * q * 1000003.

Lemma w_gen_ok : gen_ok w_gen.
Proof. constructor; by vm_compute. Qed.

Lemma random_r_refines_lagged_witness :
  fst (lagged_seq 20 3 (window w_words w_gen))
  = fst (fst (draws 20 w_words w_gen)).
Proof.
  pose proof (random_r_refines_lagged w_words w_gen 20 w_gen_ok) as H.
  destruct (draws 20 w_words _) as [[l m'] d']. destruct H as [H _]. change (rand_sep w_gen) with 3 in H. by rewrite H.
Defined.

Lemma srandom_r_correct_witness :
  exists m' d', __srandom_r w_words 42 (Some (mkData 0 0 101 1 7 3 108)) = (0, m', Some d') /\ rptr d' = 101.
Proof.
  destruct (srandom_r_correct w_words 42 (mkData 0 0 101 1 7 3 108)) as (m' & d' & E & _ & R & _).
  - by vm_compute.
  - exists m', d'. split; [exact E|exact R].
Defined.

Lemma setstate_resumes_witness :
  exists m1 d1, __initstate_r w_words 7 200 64 (Some w_gen) = (0, None, m1, Some d1) /\
  let '(_, m2, d2) := draws 5 m1 d1 in
  exists m3, __setstate_r m2 100 (Some d2) = (0, None, m3, Some w_gen) /\
  fst (fst (draws 9 m3 w_gen)) = fst (fst (draws 9 w_words w_gen)).
Proof.
  apply (setstate_resumes w_words w_gen 7 200 64 TYPE_2 5 9).
  - exact w_gen_ok.
  - by vm_compute.
  - by vm_compute.
  - right. by vm_compute.
Defined.
