(* ===== verification/CInt.v ===== *)
(** * Signed C integers

    The result of a signed operation that does not fit its type is undefined:
    [chk w x] is [x] when it fits [w] bits and [None] otherwise.  [sint w x] is
    the conversion of [x] to a signed type, which wraps. *)

From S2P Require Import Prelude.

Definition fits (w x : Z) : Prop := - 2 ^ (w - 1) <= x < 2 ^ (w - 1).

Definition chk (w x : Z) : option Z :=
  if (- 2 ^ (w - 1) <=? x) && (x <? 2 ^ (w - 1)) then Some x else None.

Definition sint (w x : Z) : Z := (x + 2 ^ (w - 1)) mod 2 ^ w - 2 ^ (w - 1).

#[export] Instance fits_dec w x : Decision (fits w x).
Proof. unfold fits. apply _. Defined.

Lemma chk_fits w x : fits w x -> chk w x = Some x.
Proof. unfold fits, chk. intros H. by rewrite (proj2 (Z.leb_le _ _)), (proj2 (Z.ltb_lt _ _)) by lia. Qed.

Lemma chk_Some w x y : chk w x = Some y -> y = x /\ fits w x.
Proof.
  unfold fits, chk. destruct (Z.leb_spec (- 2 ^ (w - 1)) x), (Z.ltb_spec x (2 ^ (w - 1))); simpl; try done.
  intros [= <-]. lia.
Qed.

Lemma chk_out w x : ~ fits w x -> chk w x = None.
Proof. intros H. destruct (chk w x) eqn:E; [|done]. by apply chk_Some in E as [_ ?]. Qed.

Lemma sint_bounds w x : 0 < w -> fits w (sint w x).
Proof.
  intros Hw. unfold fits, sint. pose proof (Z.mod_pos_bound (x + 2 ^ (w - 1)) (2 ^ w) ltac:(by apply Z.pow_pos_nonneg; lia)).
  assert (2 ^ w = 2 * 2 ^ (w - 1)) by (rewrite <- Z.pow_succ_r by lia; f_equal; lia). lia.
Qed.

Lemma sint_small w x : 0 < w -> fits w x -> sint w x = x.
Proof.
  intros Hw H. unfold fits in H. unfold sint.
  assert (2 ^ w = 2 * 2 ^ (w - 1)) by (rewrite <- Z.pow_succ_r by lia; f_equal; lia).
  rewrite Z.mod_small by lia. lia.
Qed.

(** A conversion that changes nothing shows that the value fits. *)
Lemma sint_fits w x : 0 < w -> sint w x = x <-> fits w x.
Proof. intros Hw. split; [intros <-; by apply sint_bounds|by apply sint_small]. Qed.

Lemma fits32 x : fits 32 x <-> -2147483648 <= x < 2147483648.
Proof. done. Qed.

Lemma fits64 x : fits 64 x <-> -9223372036854775808 <= x < 9223372036854775808.
Proof. done. Qed.

(** Sequencing, as an equation to rewrite with: conversion would run the loops
    that follow. *)
Lemma bind_ok {A B} (x : A) (f : A -> option B) : (Some x ≫= f) = f x.
Proof. done. Qed.

Ltac bind_step :=
  match goal with |- context [Some ?x ≫= ?f] => rewrite (bind_ok x f); cbn beta iota end.

(** Discharge the checks of the goal, one after the other, by arithmetic. *)
Ltac fits_lia := first [rewrite fits32; lia | rewrite fits64; lia].
Ltac chk_step :=
  match goal with |- context [chk ?w ?x ≫= _] => rewrite (chk_fits w x) by fits_lia; bind_step end.
Ltac chk_all := repeat chk_step.

(** Bounds on absolute values as ranges, which [lia] handles without case
    distinctions. *)
Ltac abs_ranges := repeat match goal with H : Z.abs _ <= _ |- _ => apply Z.abs_le in H end.

(** Take apart a sequence that gave a result. *)
Ltac bind_inv H :=
  match type of H with
  | (?m ≫= _) = Some _ =>
    let E := fresh "E" in destruct m eqn:E; [rewrite bind_ok in H|discriminate H]
  end.
