(* ===== verification/Calendar.v ===== *)
(** * The Gregorian calendar

    The reference for [time/]: leap years, the length of years and months, and
    the number of days from 1 January 1970 to the start of a year, by adding
    up years.  The closed form of that sum is what the code's arithmetic is
    compared with. *)

From S2P Require Import Prelude.

#[local] Ltac Zify.zify_post_hook ::= Z.to_euclidean_division_equations.

Definition leap (y : Z) : bool := (y mod 4 =? 0) && (negb (y mod 100 =? 0) || (y mod 400 =? 0)).
Definition year_days (y : Z) : Z := if leap y then 366 else 365.
Definition month_days (y : Z) : list Z :=
  [31; if leap y then 29 else 28; 31; 30; 31; 30; 31; 31; 30; 31; 30; 31].

Definition sumZ (l : list Z) : Z := foldr Z.add 0 l.

(** Days from the start of 1970 to the start of year [y]. *)
Definition days_before (y : Z) : Z :=
  sumZ (map year_days (seqZ 1970 (y - 1970))) - sumZ (map year_days (seqZ y (1970 - y))).

(** Days of the months before month [mon] (from 0) of year [y]. *)
Definition days_to_month (y mon : Z) : Z := sumZ (take (Z.to_nat mon) (month_days y)).

Lemma sumZ_app l k : sumZ (l ++ k) = sumZ l + sumZ k.
Proof. induction l as [|x l IH]; simpl; [done|]. rewrite IH. lia. Qed.

Lemma year_days_bounds y : 365 <= year_days y <= 366.
Proof. unfold year_days. case_match; lia. Qed.

Lemma days_before_succ y : days_before (y + 1) = days_before y + year_days y.
Proof.
  unfold days_before. destruct (Z.le_gt_cases 1970 y) as [H|H].
  - replace (y + 1 - 1970) with ((y - 1970) + 1) by lia.
    rewrite seqZ_app, map_app, sumZ_app by lia. replace (1970 + (y - 1970)) with y by lia.
    rewrite (seqZ_nil (y + 1) (1970 - (y + 1))), (seqZ_nil y (1970 - y)) by lia. rewrite (seqZ_cons y 1), (seqZ_nil (Z.succ y) (Z.pred 1)) by lia.
    simpl. lia.
  - rewrite (seqZ_nil 1970 (y + 1 - 1970)), (seqZ_nil 1970 (y - 1970)) by lia.
    rewrite (seqZ_cons y (1970 - y)) by lia. replace (Z.succ y) with (y + 1) by lia.
    replace (Z.pred (1970 - y)) with (1970 - (y + 1)) by lia. simpl. lia.
Qed.

(** Leap years up to the end of year [y], counted from year 1. *)
Definition leaps (y : Z) : Z := y / 4 - y / 100 + y / 400.

Lemma leaps_succ y : leaps y = leaps (y - 1) + (if leap y then 1 else 0).
Proof.
  unfold leaps, leap.
  destruct (Z.eqb_spec (y mod 4) 0), (Z.eqb_spec (y mod 100) 0), (Z.eqb_spec (y mod 400) 0); simpl; lia.
Qed.

(** A function of years determined by its steps. *)
Lemma years_unique (f g : Z -> Z) y0 : (forall y, f (y + 1) - f y = g (y + 1) - g y) ->
  f y0 = g y0 -> forall y, f y = g y.
Proof.
  intros S E y. replace y with (y0 + (y - y0)) by lia. generalize (y - y0).
  apply Z.bi_induction; [by intros ? ? ->|by rewrite Z.add_0_r|].
  intros n. specialize (S (y0 + n)). replace (y0 + Z.succ n) with (y0 + n + 1) by lia. lia.
Qed.

Lemma days_before_closed y : days_before y = 365 * (y - 1970) + leaps (y - 1) - leaps 1969.
Proof.
  revert y. apply (years_unique _ _ 1970); [|done]. intros y. rewrite days_before_succ.
  pose proof (leaps_succ y). replace (y + 1 - 1) with y by lia. unfold year_days. case_match; lia.
Qed.

Lemma leaps_count a k : 0 <= k -> 0 <= leaps (a + k) - leaps a <= (k + 3) / 4.
Proof.
  intros Hk. unfold leaps. split.
  - rewrite <- !(Z.div_div _ 4 25), <- !(Z.div_div _ 4 100) by lia. lia.
  - lia.
Qed.

Lemma days_before_mono a b : a <= b -> 365 * (b - a) <= days_before b - days_before a <= 366 * (b - a).
Proof.
  intros H. rewrite !days_before_closed. pose proof (leaps_count (a - 1) (b - a) ltac:(lia)) as L.
  replace (a - 1 + (b - a)) with (b - 1) in L by lia. lia.
Qed.

Lemma days_before_year y : 365 * Z.abs (y - 1970) <= Z.abs (days_before y).
Proof.
  assert (E : days_before 1970 = 0) by done. destruct (Z.le_gt_cases 1970 y).
  - pose proof (days_before_mono 1970 y). lia.
  - pose proof (days_before_mono y 1970). lia.
Qed.

(** At most one year contains a given day. *)
Lemma year_unique d y y' : days_before y <= d < days_before (y + 1) ->
  days_before y' <= d < days_before (y' + 1) -> y = y'.
Proof.
  intros H H'. destruct (Z.lt_trichotomy y y') as [L|[L|L]]; [|done|].
  - pose proof (days_before_mono (y + 1) y' ltac:(lia)). lia.
  - pose proof (days_before_mono (y' + 1) y ltac:(lia)). lia.
Qed.

(** [7] divides the days of 400 years, so the week day depends on the year
    modulo 400. *)
Lemma days_before_period y : days_before (y + 400) = days_before y + 146097.
Proof.
  rewrite !days_before_closed. unfold leaps.
  replace (y + 400 - 1) with (y - 1 + 1 * 400) by lia. rewrite Z.div_add by lia.
  replace (y - 1 + 1 * 400) with (y - 1 + 4 * 100) at 2 by lia. rewrite Z.div_add by lia.
  replace (y - 1 + 1 * 400) with (y - 1 + 100 * 4) by lia. rewrite Z.div_add by lia. lia.
Qed.
