(* ===== verification/Offtime.v ===== *)
(** * Broken-down time: [time/offtime.c], [time/dysize.c]

    [__offtime] with every [__time64_t] operation checked for overflow.  [/]
    and [%] of C truncate: they are [Z.quot] and [Z.rem]. *)

From Stdlib Require Import String.
From S2P Require Import Prelude CLoop CInt.

Record tm := mkTm {
  tm_sec : Z; tm_min : Z; tm_hour : Z; tm_mday : Z; tm_mon : Z; tm_year : Z;
  tm_wday : Z; tm_yday : Z; tm_isdst : Z; tm_gmtoff : Z; tm_zone : string }.

Definition SECS_PER_HOUR : Z := 60 * 60.
Definition SECS_PER_DAY : Z := SECS_PER_HOUR * 24.

Definition __isleap (year : Z) : bool :=
  (Z.rem year 4 =? 0) && (negb (Z.rem year 100 =? 0) || (Z.rem year 400 =? 0)).

Definition dysize (year : Z) : Z := if __isleap year then 366 else 365.

(** How many days come before each month (0-12). *)
Definition __mon_yday (leap : bool) : list Z :=
  if leap then [0; 31; 60; 91; 121; 152; 182; 213; 244; 274; 305; 335; 366]
  else [0; 31; 59; 90; 120; 151; 181; 212; 243; 273; 304; 334; 365].

Definition DIV (a b : Z) : Z := Z.quot a b - b2z (Z.rem a b <? 0).
Definition LEAPS_THRU_END_OF (y : Z) : Z := DIV y 4 - DIV y 100 + DIV y 400.

(** The result of a step that stops with undefined behaviour when a check of
    it fails. *)
Definition checked {S R} (o : option S) : S + option R :=
  match o with Some s => inl s | None => inr None end.

(** [while (rem < 0)] and [while (rem >= SECS_PER_DAY)] *)
Definition borrow_step (st : Z * Z) : (Z * Z) + option (Z * Z) :=
  let '(days, rem) := st in
  if rem <? 0 then
    checked (rem ← chk 64 (rem + SECS_PER_DAY); days ← chk 64 (days - 1); Some (days, rem))
  else inr (Some (days, rem)).

Definition carry_step (st : Z * Z) : (Z * Z) + option (Z * Z) :=
  let '(days, rem) := st in
  if SECS_PER_DAY <=? rem then
    checked (rem ← chk 64 (rem - SECS_PER_DAY); days ← chk 64 (days + 1); Some (days, rem))
  else inr (Some (days, rem)).

(** [while (days < 0 || days >= (__isleap (y) ? 366 : 365))] *)
Definition year_step (st : Z * Z) : (Z * Z) + option (Z * Z) :=
  let '(days, y) := st in
  if (days <? 0) || ((if __isleap y then 366 else 365) <=? days) then
    checked (
      yg ← chk 64 (y + Z.quot days 365 - b2z (Z.rem days 365 <? 0));
      k ← chk 64 ((yg - y) * 365);
      k ← chk 64 (k + LEAPS_THRU_END_OF (yg - 1) - LEAPS_THRU_END_OF (y - 1));
      days ← chk 64 (days - k);
      Some (days, yg))
  else inr (Some (days, y)).

(** [for (y = 11; days < ip[y]; --y)] *)
Fixpoint month_loop (y : nat) (days : Z) (ip : list Z) : option Z :=
  b ← ip !! y;
  if days <? b then match y with O => None | S y => month_loop y days ip end
  else Some (Z.of_nat y).

(** The fields of [*tp] set one after the other. *)
Definition set_clock (tp : tm) (hour min sec wday : Z) : tm :=
  mkTm sec min hour (tm_mday tp) (tm_mon tp) (tm_year tp) wday (tm_yday tp) (tm_isdst tp)
    (tm_gmtoff tp) (tm_zone tp).

Definition set_date (tp : tm) (year yday mon mday : Z) : tm :=
  mkTm (tm_sec tp) (tm_min tp) (tm_hour tp) mday mon year (tm_wday tp) yday (tm_isdst tp)
    (tm_gmtoff tp) (tm_zone tp).

(** The day and the second of the day of [t] at [offset]. *)
Definition split_days (t offset : Z) : option (Z * Z) :=
  let days := Z.quot t SECS_PER_DAY in
  let rem := Z.rem t SECS_PER_DAY in
  rem ← chk 64 (rem + offset);
  st ← run 64 borrow_step (days, rem);
  run 64 carry_step st.

(** The return value and the new [*tp].  On failure, [errno] is [EOVERFLOW]
    and the clock, the week day and the year have been overwritten. *)
Definition __offtime (t offset : Z) (tp : tm) : option (Z * tm) :=
  st ← split_days t offset;
  let '(days, rem) := st in
  let hour := Z.quot rem SECS_PER_HOUR in
  let rem := Z.rem rem SECS_PER_HOUR in
  let min := Z.quot rem 60 in
  let sec := Z.rem rem 60 in
  let wday := Z.rem (4 + days) 7 in
  let wday := if wday <? 0 then wday + 7 else wday in
  let tp := set_clock tp hour min sec wday in
  st ← run 64 year_step (days, 1970);
  let '(days, y) := st in
  let year := sint 32 (y - 1900) in
  if negb (year =? y - 1900) then
    Some (0, set_date tp year (tm_yday tp) (tm_mon tp) (tm_mday tp))
  else
    let yday := days in
    let ip := __mon_yday (__isleap y) in
    mon ← month_loop 11 days ip;
    b ← ip !! Z.to_nat mon;
    Some (1, set_date tp year yday mon (days - b + 1)).
