(* ===== verification/OfftimeTheorems.v ===== *)
(** * What [__offtime] computes

    A [struct tm] is normal when its fields are in their ranges and agree with
    each other and with the calendar; [seconds] is the time it denotes.
    [__offtime] gives the one normal [struct tm] of a time, or fails when its
    year is not an [int]; no operation of it overflows and its loops end. *)

From S2P Require Import Prelude CLoop CInt Calendar Offtime.

#[local] Ltac Zify.zify_post_hook ::= Z.to_euclidean_division_equations.

Record normal (tp : tm) : Prop := {
  n_sec : 0 <= tm_sec tp < 60;
  n_min : 0 <= tm_min tp < 60;
  n_hour : 0 <= tm_hour tp < 24;
  n_mon : 0 <= tm_mon tp < 12;
  n_mday : 1 <= tm_mday tp <= nth (Z.to_nat (tm_mon tp)) (month_days (1900 + tm_year tp)) 0;
  n_yday : tm_yday tp = days_to_month (1900 + tm_year tp) (tm_mon tp) + tm_mday tp - 1;
  n_wday : tm_wday tp = (4 + days_before (1900 + tm_year tp) + tm_yday tp) mod 7;
  n_year : fits 32 (tm_year tp) }.

(** Seconds since the Epoch, in the local time of the [struct tm]. *)
Definition seconds (tp : tm) : Z :=
  86400 * (days_before (1900 + tm_year tp) + tm_yday tp)
  + 3600 * tm_hour tp + 60 * tm_min tp + tm_sec tp.

(** The fields [__offtime] does not set. *)
Definition same_zone (tp tp' : tm) : Prop :=
  tm_isdst tp' = tm_isdst tp /\ tm_gmtoff tp' = tm_gmtoff tp /\ tm_zone tp' = tm_zone tp.

(** ** The macros *)

Lemma isleap_leap y : __isleap y = leap y.
Proof.
  unfold __isleap, leap. assert (E : forall n, n = 4 \/ n = 100 \/ n = 400 -> (Z.rem y n =? 0) = (y mod n =? 0)).
  { intros n [->|[->| ->]]; [destruct (Z.eqb_spec (y mod 4) 0)|destruct (Z.eqb_spec (y mod 100) 0)
      |destruct (Z.eqb_spec (y mod 400) 0)]; [apply Z.eqb_eq|apply Z.eqb_neq|apply Z.eqb_eq|apply Z.eqb_neq
      |apply Z.eqb_eq|apply Z.eqb_neq]; lia. }
  rewrite !E; [done|lia..].
Qed.

Lemma dysize_days y : (if __isleap y then 366 else 365) = year_days y.
Proof. by rewrite isleap_leap. Qed.

Lemma floor_div a b : 0 < b -> Z.quot a b - b2z (Z.rem a b <? 0) = a / b.
Proof.
  intros Hb. pose proof (Z.quot_rem a b ltac:(lia)) as E. pose proof (Z.div_mod a b ltac:(lia)) as F.
  pose proof (Z.mod_pos_bound a b Hb). pose proof (Z.rem_bound_abs a b ltac:(lia)).
  destruct (Z.ltb_spec (Z.rem a b) 0); simpl; nia.
Qed.

Lemma LEAPS_leaps y : LEAPS_THRU_END_OF y = leaps y.
Proof. unfold LEAPS_THRU_END_OF, DIV, leaps. by rewrite !floor_div by lia. Qed.

(** ** The carries between the clock and the days *)

Lemma borrow_run days rem : fits 64 rem -> - 2 ^ 60 <= days <= 2 ^ 60 ->
  exists days' rem', run 64 borrow_step (days, rem) = Some (days', rem') /\
  86400 * days' + rem' = 86400 * days + rem /\ 0 <= rem' < Z.max 86400 (rem + 1).
Proof.
  intros Hr Hd. rewrite fits64 in Hr.
  destruct (run_spec borrow_step (fun n st =>
    86400 * fst st + snd st = 86400 * days + rem /\ snd st < Z.max 86400 (rem + 1) /\ - 2 ^ 63 <= snd st /\
    - 2 ^ 61 <= fst st <= 2 ^ 60 /\ 0 <= n /\ - snd st < 86400 * n)
    (fun st => 86400 * fst st + snd st = 86400 * days + rem /\ 0 <= snd st < Z.max 86400 (rem + 1))
    64 (2 ^ 62) (days, rem)) as ([days' rem'] & E & H).
  - clear - Hr Hd. intros n [d r] (E & U & L & D & N & B). cbn [fst snd] in *. unfold borrow_step.
    destruct (Z.ltb_spec r 0); [|simpl; lia]. change SECS_PER_DAY with 86400. chk_all. cbn [checked fst snd].
    exists (n - 1). lia.
  - cbn [fst snd]. lia.
  - done.
  - exists days', rem'. cbn [fst snd] in H. done.
Qed.

Lemma carry_run days rem : 0 <= rem < 2 ^ 63 -> - 2 ^ 61 <= days <= 2 ^ 60 ->
  exists days' rem', run 64 carry_step (days, rem) = Some (days', rem') /\
  86400 * days' + rem' = 86400 * days + rem /\ 0 <= rem' < 86400.
Proof.
  intros Hr Hd.
  destruct (run_spec carry_step (fun n st =>
    86400 * fst st + snd st = 86400 * days + rem /\ 0 <= snd st < 2 ^ 63 /\
    - 2 ^ 61 <= fst st <= 2 ^ 62 /\ 0 <= n /\ snd st < 86400 * (n + 1))
    (fun st => 86400 * fst st + snd st = 86400 * days + rem /\ 0 <= snd st < 86400)
    64 (2 ^ 62) (days, rem)) as ([days' rem'] & E & H).
  - clear - Hr Hd. intros n [d r] (E & U & D & N & B). cbn [fst snd] in *. unfold carry_step.
    change SECS_PER_DAY with 86400.
    destruct (Z.leb_spec 86400 r); [|simpl; lia]. chk_all. cbn [checked fst snd]. exists (n - 1). lia.
  - cbn [fst snd]. lia.
  - done.
  - exists days', rem'. cbn [fst snd] in H. done.
Qed.

Lemma split_days_spec t offset : fits 64 t -> Z.abs offset <= 2 ^ 63 - 86400 ->
  exists days rem, split_days t offset = Some (days, rem) /\ t + offset = 86400 * days + rem /\
  0 <= rem < 86400.
Proof.
  intros Ht Ho. rewrite fits64 in Ht. unfold split_days. change SECS_PER_DAY with 86400.
  assert (E0 : t = 86400 * Z.quot t 86400 + Z.rem t 86400 /\ Z.abs (Z.rem t 86400) < 86400 /\
    Z.abs (Z.quot t 86400) <= 2 ^ 47) by lia.
  revert E0. generalize (Z.quot t 86400), (Z.rem t 86400). intros days0 rem0 E0.
  chk_step.
  destruct (borrow_run days0 (rem0 + offset)) as (days1 & rem1 & -> & E1 & B1); [fits_lia|lia|].
  bind_step. destruct (carry_run days1 rem1) as (days2 & rem2 & -> & E2 & B2); [lia|lia|].
  exists days2, rem2. split; [done|lia].
Qed.

(** ** The search for the year *)

Definition in_year (d y : Z) : Prop := days_before y <= d < days_before (y + 1).

(** A guess is right or closer than the last one. *)
Lemma year_guess days y : let yg := y + days / 365 in
  let days' := days_before y + days - days_before yg in
  ~ (0 <= days < year_days y) ->
  0 <= days' < year_days yg \/ Z.abs days' < Z.abs days.
Proof.
  intros yg days' N. pose proof (year_days_bounds y). unfold days', yg. rewrite !days_before_closed.
  set (k := days / 365). destruct (Z.le_gt_cases 0 days) as [P|P].
  - pose proof (leaps_count (y - 1) k ltac:(subst k; lia)) as L.
    replace (y - 1 + k) with (y + k - 1) in L by lia. right. subst k. lia.
  - pose proof (leaps_count (y + k - 1) (- k) ltac:(subst k; lia)) as L.
    replace (y + k - 1 + - k) with (y - 1) in L by lia.
    destruct (Z.eq_dec k (-1)) as [E|E].
    + left. pose proof (leaps_succ (y - 1)) as S. rewrite E in *. unfold year_days.
      replace (y + -1) with (y - 1) in * by lia. destruct (leap (y - 1)); subst k; lia.
    + right. subst k. lia.
Qed.

Lemma year_run days : - 2 ^ 48 <= days <= 2 ^ 48 ->
  exists days' y, run 64 year_step (days, 1970) = Some (days', y) /\
  days_before y + days' = days /\ 0 <= days' < year_days y.
Proof.
  intros Hd.
  destruct (run_spec year_step (fun n st =>
    days_before (snd st) + fst st = days /\ Z.abs (fst st) <= 2 ^ 48 /\ 0 <= n /\
    (0 <= fst st < year_days (snd st) \/ Z.abs (fst st) < n))
    (fun st => days_before (snd st) + fst st = days /\ 0 <= fst st < year_days (snd st))
    64 (2 ^ 49) (days, 1970)) as ([days' y] & E & H).
  - clear - Hd. intros n [d y] (E & B & N & M). cbn [fst snd] in *. unfold year_step. rewrite dysize_days.
    destruct (Z.ltb_spec d 0) as [L|L]; [|destruct (Z.leb_spec (year_days y) d) as [G|G]];
      [| |by cbn [orb fst snd]; lia].
    all: pose proof (year_guess d y ltac:(lia)) as Q; cbn [orb].
    all: assert (By : - 2 ^ 50 <= y <= 2 ^ 50) by (pose proof (days_before_year y); lia).
    all: rewrite <- Z.add_sub_assoc, floor_div by lia.
    all: pose proof (days_before_closed y) as C1; pose proof (days_before_closed (y + d / 365)) as C2.
    all: set (yg := y + d / 365) in *; set (dg := days_before y + d - days_before yg) in *.
    all: assert (Byg : - 2 ^ 51 <= yg <= 2 ^ 51) by (subst yg; lia).
    all: assert (Bdg : Z.abs dg <= 2 ^ 48) by (pose proof (year_days_bounds yg); lia).
    all: chk_step.
    all: chk_step.
    all: rewrite !LEAPS_leaps; replace ((yg - y) * 365 + leaps (yg - 1) - leaps (y - 1)) with (d - dg) by lia.
    all: chk_step.
    all: replace (d - (d - dg)) with dg by lia.
    all: chk_step; cbn [checked fst snd].
    all: exists (Z.abs d); lia.
  - cbn [fst snd]. change (days_before 1970) with 0. lia.
  - done.
  - exists days', y. done.
Qed.

(** ** The month *)

Lemma month_loop_spec ip days n : (n < length ip)%nat -> ip !! 0%nat = Some 0 -> 0 <= days ->
  exists m b, month_loop n days ip = Some (Z.of_nat m) /\ (m <= n)%nat /\ ip !! m = Some b /\ b <= days /\
  ((m < n)%nat -> exists b', ip !! S m = Some b' /\ days < b').
Proof.
  intros Hn H0 Hd. induction n as [|n IH]; cbn [month_loop].
  - rewrite H0. bind_step. rewrite (proj2 (Z.ltb_ge _ _)) by lia. exists 0%nat, 0.
    split_and!; [done|lia|done|lia|lia].
  - destruct (lookup_lt_is_Some_2 ip (S n) Hn) as [b E]. rewrite E. bind_step.
    destruct (Z.ltb_spec days b).
    + destruct IH as (m & b' & -> & Hm & Eb & Hb & Hs); [lia|]. exists m, b'. split_and!; [done|lia|done|done|].
      intros _. destruct (decide (m = n)) as [->|]; [eauto|]. apply Hs. lia.
    + exists (S n), b. split_and!; [done|lia|done|lia|lia].
Qed.

Lemma mon_yday_lookup y m : (m <= 12)%nat -> __mon_yday (leap y) !! m = Some (days_to_month y (Z.of_nat m)).
Proof.
  intros Hm. unfold days_to_month, month_days, __mon_yday. rewrite Nat2Z.id.
  do 13 (destruct m as [|m]; [by destruct (leap y)|]). lia.
Qed.

Lemma days_to_month_succ y m : (m < 12)%nat ->
  days_to_month y (Z.of_nat (S m)) = days_to_month y (Z.of_nat m) + nth m (month_days y) 0.
Proof.
  intros Hm. unfold days_to_month, month_days. rewrite !Nat2Z.id.
  do 12 (destruct m as [|m]; [by destruct (leap y)|]). lia.
Qed.

Lemma days_to_month_12 y : days_to_month y 12 = year_days y.
Proof. unfold days_to_month, month_days, year_days. by destruct (leap y). Qed.

Lemma month_of_day days y : 0 <= days < year_days y ->
  exists m, month_loop 11 days (__mon_yday (__isleap y)) = Some (Z.of_nat m) /\ (m < 12)%nat /\
  __mon_yday (__isleap y) !! m = Some (days_to_month y (Z.of_nat m)) /\
  days_to_month y (Z.of_nat m) <= days < days_to_month y (Z.of_nat m) + nth m (month_days y) 0.
Proof.
  intros Hd. rewrite isleap_leap.
  destruct (month_loop_spec (__mon_yday (leap y)) days 11) as (m & b & E & Hm & Eb & Hb & Hs);
    [destruct (leap y); simpl; lia|by destruct (leap y)|lia|].
  exists m. split; [done|]. split; [lia|]. rewrite mon_yday_lookup in Eb |- * by lia. injection Eb as <-.
  split; [done|]. split; [done|]. rewrite <- days_to_month_succ by lia.
  destruct (decide (m = 11%nat)) as [->|Ne].
  - change (Z.of_nat 12) with 12. rewrite days_to_month_12. lia.
  - destruct Hs as (b' & Eb' & L); [lia|]. rewrite mon_yday_lookup in Eb' by lia. by injection Eb' as <-.
Qed.

(** ** The theorem *)

Lemma days_to_month_mono y a b : 0 <= a <= b -> b <= 12 -> days_to_month y a <= days_to_month y b.
Proof.
  intros Hab Hb. rewrite <- (Z2Nat.id a), <- (Z2Nat.id b) by lia.
  assert (L : (Z.to_nat a <= Z.to_nat b)%nat) by lia. assert (U : (Z.to_nat b <= 12)%nat) by lia.
  clear Hab Hb. induction L as [|n L IH]; [done|]. rewrite days_to_month_succ by lia.
  etrans; [apply IH; lia|]. enough (0 <= nth n (month_days y) 0) by lia.
  unfold month_days. do 13 (destruct n as [|n]; [simpl; try case_match; lia|]). lia.
Qed.

(** The days of a month lie before the months after it. *)
Lemma month_before y a b : 0 <= a < b -> b <= 12 ->
  days_to_month y a + nth (Z.to_nat a) (month_days y) 0 <= days_to_month y b.
Proof.
  intros Hab Hb. pose proof (days_to_month_succ y (Z.to_nat a) ltac:(lia)) as E.
  rewrite Z2Nat.id in E by lia. rewrite <- E. apply days_to_month_mono; lia.
Qed.

Lemma normal_yday tp : normal tp -> 0 <= tm_yday tp < year_days (1900 + tm_year tp).
Proof.
  intros []. rewrite n_yday0, <- days_to_month_12. set (y := 1900 + tm_year tp) in *.
  pose proof (month_before y (tm_mon tp) 12 ltac:(lia) ltac:(lia)).
  pose proof (days_to_month_mono y 0 (tm_mon tp) ltac:(lia) ltac:(lia)) as M.
  change (days_to_month y 0) with 0 in M. lia.
Qed.

(** A normal [struct tm] is determined by the time it denotes. *)
Lemma normal_unique tp tp' : normal tp -> normal tp' -> seconds tp = seconds tp' -> same_zone tp tp' -> tp = tp'.
Proof.
  intros N N' E (Z1 & Z2 & Z3). pose proof (normal_yday tp N) as Y. pose proof (normal_yday tp' N') as Y'.
  unfold seconds in E. destruct N as [S1 M1 H1 O1 D1 Y1 W1 _], N' as [S2 M2 H2 O2 D2 Y2 W2 _].
  assert (D : days_before (1900 + tm_year tp) + tm_yday tp = days_before (1900 + tm_year tp') + tm_yday tp') by lia.
  assert (Ey : 1900 + tm_year tp = 1900 + tm_year tp').
  { apply (year_unique (days_before (1900 + tm_year tp) + tm_yday tp)); rewrite days_before_succ; lia. }
  assert (Em : tm_mon tp = tm_mon tp').
  { rewrite <- Ey in *. set (y := 1900 + tm_year tp) in *.
    destruct (Z.lt_trichotomy (tm_mon tp) (tm_mon tp')) as [L|[L|L]]; [|done|].
    - pose proof (month_before y _ _ (conj (proj1 O1) L) ltac:(lia)). lia.
    - pose proof (month_before y _ _ (conj (proj1 O2) L) ltac:(lia)). lia. }
  rewrite <- Ey, <- Em in *.
  assert (tm_sec tp = tm_sec tp' /\ tm_min tp = tm_min tp' /\ tm_hour tp = tm_hour tp' /\ tm_mday tp = tm_mday tp' /\
    tm_year tp = tm_year tp' /\ tm_wday tp = tm_wday tp' /\ tm_yday tp = tm_yday tp') as F by lia.
  clear - F Em Z1 Z2 Z3. destruct tp, tp'; simpl in *. intuition congruence.
Qed.

Lemma offtime_spec t offset tp : fits 64 t -> Z.abs offset <= 2 ^ 63 - 86400 ->
  exists r tp', __offtime t offset tp = Some (r, tp') /\ same_zone tp tp' /\
  ((r = 1 /\ normal tp' /\ seconds tp' = t + offset) \/
   (r = 0 /\ forall tp'', normal tp'' -> seconds tp'' <> t + offset)).
Proof.
  intros Ht Ho. unfold __offtime.
  destruct (split_days_spec t offset Ht Ho) as (days2 & rem2 & -> & E & B2). rewrite fits64 in Ht. bind_step.
  destruct (year_run days2) as (yday & y & -> & E3 & B3); [lia|]. bind_step.
  change SECS_PER_HOUR with 3600.
  destruct (Z.eqb_spec (sint 32 (y - 1900)) (y - 1900)) as [F|F]; cbn [negb].
  - rewrite F. apply sint_fits in F; [|done].
    destruct (month_of_day yday y B3) as (m & -> & Hm & El & Bm). bind_step. rewrite Nat2Z.id, El.
    bind_step. eexists _, _. split; [done|]. split; [done|]. left. split; [done|].
    replace (1900 + (y - 1900)) with y in * by lia. unfold seconds. simpl.
    replace (1900 + (y - 1900)) with y by lia. split.
    + constructor; cbn [set_date set_clock tm_sec tm_min tm_hour tm_mon tm_mday tm_yday tm_wday tm_year];
        rewrite ?Nat2Z.id; replace (1900 + (y - 1900)) with y by lia; try lia; [|done].
      rewrite <- Z.add_assoc, E3. bool_cases; lia.
    + lia.
  - eexists _, _. split; [done|]. split; [done|]. right. split; [done|]. intros tp'' N S. apply F.
    pose proof (normal_yday tp'' N) as Y. unfold seconds in S. destruct N as [S1 M1 H1 _ _ _ _ Fy].
    assert (D : days_before (1900 + tm_year tp'') + tm_yday tp'' = days2) by (clear - S S1 M1 H1 E B2; lia).
    replace (y - 1900) with (tm_year tp''); [by apply sint_small|].
    enough (1900 + tm_year tp'' = y) by lia.
    apply (year_unique days2); rewrite days_before_succ; clear - D Y E3 B3; lia.
Qed.

(** ** Consequences *)

Lemma normal_exists d s y tp0 : in_year d y -> fits 32 (y - 1900) -> 0 <= s < 86400 ->
  exists tp, normal tp /\ same_zone tp0 tp /\ seconds tp = 86400 * d + s.
Proof.
  intros Y F S. unfold in_year in Y. rewrite days_before_succ in Y.
  destruct (month_of_day (d - days_before y) y ltac:(lia)) as (m & _ & Hm & _ & Bm).
  exists (mkTm (s mod 60) (s / 60 mod 60) (s / 3600) (d - days_before y - days_to_month y (Z.of_nat m) + 1) (Z.of_nat m)
    (y - 1900) ((4 + d) mod 7) (d - days_before y) (tm_isdst tp0) (tm_gmtoff tp0) (tm_zone tp0)).
  assert (Ey : 1900 + (y - 1900) = y) by lia. split; [|split; [done|]].
  - constructor; cbn [tm_sec tm_min tm_hour tm_mon tm_mday tm_yday tm_wday tm_year]; rewrite ?Ey, ?Nat2Z.id; try done; lia.
  - unfold seconds. cbn [tm_sec tm_min tm_hour tm_yday tm_year]. rewrite Ey. lia.
Qed.

Lemma year_exists d : - 2 ^ 48 <= d <= 2 ^ 48 -> exists y, in_year d y.
Proof.
  intros Hd. destruct (year_run d Hd) as (days & y & _ & E & B). exists y. unfold in_year. rewrite days_before_succ. lia.
Qed.

(** Within [2^55] seconds of the Epoch the year is an [int]. *)
Lemma offtime_succeeds t offset tp : Z.abs t <= 2 ^ 55 -> Z.abs offset < 2 ^ 31 ->
  exists tp', __offtime t offset tp = Some (1, tp') /\ same_zone tp tp' /\ normal tp' /\ seconds tp' = t + offset.
Proof.
  intros Ht Ho. destruct (offtime_spec t offset tp) as (r & tp' & E & Z & H); [fits_lia|lia|].
  destruct H as [(-> & N & S)|(-> & No)]; [by exists tp'|]. exfalso.
  destruct (year_exists ((t + offset) / 86400)) as [y Y]; [lia|].
  destruct (normal_exists ((t + offset) / 86400) ((t + offset) mod 86400) y tp Y) as (tp'' & N & _ & S); [|lia|].
  - rewrite fits32. pose proof (days_before_year y). unfold in_year in Y. rewrite days_before_succ in Y.
    pose proof (year_days_bounds y). lia.
  - apply (No tp'' N). rewrite S. lia.
Qed.

Lemma seconds_year tp y : normal tp -> in_year (seconds tp / 86400) y -> tm_year tp = y - 1900.
Proof.
  intros N Y. pose proof (normal_yday tp N) as D. destruct N as [S1 M1 H1 _ _ _ _ _].
  replace (seconds tp / 86400) with (days_before (1900 + tm_year tp) + tm_yday tp) in Y
    by (unfold seconds; clear - S1 M1 H1; lia).
  enough (1900 + tm_year tp = y) by lia. apply (year_unique (days_before (1900 + tm_year tp) + tm_yday tp)); [|done].
  rewrite days_before_succ. lia.
Qed.

(** ** The theorems *)

(** C26: [__offtime] ends, overflows nowhere, and stores the only normal
    [struct tm] that denotes [t + offset]; it fails exactly when there is none,
    because the year is not an [int]. *)
Theorem offtime_correct t offset tp : fits 64 t -> Z.abs offset <= 2 ^ 63 - 86400 ->
  exists r tp', __offtime t offset tp = Some (r, tp') /\ same_zone tp tp' /\
  if r =? 1
  then forall tp'', same_zone tp tp'' -> (normal tp'' /\ seconds tp'' = t + offset <-> tp'' = tp')
  else r = 0 /\ forall tp'', normal tp'' -> seconds tp'' <> t + offset.
Proof.
  intros Ht Ho. destruct (offtime_spec t offset tp Ht Ho) as (r & tp' & E & Z & [(-> & N & S)|(-> & No)]);
    eexists _, tp'; (split; [exact E|]); (split; [done|]); cbn.
  - intros tp'' Z''. split; [|by intros ->]. intros [N'' S'']. apply normal_unique; [done|done|lia|].
    unfold same_zone in *. intuition congruence.
  - split; [done|exact No].
Qed.

(** ** Witness *)

Lemma offtime_correct_witness : exists tp', __offtime 951782400 0 (mkTm 0 0 0 0 0 0 0 0 0 0 String.EmptyString)
  = Some (1, tp') /\ normal tp' /\ tm_mday tp' = 29 /\ tm_mon tp' = 1 /\ tm_year tp' = 100.
Proof.
  destruct (offtime_correct 951782400 0 (mkTm 0 0 0 0 0 0 0 0 0 0 String.EmptyString)) as (r & tp' & E & Z & H).
  - by vm_compute.
  - by vm_compute.
  - exists tp'. vm_compute in E. injection E as <- <-. cbn [Z.eqb Pos.eqb] in H.
    specialize (H _ Z). split; [by vm_compute|]. split; [by apply H|]. done.
Defined.
