(* ===== verification/Tzset.v ===== *)
(** * Time zones by rule: [time/tzset.c], [time/gmtime.c], [time/localtime.c]

    The zone described by the rules of a POSIX [TZ] string, after
    [tzset_internal] has run and found no zone file ([__use_tzfile] is 0): the
    calls made for the re-entrant functions then return from it at once.
    [int] and [__time64_t] operations are checked for overflow. *)

From Stdlib Require Import String.
From S2P Require Import Prelude CInt Offtime.

Definition SECSPERDAY : Z := 86400.

Inductive rule_type := J0 | J1 | M.

Record tz_rule := mkRule {
  name : string;
  type : rule_type; r_m : Z; r_n : Z; r_d : Z;
  secs : Z;
  offset : Z;
  change : Z;
  computed_for : Z }.

(** The static variables: [tz_rules[0]] is standard time and [tz_rules[1]]
    daylight saving time. *)
Record tz_state := mkTz {
  tz_rules0 : tz_rule; tz_rules1 : tz_rule;
  __tzname0 : string; __tzname1 : string;
  __daylight : bool; __timezone : Z }.

Definition update_vars (z : tz_state) : tz_state :=
  let r0 := tz_rules0 z in let r1 := tz_rules1 z in
  mkTz r0 r1 (name r0) (name r1) (negb (offset r0 =? offset r1)) (- offset r0).

Definition compute_offset (ss mm hh : Z) : Z :=
  let ss := if 59 <? ss then 59 else ss in
  let mm := if 59 <? mm then 59 else mm in
  let hh := if 24 <? hh then 24 else hh in
  wrap 32 (ss + mm * 60 + hh * 60 * 60).

(** January 1st, 0:00:00 GMT of [year], if it is after 1970. *)
Definition january_1 (year : Z) : option Z :=
  if 1970 <? year then
    d ← chk 32 ((year - 1970) * 365);
    d ← chk 32 (d + (Z.quot (year - 1) 4 - Z.quot 1970 4));
    d ← chk 32 (d - (Z.quot (year - 1) 100 - Z.quot 1970 100));
    d ← chk 32 (d + (Z.quot (year - 1) 400 - Z.quot 1970 400));
    chk 64 (d * SECSPERDAY)
  else Some 0.

(** Zeller's congruence: the week day of the first day of a month. *)
Definition zeller (year m : Z) : option Z :=
  let m1 := Z.rem (m + 9) 12 + 1 in
  yy0 ← (if m <=? 2 then chk 32 (year - 1) else Some year);
  let yy1 := Z.quot yy0 100 in
  let yy2 := Z.rem yy0 100 in
  let dow := Z.rem (Z.quot (26 * m1 - 2) 10 + 1 + yy2 + Z.quot yy2 4 + Z.quot yy1 4 - 2 * yy1) 7 in
  Some (if dow <? 0 then dow + 7 else dow).

(** [for (i = 1; i < rule->n; ++i)], [k] rounds at most. *)
Fixpoint week_loop (k : nat) (d len : Z) : Z :=
  match k with
  | O => d
  | S k => if len <=? d + 7 then d else week_loop k (d + 7) len
  end.

(** [switch (rule->type)]: from the start of the year to the day of the rule. *)
Definition rule_time (rule : tz_rule) (year t : Z) : option Z :=
  match type rule with
  | J1 =>
    t ← chk 64 (t + (r_d rule - 1) * SECSPERDAY);
    if (60 <=? r_d rule) && __isleap year then chk 64 (t + SECSPERDAY) else Some t
  | J0 => chk 64 (t + r_d rule * SECSPERDAY)
  | M =>
    before ← __mon_yday (__isleap year) !! Z.to_nat (r_m rule - 1);
    after ← __mon_yday (__isleap year) !! Z.to_nat (r_m rule);
    t ← chk 64 (t + before * SECSPERDAY);
    dow ← zeller year (r_m rule);
    let d := r_d rule - dow in
    let d := if d <? 0 then d + 7 else d in
    let d := week_loop (Z.to_nat (r_n rule - 1)) d (after - before) in
    chk 64 (t + d * SECSPERDAY)
  end.

Definition compute_change (rule : tz_rule) (year : Z) : option tz_rule :=
  if negb (year =? -1) && (computed_for rule =? year) then Some rule else
  t ← january_1 year;
  t ← rule_time rule year t;
  t ← chk 64 (t - offset rule);
  t ← chk 64 (t + secs rule);
  Some (mkRule (name rule) (type rule) (r_m rule) (r_n rule) (r_d rule) (secs rule) (offset rule) t year).

Definition set_zone (tp : tm) (isdst gmtoff : Z) (zone : string) : tm :=
  mkTm (tm_sec tp) (tm_min tp) (tm_hour tp) (tm_mday tp) (tm_mon tp) (tm_year tp) (tm_wday tp)
    (tm_yday tp) isdst gmtoff zone.

Definition __tz_compute (z : tz_state) (timer : Z) (tp : tm) (use_localtime : bool)
  : option (tz_state * tm) :=
  year ← chk 32 (1900 + tm_year tp);
  r0 ← compute_change (tz_rules0 z) year;
  r1 ← compute_change (tz_rules1 z) year;
  let z := mkTz r0 r1 (__tzname0 z) (__tzname1 z) (__daylight z) (__timezone z) in
  if use_localtime then
    let isdst :=
      if change r1 <? change r0
      then (timer <? change r1) || (change r0 <=? timer)
      else (change r0 <=? timer) && (timer <? change r1) in
    Some (z, set_zone tp (b2z isdst) (offset (if isdst then r1 else r0))
               (if isdst then __tzname1 z else __tzname0 z))
  else Some (z, tp).

(** The state, and the [struct tm] unless [errno] was set to [EOVERFLOW]. *)
Definition __tz_convert (z : tz_state) (timer : Z) (use_localtime : bool) (tp : tm)
  : option (tz_state * option tm) :=
  let leap_correction := 0 in
  let leap_extra_secs := 0 in
  r ← __offtime timer 0 tp;
  let '(ok, tp) := r in
  if ok =? 0 then Some (z, None) else
  r ← __tz_compute z timer tp use_localtime;
  let '(z, tp) := r in
  let tp := if negb use_localtime then set_zone tp 0 0 "GMT"%string else tp in
  r ← __offtime timer (tm_gmtoff tp - leap_correction) tp;
  let '(ok, tp) := r in
  if negb (ok =? 0)
  then Some (z, Some (mkTm (tm_sec tp + leap_extra_secs) (tm_min tp) (tm_hour tp) (tm_mday tp) (tm_mon tp)
                        (tm_year tp) (tm_wday tp) (tm_yday tp) (tm_isdst tp) (tm_gmtoff tp) (tm_zone tp)))
  else Some (z, None).

Definition __gmtime64_r (z : tz_state) (t : Z) (tp : tm) := __tz_convert z t false tp.
Definition __localtime64_r (z : tz_state) (t : Z) (tp : tm) := __tz_convert z t true tp.
