(* ===== verification/TzsetTheorems.v ===== *)
(** * What the time zone rules compute

    [rule_day] says which day of a year a rule denotes; [compute_change] finds
    it, Zeller's congruence included, up to the year where its [int]
    arithmetic overflows.  The cached change times do not influence the
    results.  [gmtime_r] and [localtime_r] give the normal [struct tm] of the
    time in UTC and in the zone. *)

From Stdlib Require Import String.
From S2P Require Import Prelude CLoop CInt Calendar Offtime OfftimeTheorems Tzset.

#[local] Ltac Zify.zify_post_hook ::= Z.to_euclidean_division_equations.

(** The last year for which no [int] overflows. *)
Definition MAX_YEAR : Z := 5881000.

Record rule_ok (r : tz_rule) : Prop := {
  ro_date : match type r with
            | J1 => 1 <= r_d r <= 365
            | J0 => 0 <= r_d r <= 365
            | M => 1 <= r_m r <= 12 /\ 1 <= r_n r <= 5 /\ 0 <= r_d r <= 6
            end;
  ro_secs : Z.abs (secs r) < 2 ^ 31;
  ro_offset : Z.abs (offset r) < 2 ^ 31 }.

(** The day a rule denotes in [year], counted from 1 January 1970.  [Jn] is
    day [n] of the year, 29 February left out; [n] is day [n] of the year
    counted from 0; [Mm.n.d] is the [n]th week day [d] of month [m], and the
    last one for [n = 5]. *)
Definition rule_day (r : tz_rule) (year day : Z) : Prop :=
  let p := day - days_before year in
  match type r with
  | J1 => r_d r = p + 1 - (if leap year && (59 <? p) then 1 else 0) /\ (leap year = true -> p <> 59)
  | J0 => r_d r = p
  | M =>
    let first := days_to_month year (r_m r - 1) in
    let next := days_to_month year (r_m r) in
    first <= p < next /\ (4 + day) mod 7 = r_d r /\
    if r_n r <? 5 then 7 * (r_n r - 1) <= p - first < 7 * r_n r else next - 7 <= p
  end.

Definition same_rule (r r' : tz_rule) : Prop :=
  name r' = name r /\ type r' = type r /\ r_m r' = r_m r /\ r_n r' = r_n r /\ r_d r' = r_d r /\
  secs r' = secs r /\ offset r' = offset r.

(** ** Zeller's congruence *)

Definition zeller_ok (y m : Z) : bool :=
  match zeller y m with
  | Some dow => dow =? (4 + (365 * (y - 1970) + leaps (y - 1) - leaps 1969) + days_to_month y (m - 1)) mod 7
  | None => false
  end.

Lemma rem7 x : (if Z.rem x 7 <? 0 then Z.rem x 7 + 7 else Z.rem x 7) = x mod 7.
Proof. destruct (Z.ltb_spec (Z.rem x 7) 0); lia. Qed.

(** Shifted by 400 years, nothing changes. *)
Lemma zeller_period y m : 1 <= y <= MAX_YEAR -> zeller (y + 400) m = zeller y m.
Proof.
  intros Hy. unfold MAX_YEAR in Hy. unfold zeller. cbv zeta.
  assert (B : exists x, 0 <= x /\ (if m <=? 2 then chk 32 (y - 1) else Some y) = Some x /\
    (if m <=? 2 then chk 32 (y + 400 - 1) else Some (y + 400)) = Some (x + 400)).
  { destruct (m <=? 2); [|by exists y; split; [lia|]]. exists (y - 1). rewrite !chk_fits by fits_lia.
    split; [lia|]. split; [done|]. f_equal. lia. }
  destruct B as (x & Bx & -> & ->). rewrite !bind_ok. f_equal. rewrite !rem7.
  generalize (Z.quot (26 * (Z.rem (m + 9) 12 + 1) - 2) 10). intros c.
  assert (E1 : Z.quot (x + 400) 100 = Z.quot x 100 + 4) by lia.
  assert (E2 : Z.rem (x + 400) 100 = Z.rem x 100) by lia. rewrite E1, E2.
  assert (E3 : Z.quot (Z.quot x 100 + 4) 4 = Z.quot (Z.quot x 100) 4 + 1) by lia. rewrite E3.
  rewrite <- (Z_mod_plus_full _ 1). f_equal. lia.
Qed.

Lemma leap_period y : leap (y + 400) = leap y.
Proof.
  unfold leap. replace (y + 400) with (y + 1 * 400) by lia. rewrite Z.mod_add by lia.
  replace (y + 1 * 400) with (y + 4 * 100) by lia. rewrite Z.mod_add by lia.
  replace (y + 4 * 100) with (y + 100 * 4) by lia. by rewrite Z.mod_add by lia.
Qed.

Lemma zeller_table : forallb (fun y => forallb (zeller_ok y) (seqZ 1 12)) (seqZ 1970 400) = true.
Proof. vm_compute. reflexivity. Qed.

Lemma zeller_spec y m : 1970 <= y <= MAX_YEAR -> 1 <= m <= 12 ->
  zeller y m = Some ((4 + days_before y + days_to_month y (m - 1)) mod 7).
Proof.
  intros Hy Hm.
  assert (C : forall n : nat, 1970 + 400 * Z.of_nat n <= MAX_YEAR -> forall k, 0 <= k < 400 ->
    1970 + k + 400 * Z.of_nat n <= MAX_YEAR ->
    zeller (1970 + k + 400 * Z.of_nat n) m = Some ((4 + days_before (1970 + k + 400 * Z.of_nat n)
      + days_to_month (1970 + k + 400 * Z.of_nat n) (m - 1)) mod 7)).
  { clear Hy y. unfold MAX_YEAR. intros n. induction n as [|n IH]; intros Hn k Hk Hu.
    - rewrite Z.mul_0_r, Z.add_0_r in *. pose proof zeller_table as T. rewrite forallb_forall in T.
      specialize (T (1970 + k) ltac:(apply list_elem_of_In, elem_of_seqZ; lia)). rewrite forallb_forall in T.
      specialize (T m ltac:(apply list_elem_of_In, elem_of_seqZ; lia)). unfold zeller_ok in T.
      destruct (zeller _ _); [|done]. apply Z.eqb_eq in T. by rewrite T, days_before_closed.
    - replace (1970 + k + 400 * Z.of_nat (S n)) with (1970 + k + 400 * Z.of_nat n + 400) in * by lia.
      rewrite zeller_period by (unfold MAX_YEAR; lia). rewrite IH by lia. rewrite days_before_period.
      unfold days_to_month, month_days. rewrite leap_period. f_equal.
      rewrite <- (Z_mod_plus_full _ 20871). f_equal. lia. }
  unfold MAX_YEAR in *. specialize (C (Z.to_nat ((y - 1970) / 400)) ltac:(lia) ((y - 1970) mod 400) ltac:(lia)).
  replace (1970 + (y - 1970) mod 400 + 400 * Z.of_nat (Z.to_nat ((y - 1970) / 400))) with y in C by lia. apply C. lia.
Qed.

(** ** The change times *)

Lemma january_1_spec year : fits 32 year -> year <= MAX_YEAR ->
  january_1 year = Some (if 1970 <? year then 86400 * days_before year else 0).
Proof.
  intros F U. rewrite fits32 in F. unfold MAX_YEAR in U. unfold january_1. destruct (Z.ltb_spec 1970 year); [|done].
  chk_all. rewrite chk_fits; [|unfold SECSPERDAY; fits_lia]. f_equal. rewrite days_before_closed.
  unfold leaps, SECSPERDAY. rewrite !(Z.quot_div_nonneg (year - 1)) by lia. lia.
Qed.

Lemma week_loop_spec k d len : 0 <= d < len ->
  exists j, week_loop k d len = d + 7 * j /\ 0 <= j <= Z.of_nat k /\ d + 7 * j < len /\
  (j = Z.of_nat k \/ len <= d + 7 * j + 7).
Proof.
  revert d. induction k as [|k IH]; intros d Hd; cbn [week_loop]; [exists 0; lia|].
  destruct (Z.leb_spec len (d + 7)); [exists 0; lia|].
  destruct (IH (d + 7) ltac:(lia)) as (j & -> & J). exists (j + 1). lia.
Qed.

Lemma zeller_total year m : fits 32 (year - 1) -> exists dow, zeller year m = Some dow /\ 0 <= dow < 7.
Proof.
  intros F. unfold zeller. cbv zeta. assert (E : exists x, (if m <=? 2 then chk 32 (year - 1) else Some year) = Some x).
  { destruct (m <=? 2); [rewrite chk_fits by done|]; eauto. }
  destruct E as [x ->]. rewrite bind_ok, rem7. eexists. split; [done|]. apply Z.mod_pos_bound. lia.
Qed.

Lemma month_length y m : 0 <= m < 12 -> 28 <= days_to_month y (m + 1) - days_to_month y m <= 31.
Proof.
  intros Hm. pose proof (days_to_month_succ y (Z.to_nat m) ltac:(lia)) as E.
  replace (Z.of_nat (S (Z.to_nat m))) with (m + 1) in E by lia. rewrite Z2Nat.id in E by lia. rewrite E.
  assert (B : forall n, (n < 12)%nat -> 28 <= nth n (month_days y) 0 <= 31).
  { intros n Hn. unfold month_days. do 12 (destruct n as [|n]; [simpl; try case_match; lia|]). lia. }
  specialize (B (Z.to_nat m) ltac:(lia)). lia.
Qed.

(** The switch adds whole days, those of the rule from 1970 on. *)
Lemma rule_time_spec r year t : rule_ok r -> fits 32 (year - 1) -> year <= MAX_YEAR -> Z.abs t < 2 ^ 62 ->
  exists p, rule_time r year t = Some (t + 86400 * p) /\ 0 <= p < 500 /\
  (1970 <= year -> rule_day r year (days_before year + p)).
Proof.
  intros [D _ _] F U Ht. unfold rule_time, rule_day. unfold SECSPERDAY. destruct (type r).
  - exists (r_d r). rewrite chk_fits by fits_lia. split; [f_equal; lia|]. split; [lia|]. lia.
  - chk_step. rewrite isleap_leap.
    destruct (Z.leb_spec 60 (r_d r)); [destruct (leap year) eqn:L|]; cbn [andb].
    + exists (r_d r). rewrite chk_fits by fits_lia. split; [f_equal; lia|]. split; [lia|]. intros _.
      replace (days_before year + r_d r - days_before year) with (r_d r) by lia. bool_cases; lia.
    + exists (r_d r - 1). split; [f_equal; lia|]. split; [lia|]. intros _. split; [lia|done].
    + exists (r_d r - 1). split; [f_equal; lia|]. split; [lia|]. intros _.
      replace (days_before year + (r_d r - 1) - days_before year) with (r_d r - 1) by lia.
      rewrite (proj2 (Z.ltb_ge _ _)), andb_false_r by lia. split; [lia|]. intros _. lia.
  - destruct D as (Dm & Dn & Dd). rewrite isleap_leap, !mon_yday_lookup by lia. rewrite !bind_ok. rewrite !Z2Nat.id by lia.
    pose proof (month_length year (r_m r - 1) ltac:(lia)) as Lm. replace (r_m r - 1 + 1) with (r_m r) in Lm by lia.
    pose proof (days_to_month_mono year 0 (r_m r - 1) ltac:(lia) ltac:(lia)) as M0.
    pose proof (days_to_month_mono year (r_m r) 12 ltac:(lia) ltac:(lia)) as M1. rewrite days_to_month_12 in M1.
    pose proof (year_days_bounds year). change (days_to_month year 0) with 0 in M0.
    set (first := days_to_month year (r_m r - 1)) in *. set (next := days_to_month year (r_m r)) in *.
    chk_step. destruct (zeller_total year (r_m r) F) as (dow & Ez & Bz). rewrite Ez, bind_ok. cbv zeta.
    set (d := if r_d r - dow <? 0 then r_d r - dow + 7 else r_d r - dow).
    assert (Bd : 0 <= d < 7 /\ (d - (r_d r - dow)) mod 7 = 0) by (subst d; bool_cases; lia).
    destruct (week_loop_spec (Z.to_nat (r_n r - 1)) d (next - first) ltac:(lia)) as (j & -> & J).
    exists (first + (d + 7 * j)). rewrite chk_fits by fits_lia. split; [f_equal; lia|]. split; [lia|].
    intros Y. rewrite zeller_spec in Ez by lia. injection Ez as Ez. fold first in Ez.
    replace (days_before year + (first + (d + 7 * j)) - days_before year) with (first + (d + 7 * j)) by lia.
    split; [lia|]. split; [clear - Ez Bd Dd; lia|]. destruct (Z.ltb_spec (r_n r) 5); lia.
Qed.

(** ** Rules with a cache *)

Definition uncached (r : tz_rule) : tz_rule :=
  mkRule (name r) (type r) (r_m r) (r_n r) (r_d r) (secs r) (offset r) 0 (-1).

(** A change time that has been computed is the one of its year. *)
Definition cache_ok (r : tz_rule) : Prop :=
  computed_for r <> -1 -> compute_change (uncached r) (computed_for r) = Some r.

Lemma uncached_miss r year : negb (year =? -1) && (computed_for (uncached r) =? year) = false.
Proof. cbn [uncached computed_for]. destruct (Z.eqb_spec year (-1)); [done|]. by apply Z.eqb_neq. Qed.

Lemma compute_change_uncached r year : computed_for r = -1 \/ computed_for r <> year ->
  compute_change r year = compute_change (uncached r) year.
Proof.
  intros H. unfold compute_change.
  rewrite uncached_miss, (proj2 (andb_false_iff _ _)); [by destruct r|].
  destruct (Z.eqb_spec year (-1)); [by left|right]. apply Z.eqb_neq. lia.
Qed.

(** The cache makes no difference and stays right. *)
Lemma compute_change_cached r year : cache_ok r -> compute_change r year = compute_change (uncached r) year.
Proof.
  intros C. destruct (Z.eq_dec (computed_for r) (-1)) as [E|E]; [apply compute_change_uncached; by left|].
  destruct (Z.eq_dec (computed_for r) year) as [<-|N]; [|apply compute_change_uncached; by right].
  rewrite C by done. unfold compute_change. rewrite (proj2 (Z.eqb_neq _ _)) by done. cbn [negb andb].
  by rewrite Z.eqb_refl.
Qed.

Lemma compute_change_result r year r' : compute_change (uncached r) year = Some r' ->
  same_rule r r' /\ computed_for r' = year /\ cache_ok r'.
Proof.
  intros E. assert (S : same_rule r r' /\ computed_for r' = year).
  { revert E. unfold compute_change. rewrite uncached_miss. intros E. destruct (january_1 year); [|done]. rewrite bind_ok in E. destruct (rule_time _ year z); [|done].
      rewrite bind_ok in E. destruct (chk 64 (z0 - _)); [|done]. rewrite bind_ok in E.
      destruct (chk 64 (z1 + _)); [|done]. rewrite bind_ok in E. by injection E as <-. }
  split; [apply S|]. split; [apply S|]. intros _. destruct S as ((S1 & S2 & S3 & S4 & S5 & S6 & S7) & S8).
  rewrite S8, <- E. f_equal. unfold uncached. congruence.
Qed.

(** When the rule takes effect in [year]. *)
Definition takes_effect (r : tz_rule) (year s : Z) : Prop :=
  exists day, rule_day r year day /\ s = 86400 * day - offset r + secs r.

Lemma compute_change_total r year : rule_ok r -> cache_ok r -> fits 32 year -> fits 32 (year - 1) -> year <= MAX_YEAR ->
  exists r', compute_change r year = Some r' /\ same_rule r r' /\ cache_ok r' /\
  (1970 <= year -> takes_effect r year (change r')).
Proof.
  intros O C F F' U. rewrite compute_change_cached by done.
  assert (E : exists p, compute_change (uncached r) year =
    Some (mkRule (name r) (type r) (r_m r) (r_n r) (r_d r) (secs r) (offset r)
      ((if 1970 <? year then 86400 * days_before year else 0) + 86400 * p - offset r + secs r) year) /\
    (1970 <= year -> rule_day r year (days_before year + p))).
  { unfold compute_change. rewrite uncached_miss, january_1_spec, bind_ok by done.
    set (t := if 1970 <? year then _ else 0).
    assert (Bt : Z.abs t < 2 ^ 50).
    { subst t. destruct (Z.ltb_spec 1970 year); [|lia]. unfold MAX_YEAR in U. pose proof (days_before_mono 1970 year ltac:(lia)).
      change (days_before 1970) with 0 in *. lia. }
    destruct (rule_time_spec (uncached r) year t) as (p & -> & Bp & D); [by destruct O|done|done|lia|].
    destruct O as [_ Os Oo]. exists p. rewrite bind_ok. cbn [uncached offset secs name type r_m r_n r_d].
    chk_step. chk_step. split; [done|]. apply D. }
  destruct E as (p & E & D). destruct (compute_change_result r year _ E) as (S & _ & C').
  eexists. split; [done|]. split; [done|]. split; [done|]. intros Y. exists (days_before year + p). split; [by apply D|].
  cbn [change]. destruct (Z.ltb_spec 1970 year); [lia|]. replace year with 1970 by lia. change (days_before 1970) with 0. lia.
Qed.

(** ** The zone *)

Record zone_ok (z : tz_state) : Prop := {
  zo_rule0 : rule_ok (tz_rules0 z); zo_rule1 : rule_ok (tz_rules1 z);
  zo_cache0 : cache_ok (tz_rules0 z); zo_cache1 : cache_ok (tz_rules1 z) }.

Definition same_zone_rules (z z' : tz_state) : Prop :=
  same_rule (tz_rules0 z) (tz_rules0 z') /\ same_rule (tz_rules1 z) (tz_rules1 z') /\
  __tzname0 z' = __tzname0 z /\ __tzname1 z' = __tzname1 z.

(** Daylight saving time is the part of the year, taken as a circle, from [s0]
    up to [s1]. *)
Definition in_dst (s0 s1 t : Z) : bool :=
  if s1 <? s0 then (t <? s1) || (s0 <=? t) else (s0 <=? t) && (t <? s1).

Lemma rule_ok_same r r' : same_rule r r' -> rule_ok r -> rule_ok r'.
Proof. intros (_ & E1 & E2 & E3 & E4 & E5 & E6) []. constructor; by rewrite ?E1, ?E2, ?E3, ?E4, ?E5, ?E6. Qed.

Lemma tz_compute_spec z timer tp loc : zone_ok z -> fits 32 (tm_year tp) -> 1900 + tm_year tp <= MAX_YEAR ->
  exists z' s0 s1, zone_ok z' /\ same_zone_rules z z' /\
  __tz_compute z timer tp loc = Some (z', if loc then
    let dst := in_dst s0 s1 timer in
    set_zone tp (b2z dst) (offset (if dst then tz_rules1 z else tz_rules0 z)) (if dst then __tzname1 z else __tzname0 z)
    else tp) /\
  (1970 <= 1900 + tm_year tp ->
   takes_effect (tz_rules0 z) (1900 + tm_year tp) s0 /\ takes_effect (tz_rules1 z) (1900 + tm_year tp) s1).
Proof.
  intros [O0 O1 C0 C1] F U. unfold __tz_compute. rewrite fits32 in F. unfold MAX_YEAR in U. chk_step.
  set (year := 1900 + tm_year tp) in *.
  destruct (compute_change_total (tz_rules0 z) year O0 C0) as (r0 & -> & S0 & C0' & T0); [fits_lia..|done|]. rewrite bind_ok.
  destruct (compute_change_total (tz_rules1 z) year O1 C1) as (r1 & -> & S1 & C1' & T1); [fits_lia..|done|]. rewrite bind_ok.
  exists (mkTz r0 r1 (__tzname0 z) (__tzname1 z) (__daylight z) (__timezone z)), (change r0), (change r1).
  split; [constructor; [by apply (rule_ok_same _ _ S0)|by apply (rule_ok_same _ _ S1)|done..]|].
  split; [done|]. split; [|by intros Y; split; [apply T0|apply T1]].
  destruct loc; [|done]. cbv zeta. do 3 f_equal. cbn [__tzname0 __tzname1]. fold (in_dst (change r0) (change r1) timer).
  destruct S0 as (_ & _ & _ & _ & _ & _ & E0), S1 as (_ & _ & _ & _ & _ & _ & E1). by destruct (in_dst _ _ _).
Qed.

Lemma max_year_seconds t y : in_year (t / 86400) y -> y <= MAX_YEAR -> t < 2 ^ 48.
Proof.
  unfold in_year, MAX_YEAR. rewrite days_before_succ. intros Y U. pose proof (year_days_bounds y).
  destruct (Z.le_gt_cases 1970 y) as [L|L].
  - pose proof (days_before_mono 1970 y L). change (days_before 1970) with 0 in *. lia.
  - pose proof (days_before_mono y 1970 ltac:(lia)). change (days_before 1970) with 0 in *. lia.
Qed.

(** The two calls of [__offtime] around the choice of the zone. *)
Lemma tz_convert_spec z t loc tp y : zone_ok z -> - 2 ^ 55 <= t -> in_year (t / 86400) y -> y <= MAX_YEAR ->
  exists z' tp' s0 s1, __tz_convert z t loc tp = Some (z', Some tp') /\ zone_ok z' /\ same_zone_rules z z' /\
  normal tp' /\ seconds tp' = t + tm_gmtoff tp' /\
  (if loc then
    let dst := in_dst s0 s1 t in
    tm_isdst tp' = b2z dst /\ tm_gmtoff tp' = offset (if dst then tz_rules1 z else tz_rules0 z) /\
    tm_zone tp' = (if dst then __tzname1 z else __tzname0 z)
   else tm_isdst tp' = 0 /\ tm_gmtoff tp' = 0 /\ tm_zone tp' = "GMT"%string) /\
  (1970 <= y -> takes_effect (tz_rules0 z) y s0 /\ takes_effect (tz_rules1 z) y s1).
Proof.
  intros O Ht Y U. pose proof (max_year_seconds t y Y U). unfold __tz_convert. cbv zeta.
  destruct (offtime_succeeds t 0 tp) as (tp1 & -> & _ & N1 & S1); [lia|lia|]. rewrite bind_ok. cbn [Z.eqb].
  rewrite Z.add_0_r in S1. rewrite <- S1 in Y. apply seconds_year in Y; [|done].
  destruct (tz_compute_spec z t tp1 loc O) as (z' & s0 & s1 & O' & R & -> & T); [by destruct N1|lia|].
  replace (1900 + tm_year tp1) with y in T by lia. rewrite bind_ok.
  set (tp2 := if negb loc then _ else _). pose proof O as [[_ _ B0] [_ _ B1] _ _].
  assert (G : Z.abs (tm_gmtoff tp2) < 2 ^ 31) by (subst tp2; destruct loc; simpl; [by case_match|lia]).
  destruct (offtime_succeeds t (tm_gmtoff tp2 - 0) tp2) as (tp3 & E & (Z1 & Z2 & Z3) & N3 & S3); [lia|lia|].
  cbv zeta in E. rewrite E, bind_ok. cbn [Z.eqb negb]. rewrite Z.add_0_r.
  exists z', tp3, s0, s1. split; [by destruct tp3|]. split; [done|]. split; [done|]. split; [done|].
  split; [rewrite S3, Z2; lia|]. split; [|done]. rewrite Z1, Z2, Z3. by destruct loc.
Qed.

(** C27: [localtime_r] in a zone given by rules, at a time of the years 1970 to
    5881000: the time is daylight saving time exactly in the part of its year the
    rules describe, and the result is the normal [struct tm] of the local time.
    The state keeps the rules, and the change times cached by earlier calls have
    no influence.  Both bounds are needed: before 1970 [compute_change] starts
    from 1970 instead of the year, and its arithmetic overflows from 5885487
    on. *)
Theorem localtime_correct z t tp y : zone_ok z -> in_year (t / 86400) y -> 1970 <= y <= MAX_YEAR ->
  exists z' tp' s0 s1, __localtime64_r z t tp = Some (z', Some tp') /\ zone_ok z' /\ same_zone_rules z z' /\
  takes_effect (tz_rules0 z) y s0 /\ takes_effect (tz_rules1 z) y s1 /\
  let dst := in_dst s0 s1 t in
  normal tp' /\ seconds tp' = t + tm_gmtoff tp' /\ tm_isdst tp' = b2z dst /\
  tm_gmtoff tp' = offset (if dst then tz_rules1 z else tz_rules0 z) /\
  tm_zone tp' = (if dst then __tzname1 z else __tzname0 z).
Proof.
  intros O Y U. assert (L : 0 <= t).
  { unfold in_year in Y. pose proof (days_before_mono 1970 y ltac:(lia)). change (days_before 1970) with 0 in *. lia. }
  destruct (tz_convert_spec z t true tp y O ltac:(lia) Y ltac:(lia)) as (z' & tp' & s0 & s1 & E & O' & R & N & S & D & T).
  exists z', tp', s0, s1. destruct T as [T0 T1]; [lia|]. cbv zeta in D. by split_and!.
Qed.

(** [gmtime_r] gives the normal [struct tm] of the time in UTC. *)
Theorem gmtime_correct z t tp y : zone_ok z -> - 2 ^ 55 <= t -> in_year (t / 86400) y -> y <= MAX_YEAR ->
  exists z' tp', __gmtime64_r z t tp = Some (z', Some tp') /\ zone_ok z' /\ same_zone_rules z z' /\
  normal tp' /\ seconds tp' = t /\ tm_isdst tp' = 0 /\ tm_gmtoff tp' = 0 /\ tm_zone tp' = "GMT"%string.
Proof.
  intros O L Y U.
  destruct (tz_convert_spec z t false tp y O L Y U) as (z' & tp' & _ & _ & E & O' & R & N & S & (D1 & D2 & D3) & _).
  exists z', tp'. split; [exact E|]. rewrite D2 in S. split_and!; try done. lia.
Qed.


(** ** Witnesses *)

(** [EST5EDT,M3.2.0,M11.1.0] *)
Definition w_zone : tz_state := update_vars (mkTz (mkRule "EST" M 3 2 0 7200 (-18000) 0 (-1))
  (mkRule "EDT" M 11 1 0 7200 (-14400) 0 (-1)) "" "" false 0)%string.
Definition w_tm : tm := mkTm 0 0 0 0 0 0 0 0 0 0 ""%string.

Lemma w_zone_ok : zone_ok w_zone.
Proof. constructor; [constructor; by vm_compute|constructor; by vm_compute|by intros []|by intros []]. Qed.

Lemma w_year : in_year (1690000000 / 86400) 2023.
Proof. by vm_compute. Qed.

Lemma localtime_correct_witness : exists z' tp', __localtime64_r w_zone 1690000000 w_tm = Some (z', Some tp') /\
  normal tp' /\ tm_isdst tp' = 1 /\ seconds tp' = 1690000000 - 14400.
Proof.
  destruct (localtime_correct w_zone 1690000000 w_tm 2023 w_zone_ok w_year) as (z' & tp' & s0 & s1 & E & _ & _ & _ & _ & N & S & _).
  - by vm_compute.
  - vm_compute in E. injection E as <- <-. eexists _, _. split; [by vm_compute|]. split; [exact N|]. done.
Defined.

Lemma gmtime_correct_witness : exists z' tp', __gmtime64_r w_zone 1690000000 w_tm = Some (z', Some tp') /\
  normal tp' /\ seconds tp' = 1690000000.
Proof.
  destruct (gmtime_correct w_zone 1690000000 w_tm 2023 w_zone_ok) as (z' & tp' & E & _ & _ & N & S & _).
  - by vm_compute.
  - exact w_year.
  - by vm_compute.
  - exists z', tp'. split; [exact E|]. split; [exact N|exact S].
Defined.

