(* ===== verification/Mktime.v ===== *)
(** * Inverting a time conversion: [time/mktime.c], [time/timegm.c]

    [__mktime_internal] looks for the time that [convert] maps to a requested
    local time.  [convert] is a function of the time: the [struct tm], or the
    error it sets, or undefined behaviour ([None]).  [long_int] and
    [__time64_t] are 64-bit; signed operations are checked for overflow. *)

From Stdlib Require Import String.
From S2P Require Import Prelude CLoop CInt Offtime Tzset.

Inductive errno := EOVERFLOW | EOTHER.

Definition shr (a b : Z) : Z := Z.shiftr a b.

Definition mktime_min : Z := - 2 ^ 63.
Definition mktime_max : Z := 2 ^ 63 - 1.

Definition EPOCH_YEAR : Z := 1970.
Definition TM_YEAR_BASE : Z := 1900.

(** Is [year + TM_YEAR_BASE] a leap year? *)
Definition leapyear (year : Z) : bool :=
  (Z.land year 3 =? 0)
  && (negb (Z.rem year 100 =? 0)
      || (Z.land (Z.quot year 100) 3 =? Z.land (- Z.quot TM_YEAR_BASE 100) 3)).

Definition isdst_differ (a b : Z) : bool :=
  negb (eqb (a =? 0) (b =? 0)) && (0 <=? a) && (0 <=? b).

(** The leap days before [year]: [a4], [a100] and [a400]. *)
Definition leaps4 (year : Z) : Z := sint 32 (shr year 2 + shr TM_YEAR_BASE 2 - b2z (Z.land year 3 =? 0)).
Definition leaps100 (a4 : Z) : Z := Z.quot (a4 + b2z (a4 <? 0)) 25 - b2z (a4 <? 0).
Definition leaps400 (a100 : Z) : Z := sint 32 (shr a100 2).

Definition ydhms_diff (year1 yday1 hour1 min1 sec1 year0 yday0 hour0 min0 sec0 : Z) : option Z :=
  let a4 := leaps4 year1 in
  let b4 := leaps4 year0 in
  let a100 := leaps100 a4 in
  let b100 := leaps100 b4 in
  let a400 := leaps400 a100 in
  let b400 := leaps400 b100 in
  intervening_leap_days ← chk 32 ((a4 - b4) - (a100 - b100) + (a400 - b400));
  years ← chk 64 (year1 - year0);
  days ← chk 64 (365 * years + yday1 - yday0 + intervening_leap_days);
  hours ← chk 64 (24 * days + hour1 - hour0);
  minutes ← chk 64 (60 * hours + min1 - min0);
  chk 64 (60 * minutes + sec1 - sec0).

Definition long_int_avg (a b : Z) : Z := shr a 1 + shr b 1 + Z.land (Z.lor a b) 1.

Definition tm_diff (year yday hour min sec : Z) (tp : tm) : option Z :=
  ydhms_diff year yday hour min sec (tm_year tp) (tm_yday tp) (tm_hour tp) (tm_min tp) (tm_sec tp).

Section Convert.
Variable convert : Z -> option (tm + errno).

Definition convert_time (t : Z) : option (tm + errno) := convert t.

(** The binary search between [ok] and [bad]; [oktm] is [None] as long as its
    [tm_sec] is the initial -1. *)
Definition bisect_step (st : Z * Z * option tm) : Z * Z * option tm + option (Z * option tm + errno) :=
  let '(ok, bad, oktm) := st in
  let mid := long_int_avg ok bad in
  if (mid =? ok) || (mid =? bad) then inr (Some (inl (ok, oktm)))
  else match convert_time mid with
       | None => inr None
       | Some (inl tp) => inl (mid, bad, Some tp)
       | Some (inr EOVERFLOW) => inl (ok, mid, oktm)
       | Some (inr e) => inr (Some (inr e))
       end.

(** The new [*t] and [*tp], or the error. *)
Definition ranged_convert (t : Z) : option (Z * tm + errno) :=
  let t1 := if t <? mktime_min then mktime_min else if t <=? mktime_max then t else mktime_max in
  r ← convert_time t1;
  match r with
  | inl tp => Some (inl (t1, tp))
  | inr EOVERFLOW =>
    r ← run 64 bisect_step (0, t1, None);
    Some (match r with
          | inl (ok, Some oktm) => if tm_sec oktm <? 0 then inr EOVERFLOW else inl (ok, oktm)
          | inl (_, None) => inr EOVERFLOW
          | inr e => inr e
          end)
  | inr e => Some (inr e)
  end.

(** How a search ended: [dt == 0], [goto offset_found], [return -1], or (for
    the search for another [tm_isdst]) without a result. *)
Inductive outcome := Match (t : Z) (tp : tm) | Found (t : Z) (tp : tm) | Fail (e : errno) | NotFound.

Section Request.
Variables year yday hour min sec isdst : Z.

(** [while (true)] with [k] probes remaining. *)
Fixpoint probe_loop (k : nat) (t t1 t2 dst2 : Z) : option outcome :=
  r ← ranged_convert t;
  match r with
  | inr e => Some (Fail e)
  | inl (t, tp) =>
    dt ← tm_diff year yday hour min sec tp;
    if dt =? 0 then Some (Match t tp)
    else if (t =? t1) && negb (t =? t2)
            && ((tm_isdst tp <? 0)
                || (if isdst <? 0 then dst2 <=? b2z (negb (tm_isdst tp =? 0))
                    else negb (eqb (negb (isdst =? 0)) (negb (tm_isdst tp =? 0)))))
    then Some (Found t tp)
    else match k with
         | S (S _ as k) =>
           t' ← chk 64 (t + dt);
           probe_loop k t' t2 t (b2z (negb (tm_isdst tp =? 0)))
         | _ => Some (Fail EOVERFLOW)
         end
  end.

Definition stride : Z := 601200.
Definition duration_max : Z := 457243209.
Definition delta_bound : Z := Z.quot duration_max 2 + stride.

(** One neighbour of [t], at [delta * direction]. *)
Definition dst_probe (t d : Z) : option outcome :=
  let ot := t + d in
  if negb (bool_decide (fits 64 ot)) then Some NotFound else
  r ← ranged_convert ot;
  match r with
  | inr e => Some (Fail e)
  | inl (ot, otm) =>
    if negb (isdst_differ isdst (tm_isdst otm)) then
      dt ← tm_diff year yday hour min sec otm;
      gt ← chk 64 (ot + dt);
      if (mktime_min <=? gt) && (gt <=? mktime_max) then
        r ← convert_time gt;
        match r with
        | inl tp => Some (Found gt tp)
        | inr EOVERFLOW => Some NotFound
        | inr e => Some (Fail e)
        end
      else Some NotFound
    else Some NotFound
  end.

(** [for (delta = stride; delta < delta_bound; delta += stride)], both
    directions each time. *)
Fixpoint dst_loop (fuel : nat) (t delta : Z) : option outcome :=
  if delta <? delta_bound then
    match fuel with
    | O => None
    | S fuel =>
      r ← dst_probe t (delta * -1);
      match r with
      | NotFound =>
        r ← dst_probe t (delta * 1);
        match r with
        | NotFound => dst_loop fuel t (delta + stride)
        | r => Some r
        end
      | r => Some r
      end
    end
  else Some NotFound.

(** A match with the wrong [tm_isdst]. *)
Definition other_dst (t : Z) (tp : tm) : option outcome :=
  let dst_difference := b2z (isdst =? 0) - b2z (tm_isdst tp =? 0) in
  r ← dst_loop 400 t stride;
  match r with
  | NotFound =>
    t ← chk 64 (t + 60 * 60 * dst_difference);
    if (mktime_min <=? t) && (t <=? mktime_max) then
      r ← convert_time t;
      match r with
      | inl tp => Some (Found t tp)
      | inr _ => Some (Fail EOVERFLOW)
      end
    else Some (Fail EOVERFLOW)
  | r => Some r
  end.

(** After the loop: a match with the wrong [tm_isdst] is replaced. *)
Definition settle (r : outcome) : option outcome :=
  match r with
  | Match t tp => if isdst_differ isdst (tm_isdst tp) then other_dst t tp else Some (Found t tp)
  | r => Some r
  end.
End Request.

(** The return value, [*tp], [*offset] and the error. *)
Record result := mkResult { ret : Z; out_tp : tm; out_offset : Z; out_errno : option errno }.

(** From [offset_found] on; [sec] is the second that was searched for. *)
Definition finish (tp : tm) (off t0 negative_offset_guess sec : Z) (r : outcome) : option result :=
  match r with
  | Found t tm =>
    let offset := sint 64 (sint 64 (t - t0) - negative_offset_guess) in
    if negb (tm_sec tp =? tm_sec tm) then
      let t := t + (b2z ((sec =? 0) && (tm_sec tm =? 60)) - sec + tm_sec tp) in
      if negb (bool_decide (fits 64 t)) || negb ((mktime_min <=? t) && (t <=? mktime_max))
      then Some (mkResult (-1) tp offset (Some EOVERFLOW))
      else
        r ← convert_time t;
        match r with
        | inl tm => Some (mkResult t tm offset None)
        | inr e => Some (mkResult (-1) tp offset (Some e))
        end
    else Some (mkResult t tm offset None)
  | Fail e => Some (mkResult (-1) tp off (Some e))
  | _ => None
  end.

Definition __mktime_internal (tp : tm) (off : Z) : option result :=
  let sec := tm_sec tp in
  let min := tm_min tp in
  let hour := tm_hour tp in
  let mday := tm_mday tp in
  let mon := tm_mon tp in
  let year_requested := tm_year tp in
  let isdst := tm_isdst tp in
  let mon_remainder := Z.rem mon 12 in
  let negative_mon_remainder := b2z (mon_remainder <? 0) in
  let mon_years := Z.quot mon 12 - negative_mon_remainder in
  year ← chk 64 (year_requested + mon_years);
  b ← __mon_yday (leapyear year) !! Z.to_nat (mon_remainder + 12 * negative_mon_remainder);
  let mon_yday := b - 1 in
  yday ← chk 64 (mon_yday + mday);
  let sec := if sec <? 0 then 0 else sec in
  let sec := if 59 <? sec then 59 else sec in
  let negative_offset_guess := sint 32 (0 - off) in
  t0 ← ydhms_diff year yday hour min sec (EPOCH_YEAR - TM_YEAR_BASE) 0 0 0 negative_offset_guess;
  r ← probe_loop year yday hour min sec isdst 6 t0 t0 t0 0;
  r ← settle year yday hour min sec isdst r;
  finish tp off t0 negative_offset_guess sec r.
End Convert.

(** [localtime_r] and [gmtime_r] as conversions.  They change the change times
    cached in the zone, which have no influence on later results. *)
Definition converting (r : option (tz_state * option tm)) : option (tm + errno) :=
  match r with
  | Some (_, Some tp) => Some (inl tp)
  | Some (_, None) => Some (inr EOVERFLOW)
  | None => None
  end.

Definition tm0 : tm := mkTm 0 0 0 0 0 0 0 0 0 0 "".

(** After [__tzset ()]; [localtime_offset] is the static variable. *)
Definition __mktime64 (z : tz_state) (localtime_offset : Z) (tp : tm) : option result :=
  __mktime_internal (fun t => converting (__localtime64_r z t tm0)) tp localtime_offset.

Definition __timegm64 (z : tz_state) (gmtime_offset : Z) (tmp : tm) : option result :=
  __mktime_internal (fun t => converting (__gmtime64_r z t tm0))
    (set_zone tmp 0 (tm_gmtoff tmp) (tm_zone tmp)) gmtime_offset.
