(* ===== verification/MktimeTheorems.v ===== *)
(** * What [mktime] finds

    Any conversion: a successful call returns a time and its [struct tm].  A
    conversion with a fixed offset from UTC: the call returns the requested
    time, fields out of their ranges included, moved by an hour if [tm_isdst]
    asks for the kind of time the zone does not have, and fails exactly when a
    year is not an [int].  [mktime] undoes [localtime]. *)

From Stdlib Require Import String.
From S2P Require Import Prelude CLoop CInt Calendar Offtime OfftimeTheorems Tzset TzsetTheorems Mktime.

#[local] Ltac Zify.zify_post_hook ::= Z.to_euclidean_division_equations.

(** ** Leap days *)

Lemma land_3 x : Z.land x 3 = x mod 4.
Proof. apply (Z.land_ones x 2). lia. Qed.

Lemma leapyear_leap y : leapyear y = leap (1900 + y).
Proof.
  unfold leapyear, leap. change (Z.land (- Z.quot TM_YEAR_BASE 100) 3) with 1. rewrite !land_3.
  destruct (Z.eqb_spec (y mod 4) 0), (Z.eqb_spec (Z.rem y 100) 0), (Z.eqb_spec (Z.quot y 100 mod 4) 1),
    (Z.eqb_spec ((1900 + y) mod 4) 0), (Z.eqb_spec ((1900 + y) mod 100) 0), (Z.eqb_spec ((1900 + y) mod 400) 0);
    simpl; try done; lia.
Qed.

Lemma leaps_year y : Z.abs y <= 2 ^ 32 ->
  let a4 := leaps4 y in let a100 := leaps100 a4 in
  a4 = (1899 + y) / 4 /\ a100 = (1899 + y) / 100 /\ leaps400 a100 = (1899 + y) / 400.
Proof.
  intros Hy. cbv zeta. assert (E4 : leaps4 y = (1899 + y) / 4).
  { unfold leaps4, shr. rewrite land_3, !Z.shiftr_div_pow2 by lia. change (2 ^ 2) with 4.
    change (TM_YEAR_BASE / 4) with 475. rewrite sint_small; [|lia|]; destruct (Z.eqb_spec (y mod 4) 0); simpl b2z; try fits_lia; lia. }
  rewrite E4. assert (E100 : leaps100 ((1899 + y) / 4) = (1899 + y) / 100).
  { unfold leaps100. destruct (Z.ltb_spec ((1899 + y) / 4) 0); simpl b2z; lia. }
  split; [done|]. rewrite E100. split; [done|]. unfold leaps400, shr. rewrite Z.shiftr_div_pow2 by lia. change (2 ^ 2) with 4.
  rewrite Z.div_div by lia. apply sint_small; [lia|]. fits_lia.
Qed.

(** ** Differences of times *)

(** The time of a year, a day of the year and a clock, in seconds since the
    Epoch. *)
Definition moment (year yday hour min sec : Z) : Z :=
  86400 * (days_before (1900 + year) + yday) + 3600 * hour + 60 * min + sec.

Definition YEAR_BOUND : Z := 2400000000.

Lemma days_before_bounds y : 365 * Z.abs (y - 1970) <= Z.abs (days_before y) <= 366 * Z.abs (y - 1970).
Proof.
  assert (E : days_before 1970 = 0) by done. destruct (Z.le_gt_cases 1970 y).
  - pose proof (days_before_mono 1970 y). lia.
  - pose proof (days_before_mono y 1970). lia.
Qed.

Lemma leap_days_diff a b : a / 4 - b / 4 - (a / 100 - b / 100) + (a / 400 - b / 400) = leaps a - leaps b.
Proof. unfold leaps. generalize (a / 4), (b / 4), (a / 100), (b / 100), (a / 400), (b / 400). lia. Qed.

Lemma leaps_diff a b : Z.abs (leaps a - leaps b) <= (Z.abs (a - b) + 3) / 4.
Proof.
  destruct (Z.le_gt_cases b a) as [H|H].
  - pose proof (leaps_count b (a - b) ltac:(lia)) as C. replace (b + (a - b)) with a in C by lia.
    rewrite !Z.abs_eq by lia. apply C.
  - pose proof (leaps_count a (b - a) ltac:(lia)) as C. replace (a + (b - a)) with b in C by lia.
    rewrite !Z.abs_neq by lia. replace (- (a - b)) with (b - a) by lia. generalize dependent ((b - a + 3) / 4). lia.
Qed.

(** The part of [ydhms_diff] after the leap days does not overflow. *)
Lemma clock_diff leap_days year1 yday1 hour1 min1 sec1 year0 yday0 hour0 min0 sec0 :
  Z.abs leap_days <= 2 ^ 31 ->
  Z.abs year1 <= YEAR_BOUND -> Z.abs year0 <= YEAR_BOUND -> Z.abs yday1 <= 2 ^ 32 -> Z.abs yday0 <= 2 ^ 32 ->
  Z.abs hour1 <= 2 ^ 31 -> Z.abs hour0 <= 2 ^ 31 -> Z.abs min1 <= 2 ^ 31 -> Z.abs min0 <= 2 ^ 31 ->
  Z.abs sec1 <= 2 ^ 31 -> Z.abs sec0 <= 2 ^ 31 ->
  (years ← chk 64 (year1 - year0);
   days ← chk 64 (365 * years + yday1 - yday0 + leap_days);
   hours ← chk 64 (24 * days + hour1 - hour0);
   minutes ← chk 64 (60 * hours + min1 - min0);
   chk 64 (60 * minutes + sec1 - sec0))
  = Some (86400 * (365 * (year1 - year0) + yday1 - yday0 + leap_days)
          + 3600 * (hour1 - hour0) + 60 * (min1 - min0) + (sec1 - sec0)).
Proof.
  unfold YEAR_BOUND. intros. abs_ranges. chk_all. rewrite chk_fits by fits_lia. f_equal. lia.
Qed.

Lemma ydhms_diff_spec year1 yday1 hour1 min1 sec1 year0 yday0 hour0 min0 sec0 :
  Z.abs year1 <= YEAR_BOUND -> Z.abs year0 <= YEAR_BOUND -> Z.abs yday1 <= 2 ^ 32 -> Z.abs yday0 <= 2 ^ 32 ->
  Z.abs hour1 <= 2 ^ 31 -> Z.abs hour0 <= 2 ^ 31 -> Z.abs min1 <= 2 ^ 31 -> Z.abs min0 <= 2 ^ 31 ->
  Z.abs sec1 <= 2 ^ 31 -> Z.abs sec0 <= 2 ^ 31 ->
  ydhms_diff year1 yday1 hour1 min1 sec1 year0 yday0 hour0 min0 sec0
  = Some (moment year1 yday1 hour1 min1 sec1 - moment year0 yday0 hour0 min0 sec0).
Proof.
  intros Y1 Y0 D1 D0 H1 H0 M1 M0 S1 S0. unfold ydhms_diff. unfold YEAR_BOUND in *.
  destruct (leaps_year year1 ltac:(clear - Y1; lia)) as (-> & -> & ->).
  destruct (leaps_year year0 ltac:(clear - Y0; lia)) as (-> & -> & ->).
  rewrite leap_days_diff. pose proof (leaps_diff (1899 + year1) (1899 + year0)) as B.
  set (L := leaps (1899 + year1) - leaps (1899 + year0)) in *.
  rewrite (chk_fits 32 L) by (rewrite fits32; clear - B Y1 Y0; clearbody L; lia). rewrite bind_ok.
  unfold moment. rewrite !days_before_closed. replace (1900 + year1 - 1) with (1899 + year1) by lia.
  replace (1900 + year0 - 1) with (1899 + year0) by lia.
  replace (leaps (1899 + year1)) with (leaps (1899 + year0) + L) by (subst L; lia).
  assert (BL : Z.abs L <= 2 ^ 31) by (clear - B Y1 Y0; clearbody L; lia). clearbody L.
  rewrite clock_diff by (unfold YEAR_BOUND; assumption). f_equal. lia.
Qed.

Lemma tm_diff_spec year yday hour min sec tp :
  Z.abs year <= YEAR_BOUND -> Z.abs yday <= 2 ^ 32 -> Z.abs hour <= 2 ^ 31 -> Z.abs min <= 2 ^ 31 -> Z.abs sec <= 2 ^ 31 ->
  normal tp -> tm_diff year yday hour min sec tp = Some (moment year yday hour min sec - seconds tp).
Proof.
  intros. pose proof (normal_yday tp ltac:(done)) as Y. pose proof (year_days_bounds (1900 + tm_year tp)).
  destruct H4 as [? ? ? _ _ _ _ F]. rewrite fits32 in F. unfold tm_diff. apply ydhms_diff_spec; unfold YEAR_BOUND in *; lia.
Qed.

(** ** Any conversion *)

Section Sound.
Variable convert : Z -> option (tm + errno).

Definition outcome_ok (r : outcome) : Prop :=
  match r with
  | Match t tp | Found t tp => convert t = Some (inl tp)
  | _ => True
  end.

Lemma ranged_convert_sound t t' tp : ranged_convert convert t = Some (inl (t', tp)) -> convert t' = Some (inl tp).
Proof.
  unfold ranged_convert, convert_time. cbv zeta. set (t1 := if t <? mktime_min then _ else _).
  intros H. bind_inv H. destruct s as [tp1|[]].
  - by injection H as <- <-.
  - bind_inv H.
    apply (run_inv (bisect_step convert)
      (fun st => match snd st with Some o => convert (fst (fst st)) = Some (inl o) | None => True end)
      (fun r => match r with inl (ok, Some o) => convert ok = Some (inl o) | _ => True end)) in E0; [..|done].
    + destruct s as [[ok [o|]]|]; try done. case_match; [done|]. by injection H as <- <-.
    + intros [[ok bad] o] I. unfold bisect_step, convert_time. cbn [fst snd] in I.
      destruct (_ || _); [by destruct o|]. destruct (convert (long_int_avg ok bad)) as [[|[]]|] eqn:C; cbn [fst snd]; done.
  - done.
Qed.

Section Request.
Variables year yday hour min sec isdst : Z.

Lemma probe_loop_sound k t t1 t2 dst2 r :
  probe_loop convert year yday hour min sec isdst k t t1 t2 dst2 = Some r -> outcome_ok r.
Proof.
  revert t t1 t2 dst2. induction k as [|k IH]; intros t t1 t2 dst2 H; cbn [probe_loop] in H;
    bind_inv H; destruct s as [[t' tp]|e]; try (by injection H as <-); bind_inv H;
    apply ranged_convert_sound in E;
    (destruct (z =? 0); [by injection H as <-|]); (destruct (_ && _ && _); [by injection H as <-|]);
    [by injection H as <-|].
  destruct k as [|k]; [by injection H as <-|]. bind_inv H. by apply IH in H.
Qed.

Lemma dst_probe_sound t d r : dst_probe convert year yday hour min sec isdst t d = Some r -> outcome_ok r.
Proof.
  unfold dst_probe, convert_time. cbv zeta. case_match; [by intros [= <-]|]. intros H1. bind_inv H1.
  destruct s as [[ot otm]|]; [|by injection H1 as <-]. case_match; [|by injection H1 as <-].
  bind_inv H1. bind_inv H1. case_match; [|by injection H1 as <-]. bind_inv H1.
  by destruct s as [|[]]; injection H1 as <-.
Qed.

Lemma dst_loop_sound fuel t delta r : dst_loop convert year yday hour min sec isdst fuel t delta = Some r -> outcome_ok r.
Proof.
  revert delta. induction fuel as [|fuel IH]; intros delta H; cbn [dst_loop] in H; case_match; try done;
    try (by injection H as <-). bind_inv H. apply dst_probe_sound in E.
  destruct o; try (by injection H as <-). bind_inv H. apply dst_probe_sound in E0.
  destruct o; try (by injection H as <-). by apply IH in H.
Qed.

Lemma settle_sound r r' : outcome_ok r -> settle convert year yday hour min sec isdst r = Some r' -> outcome_ok r'.
Proof.
  intros O H. destruct r; cbn [settle] in H; try (by injection H as <-). case_match; [|by injection H as <-].
  unfold other_dst, convert_time in H. cbv zeta in H. bind_inv H. apply dst_loop_sound in E.
  destruct o; try (by injection H as <-). bind_inv H. case_match; [|by injection H as <-]. bind_inv H.
  by destruct s; injection H as <-.
Qed.
End Request.

(** C25: whatever the conversion does, a call of [__mktime_internal] that
    succeeds returns a time and the [struct tm] it converts to; one that fails
    returns -1 and leaves [*tp] alone. *)
Theorem mktime_sound tp off r : __mktime_internal convert tp off = Some r ->
  match out_errno r with
  | None => convert (ret r) = Some (inl (out_tp r))
  | Some _ => ret r = -1 /\ out_tp r = tp
  end.
Proof.
  unfold __mktime_internal. cbv zeta. intros H. do 5 bind_inv H. apply probe_loop_sound in E3. bind_inv H.
  apply settle_sound in E4; [|done]. unfold finish, convert_time in H. cbv zeta in H. destruct o0; try done.
  - case_match; [|by injection H as <-]. case_match; [by injection H as <-|]. bind_inv H.
    by destruct s; injection H as <-.
  - by injection H as <-.
Qed.
End Sound.

(** ** The requested time *)

Record int_fields (tp : tm) : Prop := {
  if_sec : fits 32 (tm_sec tp); if_min : fits 32 (tm_min tp); if_hour : fits 32 (tm_hour tp);
  if_mday : fits 32 (tm_mday tp); if_mon : fits 32 (tm_mon tp); if_year : fits 32 (tm_year tp) }.

(** The month counted into the year, the day of the month into the year. *)
Definition req_year (tp : tm) : Z := tm_year tp + tm_mon tp / 12.
Definition req_yday (tp : tm) : Z := days_to_month (1900 + req_year tp) (tm_mon tp mod 12) + tm_mday tp - 1.
Definition requested (tp : tm) (sec : Z) : Z := moment (req_year tp) (req_yday tp) (tm_hour tp) (tm_min tp) sec.

(** The second that is searched for first. *)
Definition clamped (tp : tm) : Z := Z.max 0 (Z.min 59 (tm_sec tp)).

Lemma requested_bounds tp sec : int_fields tp -> Z.abs (req_year tp) <= YEAR_BOUND /\ Z.abs (req_yday tp) <= 2 ^ 32 /\
  (Z.abs sec <= 2 ^ 32 -> Z.abs (requested tp sec) < 2 ^ 58).
Proof.
  intros [S M H D O Y]. rewrite fits32 in *. unfold requested, moment, req_yday, YEAR_BOUND.
  set (y := req_year tp). assert (By : Z.abs y <= 2400000000) by (subst y; unfold req_year; lia).
  pose proof (days_to_month_mono (1900 + y) 0 (tm_mon tp mod 12) ltac:(lia) ltac:(lia)) as M0.
  pose proof (days_to_month_mono (1900 + y) (tm_mon tp mod 12) 12 ltac:(lia) ltac:(lia)) as M1.
  rewrite days_to_month_12 in M1. change (days_to_month (1900 + y) 0) with 0 in M0.
  pose proof (year_days_bounds (1900 + y)). pose proof (days_before_bounds (1900 + y)).
  generalize dependent (days_to_month (1900 + y) (tm_mon tp mod 12)). intros. clearbody y.
  split; [done|]. split; [lia|]. intros. lia.
Qed.

Lemma sint32_bounds x : Z.abs (sint 32 x) <= 2 ^ 31.
Proof. pose proof (sint_bounds 32 x ltac:(lia)) as F. rewrite fits32 in F. lia. Qed.

Lemma clamp_sec s :
  (if 59 <? (if s <? 0 then 0 else s) then 59 else if s <? 0 then 0 else s) = Z.max 0 (Z.min 59 s).
Proof. destruct (Z.ltb_spec s 0); [simpl; lia|]. destruct (Z.ltb_spec 59 s); lia. Qed.

(** What remains of [__mktime_internal] after the fields have been read. *)
Lemma mktime_search convert tp off : int_fields tp ->
  let neg := sint 32 (0 - off) in
  let sec := clamped tp in
  let t0 := requested tp sec - neg in
  __mktime_internal convert tp off =
    (r ← probe_loop convert (req_year tp) (req_yday tp) (tm_hour tp) (tm_min tp) sec (tm_isdst tp) 6 t0 t0 t0 0;
     r ← settle convert (req_year tp) (req_yday tp) (tm_hour tp) (tm_min tp) sec (tm_isdst tp) r;
     finish convert tp off t0 neg sec r).
Proof.
  intros F. cbv zeta. pose proof (requested_bounds tp 0 F) as (By & Bd & _). unfold YEAR_BOUND in By.
  destruct F as [S M H D O Y]. rewrite fits32 in *. unfold __mktime_internal. cbv zeta.
  rewrite floor_div by lia. fold (req_year tp). chk_step.
  assert (Em : Z.rem (tm_mon tp) 12 + 12 * b2z (Z.rem (tm_mon tp) 12 <? 0) = tm_mon tp mod 12).
  { destruct (Z.ltb_spec (Z.rem (tm_mon tp) 12) 0); simpl b2z; lia. }
  rewrite Em, leapyear_leap, mon_yday_lookup by lia. rewrite bind_ok, Z2Nat.id by lia.
  replace (days_to_month (1900 + req_year tp) (tm_mon tp mod 12) - 1 + tm_mday tp) with (req_yday tp) by (unfold req_yday; lia).
  chk_step.
  rewrite clamp_sec. fold (clamped tp).
  pose proof (sint32_bounds (0 - off)) as Bn.
  assert (Bc : 0 <= clamped tp <= 59) by (unfold clamped; lia).
  assert (E0 : moment (EPOCH_YEAR - TM_YEAR_BASE) 0 0 0 (sint 32 (0 - off)) = sint 32 (0 - off)) by done.
  rewrite ydhms_diff_spec, E0, bind_ok by (try done; clear Em; unfold YEAR_BOUND, EPOCH_YEAR, TM_YEAR_BASE; lia). done.
Qed.

Lemma normal_requested tp : normal tp ->
  int_fields tp /\ clamped tp = tm_sec tp /\ requested tp (tm_sec tp) = seconds tp.
Proof.
  intros N. pose proof (month_length (1900 + tm_year tp) (tm_mon tp)) as L.
  destruct N as [S M H O D Y _ F].
  pose proof (days_to_month_succ (1900 + tm_year tp) (Z.to_nat (tm_mon tp)) ltac:(lia)) as E.
  replace (Z.of_nat (Datatypes.S (Z.to_nat (tm_mon tp)))) with (tm_mon tp + 1) in E by lia. rewrite Z2Nat.id in E by lia.
  split; [|split].
  - constructor; rewrite ?fits32 in *; lia.
  - unfold clamped. lia.
  - unfold requested, seconds, moment, req_yday, req_year. rewrite Z.mod_small, Z.div_small, Z.add_0_r by lia. lia.
Qed.

Lemma ranged_convert_hit convert t tp : fits 64 t -> convert t = Some (inl tp) ->
  ranged_convert convert t = Some (inl (t, tp)).
Proof.
  intros F C. rewrite fits64 in F. unfold ranged_convert, mktime_min, mktime_max, convert_time. cbv zeta.
  rewrite (proj2 (Z.ltb_ge _ _)), (proj2 (Z.leb_le _ _)) by lia. by rewrite C, bind_ok.
Qed.

Lemma isdst_differ_refl a : isdst_differ a a = false.
Proof. unfold isdst_differ. by rewrite eqb_reflx. Qed.

(** With the right guess of the offset, a [struct tm] that a conversion gave
    is found at the first probe. *)
Lemma mktime_right_guess convert t tp : convert t = Some (inl tp) -> normal tp -> fits 64 t ->
  Z.abs (seconds tp - t) < 2 ^ 31 ->
  __mktime_internal convert tp (t - seconds tp) = Some (mkResult t tp (t - seconds tp) None).
Proof.
  intros C N F B. destruct (normal_requested tp N) as (I & Ec & Er).
  destruct (requested_bounds tp 0 I) as (By & Bd & _). pose proof N as [? ? ? _ _ _ _ _].
  rewrite mktime_search by done. cbv zeta. rewrite Ec, Er.
  rewrite (sint_small 32) by (done || fits_lia). replace (seconds tp - (0 - (t - seconds tp))) with t by lia.
  cbn [probe_loop]. rewrite (ranged_convert_hit convert t tp F C), bind_ok, tm_diff_spec by (try done; lia).
  fold (requested tp (tm_sec tp)). rewrite Er, Z.sub_diag, bind_ok. cbn [Z.eqb]. rewrite bind_ok. cbn [settle].
  rewrite isdst_differ_refl, bind_ok. unfold finish. rewrite Z.eqb_refl. cbn [negb]. cbv zeta.
  rewrite Z.sub_diag. change (sint 64 0) with 0. rewrite sint_small by (done || fits_lia). do 2 f_equal. lia.
Qed.

(** C28: [mktime] undoes [localtime] in a zone given by rules, at the times of
    the years 1970 to 5881000, when the offset it remembers is the one in force:
    the time and the [struct tm] come back, and the remembered offset stays. *)
Theorem mktime_localtime_roundtrip z t y : zone_ok z -> in_year (t / 86400) y -> 1970 <= y <= MAX_YEAR ->
  exists z' tp, __localtime64_r z t tm0 = Some (z', Some tp) /\
  __mktime64 z (- tm_gmtoff tp) tp = Some (mkResult t tp (- tm_gmtoff tp) None).
Proof.
  intros O Y U. assert (L : 0 <= t).
  { unfold in_year in Y. pose proof (days_before_mono 1970 y ltac:(lia)). change (days_before 1970) with 0 in *. lia. }
  pose proof (max_year_seconds t y Y ltac:(lia)).
  destruct (tz_convert_spec z t true tm0 y O ltac:(lia) Y ltac:(lia)) as (z' & tp & s0 & s1 & E & _ & _ & N & S & (_ & G & _) & _).
  exists z', tp. split; [exact E|]. unfold __mktime64. replace (- tm_gmtoff tp) with (t - seconds tp) by lia.
  destruct O as [[_ _ B0] [_ _ B1] _ _].
  apply mktime_right_guess; [unfold __localtime64_r; by rewrite E|done|fits_lia|].
  replace (seconds tp - t) with (tm_gmtoff tp) by lia. rewrite G. by case_match.
Qed.

(** ** Conversions to a local time *)

(** There is a [struct tm] for this local time. *)
Definition representable (x : Z) : Prop := exists tp, normal tp /\ seconds tp = x.

(** What a conversion to the local time of a zone promises: the [struct tm] of
    the time, or [EOVERFLOW] when there is none. *)
Class Zone (convert : Z -> option (tm + errno)) (utc_offset dst : Z -> Z) : Prop := {
  zone_convert t : fits 64 t ->
    (exists tp, convert t = Some (inl tp) /\ normal tp /\ seconds tp = t + utc_offset t /\ tm_isdst tp = dst t) \/
    (convert t = Some (inr EOVERFLOW) /\ ~ representable (t + utc_offset t));
  zone_offset t : Z.abs (utc_offset t) < 2 ^ 31 }.

Lemma representable_near x : Z.abs x <= 2 ^ 55 + 2 ^ 31 -> representable x.
Proof.
  intros B. destruct (year_exists (x / 86400)) as [y Y]; [lia|].
  destruct (normal_exists (x / 86400) (x mod 86400) y tm0 Y) as (tp & N & _ & S); [|lia|].
  - rewrite fits32. pose proof (days_before_year y). unfold in_year in Y. rewrite days_before_succ in Y.
    pose proof (year_days_bounds y). lia.
  - exists tp. split; [done|lia].
Qed.

Lemma avg_spec a b : long_int_avg a b = (a + b + 1) / 2.
Proof.
  unfold long_int_avg, shr. rewrite !Z.shiftr_div_pow2 by lia. change (2 ^ 1) with 2.
  rewrite (Z.land_ones _ 1), <- Z.bit0_mod, Z.lor_spec, !Z.bit0_odd by lia.
  pose proof (Zmod_odd a). pose proof (Zmod_odd b). destruct (Z.odd a), (Z.odd b); simpl Z.b2z; lia.
Qed.

Section ZoneSearch.
Context {convert : Z -> option (tm + errno)} {utc_offset dst : Z -> Z} `{!Zone convert utc_offset dst}.

Lemma zone_near t : Z.abs t <= 2 ^ 55 -> exists tp, convert t = Some (inl tp).
Proof.
  intros B. pose proof (zone_offset t). destruct (zone_convert t) as [(tp & E & _)|[_ No]]; [fits_lia|by exists tp|].
  destruct No. apply representable_near. lia.
Qed.

(** The binary search ends at a time that can be converted. *)
Lemma bisect_found bad : fits 64 bad -> convert bad = Some (inr EOVERFLOW) ->
  exists ok tp, run 64 (bisect_step convert) (0, bad, None) = Some (inl (ok, Some tp)) /\
  fits 64 ok /\ convert ok = Some (inl tp).
Proof.
  intros F C. rewrite fits64 in F.
  destruct (run_spec (bisect_step convert)
    (fun n st => let '(ok, bad, o) := st in fits 64 ok /\ fits 64 bad /\ convert bad = Some (inr EOVERFLOW) /\
       ok <> bad /\ Z.abs (bad - ok) <= n /\
       match o with Some tp => convert ok = Some (inl tp) | None => ok = 0 end)
    (fun r => exists ok tp, r = inl (ok, Some tp) /\ fits 64 ok /\ convert ok = Some (inl tp))
    64 (2 ^ 63) (0, bad, None)) as (r & E & ok & tp & -> & Fo & Co).
  - clear F C bad. intros n [[ok bad] o] (Fo & Fb & Cb & Ne & B & O). rewrite fits64 in Fo, Fb.
    unfold bisect_step, convert_time. rewrite avg_spec. set (mid := (ok + bad + 1) / 2).
    destruct (Z.eqb_spec mid ok) as [Eo|No]; [|destruct (Z.eqb_spec mid bad) as [Eb|Nb]]; cbn [orb].
    1-2: assert (A : Z.abs (bad - ok) = 1) by (subst mid; lia).
    1-2: destruct o as [tp|]; [exists ok, tp; split; [done|]; split; [fits_lia|done]|];
         exfalso; destruct (zone_near bad) as [? C]; [lia|congruence].
    destruct (zone_convert mid) as [(tp & Cm & _)|[Cm _]]; [subst mid; fits_lia|rewrite Cm..].
    + exists (Z.abs (bad - mid)). split; [subst mid; lia|]. split; [subst mid; fits_lia|]. split; [fits_lia|].
      split; [done|]. split; [done|]. split; [lia|done].
    + exists (Z.abs (mid - ok)). split; [subst mid; lia|]. split; [fits_lia|]. split; [subst mid; fits_lia|].
      split; [done|]. split; [done|]. split; [lia|done].
  - split; [fits_lia|]. split; [fits_lia|]. split; [done|]. split; [|split; [lia|done]].
    intros <-. destruct (zone_near 0) as [? Z0]; [lia|congruence].
  - lia.
  - by exists ok, tp.
Qed.

Lemma zone_sec t tp : fits 64 t -> convert t = Some (inl tp) -> normal tp /\ seconds tp = t + utc_offset t /\ tm_isdst tp = dst t.
Proof. intros F C. destruct (zone_convert t F) as [(tp' & C' & R)|[C' _]]; rewrite C in C'; [by injection C' as <-|done]. Qed.

Lemma ranged_convert_zone t : fits 64 t -> exists t' tp, ranged_convert convert t = Some (inl (t', tp)) /\
  fits 64 t' /\ convert t' = Some (inl tp) /\ (forall tp', convert t = Some (inl tp') -> t' = t).
Proof.
  intros F. destruct (zone_convert t F) as [(tp & C & _)|[C _]].
  { exists t, tp. by rewrite (ranged_convert_hit convert t tp F C). }
  destruct (bisect_found t F C) as (ok & tp & E & Fo & Co). exists ok, tp.
  split; [|split; [done|]; split; [done|congruence]].
  pose proof (zone_sec ok tp Fo Co) as ([S _ _ _ _ _ _ _] & _). rewrite fits64 in F.
  unfold ranged_convert, mktime_min, mktime_max, convert_time. cbv zeta.
  rewrite (proj2 (Z.ltb_ge t _)), (proj2 (Z.leb_le t _)), C by lia. rewrite bind_ok, E, bind_ok.
  by rewrite (proj2 (Z.ltb_ge _ _)) by lia.
Qed.
End ZoneSearch.

(** ** A fixed offset from UTC *)

Section Fixed.
Context {convert : Z -> option (tm + errno)} {c d : Z} `{!Zone convert (fun _ => c) (fun _ => d)}.

Lemma fixed_representable t : fits 64 t ->
  (exists tp, convert t = Some (inl tp) /\ normal tp /\ seconds tp = t + c /\ tm_isdst tp = d) /\ representable (t + c) \/
  convert t = Some (inr EOVERFLOW) /\ ~ representable (t + c).
Proof.
  intros F. destruct (zone_convert t F) as [(tp & C & N & S & D)|[C No]]; [left|right]; [|done].
  split; [by exists tp|]. by exists tp.
Qed.

(** How far a request for the kind of time that the zone does not have is
    moved. *)
Definition dst_shift (isdst : Z) : Z :=
  if isdst_differ isdst d then 3600 * (b2z (isdst =? 0) - b2z (d =? 0)) else 0.

Lemma dst_shift_cases isdst : Z.abs (dst_shift isdst) <= 3600 /\ dst_shift isdst mod 60 = 0.
Proof. unfold dst_shift. by destruct (isdst_differ isdst d), (isdst =? 0), (d =? 0). Qed.

Section Request.
Variables year yday hour min sec isdst : Z.
Hypothesis year_ok : Z.abs year <= YEAR_BOUND.
Hypothesis yday_ok : Z.abs yday <= 2 ^ 32.
Hypothesis hour_ok : Z.abs hour <= 2 ^ 31.
Hypothesis min_ok : Z.abs min <= 2 ^ 31.
Hypothesis sec_ok : Z.abs sec <= 2 ^ 31.
Let R := moment year yday hour min sec.
Hypothesis R_ok : Z.abs R < 2 ^ 58.

(** One probe: the error of the local time is the error of the time. *)
Lemma probe_once k t t1 t2 dst2 t' tp : ranged_convert convert t = Some (inl (t', tp)) -> fits 64 t' ->
  convert t' = Some (inl tp) -> (t' <> t1 \/ t' = t2) ->
  probe_loop convert year yday hour min sec isdst (S k) t t1 t2 dst2 =
    if t' =? R - c then Some (Match t' tp)
    else match k with
         | O => Some (Fail EOVERFLOW)
         | S _ => probe_loop convert year yday hour min sec isdst k (R - c) t2 t' (b2z (negb (tm_isdst tp =? 0)))
         end.
Proof.
  intros E F C Ne. destruct (zone_sec t' tp F C) as (N & S & _). pose proof (zone_offset 0) as B. cbn beta in B.
  cbn [probe_loop]. rewrite E, bind_ok, tm_diff_spec, bind_ok by done. fold R.
  replace (R - seconds tp =? 0) with (t' =? R - c) by (destruct (Z.eqb_spec t' (R - c)); symmetry; [apply Z.eqb_eq|apply Z.eqb_neq]; lia).
  destruct (t' =? R - c); [done|].
  replace ((t' =? t1) && negb (t' =? t2)) with false by (destruct (Z.eqb_spec t' t1), (Z.eqb_spec t' t2); simpl; [done|lia|done|done]).
  cbn [andb]. destruct k; [done|]. replace (t' + (R - seconds tp)) with (R - c) by lia.
  rewrite fits64 in F. by rewrite chk_fits, bind_ok by fits_lia.
Qed.

Lemma goal_fits : fits 64 (R - c).
Proof. pose proof (zone_offset 0) as B. cbn beta in B. fits_lia. Qed.

(** The requested time is found at the second probe at the latest. *)
Lemma probe_finds t0 : fits 64 t0 -> representable R ->
  exists tp, convert (R - c) = Some (inl tp) /\
  probe_loop convert year yday hour min sec isdst 6 t0 t0 t0 0 = Some (Match (R - c) tp).
Proof.
  intros F0 Rep. destruct (fixed_representable (R - c) goal_fits) as [[(tp & C & _) _]|[_ No]];
    [|by replace (R - c + c) with R in No by lia].
  exists tp. split; [done|]. destruct (ranged_convert_zone t0 F0) as (t' & tp' & E & F' & C' & H').
  rewrite (probe_once 5 t0 t0 t0 0 t' tp' E F' C') by (destruct (Z.eq_dec t' t0); [right|left]; done).
  destruct (Z.eqb_spec t' (R - c)) as [->|N]; [congruence|].
  rewrite (probe_once 4 (R - c) t0 t' _ (R - c) tp (ranged_convert_hit _ _ _ goal_fits C) goal_fits C); [by rewrite Z.eqb_refl|].
  left. intros Et. apply N. rewrite Et in C |- *. by apply (H' tp).
Qed.

(** Without a [struct tm] for the requested time the probes are used up. *)
Lemma probe_stuck k t1 t' tp dst2 : ~ representable R -> ranged_convert convert (R - c) = Some (inl (t', tp)) ->
  fits 64 t' -> convert t' = Some (inl tp) ->
  probe_loop convert year yday hour min sec isdst (S k) (R - c) t1 t' dst2 = Some (Fail EOVERFLOW).
Proof.
  intros No E F C. revert t1 dst2. induction k as [|k IH]; intros t1 dst2;
    rewrite (probe_once _ _ _ _ _ t' tp E F C) by (by right);
    destruct (Z.eqb_spec t' (R - c)) as [->|N]; try done; try apply IH.
  all: destruct No; destruct (zone_sec _ tp F C) as (N & S & _); exists tp; split; [done|lia].
Qed.

Lemma probe_fails t0 : fits 64 t0 -> ~ representable R ->
  probe_loop convert year yday hour min sec isdst 6 t0 t0 t0 0 = Some (Fail EOVERFLOW).
Proof.
  intros F0 No. destruct (ranged_convert_zone t0 F0) as (t' & tp' & E & F' & C' & H').
  destruct (ranged_convert_zone (R - c) goal_fits) as (u & tpu & Eu & Fu & Cu & _).
  assert (Ne : forall t tp, fits 64 t -> convert t = Some (inl tp) -> t <> R - c).
  { intros t tp F C ->. destruct No. destruct (zone_sec _ tp F C) as (N & S & _). exists tp. split; [done|lia]. }
  rewrite (probe_once 5 t0 t0 t0 0 t' tp' E F' C') by (destruct (Z.eq_dec t' t0); [right|left]; done).
  rewrite (proj2 (Z.eqb_neq _ _)) by (by apply (Ne t' tp')).
  rewrite (probe_once 4 (R - c) t0 t' _ u tpu Eu Fu Cu).
  - rewrite (proj2 (Z.eqb_neq _ _)) by (by apply (Ne u tpu)). by apply (probe_stuck 3 _ _ tpu).
  - destruct (Z.eq_dec u t0) as [->|]; [right|by left]. symmetry. by apply (H' tpu).
Qed.

(** In a zone with one [tm_isdst] the search for the other one finds nothing. *)
Lemma dst_probe_none t delta : isdst_differ isdst d = true ->
  dst_probe convert year yday hour min sec isdst t delta = Some NotFound.
Proof.
  intros D. unfold dst_probe. cbv zeta. case_bool_decide as F; [|done]. cbn [negb].
  destruct (ranged_convert_zone _ F) as (t' & tp & -> & F' & C & _). rewrite bind_ok.
  destruct (zone_sec _ _ F' C) as (_ & _ & ->). by rewrite D.
Qed.

Lemma dst_loop_none fuel t delta : isdst_differ isdst d = true -> delta_bound - delta <= Z.of_nat fuel * stride ->
  dst_loop convert year yday hour min sec isdst fuel t delta = Some NotFound.
Proof.
  intros D. revert delta. induction fuel as [|fuel IH]; intros delta B; cbn [dst_loop];
    (destruct (Z.ltb_spec delta delta_bound); [|done]); [lia|].
  rewrite !dst_probe_none, !bind_ok by done. apply IH. lia.
Qed.

(** What a match becomes when its [tm_isdst] has been looked at. *)
Lemma settle_fixed tp : convert (R - c) = Some (inl tp) ->
  let r := settle convert year yday hour min sec isdst (Match (R - c) tp) in
  (exists tp', r = Some (Found (R + dst_shift isdst - c) tp') /\ convert (R + dst_shift isdst - c) = Some (inl tp')) \/
  (r = Some (Fail EOVERFLOW) /\ ~ representable (R + dst_shift isdst)).
Proof.
  intros C. cbv zeta. cbn [settle]. destruct (zone_sec _ _ goal_fits C) as (_ & _ & Ed). rewrite Ed.
  pose proof (zone_offset 0) as B. cbn beta in B. destruct (dst_shift_cases isdst) as [Bs _]. revert Bs. unfold dst_shift.
  destruct (isdst_differ isdst d) eqn:D; [|left; exists tp; by rewrite Z.add_0_r].
  unfold other_dst. cbv zeta. rewrite dst_loop_none, bind_ok by done. rewrite Ed.
  change (60 * 60) with 3600. set (h := 3600 * _). intros Bs. assert (F : fits 64 (R + h - c)) by fits_lia.
  replace (R - c + h) with (R + h - c) by lia. rewrite chk_fits, bind_ok by done.
  pose proof F as F'. rewrite fits64 in F'. unfold mktime_min, mktime_max, convert_time.
  rewrite (proj2 (Z.leb_le _ _)), (proj2 (Z.leb_le _ _)) by lia. cbn [andb].
  destruct (fixed_representable _ F) as [[(tp' & C' & _) _]|[C' No]]; rewrite C', bind_ok; [left; by exists tp'|right].
  split; [done|]. by replace (R + h - c + c) with (R + h) in No by lia.
Qed.
End Request.

(** The seconds of the request are put back. *)
Lemma finish_fixed tp off t0 neg sec x tp1 : 0 <= sec <= 59 -> Z.abs x < 2 ^ 59 -> x mod 60 = sec -> Z.abs (tm_sec tp) <= 2 ^ 31 ->
  convert (x - c) = Some (inl tp1) ->
  let want := x - sec + tm_sec tp in
  exists r, finish convert tp off t0 neg sec (Found (x - c) tp1) = Some r /\
  ((out_errno r = None /\ ret r = want - c /\ normal (out_tp r) /\ seconds (out_tp r) = want /\ tm_isdst (out_tp r) = d) \/
   (~ representable want /\ out_errno r = Some EOVERFLOW /\ ret r = -1 /\ out_tp r = tp)).
Proof.
  intros Bc Bx Mx Bt C want. pose proof (zone_offset 0) as B. cbn beta in B.
  destruct (zone_sec (x - c) tp1 ltac:(fits_lia) C) as (N1 & S1 & D1).
  assert (Es : tm_sec tp1 = sec).
  { destruct N1 as [S' _ _ _ _ _ _ _]. revert S1. unfold seconds, moment. clear - S' Bc Mx.
    set (a := days_before _ + _) in *. clearbody a. lia. }
  unfold finish, convert_time. rewrite Es. cbv zeta.
  destruct (Z.eqb_spec (tm_sec tp) sec) as [Eq|Ne]; cbn [negb].
  { eexists. split; [done|]. left. cbn [out_errno ret out_tp]. split_and!; try done; lia. }
  replace ((sec =? 0) && (sec =? 60)) with false by (destruct (Z.eqb_spec sec 60); [lia|by rewrite andb_false_r]).
  cbn [b2z]. replace (x - c + (0 - sec + tm_sec tp)) with (want - c) by lia.
  assert (Fw : fits 64 (want - c)) by fits_lia.
  rewrite bool_decide_true by done. unfold mktime_min, mktime_max. pose proof Fw as Fw'. rewrite fits64 in Fw'.
  rewrite (proj2 (Z.leb_le _ _)), (proj2 (Z.leb_le _ _)) by lia. cbn [negb orb andb].
  destruct (fixed_representable (want - c) Fw) as [[(tp2 & C2 & N2 & S2 & D2) _]|[C2 No]]; rewrite C2, bind_ok.
  - eexists. split; [done|]. left. cbn [out_errno ret out_tp]. split_and!; try done; lia.
  - eexists. split; [done|]. right. split; [|done]. by replace (want - c + c) with want in No by lia.
Qed.

(** C2: [__mktime_internal] with a conversion at a fixed offset [c] from UTC
    whose [tm_isdst] is always [d], and any guess of the offset, returns the time
    of the requested year, month, day and clock, whatever their ranges.  Asked
    with [tm_isdst] for the kind of time the zone does not have, it returns the
    time an hour earlier (daylight saving time asked for) or later (standard time
    asked for), after its search among the neighbouring times has found none of
    that kind.  It fails, leaving [*tp], exactly when one of the local times it
    goes through has a year that is not an [int]: the request with its seconds
    brought into the minute, that time moved by the hour, or the result. *)
Theorem mktime_fixed_offset tp off : int_fields tp ->
  let shift := dst_shift (tm_isdst tp) in
  let first := requested tp (clamped tp) in
  let want := requested tp (tm_sec tp) + shift in
  exists r, __mktime_internal convert tp off = Some r /\
  ((representable first /\ representable (first + shift) /\ out_errno r = None /\ ret r = want - c /\
    normal (out_tp r) /\ seconds (out_tp r) = want /\ tm_isdst (out_tp r) = d) \/
   (~ (representable first /\ representable (first + shift) /\ representable want) /\
    out_errno r = Some EOVERFLOW /\ ret r = -1 /\ out_tp r = tp)).
Proof.
  intros I shift first want. assert (Bc : 0 <= clamped tp <= 59) by (unfold clamped; lia).
  destruct (requested_bounds tp (clamped tp) I) as (By & Bd & Br). specialize (Br ltac:(lia)).
  pose proof I as [Is Im Ih _ _ _]. rewrite fits32 in Is, Im, Ih.
  pose proof (sint32_bounds (0 - off)) as Bn. pose proof (zone_offset 0) as Bo. cbn beta in Bo.
  destruct (dst_shift_cases (tm_isdst tp)) as [Bs Ms]. fold shift in Bs, Ms.
  rewrite mktime_search by done. cbv zeta. set (neg := sint 32 (0 - off)) in *. fold first in Br |- *.
  assert (F0 : fits 64 (first - neg)) by fits_lia. assert (G : fits 64 (first - c)) by fits_lia.
  assert (Ew : want = first + shift - clamped tp + tm_sec tp) by (unfold want, first, requested, moment; lia).
  destruct (fixed_representable (first - c) G) as [[_ Rep]|[_ No]]; rewrite Z.sub_add in *.
  2:{ unfold first, requested in *. rewrite probe_fails by (try done; lia). rewrite bind_ok. cbn [settle]. rewrite bind_ok.
      eexists. split; [done|]. right. by split; [intros [? _]|]. }
  destruct (probe_finds (req_year tp) (req_yday tp) (tm_hour tp) (tm_min tp) (clamped tp) (tm_isdst tp)
    By Bd ltac:(lia) ltac:(lia) ltac:(lia) Br _ F0 Rep) as (tp1 & C1 & E). fold (requested tp (clamped tp)) first in C1, E.
  rewrite E, bind_ok.
  destruct (settle_fixed (req_year tp) (req_yday tp) (tm_hour tp) (tm_min tp) (clamped tp) (tm_isdst tp) Br tp1 C1)
    as [(tp2 & Et & C2)|[Et No]]; fold (requested tp (clamped tp)) first shift in Et; rewrite Et, bind_ok.
  2:{ eexists. split; [done|]. right. by split; [intros (_ & ? & _)|]. }
  destruct (finish_fixed tp off (first - neg) neg (clamped tp) (first + shift) tp2)
    as (r & -> & H); [lia|lia|unfold first, requested, moment; lia|lia|done|]. rewrite <- Ew in H.
  assert (representable (first + shift)) as Rs by (destruct (zone_sec (first + shift - c) tp2 ltac:(fits_lia) C2) as (N & S & _); exists tp2; split; [done|lia]).
  exists r. split; [done|]. destruct H as [H|[No H]]; [left|right]; [exact (conj Rep (conj Rs H))|]. by split; [intros (_ & _ & ?)|].
Qed.
End Fixed.

(** ** Instances and witnesses *)

(** The conversion of a zone [c] seconds east of UTC. *)
Definition fixed_zone (c t : Z) : option (tm + errno) :=
  match __offtime t c (set_zone tm0 0 c "") with
  | Some (1, tp) => Some (inl tp)
  | Some _ => Some (inr EOVERFLOW)
  | None => None
  end.

#[export] Instance fixed_zone_ok c (B : Z.abs c < 2 ^ 31) : Zone (fixed_zone c) (fun _ => c) (fun _ => 0).
Proof.
  split; [|done]. intros t F. unfold fixed_zone.
  destruct (offtime_spec t c (set_zone tm0 0 c "") F ltac:(lia)) as (r & tp & -> & (Z1 & _ & _) & [(-> & N & S)|(-> & No)]); [left|right].
  - exists tp. by split_and!.
  - split; [done|]. intros (tp' & N & S). by apply (No tp').
Qed.

(** 14 November 2023, 22:13:20, an hour east of UTC, as day 318 of January and
    minute -107. *)
Definition w_request : tm := mkTm 20 (-107) 24 318 0 123 0 0 0 0 "".

(** The same, asked for as daylight saving time. *)
Definition w_request_dst : tm := set_zone w_request 1 0 "".

Lemma mktime_fixed_offset_witness :
  (exists r, __mktime_internal (fixed_zone 3600) w_request 0 = Some r /\
     out_errno r = None /\ ret r = 1700000000 - 3600 /\ normal (out_tp r)) /\
  (exists r, __mktime_internal (fixed_zone 3600) w_request_dst 0 = Some r /\
     out_errno r = None /\ ret r = 1700000000 - 7200 /\ normal (out_tp r)).
Proof.
  pose proof (fixed_zone_ok 3600 ltac:(lia)) as Z3600. split.
  - destruct (mktime_fixed_offset (convert := fixed_zone 3600) w_request 0) as (r & E & H); [by constructor; vm_compute|].
    exists r. split; [done|]. vm_compute in E. injection E as <-.
    destruct H as [(_ & _ & _ & H1 & H2 & _)|(_ & H & _)]; [|done]. split; [done|]. split; [exact H1|exact H2].
  - destruct (mktime_fixed_offset (convert := fixed_zone 3600) w_request_dst 0) as (r & E & H); [by constructor; vm_compute|].
    exists r. split; [done|]. vm_compute in E. injection E as <-.
    destruct H as [(_ & _ & _ & H1 & H2 & _)|(_ & H & _)]; [|done]. split; [done|]. split; [exact H1|exact H2].
Defined.

Lemma mktime_sound_witness : exists r, __mktime_internal (fixed_zone 3600) w_request 0 = Some r /\
  fixed_zone 3600 (ret r) = Some (inl (out_tp r)).
Proof.
  destruct (__mktime_internal (fixed_zone 3600) w_request 0) as [r|] eqn:E; [|by vm_compute in E].
  pose proof (mktime_sound (fixed_zone 3600) w_request 0 r E) as H. exists r. split; [done|].
  vm_compute in E. injection E as <-. exact H.
Defined.

Lemma mktime_localtime_roundtrip_witness : exists tp, __mktime64 w_zone 14400 tp = Some (mkResult 1690000000 tp 14400 None).
Proof.
  destruct (mktime_localtime_roundtrip w_zone 1690000000 2023 w_zone_ok w_year) as (z' & tp & E & H).
  - by vm_compute.
  - exists tp. vm_compute in E. injection E as _ <-. exact H.
Defined.
