(* ===== verification/DomainName.v ===== *)
(** * Domain names: [resolv/ns_name_*.c], [resolv/ns_samebinaryname.c]

    A message and the source of a conversion are lists of bytes; the
    destination is a buffer ([Buffer]).  A read or a write outside them is
    undefined behaviour.  Pointers into a message are indices; counters and
    results of type [int] are checked or converted where they are set.  A function
    that returns -1 has set [errno] to [EMSGSIZE]. *)

From S2P Require Import Prelude CLoop CMonad CInt Buffer.
Open Scope c_scope.

Definition NS_CMPRSFLGS : Z := 0xc0.
Definition NS_MAXCDNAME : Z := 255.

(** A byte, and [n] bytes, of a message. *)
Definition rd (s : list Z) (i : Z) : option Z := if i <? 0 then None else s !! Z.to_nat i.
Definition slice (s : list Z) (i n : Z) : option (list Z) :=
  if (0 <=? i) && (0 <=? n) && (i + n <=? len s) then Some (take (Z.to_nat n) (drop (Z.to_nat i) s)) else None.

(** ** From a message: [ns_name_unpack.c], [ns_name_skip.c],
    [ns_name_length_uncompressed.c] *)

Record unpacking := mkUnpacking { u_srcp : Z; u_dstp : Z; u_len : Z; u_checked : Z; u_dst : list Z }.

(** One round of the loop: [inl] goes on, [inr] returns.  [len] and [checked]
    are [int]s. *)
Definition unpack_step (msg : list Z) (src dstsiz : Z) (u : unpacking) : unpacking + option (Z * list Z) :=
  let 'mkUnpacking srcp dstp ln checked dst := u in
  let eom := len msg in
  match rd msg srcp with
  | None => inr None
  | Some n =>
    let srcp := srcp + 1 in
    if n =? 0 then
      match put dstp 0 dst with
      | None => inr None
      | Some (_, dst) => inr (Some (if ln <? 0 then sint 32 (srcp - src) else ln, dst))
      end
    else if Z.land n NS_CMPRSFLGS =? 0 then
      if 64 <=? n then inr (Some (-1, dst))
      else if (dstsiz - dstp <=? n + 1) || (eom - srcp <=? n) then inr (Some (-1, dst))
      else
        match chk 32 (checked + (n + 1)), slice msg srcp n with
        | Some checked, Some l =>
          match puts dstp (n :: l) dst with
          | None => inr None
          | Some (_, dst) => inl (mkUnpacking (srcp + n) (dstp + 1 + n) ln checked dst)
          end
        | _, _ => inr None
        end
    else if Z.land n NS_CMPRSFLGS =? NS_CMPRSFLGS then
      if eom <=? srcp then inr (Some (-1, dst))
      else
        let ln := if ln <? 0 then sint 32 (srcp - src + 1) else ln in
        match rd msg srcp with
        | None => inr None
        | Some b =>
          let target := Z.lor (Z.shiftl (Z.land n 0x3f) 8) b in
          if eom <=? target then inr (Some (-1, dst))
          else
            match chk 32 (checked + 2) with
            | None => inr None
            | Some checked =>
              if eom <=? checked then inr (Some (-1, dst))
              else inl (mkUnpacking target dstp ln checked dst)
            end
        end
    else inr (Some (-1, dst))
  end.

Definition ns_name_unpack (msg : list Z) (src dstsiz : Z) : T Z := fun dst =>
  if (src <? 0) || (len msg <=? src) then Some (-1, dst)
  else run 64 (unpack_step msg src dstsiz) (mkUnpacking src 0 (-1) 0 dst).

(** The return value and the new [*ptrptr]. *)
Definition skip_step (msg : list Z) (ptr cp : Z) : Z + option (Z * Z) :=
  let eom := len msg in
  if cp <? eom then
    match rd msg cp with
    | None => inr None
    | Some n =>
      let cp := cp + 1 in
      if n =? 0 then inr (Some (0, cp))
      else if Z.land n NS_CMPRSFLGS =? 0 then
        if eom - cp <? n then inr (Some (-1, ptr)) else inl (cp + n)
      else if Z.land n NS_CMPRSFLGS =? NS_CMPRSFLGS then
        if cp =? eom then inr (Some (-1, ptr)) else inr (Some (0, cp + 1))
      else inr (Some (-1, ptr))
    end
  else inr (Some (-1, ptr)).

Definition ns_name_skip (msg : list Z) (ptr : Z) : option (Z * Z) := run 64 (skip_step msg ptr) ptr.

Definition length_step (msg : list Z) (start p : Z) : Z + option Z :=
  let eom := len msg in
  if p =? eom then inr (Some (-1))
  else match rd msg p with
       | None => inr None
       | Some b =>
         let p := p + 1 in
         if b =? 0 then inr (Some (if NS_MAXCDNAME <? p - start then -1 else p - start))
         else if b <=? 63 then if b <=? eom - p then inl (p + b) else inr (Some (-1))
         else inr (Some (-1))
       end.

Definition ns_name_length_uncompressed (msg : list Z) (p : Z) : option Z := run 64 (length_step msg p) p.

(** ** To text: [ns_name_ntop.c] *)

(** [double quote . ; \ ( ) @ $] *)
Definition special (ch : Z) : bool := existsb (Z.eqb ch) [34; 46; 59; 92; 40; 41; 64; 36].
Definition printable (ch : Z) : bool := (0x20 <? ch) && (ch <? 0x7f).

Definition BACKSLASH : Z := 92.
Definition DOT : Z := 46.

(** One character of a label: the new [dn], or [None] for no room. *)
Definition ntop_char (c dn dstsiz : Z) : T (option Z) :=
  if special c then
    if dstsiz - dn <? 2 then ret None
    else put dn BACKSLASH;; put (dn + 1) c;; ret (Some (dn + 2))
  else if negb (printable c) then
    if dstsiz - dn <? 4 then ret None
    else put dn BACKSLASH;; put (dn + 1) (48 + c / 100);; put (dn + 2) (48 + (c mod 100) / 10);;
         put (dn + 3) (48 + c mod 10);; ret (Some (dn + 4))
  else
    if dstsiz - dn <? 2 then ret None
    else put dn c;; ret (Some (dn + 1)).

(** Both loops: [l] is what is left of the current label. *)
Fixpoint name_ntop_loop (src : list Z) (l dn dstsiz : Z) : T (option Z) :=
  match src with
  | [] => undefined
  | c :: src =>
    if 0 <? l then
      let! r := ntop_char c dn dstsiz in
      match r with
      | None => ret None
      | Some dn => name_ntop_loop src (l - 1) dn dstsiz
      end
    else if c =? 0 then ret (Some dn)
    else if 64 <=? c then ret None
    else if negb (dn =? 0) then
      if dstsiz <=? dn then ret None
      else put dn DOT;; name_ntop_loop src c (dn + 1) dstsiz
    else name_ntop_loop src c dn dstsiz
  end.

Definition ns_name_ntop (src : list Z) (dstsiz : Z) : T Z :=
  let! r := name_ntop_loop src 0 0 dstsiz in
  match r with
  | None => ret (-1)
  | Some dn =>
    let! r := (if dn =? 0 then
                 if dstsiz <=? dn then ret None else put dn DOT;; ret (Some (dn + 1))
               else ret (Some dn)) in
    match r with
    | None => ret (-1)
    | Some dn => if dstsiz <=? dn then ret (-1) else put dn 0;; ret (sint 32 (dn + 1))
    end
  end.

(** ** From text: [ns_name_pton.c] *)

Definition is_digit (c : Z) : bool := (48 <=? c) && (c <=? 57).

(** The length byte of the label that ends at [bp], or [None] for an error. *)
Definition close_label (label bp dstsiz : Z) : T (option Z) :=
  let c := bp - label - 1 in
  if negb (Z.land c NS_CMPRSFLGS =? 0) then ret None
  else if dstsiz <=? label then ret None
  else put label (wrap 8 c);; ret (Some c).

(** The last byte and the length of the whole name. *)
Definition close_name (c bp dstsiz result : Z) : T Z :=
  let! r := (if negb (c =? 0) then
               if dstsiz <=? bp then ret None else put bp 0;; ret (Some (bp + 1))
             else ret (Some bp)) in
  match r with
  | None => ret (-1)
  | Some bp => if NS_MAXCDNAME <? bp then ret (-1) else ret result
  end.

Definition put_byte (bp c dstsiz : Z) (k : T Z) : T Z :=
  if dstsiz <=? bp then ret (-1) else put bp (wrap 8 c);; k.

Fixpoint name_pton_loop (src : list Z) (escaped : bool) (label bp dstsiz : Z) : T Z :=
  match src with
  | [] =>
    if escaped then ret (-1)
    else
      let! r := close_label label bp dstsiz in
      match r with
      | None => ret (-1)
      | Some c => close_name c bp dstsiz 0
      end
  | c :: src =>
    if escaped then
      if is_digit c then
        match src with
        | d :: e :: src =>
          if is_digit d && is_digit e then
            let n := (c - 48) * 100 + (d - 48) * 10 + (e - 48) in
            if 255 <? n then ret (-1) else put_byte bp n dstsiz (name_pton_loop src false label (bp + 1) dstsiz)
          else ret (-1)
        | _ => ret (-1)
        end
      else put_byte bp c dstsiz (name_pton_loop src false label (bp + 1) dstsiz)
    else if c =? BACKSLASH then name_pton_loop src true label bp dstsiz
    else if c =? DOT then
      let! r := close_label label bp dstsiz in
      match r with
      | None => ret (-1)
      | Some n =>
        match src with
        | [] => close_name n bp dstsiz 1
        | c' :: _ =>
          if (n =? 0) || (c' =? DOT) then ret (-1)
          else name_pton_loop src false bp (bp + 1) dstsiz
        end
      end
    else put_byte bp c dstsiz (name_pton_loop src false label (bp + 1) dstsiz)
  end.

(** The characters of [src] are those before the terminating zero. *)
Definition ns_name_pton (src : list Z) (dstsiz : Z) : T Z := name_pton_loop src false 0 1 dstsiz.

(** ** Compositions and comparison *)

(** [tmp] is what the uninitialised array on the stack holds. *)
Definition ns_name_uncompress (tmp msg : list Z) (src dstsiz : Z) : T Z := fun dst =>
  match ns_name_unpack msg src NS_MAXCDNAME tmp with
  | None => None
  | Some (n, tmp) =>
    if n <? 0 then Some (-1, dst)
    else match ns_name_ntop tmp dstsiz dst with
         | None => None
         | Some (r, dst) => if r <? 0 then Some (-1, dst) else Some (n, dst)
         end
  end.

Definition ascii_toupper (ch : Z) : Z := if (97 <=? ch) && (ch <=? 122) then ch - 97 + 65 else ch.

(** Both loops: [labellen] characters are left of the current label. *)
Fixpoint samename_loop (a b : list Z) (labellen : Z) : option bool :=
  match a, b with
  | x :: a, y :: b =>
    if 0 <? labellen then
      if negb (x =? y) && negb (ascii_toupper x =? ascii_toupper y) then Some false
      else samename_loop a b (labellen - 1)
    else if negb (x =? 0) && negb (y =? 0) then
      if negb (x =? y) then Some false else samename_loop a b x
    else Some ((x =? 0) && (y =? 0))
  | _, _ => None
  end.

Definition ns_samebinaryname (a b : list Z) : option bool := samename_loop a b 0.

(** ** Into a message: [ns_name_pack.c], [ns_name_compress.c] *)

Definition mklower (ch : Z) : Z := if (65 <=? ch) && (ch <=? 90) then ch - 65 + 97 else ch.

(** [n] characters at [dn] of the name and at [cp] of the message. *)
Fixpoint labels_eq (n : nat) (domain : list Z) (dn : Z) (msg : list Z) (cp : Z) : option bool :=
  match n with
  | O => Some true
  | S n =>
    match rd domain dn, rd msg cp with
    | Some a, Some b =>
      if negb (mklower a =? mklower b) then Some false else labels_eq n domain (dn + 1) msg (cp + 1)
    | _, _ => None
    end
  end.

(** How the comparison with one name ends: [return sp - msg], [goto next],
    [return -1]. *)
Inductive verdict := Found | Next | Illegal.

Definition match_step (domain msg : list Z) (s : Z * Z) : (Z * Z) + option verdict :=
  let '(dn, cp) := s in
  match rd msg cp with
  | None => inr None
  | Some n =>
    let cp := cp + 1 in
    if n =? 0 then inr (Some Next)
    else if Z.land n NS_CMPRSFLGS =? 0 then
      match rd domain dn with
      | None => inr None
      | Some d =>
        let dn := dn + 1 in
        if negb (n =? d) then inr (Some Next)
        else
          match labels_eq (Z.to_nat n) domain dn msg cp with
          | None => inr None
          | Some false => inr (Some Next)
          | Some true =>
            let dn := dn + n in
            let cp := cp + n in
            match rd domain dn with
            | None => inr None
            | Some d =>
              if d =? 0 then
                match rd msg cp with
                | None => inr None
                | Some c => inr (Some (if c =? 0 then Found else Next))
                end
              else inl (dn, cp)
            end
          end
      end
    else if Z.land n NS_CMPRSFLGS =? NS_CMPRSFLGS then
      match rd msg cp with
      | None => inr None
      | Some b => inl (dn, Z.lor (Z.shiftl (Z.land n 0x3f) 8) b)
      end
    else inr (Some Illegal)
  end.

(** The labels of one name of the list: [Some (Some l)] returns [l],
    [Some None] goes on with the next name. *)
Definition find_step (domain : list Z) (dn : Z) (msg : list Z) (sp : Z) : Z + option (option Z) :=
  match rd msg sp with
  | None => inr None
  | Some x =>
    if negb (x =? 0) && (Z.land x NS_CMPRSFLGS =? 0) && (sp <? 0x4000) then
      match run 64 (match_step domain msg) (dn, sp) with
      | None => inr None
      | Some Found => inr (Some (Some sp))
      | Some Illegal => inr (Some (Some (-1)))
      | Some Next => inl (sp + (x + 1))
      end
    else inr (Some None)
  end.

Fixpoint dn_find (domain : list Z) (dn : Z) (msg : list Z) (dnptrs : list Z) : option Z :=
  match dnptrs with
  | [] => Some (-1)
  | sp :: dnptrs =>
    match run 64 (find_step domain dn msg) sp with
    | None => None
    | Some (Some l) => Some l
    | Some None => dn_find domain dn msg dnptrs
    end
  end.

(** [true] when the name may be added. *)
Definition legal_step (src : list Z) (s : Z * Z) : (Z * Z) + option bool :=
  let '(srcp, l) := s in
  match rd src srcp with
  | None => inr None
  | Some n =>
    if 64 <=? n then inr (Some false)
    else
      let l := l + (n + 1) in
      if NS_MAXCDNAME <? l then inr (Some false)
      else if n =? 0 then inr (Some true) else inl (srcp + (n + 1), l)
  end.

(** The list of names [k_names] (no list: [None]) and the message [k_mem] change. *)
Record packing := mkPacking { k_srcp : Z; k_dstp : Z; k_names : option (list Z); k_first : bool; k_mem : list Z }.

Section Pack.
(** [dnptrs] are the positions the array holds behind the message's first byte
    and before its [NULL]; there is no list when [dnptrs] or [*dnptrs] is
    [NULL].  [lastdnptr] is the number of its elements behind the first one. *)
Variables (src : list Z) (dst dstsiz : Z) (dnptrs : option (list Z)) (lastdnptr : option Z).

Definition cleanup (mem : list Z) : packing + option (Z * (option (list Z) * list Z)) := inr (Some (-1, (dnptrs, mem))).

Definition save (dstp : Z) (first : bool) (names : option (list Z)) : option (list Z) * bool :=
  match names, lastdnptr with
  | Some ps, Some last =>
    if (Z.of_nat (length ps) <? last - 1) && (dstp <? 0x4000) && first then (Some (ps ++ [dstp]), false) else (names, first)
  | _, _ => (names, first)
  end.

Definition pack_step (s : packing) : packing + option (Z * (option (list Z) * list Z)) :=
  let 'mkPacking srcp dstp names first mem := s in
  let eob := dst + dstsiz in
  match rd src srcp with
  | None => inr None
  | Some n =>
    match (if n =? 0 then Some (-1) else match dnptrs with None => Some (-1) | Some ps => dn_find src srcp mem ps end) with
    | None => inr None
    | Some l =>
      if 0 <=? l then
        if eob - dstp <=? 1 then cleanup mem
        else match puts dstp [wrap 8 (Z.lor (Z.shiftr l 8) NS_CMPRSFLGS); l mod 256] mem with
             | None => inr None
             | Some (_, mem) => inr (Some (dstp + 2 - dst, (names, mem)))
             end
      else
        let '(names, first) := if n =? 0 then (names, first) else save dstp first names in
        if 64 <=? n then cleanup mem
        else if eob - dstp <? n + 1 then cleanup mem
        else
          match slice src srcp (n + 1) with
          | None => inr None
          | Some bs =>
            match puts dstp bs mem with
            | None => inr None
            | Some (_, mem) =>
              let srcp := srcp + (n + 1) in
              let dstp := dstp + (n + 1) in
              if n =? 0 then if eob <? dstp then cleanup mem else inr (Some (dstp - dst, (names, mem)))
              else inl (mkPacking srcp dstp names first mem)
            end
          end
    end
  end.

(** The return value, the list of names and the message. *)
Definition ns_name_pack (mem : list Z) : option (Z * (option (list Z) * list Z)) :=
  match run 64 (legal_step src) (0, 0) with
  | None => None
  | Some false => Some (-1, (dnptrs, mem))
  | Some true => run 64 pack_step (mkPacking 0 dst dnptrs true mem)
  end.
End Pack.

(** [tmp] is what the uninitialised array on the stack holds; the size becomes
    the [int] parameter of [ns_name_pack]. *)
Definition ns_name_compress (tmp src : list Z) (dst dstsiz : Z) (dnptrs : option (list Z)) (lastdnptr : option Z)
  (mem : list Z) : option (Z * (option (list Z) * list Z)) :=
  match ns_name_pton src NS_MAXCDNAME tmp with
  | None => None
  | Some (r, tmp) => if r <? 0 then Some (-1, (dnptrs, mem)) else ns_name_pack tmp dst (sint 32 dstsiz) dnptrs lastdnptr mem
  end.
