(* ===== verification/DomainWire.v ===== *)
(** * Domain names in messages

    A name is a list of labels; [wire] is its form in a message without
    compression.  [name_at] says which name a message holds at a position,
    compression pointers followed, and [spans] how many bytes it takes there.
    [ns_name_unpack] finds the name and always ends, whatever the message
    holds; [ns_name_skip] and [ns_name_length_uncompressed] find its end. *)

From S2P Require Import Prelude CLoop CMonad CInt Buffer DomainName.
Open Scope c_scope.

Abbreviation name := (list (list Z)).

Definition label_ok (l : list Z) : Prop := 1 <= len l <= 63 /\ Forall byte l.

(** The labels with their lengths, and the whole name. *)
Fixpoint labels (ls : name) : list Z :=
  match ls with
  | [] => []
  | l :: ls => len l :: l ++ labels ls
  end.
Definition wire (ls : name) : list Z := labels ls ++ [0].

(** The name at [p] and how many bytes reading it visits before its end. *)
Inductive name_at (msg : list Z) : Z -> name -> Z -> Prop :=
  | name_root p : rd msg p = Some 0 -> name_at msg p [] 0
  | name_label p n l ls k : rd msg p = Some n -> 0 < n < 64 -> slice msg (p + 1) n = Some l ->
      name_at msg (p + 1 + n) ls k -> name_at msg p (l :: ls) (n + 1 + k)
  | name_pointer p n b ls k : rd msg p = Some n -> 192 <= n -> rd msg (p + 1) = Some b ->
      name_at msg (256 * (n - 192) + b) ls k -> name_at msg p ls (2 + k).

(** The bytes of a name before the first pointer's end or the root. *)
Inductive spans (msg : list Z) : Z -> Z -> Prop :=
  | spans_root p : rd msg p = Some 0 -> spans msg p (p + 1)
  | spans_label p n q : rd msg p = Some n -> 0 < n < 64 -> spans msg (p + 1 + n) q -> spans msg p q
  | spans_pointer p n b : rd msg p = Some n -> 192 <= n -> rd msg (p + 1) = Some b -> spans msg p (p + 2).

(** ** Bits and lists *)

Lemma flags_check : forallb (fun n =>
  Bool.eqb (Z.land n NS_CMPRSFLGS =? 0) (n <? 64) && Bool.eqb (Z.land n NS_CMPRSFLGS =? NS_CMPRSFLGS) (192 <=? n)
  && (if 192 <=? n then Z.land n 0x3f =? n - 192 else true)) (seqZ 0 256) = true.
Proof. vm_compute. reflexivity. Qed.

Lemma flags n : byte n -> (Z.land n NS_CMPRSFLGS =? 0) = (n <? 64) /\
  (Z.land n NS_CMPRSFLGS =? NS_CMPRSFLGS) = (192 <=? n) /\ (192 <= n -> Z.land n 0x3f = n - 192).
Proof.
  intros B. pose proof flags_check as C. rewrite forallb_forall in C.
  specialize (C n ltac:(apply list_elem_of_In, elem_of_seqZ; unfold byte in B; lia)).
  apply andb_true_iff in C as [C C3]. apply andb_true_iff in C as [C1 C2].
  apply Bool.eqb_prop in C1, C2. split; [done|]. split; [done|]. intros L.
  rewrite (proj2 (Z.leb_le _ _)) in C3 by lia. lia.
Qed.

Lemma target_eq n b : byte n -> 192 <= n -> byte b -> Z.lor (Z.shiftl (Z.land n 0x3f) 8) b = 256 * (n - 192) + b.
Proof.
  intros Bn L Bb. destruct (flags n Bn) as (_ & _ & ->); [|done]. rewrite Z.shiftl_mul_pow2 by lia.
  rewrite lor_mul_pow2_add by (unfold byte in Bb; lia). lia.
Qed.

Lemma len_nonneg l : 0 <= len l.
Proof. unfold len. lia. Qed.

Lemma rd_some s i v : rd s i = Some v -> 0 <= i < len s.
Proof.
  unfold rd, len. destruct (Z.ltb_spec i 0); [done|]. intros E. apply lookup_lt_Some in E. lia.
Qed.

Lemma rd_in s i : 0 <= i < len s -> exists v, rd s i = Some v.
Proof.
  unfold rd, len. intros H. rewrite (proj2 (Z.ltb_ge _ _)) by lia. apply lookup_lt_is_Some. lia.
Qed.

Lemma rd_byte s i v : Forall byte s -> rd s i = Some v -> byte v.
Proof.
  unfold rd. intros F E. destruct (i <? 0); [done|]. by apply (list.Forall_lookup_1 _ _ _ _ F E).
Qed.

Lemma slice_in s i n : 0 <= i -> 0 <= n -> i + n <= len s -> exists l, slice s i n = Some l.
Proof.
  intros. unfold slice. rewrite !(proj2 (Z.leb_le _ _)) by lia. by eexists.
Qed.

Lemma slice_len s i n l : slice s i n = Some l -> len l = n /\ 0 <= i /\ i + n <= len s.
Proof.
  unfold slice. destruct (Z.leb_spec 0 i), (Z.leb_spec 0 n), (Z.leb_spec (i + n) (len s)); simpl; try done.
  intros [= <-]. unfold len in *. rewrite length_take, length_drop. lia.
Qed.

Lemma rd_drop s i v : rd s i = Some v -> drop (Z.to_nat i) s = v :: drop (Z.to_nat (i + 1)) s.
Proof.
  intros E. pose proof (rd_some _ _ _ E). unfold rd in E. rewrite (proj2 (Z.ltb_ge _ _)) in E by lia.
  rewrite (drop_S _ _ _ E). by replace (Z.to_nat (i + 1)) with (S (Z.to_nat i)) by lia.
Qed.

Lemma slice_drop s i n l : slice s i n = Some l -> drop (Z.to_nat i) s = l ++ drop (Z.to_nat (i + n)) s.
Proof.
  intros E. pose proof (slice_len _ _ _ _ E). pose proof (len_nonneg l). unfold slice in E.
  rewrite !(proj2 (Z.leb_le _ _)) in E by lia. injection E as <-.
  replace (Z.to_nat (i + n)) with (Z.to_nat i + Z.to_nat n)%nat by lia. by rewrite <- drop_drop, take_drop.
Qed.

Lemma slice_byte s i n l : Forall byte s -> slice s i n = Some l -> Forall byte l.
Proof.
  intros F E. unfold slice in E. destruct (_ && _); [|done]. injection E as <-. by apply Forall_take, Forall_drop.
Qed.

Lemma len_drop s i : 0 <= i <= len s -> len (drop (Z.to_nat i) s) = len s - i.
Proof. unfold len. rewrite length_drop. lia. Qed.

Lemma labels_app a b : labels (a ++ b) = labels a ++ labels b.
Proof. induction a as [|l a IH]; simpl; [done|]. by rewrite IH, <- app_assoc. Qed.

Lemma len_wire ls : len (wire ls) = len (labels ls) + 1.
Proof. unfold wire. rewrite len_app. done. Qed.

(** ** Unpacking *)

Section Unpack.
Variable msg : list Z.
Hypothesis msg_bytes : Forall byte msg.
Variable src : Z.

Lemma name_root_inv p ls k : rd msg p = Some 0 -> name_at msg p ls k -> ls = [] /\ k = 0.
Proof. intros E N. destruct N; [done|..]; rewrite E in *; simplify_eq; lia. Qed.

Lemma name_label_inv p n ls k : rd msg p = Some n -> 0 < n < 64 -> name_at msg p ls k ->
  exists l ls' k', ls = l :: ls' /\ k = n + 1 + k' /\ slice msg (p + 1) n = Some l /\ name_at msg (p + 1 + n) ls' k'.
Proof. intros E B N. destruct N; rewrite E in *; simplify_eq; [lia|by eexists _, _, _|lia]. Qed.

Lemma name_pointer_inv p n ls k : rd msg p = Some n -> 64 <= n -> name_at msg p ls k ->
  exists b k', 192 <= n /\ rd msg (p + 1) = Some b /\ k = 2 + k' /\ name_at msg (256 * (n - 192) + b) ls k'.
Proof. intros E B N. destruct N; rewrite E in *; simplify_eq; [lia|lia|by eexists _, _]. Qed.

(** A name begins with a byte of the message. *)
Lemma name_at_in p ls k : name_at msg p ls k -> 0 <= p < len msg /\ 0 <= k.
Proof.
  induction 1 as [p E|p n l ls k E B S N IH|p n b ls k E B S N IH]; (split; [by apply (rd_some msg _ _ E)|lia]).
Qed.

Lemma spans_lt p q : spans msg p q -> p < q.
Proof. induction 1; lia. Qed.

(** What holds between rounds: [ls] has been copied. *)
Record unpack_inv (room n : Z) (u : unpacking) (ls : name) : Prop := {
  ui_dst : exists rest, u_dst u = labels ls ++ rest /\ len (u_dst u) = room;
  ui_dstp : u_dstp u = len (labels ls);
  ui_room : u_dstp u < room;
  ui_srcp : 0 <= u_srcp u < len msg;
  ui_checked : 0 <= u_checked u < len msg + u_dstp u;
  ui_measure : room - u_dstp u + Z.max 0 (len msg - u_checked u) <= n;
  ui_sound : forall ls' k, name_at msg (u_srcp u) ls' k -> name_at msg src (ls ++ ls') (u_checked u + k);
  ui_complete : forall ls0 k0, name_at msg src ls0 k0 ->
    exists ls' k, ls0 = ls ++ ls' /\ k0 = u_checked u + k /\ name_at msg (u_srcp u) ls' k;
  ui_spans : if u_len u <? 0 then forall q, spans msg (u_srcp u) q -> spans msg src q else spans msg src (src + u_len u) }.

Definition unpacked (room : Z) (res : Z * list Z) : Prop :=
  let '(r, dst) := res in len dst = room /\
  ((0 <= r /\ exists ls k rest, name_at msg src ls k /\ spans msg src (src + r) /\ dst = wire ls ++ rest) \/
   (r = -1 /\ forall ls k, name_at msg src ls k -> room < len (wire ls) \/ len msg <= k)).

Lemma unpack_root room n u ls : unpack_inv room n u ls -> rd msg (u_srcp u) = Some 0 ->
  exists dst, put (u_dstp u) 0 (u_dst u) = Some (tt, dst) /\
  unpacked room (if u_len u <? 0 then u_srcp u + 1 - src else u_len u, dst).
Proof.
  destruct u as [srcp dstp ln checked dst]. intros [(rest & Ed & Er) Ep Rm Sp Ck Me So Co Sn] E. cbn in *. subst dst.
  destruct rest as [|y rest]; [rewrite app_nil_r in Er; lia|]. eexists. split; [by apply put_at|].
  rewrite !len_app, !len_cons in *. split; [lia|]. left.
  assert (spans msg src (src + (if ln <? 0 then srcp + 1 - src else ln))) as S.
  { destruct (ln <? 0); [|done]. replace (src + _) with (srcp + 1) by lia. by apply Sn, spans_root. }
  split; [apply spans_lt in S; lia|]. exists ls, (checked + 0), rest. split; [|split; [done|]].
  - rewrite <- (app_nil_r ls). by apply So, name_root.
  - unfold wire. by rewrite <- app_assoc.
Qed.

Lemma unpack_label room n u ls x : unpack_inv room n u ls -> rd msg (u_srcp u) = Some x -> 0 < x < 64 ->
  x + 1 < room - u_dstp u -> x < len msg - (u_srcp u + 1) ->
  exists l dst n' ls', slice msg (u_srcp u + 1) x = Some l /\ puts (u_dstp u) (x :: l) (u_dst u) = Some (tt, dst) /\
  0 <= n' < n /\
  unpack_inv room n' (mkUnpacking (u_srcp u + 1 + x) (u_dstp u + 1 + x) (u_len u) (u_checked u + (x + 1)) dst) ls'.
Proof.
  destruct u as [srcp dstp ln checked dst]. intros [(rest & Ed & Er) Ep Rm Sp Ck Me So Co Sn] E B L1 L2. cbn in *. subst dst.
  destruct (slice_in msg (srcp + 1) x) as [l El]; [lia..|]. destruct (slice_len msg _ _ _ El) as [Ll _].
  rewrite len_app in Er. destruct (split_room rest (x + 1)) as (old & r & -> & Lo); [lia|].
  exists l, (labels (ls ++ [l]) ++ r), (n - (x + 1)), (ls ++ [l]). rewrite len_app in *.
  assert (labels (ls ++ [l]) = labels ls ++ x :: l) as Lab
    by (rewrite labels_app; cbn; by rewrite app_nil_r, Ll).
  split; [done|]. split.
  { rewrite Lab, <- app_assoc. apply (puts_at (labels ls) dstp (x :: l)); [done|]. unfold len in *. simpl. lia. }
  split; [lia|]. constructor; cbn; rewrite ?Lab, ?len_app, ?len_cons; [|lia..| | |].
  - exists r. split; [done|]. lia.
  - intros ls' k N. rewrite <- app_assoc. replace (checked + (x + 1) + k) with (checked + (x + 1 + k)) by lia.
    apply So. by eapply name_label.
  - intros ls0 k0 N. destruct (Co ls0 k0 N) as (ls' & k & -> & -> & N').
    destruct (name_label_inv _ _ _ _ E B N') as (l' & ls'' & k' & -> & -> & El' & N''). simplify_eq.
    exists ls'', k'. rewrite <- app_assoc. split; [done|]. split; [lia|done].
  - destruct (ln <? 0); [|done]. intros q Q. apply Sn. by eapply spans_label.
Qed.

Lemma unpack_pointer room n u ls x b : unpack_inv room n u ls -> rd msg (u_srcp u) = Some x -> 192 <= x ->
  rd msg (u_srcp u + 1) = Some b -> 0 <= 256 * (x - 192) + b < len msg -> u_checked u + 2 < len msg ->
  exists n' ls', 0 <= n' < n /\ unpack_inv room n' (mkUnpacking (256 * (x - 192) + b) (u_dstp u)
    (if u_len u <? 0 then u_srcp u + 1 - src + 1 else u_len u) (u_checked u + 2) (u_dst u)) ls'.
Proof.
  destruct u as [srcp dstp ln checked dst]. intros [(rest & Ed & Er) Ep Rm Sp Ck Me So Co Sn] E B Eb T C. cbn in *.
  pose proof (len_nonneg (labels ls)). exists (n - 2), ls. split; [lia|]. constructor; cbn; [by exists rest|lia..| | |].
  - intros ls' k N. replace (checked + 2 + k) with (checked + (2 + k)) by lia. apply So. by eapply name_pointer.
  - intros ls0 k0 N. destruct (Co ls0 k0 N) as (ls' & k & -> & -> & N').
    destruct (name_pointer_inv _ _ _ _ E ltac:(lia) N') as (b' & k' & _ & Eb' & -> & N''). simplify_eq.
    exists ls', k'. split; [done|]. split; [lia|done].
  - destruct (Z.ltb_spec ln 0) as [L|L].
    + assert (spans msg src (srcp + 2)) as S by (eapply Sn, spans_pointer; eauto).
      rewrite (proj2 (Z.ltb_ge _ _)) by (apply spans_lt in S; lia). by replace (src + _) with (srcp + 2) by lia.
    + by rewrite (proj2 (Z.ltb_ge _ _)).
Qed.

(** A failure is right when no name at [srcp] fits what is left. *)
Lemma unpack_fail room n u ls : unpack_inv room n u ls ->
  (forall ls' k, name_at msg (u_srcp u) ls' k -> room < u_dstp u + len (wire ls') \/ len msg <= u_checked u + k) ->
  unpacked room (-1, u_dst u).
Proof.
  intros [(rest & Ed & Er) Ep Rm Sp Ck Me So Co Sn] F. split; [done|]. right. split; [done|]. intros ls0 k0 N.
  destruct (Co ls0 k0 N) as (ls' & k & -> & -> & N'). destruct (F ls' k N') as [?|?]; [left|by right].
  rewrite len_wire, labels_app, len_app in *. lia.
Qed.

Lemma unpack_step_inv room n u ls : 0 <= src < len msg -> room + len msg < 2 ^ 31 -> unpack_inv room n u ls ->
  match unpack_step msg src room u with
  | inl u' => exists n' ls', 0 <= n' < n /\ unpack_inv room n' u' ls'
  | inr (Some r) => unpacked room r
  | inr None => False
  end.
Proof.
  intros Bs Sz I. destruct u as [srcp dstp ln checked dst] eqn:U. cbn -[Z.land Z.lor Z.shiftl NS_CMPRSFLGS puts chk sint].
  pose proof (ui_srcp _ _ _ _ I) as Sp. pose proof (ui_checked _ _ _ _ I) as Ck. pose proof (ui_room _ _ _ _ I) as Rm.
  pose proof (ui_dstp _ _ _ _ I) as Dp. pose proof (len_nonneg (labels ls)). cbn in Sp, Ck, Rm, Dp.
  destruct (rd_in msg srcp Sp) as [x Ex]. rewrite Ex. pose proof (rd_byte msg srcp x msg_bytes Ex) as Bx.
  destruct (flags x Bx) as (-> & -> & _). pose proof (unpack_fail _ _ _ _ I) as Fail. cbn in Fail.
  destruct (Z.eqb_spec x 0) as [->|Nx].
  { destruct (unpack_root _ _ _ _ I Ex) as (d & Ed & R). cbn in Ed, R. by rewrite Ed, (sint_small 32) by (lia || fits_lia). }
  assert (0 < x < 256) as Bx' by (unfold byte in Bx; lia).
  destruct (Z.ltb_spec x 64) as [L|L].
  - rewrite (proj2 (Z.leb_gt _ _)) by lia.
    destruct (Z.leb_spec (room - dstp) (x + 1)) as [L1|L1]; [|destruct (Z.leb_spec (len msg - (srcp + 1)) x) as [L2|L2]];
      cbn [orb]; [apply Fail; intros ls' k N;
        destruct (name_label_inv _ _ _ _ Ex ltac:(lia) N) as (l & ls'' & k' & -> & -> & El & N')..|].
    + left. apply slice_len in El. rewrite len_wire. cbn. rewrite len_cons, len_app.
      pose proof (len_nonneg (labels ls'')). lia.
    + apply name_at_in in N'. lia.
    + destruct (unpack_label _ _ _ _ _ I Ex ltac:(lia)) as (l & d & n' & ls' & El & Ed & Hn & I'); [done..|].
      cbn in El, Ed, I'. rewrite chk_fits, El by fits_lia. cbn [puts] in Ed |- *. rewrite Ed. eauto.
  - destruct (Z.leb_spec 192 x) as [L1|L1].
    2:{ apply Fail. intros ls' k N. destruct (name_pointer_inv _ _ _ _ Ex L N) as (?&?&?&_). lia. }
    destruct (Z.leb_spec (len msg) (srcp + 1)) as [L2|L2].
    { apply Fail. intros ls' k N. destruct (name_pointer_inv _ _ _ _ Ex L N) as (b&?&_&Eb&_). apply rd_some in Eb. lia. }
    destruct (rd_in msg (srcp + 1)) as [b Eb]; [lia|]. rewrite Eb, (chk_fits 32) by fits_lia. rewrite (sint_small 32) by (lia || fits_lia).
    pose proof (rd_byte _ _ _ msg_bytes Eb) as Bb. rewrite target_eq by done.
    destruct (Z.leb_spec (len msg) (256 * (x - 192) + b)) as [L3|L3];
      [|destruct (Z.leb_spec (len msg) (checked + 2)) as [L4|L4]]; try (apply Fail; intros ls' k N;
        destruct (name_pointer_inv _ _ _ _ Ex L N) as (b'&k'&_&Eb'&->&N'); simplify_eq; apply name_at_in in N'; lia).
    apply (unpack_pointer _ _ _ _ _ _ I Ex L1 Eb); unfold byte in Bb; [lia|done].
Qed.

Lemma unpack_correct room dst : 0 < room -> len dst = room -> room + len msg < 2 ^ 31 ->
  exists res, ns_name_unpack msg src room dst = Some res /\ unpacked room res.
Proof.
  intros R D Bd. unfold ns_name_unpack.
  destruct (Z.ltb_spec src 0); [|destruct (Z.leb_spec (len msg) src)]; cbn [orb];
    try (eexists; split; [done|]; split; [done|]; right; split; [done|]; intros ls k N; apply name_at_in in N; lia).
  apply run_spec with (Inv := fun n u => exists ls, unpack_inv room n u ls) (n := room + len msg).
  - intros n u [ls I]. apply unpack_step_inv in I; [|done..]. destruct (unpack_step msg src room u) as [u'|[r|]]; [|done..].
    destruct I as (n' & ls' & ? & ?). eauto.
  - exists []. pose proof (len_nonneg msg). constructor; cbn; [by exists dst|done|lia..|done|intros ls0 k0 N; by exists ls0, k0|done].
  - change (Z.of_nat 64) with 64. lia.
Qed.
End Unpack.

(** ** Skipping *)

Section Skip.
Variable msg : list Z.
Hypothesis msg_bytes : Forall byte msg.

Lemma spans_det p q q' : spans msg p q -> spans msg p q' -> q = q'.
Proof.
  intros S. revert q'. induction S as [p E|p n q E B S IH|p n b E B Eb]; intros q' S';
    destruct S'; simplify_eq; try lia; eauto.
Qed.

Lemma name_at_det p ls k ls' k' : name_at msg p ls k -> name_at msg p ls' k' -> ls = ls' /\ k = k'.
Proof.
  intros N. revert ls' k'. induction N as [p E|p n l ls k E B El N IH|p n b ls k E B Eb N IH]; intros ls' k' N';
    destruct N'; simplify_eq; try lia; [done|..];
    match goal with H : name_at _ _ ?l ?k |- _ => destruct (IH l k H); by subst end.
Qed.

Lemma spans_in p q : spans msg p q -> 0 <= p < len msg.
Proof. intros S. destruct S as [p E|p n q E|p n b E]; by apply (rd_some msg _ _ E). Qed.

Definition skipped (ptr : Z) (res : Z * Z) : Prop :=
  (exists q, res = (0, q) /\ spans msg ptr q) \/ (res = (-1, ptr) /\ forall q, ~ spans msg ptr q).

Lemma skip_step_ok ptr n p : 0 <= p -> (forall q, spans msg p q <-> spans msg ptr q) -> 0 <= n -> len msg - p <= n ->
  match skip_step msg ptr p with
  | inl p' => (0 <= p' /\ forall q, spans msg p' q <-> spans msg ptr q) /\ exists n', 0 <= n' < n /\ len msg - p' <= n'
  | inr (Some r) => skipped ptr r
  | inr None => False
  end.
Proof.
  intros P H N0 N. unfold skip_step.
  assert ((forall q, ~ spans msg p q) -> skipped ptr (-1, ptr)) as Fail
    by (intros F; right; split; [done|]; intros q S; by apply (F q), H).
  destruct (Z.ltb_spec p (len msg)) as [L|L].
  2:{ apply Fail. intros q S. apply spans_in in S. lia. }
  destruct (rd_in msg p) as [x Ex]; [lia|]. rewrite Ex. pose proof (rd_byte msg p x msg_bytes Ex) as Bx.
  destruct (flags x Bx) as (-> & -> & _). unfold byte in Bx.
  destruct (Z.eqb_spec x 0) as [->|Nx]; [left; eexists; split; [done|]; by apply H, spans_root|].
  assert (forall q, spans msg p q -> x < 64 -> spans msg (p + 1 + x) q) as Next
    by (intros q S; destruct S; simplify_eq; intros; first [done|lia]).
  assert (forall q, spans msg p q -> 64 <= x -> 192 <= x /\ q = p + 2 /\ p + 1 < len msg) as Ptr.
  { intros q S. destruct S as [| |? ? ? ? ? Eb]; simplify_eq; intros; try lia. apply rd_some in Eb. lia. }
  destruct (Z.ltb_spec x 64) as [L1|L1]; [|destruct (Z.leb_spec 192 x) as [L2|L2]].
  - destruct (Z.ltb_spec (len msg - (p + 1)) x) as [L3|L3].
    { apply Fail. intros q S. apply Next in S; [|done]. apply spans_in in S. lia. }
    split.
    + split; [lia|]. intros q. rewrite <- H. split; [|auto]. apply spans_label; [done|lia].
    + exists (n - 1). lia.
  - destruct (Z.eqb_spec (p + 1) (len msg)) as [L3|L3].
    { apply Fail. intros q S. apply Ptr in S; lia. }
    left. eexists. split; [done|]. apply H. replace (p + 1 + 1) with (p + 2) by lia.
    destruct (rd_in msg (p + 1)) as [b Eb]; [lia|]. by apply (spans_pointer _ _ x b).
  - apply Fail. intros q S. apply Ptr in S; lia.
Qed.

Lemma skip_correct ptr : 0 <= ptr -> len msg < 2 ^ 64 ->
  exists res, ns_name_skip msg ptr = Some res /\ skipped ptr res.
Proof.
  intros P L. unfold ns_name_skip.
  apply run_spec with (n := len msg) (Inv := fun n p =>
    (0 <= p /\ forall q, spans msg p q <-> spans msg ptr q) /\ 0 <= n /\ len msg - p <= n); [|split; [done|]|done].
  - intros n p [[P' H] [N0 N]]. pose proof (skip_step_ok ptr n p P' H N0 N) as S.
    destruct (skip_step msg ptr p) as [p'|[r|]]; [|done..]. destruct S as [? (n' & ? & ?)]. exists n'.
    split; [done|]. split; [done|lia].
  - pose proof (len_nonneg msg). lia.
Qed.

(** ** Uncompressed names *)

Definition plain (p : Z) (ls : name) : Prop :=
  Forall label_ok ls /\ exists rest, drop (Z.to_nat p) msg = wire ls ++ rest.

Definition measured (start r : Z) : Prop :=
  (exists ls, plain start ls /\ r = len (wire ls) /\ r <= NS_MAXCDNAME) \/
  (r = -1 /\ forall ls, plain start ls -> NS_MAXCDNAME < len (wire ls)).

Record length_inv (start n p : Z) (ls : name) : Prop := {
  li_labels : Forall label_ok ls;
  li_msg : drop (Z.to_nat start) msg = labels ls ++ drop (Z.to_nat p) msg;
  li_start : 0 <= start;
  li_p : p = start + len (labels ls);
  li_in : p <= len msg;
  li_n : len msg - p < n }.

(** A name that begins with the labels read so far ends with one that is here. *)
Lemma plain_prefix ls ls' x y : Forall label_ok ls -> Forall label_ok ls' -> labels ls ++ x = wire ls' ++ y ->
  exists ls'', ls' = ls ++ ls'' /\ x = wire ls'' ++ y.
Proof.
  revert ls' x. induction ls as [|l ls IH]; intros ls' x F F' E; [by exists ls'|].
  inversion F as [|? ? [B _] F1]; subst. destruct ls' as [|l' ls']; unfold wire in *; simpl in E.
  { injection E as E _. lia. }
  injection E as El E. rewrite <- !app_assoc in E. apply app_inj_1 in E as [-> E]; [|unfold len in El; lia].
  inversion F'; subst. destruct (IH ls' x F1) as (ls'' & -> & ->); [done|by rewrite <- app_assoc|]. by exists ls''.
Qed.

Lemma length_fail start n p ls : length_inv start n p ls ->
  (forall ls' y, Forall label_ok ls' -> drop (Z.to_nat p) msg = wire ls' ++ y -> NS_MAXCDNAME < len (wire (ls ++ ls'))) ->
  measured start (-1).
Proof.
  intros I F. right. split; [done|]. intros ls0 [F0 [rest E]]. rewrite (li_msg _ _ _ _ I) in E.
  destruct (plain_prefix ls ls0 _ _ (li_labels _ _ _ _ I) F0 E) as (ls' & -> & E').
  apply (F ls' rest); [|done]. by apply Forall_app in F0 as [_ ?].
Qed.

Lemma length_step_ok start n p ls : length_inv start n p ls ->
  match length_step msg start p with
  | inl p' => exists n', 0 <= n' < n /\ exists ls', length_inv start n' p' ls'
  | inr (Some r) => measured start r
  | inr None => False
  end.
Proof.
  intros I. pose proof (length_fail _ _ _ _ I) as Fail. destruct I as [Fl Em Bs Ep Le Ln]. unfold length_step.
  pose proof (len_nonneg (labels ls)) as Nl.
  destruct (Z.eqb_spec p (len msg)) as [E|E].
  { apply Fail. intros ls' y F' D. apply (f_equal len) in D. rewrite len_drop, len_app, len_wire in D by lia.
    pose proof (len_nonneg (labels ls')). pose proof (len_nonneg y). lia. }
  destruct (rd_in msg p) as [b Eb]; [lia|]. rewrite Eb. pose proof (rd_byte _ _ _ msg_bytes Eb) as Bb.
  rewrite (rd_drop _ _ _ Eb) in Fail.
  destruct (Z.eqb_spec b 0) as [->|Nb].
  { assert (p + 1 - start = len (wire ls)) as -> by (rewrite len_wire; lia).
    destruct (Z.ltb_spec NS_MAXCDNAME (len (wire ls))) as [L|L].
    - apply Fail. intros ls' y _ _. rewrite !len_wire, labels_app, len_app in *. pose proof (len_nonneg (labels ls')). lia.
    - left. exists ls. split; [split; [done|]|done]. exists (drop (Z.to_nat (p + 1)) msg).
      rewrite Em, (rd_drop _ _ _ Eb). unfold wire. by rewrite <- app_assoc. }
  assert (forall ls' y, Forall label_ok ls' -> b :: drop (Z.to_nat (p + 1)) msg = wire ls' ++ y ->
    b <= 63 /\ b <= len msg - (p + 1)) as Need.
  { intros ls' y F' D. destruct ls' as [|l ls']; unfold wire in D; simpl in D; injection D as D1 D2; [done|].
    inversion F' as [|? ? [Bl _] _]; subst. split; [lia|]. apply (f_equal len) in D2.
    rewrite <- !app_assoc, len_drop, !len_app in D2 by lia.
    pose proof (len_nonneg (labels ls')). pose proof (len_nonneg y). unfold len in *. simpl in *. lia. }
  destruct (Z.leb_spec b 63) as [L|L]; [destruct (Z.leb_spec b (len msg - (p + 1))) as [L1|L1]|];
    try (apply Fail; intros ls' y F' D; apply Need in D; [lia|done]).
  unfold byte in Bb. destruct (slice_in msg (p + 1) b) as [l El]; [lia..|].
  destruct (slice_len _ _ _ _ El) as [Ll _]. exists (n - 1). split; [lia|]. exists (ls ++ [l]).
  assert (labels (ls ++ [l]) = labels ls ++ b :: l) as Lab by (rewrite labels_app; cbn; by rewrite app_nil_r, Ll).
  constructor; rewrite ?Lab; [| |done| |lia|lia].
  - apply Forall_app. split; [done|]. repeat constructor; [lia|lia|]. by apply (slice_byte msg (p + 1) b).
  - rewrite Em, (rd_drop _ _ _ Eb), (slice_drop _ _ _ _ El), <- app_assoc. done.
  - rewrite len_app, len_cons. lia.
Qed.

Lemma length_correct start : 0 <= start <= len msg -> len msg < 2 ^ 63 ->
  exists r, ns_name_length_uncompressed msg start = Some r /\ measured start r.
Proof.
  intros P L. unfold ns_name_length_uncompressed.
  apply run_spec with (n := len msg + 1) (Inv := fun n p => exists ls, length_inv start n p ls); [| |lia].
  - intros n p [ls I]. by apply (length_step_ok _ _ _ ls).
  - exists []. constructor; cbn; [constructor|done|lia|unfold len; simpl; lia|lia|lia].
Qed.

(** The three readers agree on a name without pointers. *)
Lemma plain_name p ls : 0 <= p -> plain p ls -> name_at msg p ls (len (labels ls)) /\ spans msg p (p + len (wire ls)).
Proof.
  intros P [F [rest E]]. revert p P E. induction F as [|l ls [B _] F IH]; intros p P E.
  - assert (rd msg p = Some 0) as R.
    { unfold rd. rewrite (proj2 (Z.ltb_ge _ _)) by lia. rewrite <- (Nat.add_0_r (Z.to_nat p)), <- lookup_drop, E. done. }
    split; [by constructor|by apply spans_root].
  - assert (rd msg p = Some (len l)) as R.
    { unfold rd. rewrite (proj2 (Z.ltb_ge _ _)) by lia. rewrite <- (Nat.add_0_r (Z.to_nat p)), <- lookup_drop, E. done. }
    pose proof (rd_some _ _ _ R) as Rs. pose proof (rd_drop _ _ _ R) as D. rewrite E in D. unfold wire in D. cbn in D.
    injection D as D. rewrite <- !app_assoc in D.
    assert (p + 1 + len l <= len msg) as In.
    { apply (f_equal len) in D. rewrite !len_app, len_drop in D by lia.
      pose proof (len_nonneg (labels ls)). pose proof (len_nonneg rest). unfold len in D at 3. simpl in D. lia. }
    destruct (slice_in msg (p + 1) (len l)) as [l' El]; [lia..|].
    pose proof (slice_drop _ _ _ _ El) as D'. rewrite <- D in D'. apply app_inj_1 in D' as [<- D'].
    2:{ apply slice_len in El. unfold len in *. lia. }
    destruct (IH (p + 1 + len l)) as [N S]; [lia|unfold wire; by rewrite <- D', <- app_assoc|]. split.
    + replace (len (labels (l :: ls))) with (len l + 1 + len (labels ls)) by (cbn; rewrite len_cons, len_app; lia).
      apply (name_label _ _ (len l)); [done|lia|done..].
    + replace (p + len (wire (l :: ls))) with (p + 1 + len l + len (wire ls))
        by (rewrite !len_wire; cbn; rewrite len_cons, len_app; lia).
      apply (spans_label _ _ (len l)); [done|lia|done].
Qed.
End Skip.
