(* ===== verification/DomainText.v ===== *)
(** * Domain names as text

    [text] is the printed form of a name.  [ns_name_ntop] prints it exactly
    when it fits; [ns_name_pton] accepts exactly the texts of a reference
    parser ([parse]: escapes resolved first, then the text split at its dots)
    that stay within the limits, and undoes [ns_name_ntop];
    [ns_samebinaryname] compares names without regard to case. *)

From S2P Require Import Prelude CLoop CMonad CInt Buffer DomainName DomainWire.
Open Scope c_scope.

(** The length limits of the protocol. *)
Definition name_ok (ls : name) : Prop := Forall label_ok ls /\ len (wire ls) <= NS_MAXCDNAME.

(** ** Printing *)

(** A character, a label, the labels after the first, and a name. *)
Definition escape (c : Z) : list Z :=
  if special c then [BACKSLASH; c]
  else if printable c then [c]
  else [BACKSLASH; 48 + c / 100; 48 + (c mod 100) / 10; 48 + c mod 10].
Definition label_text (l : list Z) : list Z := l ≫= escape.
Definition tail_text (ls : name) : list Z := ls ≫= (fun l => DOT :: label_text l).
Definition text (ls : name) : list Z :=
  match ls with
  | [] => [DOT]
  | l :: ls => label_text l ++ tail_text ls
  end.

(** Code that is to add [t] behind [pre], with one byte to spare after it: it
    did, or there is no room. *)
Definition wrote (room : Z) (pre t : list Z) (res : option (option Z * list Z)) : Prop :=
  (exists dst, res = Some (None, dst) /\ len dst = room /\ room < len pre + len t + 1) \/
  (exists rest, res = Some (Some (len pre + len t), pre ++ t ++ rest) /\ len pre + len t + len rest = room).

Lemma wrote_bind room pre t1 t2 (m : T (option Z)) k s : wrote room pre t1 (m s) ->
  (forall rest, len (pre ++ t1) + len rest = room ->
    wrote room (pre ++ t1) t2 (k (len (pre ++ t1)) ((pre ++ t1) ++ rest))) ->
  wrote room pre (t1 ++ t2) ((let! r := m in match r with None => ret None | Some dn => k dn end) s).
Proof.
  intros [(d & E & D & L)|(rest & E & L)] H; rewrite (bind_some _ _ _ _ _ E).
  - left. exists d. rewrite len_app. pose proof (len_nonneg t2). split; [done|]. lia.
  - rewrite app_assoc, <- len_app. destruct (H rest) as [(d & -> & D & L')|(rest' & -> & L')].
    + rewrite len_app. lia.
    + left. exists d. rewrite !len_app in *. split; [done|]. lia.
    + right. exists rest'. rewrite !len_app, <- !app_assoc in *. split; [|lia]. do 3 f_equal. lia.
Qed.

Lemma escape_len c : 1 <= len (escape c).
Proof. unfold escape. by destruct (special c), (printable c). Qed.

Lemma put_end pre i v x rest : i = len pre -> put i v (pre ++ x :: rest) = Some (tt, (pre ++ [v]) ++ rest).
Proof. intros E. rewrite put_at by done. by rewrite <- app_assoc. Qed.

(** One more store behind what has been written. *)
Ltac put_step := erewrite bind_some by (apply put_end; rewrite ?len_app; unfold len; simpl; lia).

Lemma ntop_char_ok room pre rest c : len pre + len rest = room ->
  wrote room pre (escape c) (ntop_char c (len pre) room (pre ++ rest)).
Proof.
  intros L. unfold ntop_char, escape.
  assert (forall t need, room - len pre < need -> need <= len t + 1 -> wrote room pre t (Some (None, pre ++ rest))) as Fail.
  { intros t need N R. left. eexists. split; [done|]. rewrite len_app. lia. }
  assert (forall t r, len t + len r = len rest ->
    wrote room pre t (Some (Some (len pre + len t), pre ++ t ++ r))) as Done.
  { intros t r E. right. exists r. split; [done|lia]. }
  destruct (special c); [|destruct (printable c); cbn [negb]].
  - destruct (Z.ltb_spec (room - len pre) 2) as [R|R]; [by eapply Fail|].
    destruct rest as [|x [|y rest]]; unfold len in L, R; simpl in L; try lia.
    do 2 put_step. rewrite <- !app_assoc. apply (Done [_; _] rest). unfold len. simpl. lia.
  - destruct (Z.ltb_spec (room - len pre) 2) as [R|R]; [by eapply Fail|].
    destruct rest as [|x rest]; unfold len in L, R; simpl in L; try lia.
    put_step. rewrite <- !app_assoc. apply (Done [_] rest). unfold len. simpl. lia.
  - destruct (Z.ltb_spec (room - len pre) 4) as [R|R]; [by eapply Fail|].
    destruct rest as [|x [|y [|z [|w rest]]]]; unfold len in L, R; simpl in L; try lia.
    do 4 put_step. rewrite <- !app_assoc. apply (Done [_; _; _; _] rest). unfold len. simpl. lia.
Qed.

Lemma ntop_label room l src pre rest t : len pre + len rest = room ->
  (forall rest, len (pre ++ label_text l) + len rest = room ->
    wrote room (pre ++ label_text l) t (name_ntop_loop src 0 (len (pre ++ label_text l)) room ((pre ++ label_text l) ++ rest))) ->
  wrote room pre (label_text l ++ t) (name_ntop_loop (l ++ src) (len l) (len pre) room (pre ++ rest)).
Proof.
  revert pre rest. induction l as [|c l IH]; intros pre rest L H.
  { cbn [label_text mbind list_bind app] in *. rewrite app_nil_r in H. by apply H. }
  cbn [app name_ntop_loop]. rewrite len_cons. pose proof (len_nonneg l). rewrite (proj2 (Z.ltb_lt _ _)) by lia.
  replace (1 + len l - 1) with (len l) by lia. cbn [label_text mbind list_bind] in *. fold (label_text l) in *.
  rewrite <- app_assoc. apply wrote_bind; [by apply ntop_char_ok|]. intros rest' L'. apply IH; [done|].
  rewrite <- !app_assoc in *. apply H.
Qed.

Lemma ntop_tail room ls pre rest more : Forall label_ok ls -> 0 < len pre -> len pre + len rest = room ->
  wrote room pre (tail_text ls) (name_ntop_loop (labels ls ++ 0 :: more) 0 (len pre) room (pre ++ rest)).
Proof.
  intros F. revert pre rest. induction F as [|l ls [B _] F IH]; intros pre rest P L; cbn [labels app name_ntop_loop].
  { right. exists rest. unfold tail_text. cbn. rewrite Z.add_0_r. split; [done|lia]. }
  rewrite Z.ltb_irrefl. rewrite (proj2 (Z.eqb_neq _ _)), (proj2 (Z.leb_gt _ _)) by lia.
  rewrite (proj2 (Z.eqb_neq (len pre) 0)) by lia. cbn [negb].
  cbn [tail_text mbind list_bind]. fold (tail_text ls).
  destruct (Z.leb_spec room (len pre)) as [R|R].
  { left. eexists. split; [done|]. rewrite !len_app. pose proof (len_nonneg (tail_text ls)).
    pose proof (len_nonneg (DOT :: label_text l)). lia. }
  destruct rest as [|x rest]; [rewrite app_nil_r in *; unfold len in L, R; simpl in L; lia|].
  put_step. rewrite len_cons in L. replace (len pre + 1) with (len (pre ++ [DOT])) by (by rewrite len_app).
  assert (wrote room (pre ++ [DOT]) (label_text l ++ tail_text ls)
    (name_ntop_loop ((l ++ labels ls) ++ 0 :: more) (len l) (len (pre ++ [DOT])) room ((pre ++ [DOT]) ++ rest))) as W.
  { rewrite <- app_assoc. apply ntop_label; [rewrite len_app; unfold len in *; simpl in *; lia|].
    intros rest' L'. apply IH; [|done]. rewrite !len_app. pose proof (len_nonneg (label_text l)). pose proof (len_nonneg [DOT]). lia. }
  destruct W as [(d & -> & D & W)|(rest' & -> & W)]; [left; exists d|right; exists rest'];
    rewrite ?len_app, ?len_cons in *; (split; [|unfold len in *; simpl in *; lia]); [done|].
  rewrite <- !app_assoc. do 3 f_equal. unfold len. simpl. lia.
Qed.

(** A whole name: printed with its terminating zero when that fits. *)
Definition printed (ls : name) (dst : list Z) (res : option (Z * list Z)) : Prop :=
  exists r dst', res = Some (r, dst') /\ len dst' = len dst /\
  ((len (text ls) < len dst /\ r = sint 32 (len (text ls) + 1) /\ exists rest, dst' = text ls ++ 0 :: rest) \/
   (len dst <= len (text ls) /\ r = -1)).

Lemma ntop_correct ls more dst : Forall label_ok ls -> printed ls dst (ns_name_ntop (wire ls ++ more) (len dst) dst).
Proof.
  intros F. unfold ns_name_ntop.
  assert (wrote (len dst) [] (match ls with [] => [] | _ => text ls end)
    (name_ntop_loop (wire ls ++ more) 0 0 (len dst) ([] ++ dst))) as W.
  { unfold wire. rewrite <- app_assoc. destruct F as [|l ls [B _] F]; cbn -[label_text len Z.leb].
    - right. exists dst. done.
    - rewrite (proj2 (Z.eqb_neq _ _)), (proj2 (Z.leb_gt _ _)) by lia. rewrite <- app_assoc.
      apply (ntop_label (len dst) l _ [] dst); [done|]. intros rest L. apply ntop_tail; [done| |done].
      destruct l as [|c l]; [unfold len in B; simpl in B; lia|]. cbn [label_text mbind list_bind app].
      rewrite len_app. pose proof (escape_len c). pose proof (len_nonneg (label_text l)). unfold label_text in *. lia. }
  assert (forall pre rest, pre ++ rest = text ls ++ rest -> len pre + len rest = len dst ->
    printed ls dst (((if len dst <=? len pre then ret (-1) else put (len pre) 0;; ret (sint 32 (len pre + 1))) : T Z) (pre ++ rest))) as End.
  { intros pre rest E L. apply app_inv_tail in E as ->. destruct (Z.leb_spec (len dst) (len (text ls))) as [R|R].
    - eexists _, _. split; [done|]. rewrite len_app. split; [lia|]. by right.
    - destruct rest as [|x rest]; [unfold len in *; simpl in *; lia|]. put_step. eexists _, _. split; [done|].
      rewrite !len_app, len_cons in *. split; [unfold len in *; simpl; lia|]. left. split; [done|]. split; [done|].
      exists rest. by rewrite <- app_assoc. }
  change dst with ([] ++ dst) at 3. destruct W as [(d & E & D & W)|(rest & E & W)]; rewrite (bind_some _ _ _ _ _ E).
  { exists (-1), d. split; [done|]. split; [done|]. right. split; [|done]. destruct F; simpl in *; unfold len in *; simpl in *; lia. }
  clear E. change (len []) with 0 in W |- *. cbn [app]. rewrite !Z.add_0_l in *. destruct F as [|l ls [B _] F].
  - rewrite Z.eqb_refl. change (len []) with 0 in *. cbn [app]. destruct (Z.leb_spec (len dst) 0) as [R|R].
    { exists (-1), rest. split; [done|]. split; [lia|]. right. split; [|done]. unfold len in *. simpl. lia. }
    destruct rest as [|x rest]; [unfold len in *; simpl in *; lia|].
    rewrite bind_bind. change (x :: rest) with ([] ++ x :: rest). put_step. erewrite bind_some by reflexivity.
    apply (End [DOT] rest); [done|]. rewrite len_cons in W. unfold len in *. simpl in *. lia.
  - assert (0 < len (text (l :: ls))) as P.
    { destruct l as [|c l]; [unfold len in B; simpl in B; lia|]. cbn [text label_text mbind list_bind].
      rewrite !len_app. pose proof (escape_len c). pose proof (len_nonneg (label_text l)).
      pose proof (len_nonneg (tail_text ls)). unfold label_text in *. lia. }
    rewrite (proj2 (Z.eqb_neq _ _)) by lia. erewrite bind_some by reflexivity. by apply End.
Qed.

(** ** Parsing *)

(** The reference: escapes first, ... *)
Inductive token := Chr (b : Z) | Dot.

Fixpoint lex (s : list Z) : option (list token) :=
  match s with
  | [] => Some []
  | c :: s =>
    if c =? BACKSLASH then
      match s with
      | [] => None
      | d :: s =>
        if is_digit d then
          match s with
          | e :: f :: s =>
            let n := (d - 48) * 100 + (e - 48) * 10 + (f - 48) in
            if is_digit e && is_digit f && (n <=? 255) then (Chr n ::.) <$> lex s else None
          | _ => None
          end
        else (Chr (wrap 8 d) ::.) <$> lex s
      end
    else if c =? DOT then (Dot ::.) <$> lex s
    else (Chr (wrap 8 c) ::.) <$> lex s
  end.

(** ... then the pieces between the dots, ... *)
Fixpoint pieces (ts : list token) : list (list Z) :=
  match ts with
  | [] => [[]]
  | Dot :: ts => [] :: pieces ts
  | Chr b :: ts => match pieces ts with l :: ps => (b :: l) :: ps | [] => [] end
  end.

(** ... which are labels; an empty one can only be the last one. *)
Fixpoint name_of (ps : list (list Z)) : option (name * bool) :=
  match ps with
  | [] => None
  | [] :: ps => match ps with [] => Some ([], true) | _ => None end
  | l :: ps => match ps with
               | [] => Some ([l], false)
               | _ => match name_of ps with Some (ls, abs) => Some (l :: ls, abs) | None => None end
               end
  end.

Definition whole (ps : list (list Z)) : option (name * bool) :=
  match ps with
  | [[]] => Some ([], false)
  | [[]; []] => Some ([], true)
  | _ => name_of ps
  end.

(** The name a text stands for, and whether it ends in a dot. *)
Definition parse (s : list Z) : option (name * bool) :=
  match lex s with
  | None => None
  | Some ts => whole (pieces ts)
  end.

(** The loop after the escapes. *)
Fixpoint tok_loop (ts : list token) (label bp dstsiz : Z) : T Z :=
  match ts with
  | [] =>
    let! r := close_label label bp dstsiz in
    match r with
    | None => ret (-1)
    | Some c => close_name c bp dstsiz 0
    end
  | Chr b :: ts => if dstsiz <=? bp then ret (-1) else put bp b;; tok_loop ts label (bp + 1) dstsiz
  | Dot :: ts =>
    let! r := close_label label bp dstsiz in
    match r with
    | None => ret (-1)
    | Some n =>
      match ts with
      | [] => close_name n bp dstsiz 1
      | t :: _ =>
        if (n =? 0) || match t with Dot => true | Chr _ => false end then ret (-1)
        else tok_loop ts bp (bp + 1) dstsiz
      end
    end
  end.

Definition token_ok (t : token) : Prop := match t with Chr b => byte b | Dot => True end.

Lemma wrap_byte b : byte (wrap 8 b).
Proof. unfold byte. pose proof (wrap_bounds 8 b). lia. Qed.

Lemma wrap_of_byte b : byte b -> wrap 8 b = b.
Proof. unfold byte. intros B. apply wrap_small. lia. Qed.

Lemma digits_byte d e f : is_digit d = true -> is_digit e && is_digit f && ((d - 48) * 100 + (e - 48) * 10 + (f - 48) <=? 255) = true ->
  byte ((d - 48) * 100 + (e - 48) * 10 + (f - 48)).
Proof. unfold is_digit, byte. lia. Qed.

Lemma lex_ok n s ts : (length s <= n)%nat -> lex s = Some ts -> Forall token_ok ts.
Proof.
  revert s ts. induction n as [|n IH]; intros [|c s] ts L E; simpl in L;
    [injection E as <-; constructor|lia|injection E as <-; constructor|].
  cbn [lex] in E. assert (forall t k ts, (length k <= length s)%nat -> token_ok t -> (t ::.) <$> lex k = Some ts -> Forall token_ok ts) as Go.
  { intros t k ts' Lk Ot Ek. destruct (lex k) as [tk|] eqn:Etk; [|done]. simplify_eq/=. constructor; [done|].
    apply (IH k); [lia|done]. }
  destruct (c =? BACKSLASH).
  - destruct s as [|d s]; [done|]. destruct (is_digit d) eqn:Ed.
    + destruct s as [|e [|f s]]; try done. destruct (_ && _) eqn:D; [|done].
      refine (Go _ s ts _ _ E); [simpl; lia|by apply digits_byte].
    + refine (Go _ s ts _ _ E); [simpl; lia|apply wrap_byte].
  - destruct (c =? DOT); (refine (Go _ s ts _ _ E); [lia|by try apply wrap_byte]).
Qed.

Lemma put_in i v t : 0 <= i < len t -> exists t', put i v t = Some (tt, t') /\ len t' = len t.
Proof.
  intros B. unfold put, len in *. rewrite (proj2 (Z.leb_le _ _)), (proj2 (Z.ltb_lt _ _)) by lia.
  eexists. split; [done|]. by rewrite length_insert.
Qed.

(** The loop returns -1 for a text that does not lex. *)
Lemma pton_no_lex n s label bp dst : (length s <= n)%nat -> lex s = None -> 0 <= label -> 0 <= bp ->
  exists dst', name_pton_loop s false label bp (len dst) dst = Some (-1, dst') /\ len dst' = len dst.
Proof.
  revert s label bp dst. induction n as [|n IH]; intros [|c s] label bp dst L E Pl Pb; simpl in L; [done|lia|done|].
  assert (forall b k, (length k <= length s)%nat -> lex k = None -> exists dst',
    put_byte bp b (len dst) (name_pton_loop k false label (bp + 1) (len dst)) dst = Some (-1, dst') /\ len dst' = len dst) as Go.
  { intros b k Lk Ek. unfold put_byte. destruct (Z.leb_spec (len dst) bp); [by eexists|].
    destruct (put_in bp (wrap 8 b) dst) as (d & Ed & <-); [lia|]. rewrite (bind_some _ _ _ _ _ Ed). apply IH; [lia|done|lia..]. }
  assert (forall t k, (t ::.) <$> lex k = None -> lex k = None) as Rest by (intros t k; by destruct (lex k)).
  cbn [lex name_pton_loop] in *. destruct (c =? BACKSLASH).
  - destruct s as [|d s]; [by eexists|]. cbn [name_pton_loop]. destruct (is_digit d) eqn:Ed.
    2:{ apply Go; [simpl; lia|by eapply Rest]. }
    destruct s as [|e [|f s]]; [by eexists..|]. destruct (is_digit e && is_digit f); cbn [andb] in E; [|by eexists].
    rewrite Z.leb_antisym in E. destruct (255 <? _); [by eexists|]. cbn [negb] in E. apply Go; [simpl; lia|by eapply Rest].
  - destruct (c =? DOT); [|by apply Go; [|eapply Rest]]. unfold close_label.
    destruct (negb _); [by eexists|]. destruct (Z.leb_spec (len dst) label); [by eexists|].
    rewrite bind_bind. destruct (put_in label (wrap 8 (bp - label - 1)) dst) as (d & Ed & <-); [lia|].
    rewrite (bind_some _ _ _ _ _ Ed). erewrite bind_some by reflexivity. destruct s as [|c' s]; [done|].
    destruct (_ || _); [by eexists|]. apply IH; [lia|by eapply Rest|lia..].
Qed.

(** On a text that lexes it does what the loop over the tokens does. *)
Lemma pton_lex n s ts label bp dstsiz dst : (length s <= n)%nat -> lex s = Some ts ->
  name_pton_loop s false label bp dstsiz dst = tok_loop ts label bp dstsiz dst.
Proof.
  revert s ts label bp dst. induction n as [|n IH]; intros [|c s] ts label bp dst L E; simpl in L;
    [by injection E as <-|lia|by injection E as <-|].
  assert (forall b k tk, (length k <= length s)%nat -> lex k = Some tk ->
    put_byte bp b dstsiz (name_pton_loop k false label (bp + 1) dstsiz) dst = tok_loop (Chr (wrap 8 b) :: tk) label bp dstsiz dst) as Go.
  { intros b k tk Lk Ek. unfold put_byte. cbn [tok_loop]. destruct (dstsiz <=? bp); [done|].
    unfold bind. destruct (put bp (wrap 8 b) dst) as [[[] d]|]; [|done]. apply IH; [lia|done]. }
  cbn [lex name_pton_loop] in *. destruct (c =? BACKSLASH).
  - destruct s as [|d s]; [done|]. cbn [name_pton_loop]. destruct (is_digit d) eqn:Ed.
    + destruct s as [|e [|f s]]; [done..|]. destruct (_ && _) eqn:D; [|done]. destruct (lex s) as [tk|] eqn:Ek; simplify_eq/=.
      pose proof (wrap_of_byte _ (digits_byte _ _ _ Ed D)) as W. apply andb_true_iff in D as [-> D].
      rewrite Z.ltb_antisym, D. cbn [negb]. rewrite (Go _ s tk); [by rewrite W|simpl; lia|done].
    + destruct (lex s) as [tk|] eqn:Ek; simplify_eq/=. apply Go; [simpl; lia|done].
  - destruct (c =? DOT); (destruct (lex s) as [tk|] eqn:Ek; simplify_eq/=); [|by apply Go].
    unfold bind. destruct (close_label label bp dstsiz dst) as [[[k|] d]|]; [|done..].
    destruct s as [|c' s]; [by injection Ek as <-|].
    assert (exists t tk', tk = t :: tk' /\ (c' =? DOT) = match t with Dot => true | Chr _ => false end) as (t & tk' & -> & Et).
    { cbn [lex] in Ek. destruct (Z.eqb_spec c' BACKSLASH) as [->|_].
      - destruct s as [|x s]; [done|]. destruct (is_digit x); [destruct s as [|e [|f s]]; [done..|]; destruct (_ && _)|]; try done;
          (destruct (lex s); simplify_eq/=; by eexists _, _).
      - destruct (c' =? DOT); (destruct (lex s); simplify_eq/=; by eexists _, _). }
    rewrite <- Et. destruct (_ || _); [done|]. apply IH; [lia|done].
Qed.

(** What the parser does with the name [o] stands for. *)
Definition parsed (o : option (name * bool)) (room : Z) (res : option (Z * list Z)) : Prop :=
  exists r dst, res = Some (r, dst) /\ len dst = room /\
  match o with
  | Some (ls, abs) =>
    (name_ok ls /\ len (wire ls) <= room /\ r = Z.b2z abs /\ exists rest, dst = wire ls ++ rest) \/
    (~ (name_ok ls /\ len (wire ls) <= room) /\ r = -1)
  | None => r = -1
  end.

Definition prefixed (ls : name) (o : option (name * bool)) : option (name * bool) :=
  match o with Some (ls', abs) => Some (ls ++ ls', abs) | None => None end.

(** Between rounds: [ls] is closed and [cur] is the label being read. *)
Record pton_state (ls : name) (pre cur dst : list Z) : Prop := {
  ps_len : len pre = len (labels ls);
  ps_ok : len pre <= 255 -> Forall label_ok ls /\ pre = labels ls;
  ps_cur : Forall byte cur;
  ps_dst : len pre < len dst -> exists y rest, dst = pre ++ y :: cur ++ rest }.

Lemma land_big c : 0 <= c -> (Z.land c NS_CMPRSFLGS =? 0) = false -> 64 <= c.
Proof.
  intros P E. destruct (Z.ltb_spec c 64) as [L|L]; [|done].
  destruct (flags c) as [F _]; [unfold byte; lia|]. rewrite F in E. lia.
Qed.

Lemma land_small c : 0 <= c < 256 -> (Z.land c NS_CMPRSFLGS =? 0) = true -> c < 64.
Proof. intros B E. destruct (flags c B) as [F _]. rewrite F in E. lia. Qed.

Lemma close_label_ok ls pre cur dst : pton_state ls pre cur dst ->
  (close_label (len pre) (len pre + 1 + len cur) (len dst) dst = Some (None, dst) /\ (64 <= len cur \/ len dst <= len pre)) \/
  (exists rest, let dst' := (pre ++ wrap 8 (len cur) :: cur) ++ rest in
    close_label (len pre) (len pre + 1 + len cur) (len dst) dst = Some (Some (len cur), dst') /\
    len dst' = len dst /\ (len cur < 256 -> len cur < 64)).
Proof.
  intros [Ll Ok Fc D]. unfold close_label. replace (len pre + 1 + len cur - len pre - 1) with (len cur) by lia.
  pose proof (len_nonneg cur). destruct (Z.land (len cur) NS_CMPRSFLGS =? 0) eqn:F; cbn [negb].
  2:{ left. split; [done|]. left. by apply land_big. }
  destruct (Z.leb_spec (len dst) (len pre)) as [R|R]; [left; split; [done|by right]|]. right.
  destruct (D R) as (y & rest & ->). exists rest. cbv zeta. rewrite (bind_some _ _ _ _ _ (put_at _ _ _ _ _ eq_refl)).
  rewrite <- app_assoc. split; [done|]. split; [rewrite ?len_app, ?len_cons, ?len_app; lia|]. intros. apply land_small; [lia|done].
Qed.

Lemma label_end ls l ls' : len (wire (ls ++ l :: ls')) = len (labels ls) + len l + 1 + len (wire ls').
Proof. rewrite !len_wire, labels_app. cbn. rewrite len_app, len_cons, len_app. lia. Qed.

Lemma name_ok_label ls l ls' : name_ok (ls ++ l :: ls') -> label_ok l.
Proof. intros [F _]. apply Forall_app in F as [_ F]. by inversion F. Qed.

(** The end of a text whose last label is [cur]. *)
Lemma pton_finish ls pre cur dst abs : pton_state ls pre cur dst -> cur <> [] ->
  parsed (Some (ls ++ [cur], abs)) (len dst)
    ((let! r := close_label (len pre) (len pre + 1 + len cur) (len dst) in
      match r with None => ret (-1) | Some c => close_name c (len pre + 1 + len cur) (len dst) (Z.b2z abs) end) dst).
Proof.
  intros S Ne. pose proof S as [Ll Ok Fc _]. pose proof (label_end ls cur []) as Le. change (len (wire [])) with 1 in Le.
  assert (0 < len cur) as Pc by (destruct cur; [done|]; rewrite len_cons; pose proof (len_nonneg cur); lia).
  pose proof (len_nonneg pre) as Pp.
  assert (forall d, len d = len dst -> ~ (name_ok (ls ++ [cur]) /\ len (wire (ls ++ [cur])) <= len dst) ->
    parsed (Some (ls ++ [cur], abs)) (len dst) (Some (-1, d))) as Fail.
  { intros d E N. exists (-1), d. split; [done|]. split; [done|]. by right. }
  destruct (close_label_ok _ _ _ _ S) as [[E Why]|(rest & E & Ed & Small)]; rewrite (bind_some _ _ _ _ _ E).
  { apply Fail; [done|]. intros [N L]. pose proof (name_ok_label _ _ _ N) as [B _]. lia. }
  unfold close_name. rewrite (proj2 (Z.eqb_neq _ _)) by lia. cbn [negb].
  destruct (Z.leb_spec (len dst) (len pre + 1 + len cur)) as [R|R].
  { apply Fail; [done|]. lia. }
  destruct rest as [|x rest]; [rewrite !len_app, len_cons in Ed; unfold len in *; simpl in *; lia|].
  rewrite bind_bind. erewrite bind_some by (apply put_end; rewrite len_app, len_cons; lia).
  erewrite bind_some by reflexivity. rewrite <- Ed in *. rewrite len_app, len_cons in Fail |- *. unfold NS_MAXCDNAME in *.
  assert (forall d, len (d ++ [0]) + len rest = len d + (1 + len rest)) as Es by (intros; by rewrite len_app, <- Z.add_assoc).
  destruct (Z.ltb_spec 255 (len pre + 1 + len cur + 1)) as [M|M].
  { apply Fail; [rewrite len_app; apply Es|]. intros [[_ N] _]. unfold NS_MAXCDNAME in N. lia. }
  destruct Ok as [Fl ->]; [lia|]. eexists _, _. split; [done|]. split; [rewrite len_app; apply Es|]. left.
  rewrite wrap_small by lia. split; [|split; [|split; [done|]]].
  - split; [|unfold NS_MAXCDNAME; lia]. apply Forall_app. split; [done|]. repeat constructor; [lia|lia|done].
  - rewrite Le, len_app, len_cons. pose proof (len_nonneg rest). lia.
  - exists rest. unfold wire. rewrite labels_app. cbn. by rewrite !app_nil_r, <- !app_assoc.
Qed.

Lemma pieces_cons ts : exists p ps, pieces ts = p :: ps.
Proof. induction ts as [|[b|] ts IH]; cbn; [eauto| |eauto]. destruct IH as (p & ps & ->). eauto. Qed.

Lemma name_of_cons l ps : l <> [] ->
  name_of (l :: ps) = match ps with [] => Some ([l], false) | _ => prefixed [l] (name_of ps) end.
Proof. destruct l; [done|]. intros _. by destruct ps. Qed.

Lemma name_of_head l ps ls abs : l <> [] -> name_of (l :: ps) = Some (ls, abs) -> exists ls', ls = l :: ls'.
Proof.
  intros N. rewrite name_of_cons by done. destruct ps as [|p ps]; [intros; simplify_eq; by eexists|].
  destruct (name_of (p :: ps)) as [[ls' abs']|]; intros; simplify_eq/=. by eexists.
Qed.

(** A name that begins with [l] is refused. *)
Lemma parsed_fail ls l ps dst room : l <> [] -> len dst = room ->
  (forall ls', name_ok (ls ++ l :: ls') -> len (labels ls) + len l + 2 <= room -> False) ->
  parsed (prefixed ls (name_of (l :: ps))) room (Some (-1, dst)).
Proof.
  intros N E F. exists (-1), dst. split; [done|]. split; [done|].
  destruct (name_of (l :: ps)) as [[ls' abs]|] eqn:En; [|done]. destruct (name_of_head _ _ _ _ N En) as [ls'' ->].
  right. split; [|done]. intros [Ok L]. apply (F ls'' Ok). rewrite label_end, len_wire in L.
  pose proof (len_nonneg (labels ls'')). lia.
Qed.

Lemma pton_next ls pre cur dst rest : pton_state ls pre cur dst -> cur <> [] -> (len cur < 256 -> len cur < 64) ->
  len ((pre ++ wrap 8 (len cur) :: cur) ++ rest) = len dst ->
  pton_state (ls ++ [cur]) (pre ++ wrap 8 (len cur) :: cur) [] ((pre ++ wrap 8 (len cur) :: cur) ++ rest).
Proof.
  intros [Ll Ok Fc _] Ne Small Ed. pose proof (len_nonneg pre).
  assert (0 < len cur) as Pc by (destruct cur; [done|]; rewrite len_cons; pose proof (len_nonneg cur); lia).
  assert (labels (ls ++ [cur]) = labels ls ++ len cur :: cur) as Lab by (rewrite labels_app; cbn; by rewrite app_nil_r).
  constructor.
  - rewrite Lab, !len_app, !len_cons. lia.
  - rewrite len_app, len_cons. intros B. destruct Ok as [F ->]; [lia|]. rewrite Lab, wrap_small by lia. split; [|done].
    apply Forall_app. split; [done|]. repeat constructor; [lia|lia|done].
  - constructor.
  - rewrite (len_app _ rest). intros L. destruct rest as [|y rest]; [unfold len in L; simpl in L; lia|]. by exists y, rest.
Qed.

Lemma tok_loop_ok ts : forall ls pre cur dst, Forall token_ok ts -> pton_state ls pre cur dst ->
  (cur <> [] \/ match ts with Chr _ :: _ => True | _ => False end) ->
  forall p ps, pieces ts = p :: ps ->
  parsed (prefixed ls (name_of ((cur ++ p) :: ps))) (len dst) (tok_loop ts (len pre) (len pre + 1 + len cur) (len dst) dst).
Proof.
  induction ts as [|[b|] ts IH]; intros ls pre cur dst F S St p ps E; cbn [tok_loop pieces] in *.
  - simplify_eq. destruct St as [Ne|[]]. rewrite app_nil_r, name_of_cons by done. by apply (pton_finish _ _ _ _ false).
  - destruct (pieces_cons ts) as (q & qs & Eq). rewrite Eq in E. simplify_eq. inversion F as [|? ? Fb F']; subst.
    assert (cur ++ b :: q <> []) as Ne by (by destruct cur).
    destruct (Z.leb_spec (len dst) (len pre + 1 + len cur)) as [R|R].
    { apply parsed_fail; [done|done|]. intros ls' _. rewrite len_app, len_cons. pose proof (len_nonneg q).
      pose proof (ps_len _ _ _ _ S). lia. }
    destruct S as [Ll Ok Fc D]. destruct D as (y & rest & ->); [pose proof (len_nonneg cur); lia|].
    destruct rest as [|x rest]; [rewrite app_nil_r, len_app, len_cons in R; lia|].
    erewrite bind_some by (rewrite app_comm_cons, app_assoc; apply put_end; rewrite len_app, len_cons; lia).
    replace (len (pre ++ y :: cur ++ x :: rest)) with (len (((pre ++ y :: cur) ++ [b]) ++ rest))
      by (rewrite !len_app, !len_cons, !len_app, !len_cons; unfold len; simpl; lia).
    replace (len pre + 1 + len cur + 1) with (len pre + 1 + len (cur ++ [b])) by (rewrite len_app; unfold len; simpl; lia).
    rewrite cons_middle, app_assoc. apply IH; [done| |left; by destruct cur|done].
    constructor; [done|done|by apply Forall_app; split; [|constructor]|]. intros _. exists y, rest. by rewrite <- !app_assoc.
  - simplify_eq. destruct St as [Ne|[]]. rewrite app_nil_r. inversion F; subst. pose proof (ps_len _ _ _ _ S) as Ll.
    destruct ts as [|t ts].
    { rewrite name_of_cons by done. by apply (pton_finish _ _ _ _ true). }
    destruct (close_label_ok _ _ _ _ S) as [[E Why]|(rest & E & Ed & Small)]; rewrite (bind_some _ _ _ _ _ E).
    { apply parsed_fail; [done|done|]. intros ls' N. pose proof (name_ok_label _ _ _ N) as [B _]. lia. }
    rewrite (proj2 (Z.eqb_neq _ _)) by (destruct cur; [done|]; rewrite len_cons; pose proof (len_nonneg cur); lia).
    cbn [orb]. rewrite name_of_cons by done. destruct (pieces_cons (t :: ts)) as (p & ps & Ep). rewrite Ep.
    destruct t as [b|].
    + pose proof (pton_next _ _ _ _ _ S Ne Small Ed) as S'. specialize (IH _ _ _ _ H2 S' (or_intror I) p ps Ep).
      rewrite Ed in IH. replace (len (pre ++ _)) with (len pre + 1 + len cur) in IH by (rewrite len_app, len_cons; lia).
      change (len []) with 0 in IH. rewrite Z.add_0_r in IH. cbn [app] in IH.
      destruct (name_of (p :: ps)) as [[ls' abs]|]; cbn in *; [by rewrite <- app_assoc in IH|done].
    + cbn in Ep. destruct (pieces_cons ts) as (q & qs & Eq). rewrite Eq in Ep. simplify_eq. by eexists _, _.
Qed.

(** A text with nothing before its first dot, or before its end. *)
Lemma pton_empty dst : exists dst', len dst' = len dst /\
  ((close_label 0 1 (len dst) dst = Some (None, dst') /\ len dst = 0) \/
   (close_label 0 1 (len dst) dst = Some (Some 0, dst') /\ exists rest, dst' = 0 :: rest)).
Proof.
  destruct dst as [|y dst]; [by exists []; split; [|left]|]. exists (0 :: dst). split; [done|]. right.
  unfold close_label. change (Z.land (1 - 0 - 1) NS_CMPRSFLGS =? 0) with true. cbn [negb]. rewrite (proj2 (Z.leb_gt _ _)) by (unfold len; simpl; lia). split; [|by exists dst].
  change (y :: dst) with ([] ++ y :: dst). by erewrite bind_some by by apply put_at.
Qed.

Lemma pton_root dst abs : parsed (Some ([], abs)) (len dst)
  ((let! r := close_label 0 1 (len dst) in
    match r with None => ret (-1) | Some c => close_name c 1 (len dst) (Z.b2z abs) end) dst).
Proof.
  destruct (pton_empty dst) as (d & Ed & [[E L]|[E [rest ->]]]); rewrite (bind_some _ _ _ _ _ E).
  - exists (-1), d. split; [done|]. split; [done|]. right. split; [|done]. intros [_ W]. rewrite L in W. by cbv in W.
  - exists (Z.b2z abs), (0 :: rest). split; [done|]. split; [done|]. left. split; [by split|]. rewrite <- Ed, len_cons.
    split; [change (len (wire [])) with 1; pose proof (len_nonneg rest); lia|]. split; [done|]. by exists rest.
Qed.

Lemma pton_correct s dst : parsed (parse s) (len dst) (ns_name_pton s (len dst) dst).
Proof.
  unfold parse, ns_name_pton. destruct (lex s) as [ts|] eqn:E.
  2:{ destruct (pton_no_lex (length s) s 0 1 dst) as (d & -> & Ed); [done..|]. by eexists _, _. }
  rewrite (pton_lex (length s) _ ts) by done. pose proof (lex_ok (length s) s ts ltac:(done) E) as F. clear E.
  destruct ts as [|[b|] ts]; [by apply pton_root| |].
  - destruct (pieces_cons (Chr b :: ts)) as (p & ps & Ep). rewrite Ep.
    replace (whole (p :: ps)) with (prefixed [] (name_of (p :: ps))).
    2:{ cbn in Ep. destruct (pieces ts) as [|q qs]; [done|]. injection Ep as <- <-.
        change (whole ((b :: q) :: qs)) with (name_of ((b :: q) :: qs)). by destruct (name_of _) as [[ls abs]|]. }
    apply (tok_loop_ok (Chr b :: ts) [] [] [] dst); [done| |by right|done].
    constructor; [done|by split|done|]. destruct dst as [|y dst]; [done|]. by exists y, dst.
  - destruct ts as [|t ts]; [by apply pton_root|].
    assert (exists p q ps, pieces (t :: ts) = p :: ps /\ (p = [] -> ps = q :: tail ps)) as (p & q & ps & Ep & Np).
    { destruct (pieces_cons ts) as (q & qs & Eq). destruct t; cbn; rewrite Eq; by eexists _, q, _. }
    change (pieces (Dot :: t :: ts)) with ([] :: pieces (t :: ts)). rewrite Ep. cbn [tok_loop].
    replace (whole ([] :: p :: ps)) with (@None (name * bool)).
    2:{ destruct p; [|done]. by rewrite Np. }
    destruct (pton_empty dst) as (d & Ed & [[E _]|[E _]]); rewrite (bind_some _ _ _ _ _ E); by eexists _, _.
Qed.

(** ** Printing, then parsing *)

Lemma escape_check : forallb (fun c => is_digit (48 + c / 100) &&
  match lex (escape c) with Some [Chr b] => b =? c | _ => false end) (seqZ 0 256) = true.
Proof. vm_compute. reflexivity. Qed.

(** A text that begins with an escaped character. *)
Lemma lex_escape c s : byte c -> lex (escape c ++ s) = (Chr c ::.) <$> lex s.
Proof.
  intros B. pose proof escape_check as C. rewrite forallb_forall in C.
  specialize (C c ltac:(apply list_elem_of_In, elem_of_seqZ; unfold byte in B; lia)). unfold escape in *.
  assert (special c = false -> (c =? BACKSLASH) = false /\ (c =? DOT) = false) as Plain
    by (unfold special, BACKSLASH, DOT; cbn; lia).
  apply andb_true_iff in C as [Dg C].
  destruct (special c) eqn:Es; [|destruct (printable c) eqn:Ep]; cbn [lex app] in *; rewrite ?Z.eqb_refl in *.
  - destruct (is_digit c); [done|]. by rewrite wrap_of_byte.
  - destruct (Plain eq_refl) as [-> ->]. by rewrite wrap_of_byte.
  - rewrite Dg in *. destruct (_ && _); [|done]. cbn in C. apply Z.eqb_eq in C. by rewrite C.
Qed.

Lemma lex_label l s : Forall byte l -> lex (label_text l ++ s) = ((Chr <$> l) ++.) <$> lex s.
Proof.
  induction 1 as [|c l B F IH]; cbn [label_text mbind list_bind fmap list_fmap app]; [by destruct (lex s)|].
  rewrite <- app_assoc, lex_escape by done. fold (label_text l). rewrite IH. by destruct (lex s).
Qed.

Lemma lex_tail ls : Forall label_ok ls ->
  lex (tail_text ls) = Some (ls ≫= (fun l => Dot :: (Chr <$> l))).
Proof.
  induction 1 as [|l ls [_ B] F IH]; [done|]. cbn [tail_text mbind list_bind app lex].
  rewrite lex_label by done. fold (tail_text ls). by rewrite IH.
Qed.

Lemma pieces_label l ts : pieces ((Chr <$> l) ++ ts) = match pieces ts with p :: ps => (l ++ p) :: ps | [] => [] end.
Proof.
  induction l as [|c l IH]; cbn; [by destruct (pieces_cons ts) as (p & ps & ->)|]. rewrite IH. by destruct (pieces ts).
Qed.

Lemma pieces_tail ls : pieces (ls ≫= (fun l => Dot :: (Chr <$> l))) = [] :: ls.
Proof. induction ls as [|l ls IH]; [done|]. cbn. rewrite pieces_label, IH. by rewrite app_nil_r. Qed.

Lemma name_of_labels ls : ls <> [] -> Forall label_ok ls -> name_of ls = Some (ls, false).
Proof.
  intros N F. induction F as [|l ls [B _] F IH]; [done|]. rewrite name_of_cons by (destruct l; [unfold len in B; simpl in B; lia|done]).
  destruct ls as [|l' ls]; [done|]. by rewrite IH.
Qed.

Lemma parse_text ls : Forall label_ok ls -> parse (text ls) = Some (ls, match ls with [] => true | _ => false end).
Proof.
  intros F. unfold parse. destruct ls as [|l ls]; [done|]. inversion F as [|? ? [B Bl] F']; subst. cbn [text].
  rewrite lex_label, lex_tail by done. cbn [fmap option_fmap option_map]. rewrite pieces_label, pieces_tail, app_nil_r.
  rewrite <- (name_of_labels (l :: ls)) by done. destruct l; [unfold len in B; simpl in B; lia|]. done.
Qed.

(** The text is a C string of ASCII characters. *)
Lemma text_ascii ls : Forall label_ok ls -> Forall (fun c => 0 < c < 128) (text ls).
Proof.
  assert (forallb (fun c => forallb (fun d => (0 <? d) && (d <? 128)) (escape c)) (seqZ 0 256) = true) as C
    by (vm_compute; reflexivity).
  assert (forall l, Forall byte l -> Forall (fun c => 0 < c < 128) (label_text l)) as Label.
  { induction 1 as [|c l B F IH]; [constructor|]. cbn [label_text mbind list_bind]. apply Forall_app. split; [|done].
    rewrite forallb_forall in C. specialize (C c ltac:(apply list_elem_of_In, elem_of_seqZ; unfold byte in B; lia)).
    rewrite forallb_forall in C. apply list.Forall_forall. intros d D. apply list_elem_of_In, C in D. lia. }
  assert (forall ls, Forall label_ok ls -> Forall (fun c => 0 < c < 128) (tail_text ls)) as Tail.
  { induction 1 as [|l ls' [_ B] F IH]; [constructor|]. cbn [tail_text mbind list_bind app]. constructor; [done|].
    apply Forall_app. split; [by apply Label|done]. }
  intros F. destruct F as [|l ls [_ B] F]; [by constructor|]. apply Forall_app. split; [by apply Label|by apply Tail].
Qed.

(** ** Comparison *)

Definition fold_case (ls : name) : name := map (map ascii_toupper) ls.

Lemma toupper_eq x y : negb (x =? y) && negb (ascii_toupper x =? ascii_toupper y) = negb (ascii_toupper x =? ascii_toupper y).
Proof. destruct (Z.eqb_spec x y) as [->|_]; [by rewrite Z.eqb_refl|done]. Qed.

Lemma samename_label l l' a b : length l = length l' ->
  samename_loop (l ++ a) (l' ++ b) (len l) =
  if bool_decide (map ascii_toupper l = map ascii_toupper l') then samename_loop a b 0 else Some false.
Proof.
  revert l'. induction l as [|x l IH]; intros [|y l'] E; try done. injection E as E.
  cbn [app samename_loop]. rewrite len_cons. pose proof (len_nonneg l). rewrite (proj2 (Z.ltb_lt _ _)) by lia.
  rewrite toupper_eq. replace (1 + len l - 1) with (len l) by lia. cbn [map].
  destruct (Z.eqb_spec (ascii_toupper x) (ascii_toupper y)) as [T|T]; cbn [negb].
  - rewrite IH by done. destruct (decide (map ascii_toupper l = map ascii_toupper l')) as [M|M].
    + rewrite !bool_decide_eq_true_2; [done|congruence|done].
    + rewrite !bool_decide_eq_false_2; [done|congruence|done].
  - rewrite bool_decide_eq_false_2; [done|congruence].
Qed.

Lemma samebinaryname_correct a b x y : Forall label_ok a -> Forall label_ok b ->
  ns_samebinaryname (wire a ++ x) (wire b ++ y) = Some (bool_decide (fold_case a = fold_case b)).
Proof.
  intros A. unfold ns_samebinaryname, wire. revert b. induction A as [|l a [Bl _] A IH]; intros b B;
    destruct B as [|l' b [Bl' _] B]; cbn -[len samename_loop].
  - done.
  - cbn. destruct (Z.eqb_spec (len l') 0); [lia|]. done.
  - cbn. destruct (Z.eqb_spec (len l) 0); [lia|]. done.
  - cbn [samename_loop]. rewrite Z.ltb_irrefl. rewrite !(proj2 (Z.eqb_neq _ 0)) by lia. cbn [negb andb].
    destruct (Z.eqb_spec (len l) (len l')) as [E|E]; cbn [negb].
    + rewrite <- !app_assoc, samename_label by (unfold len in E; lia).
      destruct (decide (map ascii_toupper l = map ascii_toupper l')) as [M|M].
      * rewrite (bool_decide_eq_true_2 _ M), !app_assoc, IH by done. unfold fold_case. cbn [map]. rewrite M. f_equal.
        apply bool_decide_ext. split; [congruence|by intros [=]].
      * rewrite (bool_decide_eq_false_2 _ M). cbn. rewrite bool_decide_eq_false_2; [done|]. by intros [= ? ?].
    + cbn. rewrite bool_decide_eq_false_2; [done|]. intros [= E' _]. apply (f_equal length) in E'.
      rewrite !length_map in E'. unfold len in E. lia.
Qed.
