(* ===== verification/DomainPack.v ===== *)
(** * Compression

    A list of positions is well formed in a message when a name can be read at
    each of them within the bytes written so far ([readable]).
    [ns_name_pack] adds a name behind those bytes: what it writes reads as
    that name up to case, is no longer than the name itself, and leaves a
    well-formed list; what was there before is unchanged. *)

From S2P Require Import Prelude CLoop CMonad CInt Buffer DomainName DomainWire DomainText.
Open Scope c_scope.

(** ** Messages that grow *)

Lemma rd_app m t p x : rd m p = Some x -> rd (m ++ t) p = Some x.
Proof.
  intros E. pose proof (rd_some _ _ _ E) as B. unfold rd in *. destruct (p <? 0); [done|].
  rewrite lookup_app_l; [done|]. unfold len in B. lia.
Qed.

Lemma slice_app m t i n l : slice m i n = Some l -> slice (m ++ t) i n = Some l.
Proof.
  intros E. pose proof (slice_len _ _ _ _ E) as (Ll & B1 & B2). pose proof (len_nonneg l). unfold slice in *.
  rewrite !(proj2 (Z.leb_le _ _)) in * by (rewrite ?len_app; pose proof (len_nonneg t); lia). cbn [andb] in *.
  rewrite <- E. f_equal. unfold len in *. rewrite drop_app_le, take_app_le by (rewrite ?length_drop; lia). done.
Qed.

Lemma name_at_app m t p ls k : name_at m p ls k -> name_at (m ++ t) p ls k.
Proof.
  induction 1 as [p E|p n l ls k E B El N IH|p n b ls k E B Eb N IH].
  - by apply name_root, rd_app.
  - apply name_label; [by apply rd_app|done|by apply slice_app|done].
  - eapply name_pointer; [by apply rd_app|done|by apply rd_app|done].
Qed.

Lemma rd_at m x t p : p = len m -> rd (m ++ x :: t) p = Some x.
Proof.
  intros ->. pose proof (len_nonneg m). unfold rd. rewrite (proj2 (Z.ltb_ge _ _)) by lia. unfold len.
  by rewrite Nat2Z.id, list_lookup_middle.
Qed.

Lemma slice_at m l t p n : p = len m -> n = len l -> slice (m ++ l ++ t) p n = Some l.
Proof.
  intros -> ->. pose proof (len_nonneg m). pose proof (len_nonneg l). pose proof (len_nonneg t). unfold slice.
  rewrite !(proj2 (Z.leb_le _ _)) by (rewrite ?len_app; lia). cbn [andb]. unfold len. rewrite !Nat2Z.id.
  by rewrite drop_app_length, take_app_length.
Qed.

(** Labels in front of a name. *)
Lemma name_at_labels cs m t ls k : Forall label_ok cs ->
  name_at (m ++ labels cs ++ t) (len m + len (labels cs)) ls k ->
  name_at (m ++ labels cs ++ t) (len m) (cs ++ ls) (len (labels cs) + k).
Proof.
  intros F. revert m k. induction F as [|l cs [B _] F IH]; intros m k N; cbn [labels app] in *.
  { change (len []) with 0 in *. by rewrite Z.add_0_r in N. }
  rewrite len_cons, len_app in *. replace (1 + (len l + len (labels cs)) + k) with (len l + 1 + (len (labels cs) + k)) by lia.
  apply name_label; [by apply rd_at|lia| |].
  - replace (m ++ _ :: (l ++ labels cs) ++ t) with ((m ++ [len l]) ++ l ++ labels cs ++ t) by (by rewrite <- !app_assoc).
    apply slice_at; [by rewrite len_app|done].
  - replace (len m + 1 + len l) with (len (m ++ len l :: l)) by (rewrite len_app, len_cons; lia).
    replace (m ++ _ :: (l ++ labels cs) ++ t) with ((m ++ len l :: l) ++ labels cs ++ t) in * by (by rewrite <- !app_assoc).
    apply IH. rewrite len_app, len_cons.
    by replace (len m + (1 + len l) + _) with (len m + (1 + (len l + len (labels cs)))) by lia.
Qed.

Lemma spans_app m t p q : spans m p q -> spans (m ++ t) p q.
Proof.
  induction 1 as [p E|p n q E B S IH|p n b E B Eb].
  - by apply spans_root, rd_app.
  - eapply spans_label; [by apply rd_app|done|done].
  - eapply spans_pointer; [by apply rd_app|done|by apply rd_app].
Qed.

Lemma spans_labels cs m t q : Forall label_ok cs ->
  spans (m ++ labels cs ++ t) (len m + len (labels cs)) q -> spans (m ++ labels cs ++ t) (len m) q.
Proof.
  intros F. revert m. induction F as [|l cs [B _] F IH]; intros m S; cbn [labels app] in *.
  { change (len []) with 0 in *. by rewrite Z.add_0_r in S. }
  apply (spans_label _ _ (len l)); [by apply rd_at|lia|].
  replace (len m + 1 + len l) with (len (m ++ len l :: l)) by (rewrite len_app, len_cons; lia).
  replace (m ++ _ :: (l ++ labels cs) ++ t) with ((m ++ len l :: l) ++ labels cs ++ t) in * by (by rewrite <- !app_assoc).
  apply IH. rewrite !len_app, !len_cons, len_app in *.
  by replace (len m + (1 + len l) + _) with (len m + (1 + (len l + len (labels cs)))) by lia.
Qed.

(** ** Searching *)

Definition readable (m : list Z) (p : Z) : Prop := exists ls k, name_at m p ls k /\ k < len m.

Lemma mklower_toupper x y : byte x -> byte y -> (mklower x =? mklower y) = (ascii_toupper x =? ascii_toupper y).
Proof. 
  unfold byte, mklower, ascii_toupper. intros. repeat match goal with |- context [if ?b then _ else _] => destruct b eqn:? end; lia.
Qed.

Lemma labels_eq_ok n l l' d d' m m' p p' : length l = n -> length l' = n -> Forall byte l -> Forall byte l' ->
  p = len m -> p' = len m' ->
  labels_eq n (m ++ l ++ d) p (m' ++ l' ++ d') p' = Some (bool_decide (map ascii_toupper l = map ascii_toupper l')).
Proof.
  revert l l' m m' p p'. induction n as [|n IH]; intros [|x l] [|y l'] m m' p p' E E' F F' P P'; try done.
  inversion F; inversion F'; subst. cbn [labels_eq app]. rewrite !rd_at, mklower_toupper by done. cbn [map].
  destruct (Z.eqb_spec (ascii_toupper x) (ascii_toupper y)) as [T|T]; cbn [negb].
  - rewrite (cons_middle x m), (cons_middle y m'), (app_assoc m), (app_assoc m').
    rewrite IH by (try done; try (by rewrite len_app); by injection E; injection E'). f_equal. apply bool_decide_ext. rewrite T.
    split; [by intros ->|by intros [=]].
  - rewrite bool_decide_eq_false_2; [done|congruence].
Qed.

Lemma slice_split s i n l : slice s i n = Some l -> exists a b, s = a ++ l ++ b /\ i = len a /\ n = len l.
Proof.
  intros E. pose proof (slice_len _ _ _ _ E) as (Ll & B1 & B2). exists (take (Z.to_nat i) s), (drop (Z.to_nat (i + n)) s).
  split; [|split; [|done]].
  - by rewrite <- (slice_drop _ _ _ _ E), take_drop.
  - pose proof (len_nonneg l). unfold len in *. rewrite length_take. lia.
Qed.

Lemma labels_eq_slice n domain dn msg cp l l' : slice domain dn n = Some l -> slice msg cp n = Some l' ->
  Forall byte l -> Forall byte l' ->
  labels_eq (Z.to_nat n) domain dn msg cp = Some (bool_decide (map ascii_toupper l = map ascii_toupper l')).
Proof.
  intros E E' F F'. destruct (slice_split _ _ _ _ E) as (a & b & -> & Ea & El).
  destruct (slice_split _ _ _ _ E') as (a' & b' & -> & Ea' & El'). apply labels_eq_ok; try done; unfold len in *; lia.
Qed.

(** An uncompressed name somewhere in a list of bytes. *)
Definition wire_at (domain : list Z) (dn : Z) (ls : name) : Prop :=
  exists pre more, domain = pre ++ wire ls ++ more /\ dn = len pre.

Lemma wire_at_nil domain dn : wire_at domain dn [] -> rd domain dn = Some 0.
Proof. intros (pre & more & -> & ->). by apply rd_at. Qed.

Lemma wire_at_root domain dn : wire_at domain dn [] -> slice domain dn 1 = Some [0].
Proof. intros (pre & more & -> & ->). by apply slice_at. Qed.

Lemma wire_at_cons domain dn l ls : wire_at domain dn (l :: ls) ->
  rd domain dn = Some (len l) /\ slice domain (dn + 1) (len l) = Some l /\
  slice domain dn (len l + 1) = Some (len l :: l) /\ wire_at domain (dn + (len l + 1)) ls.
Proof.
  intros (pre & more & -> & ->). unfold wire. cbn [labels app]. split; [by apply rd_at|].
  assert (pre ++ len l :: ((l ++ labels ls) ++ [0]) ++ more = (pre ++ [len l]) ++ l ++ wire ls ++ more) as E1
    by (unfold wire; by rewrite <- !app_assoc).
  assert (pre ++ len l :: ((l ++ labels ls) ++ [0]) ++ more = pre ++ (len l :: l) ++ wire ls ++ more) as E2
    by (unfold wire; cbn; by rewrite <- !app_assoc).
  split; [rewrite E1; apply slice_at; [by rewrite len_app|done]|]. rewrite E2.
  split; [apply slice_at; [done|rewrite len_cons; lia]|].
  exists (pre ++ len l :: l), more. split; [by rewrite <- app_assoc|]. rewrite len_app, len_cons. lia.
Qed.

Lemma wire_at_head domain dn ls : Forall label_ok ls -> wire_at domain dn ls ->
  exists d, rd domain dn = Some d /\ (d = 0 <-> ls = []).
Proof.
  intros F W. destruct F as [|l ls [B _] F]; [exists 0; by split; [apply wire_at_nil|]|].
  exists (len l). split; [by apply wire_at_cons in W as (? & _)|]. split; [lia|done].
Qed.

Section Find.
(** The written part of the message, and what is behind it. *)
Variables (m t : list Z).
Hypothesis m_bytes : Forall byte m.
Hypothesis m_small : len m < 2 ^ 63.
Variable domain : list Z.

(** Between rounds: where the two names are, and that they match if the rest does. *)
Inductive match_inv (P : Prop) (n : Z) : Z * Z -> Prop :=
  matching dn cp l ls ls' k : wire_at domain dn (l :: ls) -> Forall label_ok (l :: ls) ->
    name_at m cp ls' k -> k < n -> (fold_case ls' = fold_case (l :: ls) -> P) -> match_inv P n (dn, cp).

Lemma match_step_ok P n s : match_inv P n s ->
  match match_step domain (m ++ t) s with
  | inl s' => exists n', 0 <= n' < n /\ match_inv P n' s'
  | inr (Some v) => v <> Illegal /\ (v = Found -> P)
  | inr None => False
  end.
Proof.
  intros [dn cp l ls ls' k W F N K HP]. inversion F as [|? ? [Bl Fl] F']; subst. cbn [match_step].
  pose proof (name_at_in _ _ _ _ N) as [_ Pk]. destruct (wire_at_cons _ _ _ _ W) as (Ed & Es & _ & W').
  destruct N as [cp E|cp n0 l' ls' k E B El N|cp n0 b ls' k E B Eb N]; rewrite (rd_app _ _ _ _ E).
  - done.
  - rewrite Ed, (proj2 (Z.eqb_neq _ _)) by lia.
    destruct (flags n0) as (-> & _ & _); [unfold byte; lia|]. rewrite (proj2 (Z.ltb_lt _ _)) by lia.
    destruct (Z.eqb_spec n0 (len l)) as [->|]; cbn [negb]; [|done].
    rewrite (labels_eq_slice _ _ _ _ _ l l' Es (slice_app _ t _ _ _ El) Fl (slice_byte _ _ _ _ m_bytes El)).
    destruct (decide (map ascii_toupper l = map ascii_toupper l')) as [M|M];
      [rewrite bool_decide_eq_true_2 by done|by rewrite bool_decide_eq_false_2].
    destruct (wire_at_head _ _ _ F' W') as (d & Ed' & Hd). replace (dn + 1 + len l) with (dn + (len l + 1)) by lia. rewrite Ed'.
    destruct (Z.eqb_spec d 0) as [D|D].
    + apply Hd in D as ->. pose proof (name_at_in _ _ _ _ N) as [In _]. destruct (rd_in _ _ In) as [c Ec].
      rewrite (rd_app _ _ _ _ Ec). destruct (Z.eqb_spec c 0) as [->|]; [|done]. split; [done|]. intros _.
      destruct (name_root_inv _ _ _ _ Ec N) as [-> _]. apply HP. cbn. by rewrite M.
    + destruct ls as [|l1 ls]; [by destruct D; apply Hd|]. apply name_at_in in N as Pk'. exists (k + 1). split; [lia|].
      eapply matching; [done|done|done|lia|]. intros Eq. apply HP. unfold fold_case in *. cbn [map] in *. congruence.
  - pose proof (rd_byte _ _ _ m_bytes E) as Bn. pose proof (rd_byte _ _ _ m_bytes Eb) as Bb.
    rewrite (proj2 (Z.eqb_neq _ _)) by lia. destruct (flags n0 Bn) as (-> & -> & _).
    rewrite (proj2 (Z.ltb_ge _ _)), (proj2 (Z.leb_le _ _)) by lia. rewrite (rd_app _ _ _ _ Eb), target_eq by done.
    exists (k + 1). apply name_at_in in N as Pk'. split; [lia|]. eapply matching; [done|done|done|lia|done].
Qed.

Lemma match_ok dn cp l ls ls' k : wire_at domain dn (l :: ls) -> Forall label_ok (l :: ls) -> name_at m cp ls' k -> k < len m ->
  exists v, run 64 (match_step domain (m ++ t)) (dn, cp) = Some v /\ v <> Illegal /\
  (v = Found -> fold_case ls' = fold_case (l :: ls)).
Proof.
  intros W F N K. apply run_spec with (n := len m) (Inv := match_inv (fold_case ls' = fold_case (l :: ls))).
  - apply match_step_ok.
  - by eapply matching.
  - lia.
Qed.

(** A name of the message that is the one searched for, up to case, and that
    a pointer can reach. *)
Definition found (ls : name) (r : Z) : Prop :=
  0 <= r < 0x4000 /\ exists ls' k, name_at m r ls' k /\ k < len m /\ fold_case ls' = fold_case ls.

Lemma find_step_ok dn l ls n sp : wire_at domain dn (l :: ls) -> Forall label_ok (l :: ls) ->
  (exists ls' k, name_at m sp ls' k /\ k < n) -> n <= len m ->
  match find_step domain dn (m ++ t) sp with
  | inl sp' => exists n', 0 <= n' < n /\ exists ls' k, name_at m sp' ls' k /\ k < n'
  | inr (Some (Some r)) => found (l :: ls) r
  | inr (Some None) => True
  | inr None => False
  end.
Proof.
  intros W F (ls' & k & N & K) Bn. unfold find_step. pose proof (name_at_in _ _ _ _ N) as [In Pk].
  destruct (rd_in _ _ In) as [x Ex]. rewrite (rd_app _ _ _ _ Ex). pose proof (rd_byte _ _ _ m_bytes Ex) as Bx.
  destruct (flags x Bx) as (-> & _ & _). unfold byte in Bx.
  destruct (_ && _) eqn:C; [|done]. apply andb_true_iff in C as [C C3]. apply andb_true_iff in C as [C1 C2].
  destruct (match_ok dn sp l ls ls' k W F N) as (v & -> & Nv & Fv); [lia|]. destruct v; [|  |done].
  - split; [lia|]. exists ls', k. split; [done|]. split; [lia|by apply Fv].
  - destruct (name_label_inv _ _ _ _ _ Ex ltac:(lia) N) as (l' & ls'' & k' & -> & -> & _ & N').
    pose proof (name_at_in _ _ _ _ N') as [_ Pk']. exists (k' + 1). split; [lia|]. exists ls'', k'.
    by replace (sp + (x + 1)) with (sp + 1 + x) by lia; split; [|lia].
Qed.

Lemma dn_find_ok dn l ls names : wire_at domain dn (l :: ls) -> Forall label_ok (l :: ls) -> Forall (readable m) names ->
  exists r, dn_find domain dn (m ++ t) names = Some r /\ (r = -1 \/ found (l :: ls) r).
Proof.
  intros W F. induction 1 as [|sp names (ls' & k & N & K) R IH]; cbn [dn_find]; [by exists (-1); split; [|left]|].
  destruct (run_spec (find_step domain dn (m ++ t))
    (fun n sp => (exists ls' k, name_at m sp ls' k /\ k < n) /\ n <= len m)
    (fun r => match r with Some r => found (l :: ls) r | None => True end) 64 (len m) sp) as ([r|] & -> & P); [| |lia|eauto|done].
  - intros n p [I Bn]. pose proof (find_step_ok dn l ls n p W F I Bn) as S.
    destruct (find_step domain dn (m ++ t) p) as [p'|[[r|]|]]; [|done..]. destruct S as (n' & ? & ?). exists n'.
    split; [done|]. split; [done|lia].
  - split; [eauto|done].
Qed.
End Find.

(** ** Packing *)

Lemma legal_ok src ls : wire_at src 0 ls -> Forall label_ok ls ->
  run 64 (legal_step src) (0, 0) = Some (len (wire ls) <=? NS_MAXCDNAME).
Proof.
  intros W F.
  destruct (run_spec (legal_step src) (fun n s => let '(srcp, l) := s in
      exists ls', wire_at src srcp ls' /\ Forall label_ok ls' /\ l + len (wire ls') = len (wire ls) /\ 0 <= l <= 255 /\ 255 - l < n)
    (fun r => r = (len (wire ls) <=? NS_MAXCDNAME)) 64 256 (0, 0)) as (r & -> & ->); [| |done|done].
  - intros n [srcp l] (ls' & W' & F' & E & B & Hn). cbn [legal_step]. unfold NS_MAXCDNAME in *.
    destruct ls' as [|l' ls'].
    + rewrite (wire_at_nil _ _ W'). change (len (wire [])) with 1 in E. cbn [Z.leb Z.compare Z.add].
      rewrite Z.add_0_l, E. destruct (Z.ltb_spec 255 (len (wire ls))), (Z.leb_spec (len (wire ls)) 255); cbn; lia.
    + inversion F' as [|? ? [Bl _] F'']; subst. destruct (wire_at_cons _ _ _ _ W') as (-> & _ & _ & W'').
      pose proof (label_end [] l' ls') as Le. cbn [app labels] in Le. change (len []) with 0 in Le.
      rewrite (len_wire ls') in Le. pose proof (len_nonneg (labels ls')).
      rewrite (proj2 (Z.leb_gt _ _)) by lia. destruct (Z.ltb_spec 255 (l + (len l' + 1))); [lia|].
      rewrite (proj2 (Z.eqb_neq _ _)) by lia. exists (n - 1). split; [lia|]. exists ls'. rewrite (len_wire ls').
      split; [done|]. split; [done|]. lia.
  - exists ls. split; [done|]. split; [done|]. lia.
Qed.

Lemma pointer_check : forallb (fun h => wrap 8 (Z.lor h NS_CMPRSFLGS) =? h + 192) (seqZ 0 64) = true.
Proof. vm_compute. reflexivity. Qed.

Lemma pointer_byte l : 0 <= l < 0x4000 -> wrap 8 (Z.lor (Z.shiftr l 8) NS_CMPRSFLGS) = l / 256 + 192.
Proof.
  intros B. rewrite Z.shiftr_div_pow2 by lia. change (2 ^ 8) with 256. pose proof pointer_check as C.
  rewrite forallb_forall in C. apply Z.eqb_eq, C, list_elem_of_In, elem_of_seqZ.
  split; [apply Z.div_pos; lia|apply Z.div_lt_upper_bound; lia].
Qed.

Section Pack.
(** [m] is the message so far, [t] the room behind it. *)
Variables (m t more : list Z) (ls : name) (dstsiz : Z) (dnptrs : option (list Z)) (lastdnptr : option Z).
Hypothesis m_bytes : Forall byte m.
Hypothesis m_small : len m < 2 ^ 63.
Hypothesis ls_ok : Forall label_ok ls.
Hypothesis room : dstsiz <= len t.
Hypothesis names_ok : forall ps, dnptrs = Some ps -> Forall (readable m) ps.
Let src := wire ls ++ more.

(** The list afterwards: as it was, or with the new name. *)
Definition extended (names : option (list Z)) : Prop :=
  names = dnptrs \/ exists ps, dnptrs = Some ps /\ names = Some (ps ++ [len m]).

Definition packed (res : Z * (option (list Z) * list Z)) : Prop :=
  let '(r, (names, mem)) := res in
  (r = -1 /\ names = dnptrs /\ dstsiz < len (wire ls) /\ exists t', mem = m ++ t' /\ len t' = len t) \/
  (exists w t' ls' k, mem = m ++ w ++ t' /\ len (w ++ t') = len t /\ Forall byte w /\ r = len w /\
     0 < r <= Z.min dstsiz (len (wire ls)) /\ extended names /\
     spans (m ++ w) (len m) (len m + r) /\ name_at (m ++ w) (len m) ls' k /\ k < len (m ++ w) /\ fold_case ls' = fold_case ls).

Inductive pack_inv (n : Z) : packing -> Prop :=
  copying cs ls' t' names first : ls = cs ++ ls' -> len (labels cs ++ t') = len t -> len (labels cs) <= dstsiz ->
    (names, first) = (match cs with [] => (dnptrs, true) | _ => save lastdnptr (len m) true dnptrs end) ->
    Z.of_nat (length ls') < n ->
    pack_inv n (mkPacking (len (labels cs)) (len m + len (labels cs)) names first (m ++ labels cs ++ t')).

Lemma save_extended names first : save lastdnptr (len m) true dnptrs = (names, first) -> extended names.
Proof.
  unfold save, extended. destruct dnptrs as [ps|]; [|by intros [= <- <-]; left].
  destruct lastdnptr as [last|]; [|by intros [= <- <-]; left].
  destruct (_ && _); intros [= <- <-]; [|by left]. right. by exists ps.
Qed.

(** Only the first label can save. *)
Lemma save_again d names first : 0 <= d -> save lastdnptr (len m) true dnptrs = (names, first) ->
  save lastdnptr (len m + d) first names = (names, first).
Proof.
  intros P. unfold save. destruct dnptrs as [ps|], lastdnptr as [last|]; try (by intros [= <- <-]).
  destruct (_ <? _) eqn:E1; cbn [andb]; [|by intros [= <- <-]; rewrite E1].
  destruct (Z.ltb_spec (len m) 0x4000); intros [= <- <-]; [by rewrite andb_false_r|].
  rewrite E1, (proj2 (Z.ltb_ge _ _)) by lia. done.
Qed.

Lemma save_step (cs : name) names first :
  (names, first) = (match cs with [] => (dnptrs, true) | _ => save lastdnptr (len m) true dnptrs end) ->
  save lastdnptr (len m + len (labels cs)) first names = save lastdnptr (len m) true dnptrs.
Proof.
  intros E. destruct cs as [|c cs].
  - injection E as -> ->. change (len (labels [])) with 0. by rewrite Z.add_0_r.
  - rewrite (save_again _ names first); [done|apply len_nonneg|done].
Qed.

Lemma names_extended (cs : name) names first :
  (names, first) = (match cs with [] => (dnptrs, true) | _ => save lastdnptr (len m) true dnptrs end) -> extended names.
Proof. intros E. destruct cs; [injection E as -> ->; by left|by apply (save_extended _ first)]. Qed.

Lemma src_at cs ls' : ls = cs ++ ls' -> wire_at src (len (labels cs)) ls'.
Proof.
  intros E. exists (labels cs), more. split; [|done]. unfold src, wire. by rewrite E, labels_app, <- !app_assoc.
Qed.

Lemma labels_bytes cs : Forall label_ok cs -> Forall byte (labels cs).
Proof.
  induction 1 as [|l cs [B F] _ IH]; [constructor|]. cbn. constructor; [unfold byte; lia|]. by apply Forall_app.
Qed.

Lemma pack_fail cs ls' t' : ls = cs ++ ls' -> len (labels cs ++ t') = len t -> dstsiz < len (wire ls) ->
  packed (-1, (dnptrs, m ++ labels cs ++ t')).
Proof. intros E L S. left. split; [done|]. split; [done|]. split; [done|]. by eexists. Qed.

(** The rest of the name is a pointer. *)
Lemma pack_pointer cs l ls' t' names r : ls = cs ++ l :: ls' -> len (labels cs ++ t') = len t ->
  len (labels cs) + 2 <= dstsiz -> extended names -> found m (l :: ls') r ->
  exists mem, puts (len m + len (labels cs)) [wrap 8 (Z.lor (Z.shiftr r 8) NS_CMPRSFLGS); r mod 256] (m ++ labels cs ++ t') = Some (tt, mem) /\
  packed (len m + len (labels cs) + 2 - len m, (names, mem)).
Proof.
  intros E L R X (B & lf & k & N & K & Fo). destruct (split_room t' 2) as (old & t2 & -> & Lo); [rewrite !len_app in *; lia|].
  assert (Forall label_ok cs /\ label_ok l) as [Fc Fl].
  { rewrite E in ls_ok. apply Forall_app in ls_ok as [? F]. by inversion F. }
  pose proof (Z.div_mod r 256 ltac:(lia)) as D. pose proof (Z.mod_pos_bound r 256 ltac:(lia)) as Bm.
  pose proof (Z.div_pos r 256 ltac:(lia) ltac:(lia)). pose proof (Z.div_lt_upper_bound r 256 64 ltac:(lia) ltac:(lia)).
  rewrite pointer_byte by done. rewrite (app_assoc m). eexists. split.
  { apply puts_at; [by rewrite len_app|]. unfold len in Lo. simpl. lia. }
  set (w := labels cs ++ [r / 256 + 192; r mod 256]). right. exists w, t2, (cs ++ lf), (len (labels cs) + (2 + k)).
  assert (len w = len (labels cs) + 2) as Lw by (unfold w; by rewrite len_app).
  pose proof (label_end cs l ls') as Le. rewrite <- E in Le. pose proof (len_nonneg (labels cs)). pose proof (len_wire ls').
  destruct Fl as [Bl _]. pose proof (len_nonneg (labels ls')).
  split; [by unfold w; rewrite <- !app_assoc|]. split; [unfold w; rewrite !len_app, Lo in *; change (len [_; _]) with 2; lia|].
  split; [apply Forall_app; split; [by apply labels_bytes|repeat constructor; unfold byte; lia]|].
  assert (rd (m ++ w) (len m + len (labels cs)) = Some (r / 256 + 192)) as E1
    by (unfold w; rewrite app_assoc; apply rd_at; by rewrite len_app).
  assert (rd (m ++ w) (len m + len (labels cs) + 1) = Some (r mod 256)) as E2
    by (unfold w; rewrite app_assoc, (cons_middle (r / 256 + 192)), app_assoc; apply rd_at; by rewrite !len_app).
  split; [lia|]. split; [lia|]. split; [done|]. split; [|split; [|split]].
  - replace (len m + _) with (len m + len (labels cs) + 2) by lia. apply spans_labels; [done|].
    eapply spans_pointer; [exact E1|lia|exact E2].
  - apply name_at_labels; [done|]. apply (name_pointer _ _ (r / 256 + 192) (r mod 256)); [exact E1|lia|exact E2|].
    replace (256 * _ + _) with r by lia. by apply name_at_app.
  - rewrite len_app, Lw. lia.
  - rewrite E. unfold fold_case in *. by rewrite !map_app, Fo.
Qed.

(** One label is copied. *)
Lemma pack_label n cs l ls' t' names first : ls = cs ++ l :: ls' -> len (labels cs ++ t') = len t ->
  len (labels cs) + (len l + 1) <= dstsiz -> save lastdnptr (len m) true dnptrs = (names, first) ->
  Z.of_nat (length (l :: ls')) < n ->
  exists mem, puts (len m + len (labels cs)) (len l :: l) (m ++ labels cs ++ t') = Some (tt, mem) /\
  exists n', 0 <= n' < n /\
  pack_inv n' (mkPacking (len (labels cs) + (len l + 1)) (len m + len (labels cs) + (len l + 1)) names first mem).
Proof.
  intros E L R S Hn. destruct (split_room t' (len l + 1)) as (old & t2 & -> & Lo).
  { pose proof (len_nonneg l). rewrite !len_app in *. lia. }
  rewrite (app_assoc m). eexists. split.
  { apply puts_at; [by rewrite len_app|]. unfold len in Lo. simpl. lia. }
  exists (n - 1). cbn [length] in Hn. split; [lia|].
  assert (labels (cs ++ [l]) = labels cs ++ len l :: l) as Lab by (rewrite labels_app; cbn; by rewrite app_nil_r).
  replace (len (labels cs) + (len l + 1)) with (len (labels (cs ++ [l]))) by (rewrite Lab, len_app, len_cons; lia).
  replace (len m + len (labels cs) + (len l + 1)) with (len m + len (labels (cs ++ [l])))
    by (rewrite Lab, len_app, len_cons; lia).
  replace ((m ++ labels cs) ++ (len l :: l) ++ t2) with (m ++ labels (cs ++ [l]) ++ t2) by (by rewrite Lab, <- !app_assoc).
  apply (copying _ _ ls').
  - by rewrite <- app_assoc.
  - rewrite Lab, !len_app, len_cons in *. lia.
  - rewrite Lab, len_app, len_cons. lia.
  - by destruct cs.
  - lia.
Qed.

(** The root is copied. *)
Lemma pack_end t' names : len (labels ls ++ t') = len t -> len (labels ls) + 1 <= dstsiz -> extended names ->
  exists mem, puts (len m + len (labels ls)) [0] (m ++ labels ls ++ t') = Some (tt, mem) /\
  packed (len m + len (labels ls) + 1 - len m, (names, mem)).
Proof.
  intros L R X. destruct (split_room t' 1) as (old & t2 & -> & Lo); [rewrite !len_app in *; lia|].
  rewrite (app_assoc m). eexists. split.
  { apply puts_at; [by rewrite len_app|]. unfold len in Lo. simpl. lia. }
  pose proof (len_wire ls) as Lw. pose proof (len_nonneg (labels ls)). pose proof (len_nonneg m).
  right. exists (wire ls), t2, ls, (len (labels ls) + 0). split; [unfold wire; by rewrite <- !app_assoc|].
  split; [rewrite !len_app in *; lia|].
  split; [apply Forall_app; split; [by apply labels_bytes|by repeat constructor]|].
  assert (rd (m ++ wire ls) (len m + len (labels ls)) = Some 0) as E
    by (unfold wire; rewrite app_assoc; apply rd_at; by rewrite len_app).
  split; [lia|]. split; [lia|]. split; [done|]. split; [|split; [|split; [rewrite len_app; lia|done]]].
  - replace (len m + _) with (len m + len (labels ls) + 1) by lia. apply spans_labels; [done|]. by apply spans_root.
  - rewrite <- (app_nil_r ls) at 2. apply name_at_labels; [done|]. by apply name_root.
Qed.

Lemma pack_step_ok n s : pack_inv n s ->
  match pack_step src (len m) dstsiz dnptrs lastdnptr s with
  | inl s' => exists n', 0 <= n' < n /\ pack_inv n' s'
  | inr (Some r) => packed r
  | inr None => False
  end.
Proof.
  intros [cs ls' t' names first E L R S Hn]. unfold pack_step. cbv beta iota zeta.
  pose proof (src_at cs ls' E) as W. pose proof (len_wire ls) as Lw. pose proof (pack_fail cs ls' t' E L) as Fail.
  destruct ls' as [|l ls'].
  - rewrite (wire_at_nil _ _ W). rewrite app_nil_r in E. subst cs. rewrite Z.eqb_refl, Z.add_0_l.
    change (0 <=? -1) with false. change (64 <=? 0) with false. cbv beta iota.
    destruct (Z.ltb_spec (len m + dstsiz - (len m + len (labels ls))) 1) as [R1|R1]; [apply Fail; lia|].
    rewrite (wire_at_root _ _ W).
    destruct (pack_end t' names L) as (mem & -> & P); [lia|by apply (names_extended ls _ first)|].
    destruct (Z.ltb_spec (len m + dstsiz) (len m + len (labels ls) + 1)); [lia|done].
  - assert (Forall label_ok (l :: ls')) as F by (rewrite E in ls_ok; by apply Forall_app in ls_ok as [_ ?]).
    destruct (wire_at_cons _ _ _ _ W) as (-> & _ & -> & _). inversion F as [|? ? [B _] _]; subst.
    pose proof (label_end cs l ls') as Le. rewrite <- E in Le. rewrite len_wire in Le. pose proof (len_wire ls') as Lw'.
    pose proof (len_nonneg (labels ls')). pose proof (names_extended _ _ _ S) as X.
    rewrite !(proj2 (Z.eqb_neq (len l) 0)), !(proj2 (Z.leb_gt 64 (len l))) by lia.
    assert (exists r, match dnptrs with None => Some (-1) | Some ps => dn_find src (len (labels cs)) (m ++ labels cs ++ t') ps end = Some r
      /\ (r = -1 \/ found m (l :: ls') r)) as (r & -> & Fr).
    { destruct dnptrs as [ps|] eqn:Ed; [by apply dn_find_ok, names_ok|by exists (-1); split; [|left]]. }
    destruct (Z.leb_spec 0 r) as [Pr|Pr].
    { destruct Fr as [->|Fr]; [done|].
      destruct (Z.leb_spec (len m + dstsiz - (len m + len (labels cs))) 1) as [R1|R1]; [apply Fail; lia|].
      destruct (pack_pointer cs l ls' t' names r E L) as (mem & -> & P); [lia|done..]. }
    rewrite (save_step _ _ _ S). destruct (save lastdnptr (len m) true dnptrs) as [names' first'] eqn:Sv.
    destruct (Z.ltb_spec (len m + dstsiz - (len m + len (labels cs))) (len l + 1)) as [R1|R1]; [apply Fail; lia|].
    destruct (pack_label n cs l ls' t' names' first' E L) as (mem & -> & P); [lia|done..].
Qed.

Lemma length_labels cs : Z.of_nat (length cs) <= len (labels cs).
Proof. induction cs as [|l cs IH]; [done|]. cbn [length labels]. rewrite len_cons, len_app. pose proof (len_nonneg l). lia. Qed.

Lemma pack_correct : 0 <= dstsiz ->
  exists res, ns_name_pack src (len m) dstsiz dnptrs lastdnptr (m ++ t) = Some res /\
  if len (wire ls) <=? NS_MAXCDNAME then packed res else res = (-1, (dnptrs, m ++ t)).
Proof.
  intros P. unfold ns_name_pack. rewrite (legal_ok _ ls); [|apply (src_at []); done|done].
  destruct (len (wire ls) <=? NS_MAXCDNAME) eqn:Le; [|by eexists]. unfold NS_MAXCDNAME in Le.
  apply run_spec with (n := 256) (Inv := pack_inv); [apply pack_step_ok| |done].
  pose proof (length_labels ls). pose proof (len_wire ls). rewrite <- (Z.add_0_r (len m)) at 1.
  apply (copying 256 [] ls t); [done|done|done|done|]. lia.
Qed.
End Pack.
