(* ===== verification/DomainTheorems.v ===== *)
(** * The domain name functions: theorems

    What [ns_name_unpack], [ns_name_pton], [ns_name_pack] and their
    compositions promise, on every message and every text. *)

From S2P Require Import Prelude CLoop CMonad CInt Buffer DomainName DomainWire DomainText DomainPack.
Open Scope c_scope.

(** ** Lemmas *)

Lemma name_at_ok msg p ls k : Forall byte msg -> name_at msg p ls k -> Forall label_ok ls.
Proof.
  intros F. induction 1 as [p E|p n l ls k E B El N IH|]; [constructor| |done]. constructor; [|done].
  split; [apply slice_len in El; lia|by apply (slice_byte msg (p + 1) n)].
Qed.

Lemma fold_case_len ls ls' : fold_case ls = fold_case ls' -> len (labels ls) = len (labels ls').
Proof.
  revert ls'. induction ls as [|l ls IH]; intros [|l' ls'] E; try done. injection E as El E.
  apply (f_equal length) in El. rewrite !length_map in El. cbn. rewrite !len_cons, !len_app, (IH ls') by done.
  unfold len. lia.
Qed.

(** Unpacking a name that is there, within the limits. *)
Lemma unpack_there msg src dst ls k q : Forall byte msg -> len dst + len msg < 2 ^ 31 ->
  name_at msg src ls k -> k < len msg -> spans msg src q -> len (wire ls) <= len dst ->
  exists rest, ns_name_unpack msg src (len dst) dst = Some (q - src, wire ls ++ rest).
Proof.
  intros F B N K S R. assert (0 < len dst) as P by (rewrite len_wire in R; pose proof (len_nonneg (labels ls)); lia).
  destruct (unpack_correct msg F src (len dst) dst P eq_refl B) as ([r d] & -> & L & [(Pr & ls' & k' & rest & N' & S' & ->)|[-> No]]).
  - destruct (name_at_det msg _ _ _ _ _ N N') as [-> ->]. rewrite (spans_det msg _ _ _ S S'). exists rest. do 2 f_equal. lia.
  - destruct (No ls k N); lia.
Qed.

Lemma label_text_len l : len (label_text l) <= 4 * len l.
Proof.
  induction l as [|c l IH]; [done|]. cbn [label_text mbind list_bind]. fold (label_text l). rewrite len_app, len_cons.
  assert (len (escape c) <= 4) by (unfold escape; by destruct (special c), (printable c)). unfold label_text in *. lia.
Qed.

(** A printed name has less than four characters for each of its bytes. *)
Lemma text_len ls : len (text ls) < 4 * len (wire ls).
Proof.
  assert (forall ls, len (tail_text ls) <= 4 * len (labels ls)) as Tail.
  { induction ls0 as [|l ls0 IH]; [done|]. cbn [tail_text mbind list_bind labels app]. fold (tail_text ls0).
    rewrite !len_cons, !len_app. pose proof (label_text_len l). unfold tail_text in *. lia. }
  destruct ls as [|l ls]; [done|]. cbn [text]. rewrite len_wire. cbn [labels]. rewrite len_cons, !len_app.
  pose proof (label_text_len l). specialize (Tail ls). lia.
Qed.

(** The same from a message to text. *)
Lemma uncompress_there tmp msg src dst ls k q : Forall byte msg -> len tmp = 255 -> 255 + len msg < 2 ^ 31 ->
  name_at msg src ls k -> k < len msg -> spans msg src q -> len (wire ls) <= 255 -> len (text ls) < len dst ->
  exists rest, ns_name_uncompress tmp msg src (len dst) dst = Some (q - src, text ls ++ 0 :: rest).
Proof.
  intros F T B N K S R D. unfold ns_name_uncompress, NS_MAXCDNAME.
  destruct (unpack_there msg src tmp ls k q) as [rest E]; [done|lia|done..|lia|]. rewrite T in E. rewrite E.
  pose proof (spans_lt msg _ _ S). rewrite (proj2 (Z.ltb_ge _ _)) by lia.
  destruct (ntop_correct ls rest dst (name_at_ok _ _ _ _ F N)) as (r & d & -> & L & [(_ & -> & [rest' ->])|[? _]]); [|lia].
  pose proof (text_len ls). pose proof (len_nonneg (text ls)). rewrite sint_small by (lia || fits_lia).
  rewrite (proj2 (Z.ltb_ge _ _)) by lia. by exists rest'.
Qed.

Lemma readable_app m w p : readable m p -> readable (m ++ w) p.
Proof.
  intros (ls & k & N & K). exists ls, k. split; [by apply name_at_app|]. rewrite len_app. pose proof (len_nonneg w). lia.
Qed.

(** ** Theorems *)


(** "www.gnu.org" with a pointer to "org", and a message of one pointer to itself. *)
Definition example_msg : list Z := [3; 111; 114; 103; 0; 3; 119; 119; 119; 3; 103; 110; 117; 192; 0].


(** C30: [ns_name_pton] accepts exactly the texts of the reference parser whose
    labels have at most 63 characters and whose name has at most 255 bytes and
    fits the buffer; it stores the name and tells whether the text ends in a
    dot.  The check of the label length tests two bits of a length of any size:
    what it lets pass is refused for the length of the name. *)
Theorem ns_name_pton_correct s dst : exists r dst', ns_name_pton s (len dst) dst = Some (r, dst') /\ len dst' = len dst /\
  match parse s with
  | Some (ls, abs) =>
    (name_ok ls /\ len (wire ls) <= len dst /\ r = Z.b2z abs /\ exists rest, dst' = wire ls ++ rest) \/
    (~ (name_ok ls /\ len (wire ls) <= len dst) /\ r = -1)
  | None => r = -1
  end.
Proof. apply pton_correct. Qed.

(** [ns_name_pton] undoes [ns_name_ntop]: the text of a name is a string of
    ASCII characters that parses to the same bytes, fully qualified only for
    the root. *)
Theorem ntop_pton_roundtrip ls more d1 d2 : name_ok ls -> len (text ls) < len d1 -> len (wire ls) <= len d2 ->
  (exists rest, ns_name_ntop (wire ls ++ more) (len d1) d1 = Some (len (text ls) + 1, text ls ++ 0 :: rest)) /\
  Forall (fun c => 0 < c < 128) (text ls) /\
  exists rest, ns_name_pton (text ls) (len d2) d2 = Some (match ls with [] => 1 | _ => 0 end, wire ls ++ rest).
Proof.
  intros [F N] L1 L2. split; [|split; [by apply text_ascii|]].
  - destruct (ntop_correct ls more d1 F) as (r & d & -> & _ & [(_ & -> & [rest ->])|[? _]]); [|lia].
    exists rest. pose proof (text_len ls). pose proof (len_nonneg (text ls)). unfold NS_MAXCDNAME in N.
    by rewrite sint_small by (lia || fits_lia).
  - destruct (pton_correct (text ls) d2) as (r & d & -> & _ & H). rewrite parse_text in H by done.
    destruct H as [(_ & _ & -> & rest & ->)|[No _]]; [exists rest; by destruct ls|by destruct No].
Qed.

Lemma ntop_pton_roundtrip_witness :
  (exists rest, ns_name_ntop (wire [[97; 46; 0]; [99]] ++ []) (len (replicate 20 7)) (replicate 20 7) =
     Some (10, [97; 92; 46; 92; 48; 48; 48; 46; 99] ++ 0 :: rest)) /\
  exists rest, ns_name_pton [97; 92; 46; 92; 48; 48; 48; 46; 99] (len (replicate 20 7)) (replicate 20 7) =
    Some (0, [3; 97; 46; 0; 1; 99; 0] ++ rest).
Proof.
  destruct (ntop_pton_roundtrip [[97; 46; 0]; [99]] [] (replicate 20 7) (replicate 20 7)) as (H1 & _ & H2); [|done..|by split].
  split; [repeat constructor; unfold byte, len; simpl; lia|done].
Defined.

(** C5: [ns_name_pack] keeps a message and its list of names well formed.  [m]
    is the message so far, a name can be read at each position of the list;
    behind it are [dstsiz] bytes of room.  A name of more than 255 bytes is
    refused.  Otherwise the call fails only if the uncompressed name does not
    fit, and then leaves message and list as they were; or it appends at most
    as many bytes as the uncompressed name has, which read as the name up to
    case, and every name of the new list can be read. *)
Theorem ns_name_pack_correct m t more ls dstsiz ps lastdnptr : Forall byte m -> len m < 2 ^ 63 ->
  Forall label_ok ls -> 0 <= dstsiz <= len t -> Forall (readable m) ps ->
  exists r names mem, ns_name_pack (wire ls ++ more) (len m) dstsiz (Some ps) lastdnptr (m ++ t) = Some (r, (Some names, mem)) /\
  ((r = -1 /\ names = ps /\ Z.min dstsiz NS_MAXCDNAME < len (wire ls) /\ exists t', mem = m ++ t' /\ len t' = len t) \/
   (exists w t' ls' k, mem = m ++ w ++ t' /\ len (w ++ t') = len t /\ r = len w /\
      0 < r <= Z.min dstsiz (len (wire ls)) /\ Forall byte (m ++ w) /\ (names = ps \/ names = ps ++ [len m]) /\
      Forall (readable (m ++ w)) names /\ spans (m ++ w) (len m) (len m + r) /\
      name_at (m ++ w) (len m) ls' k /\ k < len (m ++ w) /\ fold_case ls' = fold_case ls)).
Proof.
  intros Bm Lm F R Rd.
  destruct (pack_correct m t more ls dstsiz (Some ps) lastdnptr) as ([r [names mem]] & E & P); [done..|lia| |lia|].
  { by intros ? [= <-]. }
  destruct (Z.leb_spec (len (wire ls)) NS_MAXCDNAME) as [L|L].
  2:{ injection P as -> -> ->. exists (-1), ps, (m ++ t). split; [done|]. left. repeat (split; [done || lia|]). by exists t. }
  destruct P as [(-> & -> & S & M)|(w & t' & ls' & k & -> & Lt & Bw & -> & Br & X & Sp & N & K & Fo)].
  { exists (-1), ps, mem. split; [done|]. left. repeat (split; [done || lia|]). done. }
  assert (exists ns, names = Some ns /\ (ns = ps \/ ns = ps ++ [len m])) as (ns & -> & Hn)
    by (destruct X as [->|(? & [= <-] & ->)]; eauto).
  eexists _, ns, _. split; [done|]. right. exists w, t', ls', k. repeat (split; [done|]).
  split; [by apply Forall_app|]. split; [done|]. split; [|done].
  assert (Forall (readable (m ++ w)) ps) as Rd' by (eapply list.Forall_impl; [exact Rd|]; intros p; apply readable_app).
  destruct Hn as [->| ->]; [done|]. apply Forall_app. split; [done|]. repeat constructor. by exists ls', k.
Qed.

Lemma ns_name_pack_correct_witness : exists r names mem,
  ns_name_pack (wire [[71; 78; 85]; [79; 82; 71]] ++ []) (len example_msg) 20 (Some [0; 5]) (Some 5)
    (example_msg ++ replicate 20 0) = Some (r, (Some names, mem)) /\
  r = 2 /\ names = [0; 5] /\ take 17 mem = example_msg ++ [192; 9].
Proof.
  destruct (ns_name_pack_correct example_msg (replicate 20 0) [] [[71; 78; 85]; [79; 82; 71]] 20 [0; 5] (Some 5))
    as (r & names & mem & E & _); [repeat constructor; unfold byte; lia|done| |done| |].
  - repeat constructor; unfold byte, len; simpl; lia.
  - assert (name_at example_msg 0 [[111; 114; 103]] 4) as N
      by (apply (name_label _ _ 3 _ _ 0); [done|lia|done|by apply name_root]).
    constructor; [exists [[111; 114; 103]], 4; split; [done|done]|].
    constructor; [|constructor]. exists [[119; 119; 119]; [103; 110; 117]; [111; 114; 103]], 14. split; [|done].
    apply (name_label _ _ 3 _ _ 10); [done|lia|done|]. apply (name_label _ _ 3 _ _ 6); [done|lia|done|].
    by apply (name_pointer _ _ 192 0 _ 4).
  - exists r, names, mem. split; [done|]. vm_compute in E. injection E as <- <- <-. done.
Defined.

(** C36: [ns_name_uncompress] undoes [ns_name_compress] up to case: a text that
    parses, added to a well-formed message with room for it, is printed from
    that message as the text of the same name, and both calls count the same
    bytes.  Message and room together have less than [2^31] bytes, which keeps
    the size an [int]; [compress_truncates] is about larger sizes.  [tmp1] and
    [tmp2] are what the arrays on the stack hold. *)
Theorem compress_uncompress_roundtrip tmp1 tmp2 m t s ls abs dstsiz ps lastdnptr dst : Forall byte m ->
  255 + len m + len t < 2 ^ 31 -> len tmp1 = 255 -> len tmp2 = 255 -> Forall (readable m) ps ->
  parse s = Some (ls, abs) -> name_ok ls -> len (wire ls) <= dstsiz <= len t -> 4 * len (wire ls) <= len dst ->
  exists r names w t' ls' rest,
    ns_name_compress tmp1 s (len m) dstsiz (Some ps) lastdnptr (m ++ t) = Some (r, (names, m ++ w ++ t')) /\
    ns_name_uncompress tmp2 (m ++ w) (len m) (len dst) dst = Some (r, text ls' ++ 0 :: rest) /\
    fold_case ls' = fold_case ls.
Proof.
  intros Bm Lm T1 T2 Rd Ep Ok R D. pose proof Ok as [F Lw]. unfold NS_MAXCDNAME in Lw.
  destruct (pton_correct s tmp1) as (r1 & d1 & E1 & _ & H1). rewrite Ep in H1.
  destruct H1 as [(_ & _ & -> & more & ->)|[No _]]; [|destruct No; split; [done|lia]].
  pose proof (len_wire ls) as Lw'. pose proof (len_nonneg (labels ls)). pose proof (len_nonneg t). pose proof (len_nonneg m).
  destruct (pack_correct m t more ls dstsiz (Some ps) lastdnptr) as ([r [names mem]] & E & P); [done|lia|done|lia| |lia|].
  { by intros ? [= <-]. }
  unfold NS_MAXCDNAME in P. rewrite (proj2 (Z.leb_le _ _)) in P by lia.
  destruct P as [(_ & _ & ? & _)|(w & t' & ls' & k & -> & Lt & Bw & -> & Br & _ & Sp & N & K & Fo)]; [lia|].
  pose proof (fold_case_len _ _ Fo) as Lf. pose proof (len_wire ls'). pose proof (text_len ls').
  rewrite len_app in Lt. pose proof (len_nonneg t').
  destruct (uncompress_there tmp2 (m ++ w) (len m) dst ls' k (len m + len w)) as [rest E2];
    [by apply Forall_app|done|rewrite len_app; lia|done|done|done|lia|lia|].
  exists (len w), names, w, t', ls', rest. split; [|split; [|done]].
  - unfold ns_name_compress, NS_MAXCDNAME. rewrite <- T1, E1, (sint_small 32) by (lia || fits_lia). by rewrite (proj2 (Z.ltb_ge _ _)) by (destruct abs; simpl; lia).
  - rewrite E2. do 2 f_equal. lia.
Qed.

Lemma compress_uncompress_roundtrip_witness : exists r names w t' ls' rest,
  ns_name_compress (replicate 255 0) [119; 46; 71; 78; 85; 46; 111; 114; 103] (len example_msg) 20 (Some [0]) (Some 5)
    (example_msg ++ replicate 20 0) = Some (r, (names, example_msg ++ w ++ t')) /\
  ns_name_uncompress (replicate 255 0) (example_msg ++ w) (len example_msg) (len (replicate 60 0)) (replicate 60 0) =
    Some (r, text ls' ++ 0 :: rest) /\
  fold_case ls' = [[87]; [71; 78; 85]; [79; 82; 71]].
Proof.
  apply (compress_uncompress_roundtrip (replicate 255 0) (replicate 255 0) example_msg (replicate 20 0)
    [119; 46; 71; 78; 85; 46; 111; 114; 103] [[119]; [71; 78; 85]; [111; 114; 103]] false 20 [0] (Some 5) (replicate 60 0));
    [repeat constructor; unfold byte; lia|done|done|done| |done| |done|done].
  - constructor; [|constructor]. exists [[111; 114; 103]], 4. split; [|done].
    apply (name_label _ _ 3 _ _ 0); [done|lia|done|by apply name_root].
  - split; [repeat constructor; unfold byte, len; simpl; lia|done].
Defined.

(** [ns_samebinaryname] compares two names label by label without regard to
    the case of ASCII letters. *)
Theorem ns_samebinaryname_correct a b x y : Forall label_ok a -> Forall label_ok b ->
  ns_samebinaryname (wire a ++ x) (wire b ++ y) = Some (bool_decide (fold_case a = fold_case b)).
Proof. apply samebinaryname_correct. Qed.

Lemma ns_samebinaryname_correct_witness :
  ns_samebinaryname (wire [[103; 78; 85]] ++ []) (wire [[71; 110; 117]] ++ [1]) = Some true /\
  ns_samebinaryname (wire [[103; 78; 85]] ++ []) (wire [[71; 110]] ++ []) = Some false.
Proof.
  split; (rewrite ns_samebinaryname_correct; [done|repeat constructor; unfold byte, len; simpl; lia..]).
Defined.

(** [ns_name_skip] and [ns_name_unpack] agree on where a name ends. *)
Theorem unpack_skip_agree msg src dst r dst' : Forall byte msg -> 0 < len dst -> len dst + len msg < 2 ^ 31 ->
  ns_name_unpack msg src (len dst) dst = Some (r, dst') -> 0 <= r -> ns_name_skip msg src = Some (0, src + r).
Proof.
  intros F P B E Pr. destruct (unpack_correct msg F src (len dst) dst P eq_refl B) as ([r0 d0] & E' & _ & H0);
    rewrite E in E'; injection E' as <- <-. destruct H0 as [(_ & H)|[-> _]]; [|lia]. destruct H as (ls & k & rest & N & S & _).
  pose proof (spans_in msg _ _ S). pose proof (len_nonneg dst).
  destruct (skip_correct msg F src) as (res & -> & [(q & -> & S')|[_ No]]); [lia|lia| |by destruct (No _ S)].
  by rewrite (spans_det msg _ _ _ S S').
Qed.

(** [ns_name_length_uncompressed] is the length of a name without pointers of
    at most 255 bytes, and -1 if there is none. *)
Theorem ns_name_length_uncompressed_correct msg start : Forall byte msg -> 0 <= start <= len msg -> len msg < 2 ^ 63 ->
  exists r, ns_name_length_uncompressed msg start = Some r /\
  ((exists ls rest, Forall label_ok ls /\ drop (Z.to_nat start) msg = wire ls ++ rest /\ r = len (wire ls) /\ r <= NS_MAXCDNAME) \/
   (r = -1 /\ forall ls rest, Forall label_ok ls -> drop (Z.to_nat start) msg = wire ls ++ rest -> NS_MAXCDNAME < len (wire ls))).
Proof.
  intros F B L. destruct (length_correct msg F start B L) as (r & E & H); exists r; (split; [done|]).
  destruct H as [(ls & [Fl [rest D]] & Er & Lr)|[-> H]].
  - left. by exists ls, rest.
  - right. split; [done|]. intros ls rest Fl D. apply H. split; [done|by exists rest].
Qed.

(** The counter of the bytes that were looked at is an [int]: on a pointer to
    itself in a message of [2^31] bytes or more it overflows before it reaches
    the length of the message. *)
Theorem unpack_overflows msg dst : rd msg 0 = Some 192 -> rd msg 1 = Some 0 -> 2 ^ 31 <= len msg ->
  ns_name_unpack msg 0 (len dst) dst = None.
Proof.
  intros E0 E1 L. unfold ns_name_unpack. rewrite (proj2 (Z.leb_gt _ _)) by lia. cbn [Z.ltb Z.compare orb].
  assert (exists r, while 64 (unpack_step msg 0 (len dst)) (mkUnpacking 0 0 (-1) 0 dst) = inr r /\ r = None) as (r & E & ->);
    [|unfold run; by rewrite E].
  apply (while_spec _ (fun n u => u_srcp u = 0 /\ 0 <= u_checked u < 2 ^ 31 /\ 2 ^ 31 - u_checked u <= n)) with (n := 2 ^ 31); [|done..].
  intros n [srcp dstp ln checked d] (Es & Bc & Bn). cbn in Es, Bc, Bn. subst srcp.
  unfold unpack_step. rewrite E0. cbv zeta. change (192 =? 0) with false.
  change (Z.land 192 NS_CMPRSFLGS =? 0) with false. change (Z.land 192 NS_CMPRSFLGS =? NS_CMPRSFLGS) with true. cbn iota.
  change (0 + 1) with 1. rewrite (proj2 (Z.leb_gt (len msg) 1)), E1 by lia.
  change (Z.lor _ 0) with 0. rewrite (proj2 (Z.leb_gt (len msg) 0)) by lia.
  destruct (chk 32 (checked + 2)) as [c|] eqn:C; [|done].
  apply chk_Some in C as [-> F]. rewrite fits32 in F. rewrite (proj2 (Z.leb_gt _ _)) by lia.
  exists (n - 2). cbn. split_and!; lia.
Qed.

(** The size of the room is a [size_t] in [ns_name_compress] and an [int] in
    [ns_name_pack]: told that there are [2^32] bytes, it finds none and refuses
    every name. *)
Theorem compress_truncates tmp m t s ps lastdnptr : Forall byte m -> len m < 2 ^ 63 -> Forall (readable m) ps -> len tmp = 255 ->
  exists names t', ns_name_compress tmp s (len m) (2 ^ 32) (Some ps) lastdnptr (m ++ t) = Some (-1, (names, m ++ t')).
Proof.
  intros Bm Lm Rd T. unfold ns_name_compress, NS_MAXCDNAME. rewrite <- T.
  destruct (pton_correct s tmp) as (r & d & -> & _ & H). destruct (Z.ltb_spec r 0) as [|Pr]; [by eexists _, _|].
  destruct (parse s) as [[ls abs]|]; [|lia]. destruct H as [([F Lw] & _ & -> & more & ->)|[_ ?]]; [|lia].
  change (sint 32 (2 ^ 32)) with 0. pose proof (len_nonneg t). pose proof (len_wire ls). pose proof (len_nonneg (labels ls)).
  destruct (pack_correct m t more ls 0 (Some ps) lastdnptr) as ([r [names mem]] & -> & P); [done|lia|done|lia| |lia|].
  { by intros ? [= <-]. }
  rewrite (proj2 (Z.leb_le _ _)) in P by done.
  destruct P as [(-> & _ & _ & t' & -> & _)|(w & t' & ls' & k & _ & _ & _ & _ & Br & _)]; [by exists names, t'|lia].
Qed.

(** With no room at all the root name is written past the end of the buffer. *)
Theorem unpack_no_room : ns_name_unpack [0] 0 0 [] = None.
Proof. vm_compute. reflexivity. Qed.

(** A name without a loop that the loop check refuses: it holds a pointer into
    itself, so that reading it visits as many bytes as the message has. *)
Theorem unpack_refuses_overlap : name_at [2; 0; 120; 192; 1] 0 [[0; 120]] 5 /\
  ns_name_unpack [2; 0; 120; 192; 1] 0 (len (replicate 20 0)) (replicate 20 0) = Some (-1, [2; 0; 120] ++ replicate 17 0).
Proof.
  split; [|vm_compute; reflexivity].
  apply (name_label _ _ 2 _ _ 2); [done|lia|done|]. apply (name_pointer _ _ 192 1 _ 0); [done|lia|done|by apply name_root].
Qed.
