(* ===== verification/Numerals.v ===== *)
(** * Numerals

    The digits of a number in a base, as [printf] writes them. *)

From S2P Require Import Prelude.

Fixpoint to_digits_fuel (fuel : nat) (b n : Z) : list Z :=
  match fuel with
  | O => [n]
  | S fuel => if n <? b then [n] else to_digits_fuel fuel b (n / b) ++ [n mod b]
  end.

(** The digits of [n], the highest first; [n] has at most [log2 n + 1]. *)
Definition to_digits (b n : Z) : list Z := to_digits_fuel (Z.to_nat (Z.log2 n)) b n.

Definition digit_char (d : Z) : Z := if d <? 10 then 48 + d else 87 + d.

(** ["%u"] and ["%x"]. *)
Definition decimal (n : Z) : list Z := digit_char <$> to_digits 10 n.
Definition hexadecimal (n : Z) : list Z := digit_char <$> to_digits 16 n.

Definition number (base : Z) (v : Z) (ds : list Z) : Z := fold_left (fun v d => v * base + d) ds v.

Lemma number_app base v a b : number base v (a ++ b) = number base (number base v a) b.
Proof. apply fold_left_app. Qed.

Section Digits.
Variable b : Z.
Hypothesis base_ok : 2 <= b.

(** All the digits are digits, their value is [n], and only [0] begins with a zero. *)
Record numeral_of (n : Z) (ds : list Z) : Prop := {
  nu_digits : Forall (fun d => 0 <= d < b) ds;
  nu_value : number b 0 ds = n;
  nu_first : exists d ds', ds = d :: ds' /\ (d = 0 -> ds' = []) }.

Lemma to_digits_fuel_ok fuel n : 0 <= n < 2 * 2 ^ Z.of_nat fuel -> numeral_of n (to_digits_fuel fuel b n).
Proof.
  revert n. induction fuel as [|fuel IH]; intros n B; cbn [to_digits_fuel].
  { change (2 * 2 ^ Z.of_nat 0) with 2 in B. constructor; [repeat constructor; lia|cbn; lia|]. exists n, []. done. }
  destruct (Z.ltb_spec n b) as [L|L].
  { constructor; [repeat constructor; lia|cbn; lia|]. exists n, []. done. }
  pose proof (Z.div_mod n b ltac:(lia)) as D. pose proof (Z.mod_pos_bound n b ltac:(lia)) as M.
  assert (0 < n / b) as P by (apply Z.div_str_pos; lia).
  destruct (IH (n / b)) as [F V (d & ds & E & H)].
  { rewrite Nat2Z.inj_succ, Z.pow_succ_r in B by lia. split; [lia|]. apply Z.div_lt_upper_bound; nia. }
  constructor.
  - apply Forall_app. split; [done|]. repeat constructor; lia.
  - rewrite number_app, V. cbn. lia.
  - exists d, (ds ++ [n mod b]). rewrite E. split; [done|]. intros ->. exfalso. rewrite (H eq_refl) in E. rewrite E in V. cbn in V. lia.
Qed.

Lemma to_digits_ok n : 0 <= n -> numeral_of n (to_digits b n).
Proof.
  intros P. apply to_digits_fuel_ok. rewrite Z2Nat.id by apply Z.log2_nonneg.
  destruct (Z.eq_dec n 0) as [->|N]; [done|]. pose proof (Z.log2_spec n ltac:(lia)) as [_ L].
  rewrite Z.pow_succ_r in L by apply Z.log2_nonneg. lia.
Qed.

Lemma number_ge v ds : 0 <= v -> Forall (fun d => 0 <= d < b) ds -> v * b ^ Z.of_nat (length ds) <= number b v ds.
Proof.
  intros P F. revert v P. induction F as [|d ds B F IH]; intros v P; cbn [length].
  { cbn. lia. }
  rewrite Nat2Z.inj_succ, Z.pow_succ_r by lia. change (number b v (d :: ds)) with (number b (v * b + d) ds).
  specialize (IH (v * b + d) ltac:(nia)). assert (0 < b ^ Z.of_nat (length ds)) by (apply Z.pow_pos_nonneg; lia). nia.
Qed.

(** A number below [b^k] has at most [k] digits. *)
Lemma to_digits_length n k : 0 <= n < b ^ Z.of_nat k -> (0 < k)%nat -> (length (to_digits b n) <= k)%nat.
Proof.
  intros B P. destruct (to_digits_ok n ltac:(lia)) as [F V (d & ds & E & H)]. rewrite E in *. cbn [length].
  inversion F as [|? ? Bd F']; subst. destruct (Z.eq_dec d 0) as [->|N]; [rewrite (H eq_refl); simpl; lia|].
  pose proof (number_ge d ds ltac:(lia) F') as G. change (number b 0 (d :: ds)) with (number b (0 * b + d) ds) in B. rewrite Z.mul_0_l, Z.add_0_l in B.
  assert (b ^ Z.of_nat (length ds) < b ^ Z.of_nat k) as L by (assert (0 < b ^ Z.of_nat (length ds)) by (apply Z.pow_pos_nonneg; lia); nia).
  apply Z.pow_lt_mono_r_iff in L; lia.
Qed.
End Digits.
