(* ===== verification/Strtol.v ===== *)
(** * Integers from text: [stdlib/strtol_l.c], [strtol.c], [atoi.c], [atol.c]

    The file is compiled eight times; the model is that of the four versions
    for [char], as functions of the widths of [long] and of the result and of
    [UNSIGNED].  A string is the list of its characters, as [unsigned char],
    before the terminating zero, and a pointer into it the suffix that begins
    there.  The locale is the set of its white space characters, which does not
    contain the zero character.  Digit grouping ([group]) is off, as in all the
    public functions. *)

From S2P Require Import Prelude CInt.

(** [isalpha] and [toupper] of the C locale. *)
Definition isalpha (c : Z) : bool := ((65 <=? c) && (c <=? 90)) || ((97 <=? c) && (c <=? 122)).
Definition toupper (c : Z) : Z := if (97 <=? c) && (c <=? 122) then c - 32 else c.

Inductive error := EINVAL | ERANGE.

(** What a call returns, the offset it stores in [*endptr], if any, and the
    error number it sets, if any. *)
Record strtol_result := mkResult { value : Z; endptr : option Z; errno : option error }.

(** [ULONG_MAX / X] and [ULONG_MAX % X] for the bases. *)
Definition max_tab (w : Z) : list Z := map (fun X => (2 ^ w - 1) / X) (seqZ 2 35).
Definition rem_tab (w : Z) : list Z := map (fun X => (2 ^ w - 1) mod X) (seqZ 2 35).

(** The value of a character as a digit of some base. *)
Definition digit_of (c : Z) : option Z :=
  if (48 <=? c) && (c <=? 57) then Some (c - 48)
  else if isalpha c then Some (toupper c - 65 + 10) else None.

(** The character a pointer points to. *)
Definition cur (s : list Z) : Z := match s with [] => 0 | c :: _ => c end.

Fixpoint skip_space (isspace : Z -> bool) (s : list Z) : list Z :=
  match s with
  | c :: s' => if isspace c then skip_space isspace s' else s
  | [] => s
  end.

Definition sign (s : list Z) : bool * list Z :=
  if cur s =? 45 then (true, tail s) else if cur s =? 43 then (false, tail s) else (false, s).

(** The prefix of the number: where its digits begin, and the base. *)
Definition prefix (bin_cst : bool) (base : Z) (s : list Z) : list Z * Z :=
  if cur s =? 48 then
    if ((base =? 0) || (base =? 16)) && (toupper (cur (tail s)) =? 88) then (tail (tail s), 16)
    else if bin_cst && ((base =? 0) || (base =? 2)) && (toupper (cur (tail s)) =? 66) then (tail (tail s), 2)
    else if base =? 0 then (s, 8) else (s, base)
  else if base =? 0 then (s, 10) else (s, base).

Section Loops.
Variables (w wl base : Z).

(** The loop in the width of the result: the rest of the string, the value and
    the overflow flag. *)
Fixpoint long_loop (cutoff cutlim : Z) (s : list Z) (i : Z) (overflow : bool) : list Z * Z * bool :=
  match s with
  | [] => (s, i, overflow)
  | c :: s' =>
    match digit_of c with
    | None => (s, i, overflow)
    | Some d =>
      if base <=? d then (s, i, overflow)
      else if (cutoff <? i) || ((i =? cutoff) && (cutlim <? d)) then long_loop cutoff cutlim s' i true
      else long_loop cutoff cutlim s' (wrap w (wrap w (i * base) + d)) overflow
    end
  end.

(** The loop in the width of [long], which goes on in the other one. *)
Fixpoint short_loop (jmax cutoff cutlim : Z) (s : list Z) (j : Z) : list Z * Z * bool :=
  match s with
  | [] => (s, j, false)
  | c :: s' =>
    match digit_of c with
    | None => (s, j, false)
    | Some d =>
      if base <=? d then (s, j, false)
      else if jmax <=? j then long_loop cutoff cutlim s' (wrap w (wrap w (j * base) + d)) false
      else short_loop jmax cutoff cutlim s' (wrap wl (wrap wl (j * base) + d))
    end
  end.

Definition strtol_digits (s : list Z) : option (list Z * Z * bool) :=
  cutoff ← max_tab w !! Z.to_nat (base - 2);
  cutlim ← rem_tab w !! Z.to_nat (base - 2);
  if wl =? w then Some (long_loop cutoff cutlim s 0 false)
  else jmax ← max_tab wl !! Z.to_nat (base - 2); Some (short_loop jmax cutoff cutlim s 0).
End Loops.

Section Strtol.
(** [w] and [wl] are the widths of the result and of [long]. *)
Variables (isspace : Z -> bool) (w wl : Z) (UNSIGNED : bool).

Definition LONG_MAX : Z := 2 ^ (w - 1) - 1.
Definition LONG_MIN : Z := - 2 ^ (w - 1).
Definition ULONG_MAX : Z := 2 ^ w - 1.

(** How far [s] is behind the start. *)
Definition offset (nptr s : list Z) : Z := Z.of_nat (length nptr) - Z.of_nat (length s).

Definition noconv (nptr save : list Z) (bin_cst : bool) : strtol_result :=
  let back k := default 0 (nptr !! Z.to_nat (offset nptr save - k)) in
  mkResult 0 (Some (if (2 <=? offset nptr save)
                       && ((toupper (back 1) =? 88) || (bin_cst && (toupper (back 1) =? 66)))
                       && (back 2 =? 48)
                    then offset nptr save - 1 else 0)) None.

Definition strtol_finish (nptr s : list Z) (negative : bool) (i : Z) (overflow : bool) : strtol_result :=
  let stored := Some (offset nptr s) in
  let overflow := if UNSIGNED then overflow
                  else overflow || ((if negative then wrap w (wrap w (- wrap w (LONG_MIN + 1)) + 1) else LONG_MAX) <? i) in
  if overflow then mkResult (if UNSIGNED then ULONG_MAX else if negative then LONG_MIN else LONG_MAX) stored (Some ERANGE)
  else
    let r := if negative then wrap w (- i) else i in
    mkResult (if UNSIGNED then r else sint w r) stored None.

(** [____strtol_l_internal], [____strtoul_l_internal], ... *)
Definition strtol_l_internal (nptr : list Z) (base : Z) (bin_cst : bool) : option strtol_result :=
  if (base <? 0) || (base =? 1) || (36 <? base) then Some (mkResult 0 None (Some EINVAL))
  else
    let s := skip_space isspace nptr in
    match s with
    | [] => Some (noconv nptr nptr bin_cst)
    | _ =>
      let '(negative, s) := sign s in
      let '(save, base) := prefix bin_cst base s in
      '(s, i, overflow) ← strtol_digits w wl base save;
      if (length s =? length save)%nat then Some (noconv nptr save bin_cst)
      else Some (strtol_finish nptr s negative i overflow)
    end.
End Strtol.

(** The public functions; [wl] is the width of [long]. *)
Definition strtol (isspace : Z -> bool) (wl : Z) (nptr : list Z) (base : Z) : option strtol_result :=
  strtol_l_internal isspace wl wl false nptr base false.
Definition isoc23_strtol (isspace : Z -> bool) (wl : Z) (nptr : list Z) (base : Z) : option strtol_result :=
  strtol_l_internal isspace wl wl false nptr base true.

Definition atol (isspace : Z -> bool) (wl : Z) (nptr : list Z) : option Z := value <$> strtol isspace wl nptr 10.
Definition atoi (isspace : Z -> bool) (wl : Z) (nptr : list Z) : option Z := sint 32 <$> (value <$> strtol isspace wl nptr 10).
