(* ===== verification/StrtolTheorems.v ===== *)
(** * What [strtol] computes

    [reference] is the conversion as the standard describes it, with unbounded
    integers: the longest numeral of the base behind white space, a sign and a
    prefix, which counts only if a digit of its base follows; then the value is
    clamped to the range.  The functions compute it in machine integers, with
    their tables of limits, for every width. *)

From S2P Require Import Prelude CInt Numerals Strtol.

(** The digits of the longest numeral at [s], and what follows. *)
Fixpoint numeral (base : Z) (s : list Z) : list Z * list Z :=
  match s with
  | [] => ([], s)
  | c :: s' =>
    match digit_of c with
    | Some d => if d <? base then let '(ds, r) := numeral base s' in (d :: ds, r) else ([], s)
    | None => ([], s)
    end
  end.

(** A prefix ["0x"] or ["0b"] with a digit of its base behind it. *)
Definition prefixed_by (letter base : Z) (s : list Z) : bool :=
  match s with
  | z :: x :: t => (z =? 48) && (toupper x =? letter) && match numeral base t with ([], _) => false | _ => true end
  | _ => false
  end.

(** The base and the beginning of the digits. *)
Definition subject (bin_cst : bool) (base : Z) (s : list Z) : Z * list Z :=
  if ((base =? 0) || (base =? 16)) && prefixed_by 88 16 s then (16, drop 2 s)
  else if bin_cst && ((base =? 0) || (base =? 2)) && prefixed_by 66 2 s then (2, drop 2 s)
  else (if base =? 0 then if cur s =? 48 then 8 else 10 else base, s).

(** The value of a number in the type of the result. *)
Definition ranged (w : Z) (UNSIGNED negative : bool) (v : Z) : Z * option error :=
  if UNSIGNED then
    if 2 ^ w <=? v then (2 ^ w - 1, Some ERANGE) else ((if negative then - v else v) mod 2 ^ w, None)
  else if negative then
    if 2 ^ (w - 1) <? v then (- 2 ^ (w - 1), Some ERANGE) else (- v, None)
  else if 2 ^ (w - 1) <=? v then (2 ^ (w - 1) - 1, Some ERANGE) else (v, None).

Definition reference (isspace : Z -> bool) (w : Z) (UNSIGNED : bool) (nptr : list Z) (base : Z) (bin_cst : bool) : strtol_result :=
  if (base <? 0) || (base =? 1) || (36 <? base) then mkResult 0 None (Some EINVAL)
  else
    let '(negative, s) := sign (skip_space isspace nptr) in
    let '(base, s) := subject bin_cst base s in
    match numeral base s with
    | ([], _) => mkResult 0 (Some 0) None
    | (ds, rest) =>
      let '(v, e) := ranged w UNSIGNED negative (number base 0 ds) in mkResult v (Some (offset nptr rest)) e
    end.

(** ** The loops *)

Lemma digit_of_nonneg c d : digit_of c = Some d -> 0 <= d.
Proof.
  unfold digit_of, isalpha, toupper. intros E.
  destruct ((48 <=? c) && (c <=? 57)) eqn:D; [injection E as <-; lia|].
  destruct (((65 <=? c) && (c <=? 90)) || ((97 <=? c) && (c <=? 122))) eqn:A; [|done].
  destruct ((97 <=? c) && (c <=? 122)) eqn:L; injection E as <-; lia.
Qed.

Lemma numeral_digits base s : Forall (fun d => 0 <= d < base) (numeral base s).1.
Proof.
  induction s as [|c s IH]; [constructor|]. cbn. destruct (digit_of c) as [d|] eqn:E; [|constructor].
  destruct (Z.ltb_spec d base); [|constructor]. destruct (numeral base s). constructor; [|done].
  apply digit_of_nonneg in E. lia.
Qed.

Section Loops.
Variables (w wl base : Z).
Hypothesis base_range : 2 <= base <= 36.
Hypothesis w_pos : 0 < wl <= w.

Let umax := 2 ^ w - 1.

Lemma limit i d : 0 <= i -> 0 <= d < base ->
  ((umax / base <? i) || ((i =? umax / base) && (umax mod base <? d))) = (umax <? i * base + d).
Proof.
  intros Pi Bd. pose proof (Z.div_mod umax base ltac:(lia)) as D. pose proof (Z.mod_pos_bound umax base ltac:(lia)) as B.
  set (q := umax / base) in *. set (r := umax mod base) in *. clearbody q r.
  apply Bool.eq_true_iff_eq. rewrite orb_true_iff, andb_true_iff, !Z.ltb_lt, Z.eqb_eq.
  destruct (Z.lt_trichotomy i q) as [C|[->|C]]; split; intros; nia.
Qed.

(** The value read so far, or that it is too large. *)
Definition tracks (v i : Z) (overflow : bool) : Prop := 0 <= v /\ if overflow then umax < v else i = v /\ v <= umax.

Lemma long_loop_ok s v i overflow : tracks v i overflow ->
  exists i' overflow', long_loop w base (umax / base) (umax mod base) s i overflow = ((numeral base s).2, i', overflow') /\
  tracks (number base v (numeral base s).1) i' overflow'.
Proof.
  revert v i overflow. induction s as [|c s IH]; intros v i overflow T; cbn; [eauto|].
  destruct (digit_of c) as [d|] eqn:E; [|eauto]. apply digit_of_nonneg in E as Pd.
  rewrite Z.leb_antisym. destruct (Z.ltb_spec d base) as [L|L]; cbn; [|eauto].
  specialize (IH (v * base + d)). destruct (numeral base s) as [ds r]. cbn in *.
  destruct T as [Pv T]. destruct overflow.
  - assert (umax < v * base + d) by nia. destruct (_ || _); apply IH; split; nia || done.
  - destruct T as [-> T]. rewrite limit by lia. destruct (Z.ltb_spec umax (v * base + d)).
    + apply IH. split; [nia|done].
    + assert (0 <= v * base) by nia. unfold umax in *. rewrite (wrap_small w (v * base)), wrap_small by lia.
      apply IH. split; [lia|]. split; [done|lia].
Qed.

Hypothesis widths : wl = w \/ wl + 6 <= w.
Let lmax := 2 ^ wl - 1.

Lemma lmax_room j d : 0 <= j <= lmax -> 0 <= d < base -> 0 <= j * base + d <= umax \/ wl = w.
Proof.
  intros Bj Bd. destruct widths as [->|W]; [by right|left]. unfold umax, lmax in *.
  assert (2 ^ wl * 2 ^ 6 <= 2 ^ w) by (rewrite <- Z.pow_add_r by lia; apply Z.pow_le_mono_r; lia). nia.
Qed.

Lemma short_loop_ok s v : 0 <= v <= lmax -> wl <> w ->
  exists i' overflow', short_loop w wl base (lmax / base) (umax / base) (umax mod base) s v = ((numeral base s).2, i', overflow') /\
  tracks (number base v (numeral base s).1) i' overflow'.
Proof.
  intros Bv Nw. assert (lmax <= umax) as Le
    by (unfold lmax, umax; pose proof (Z.pow_le_mono_r 2 wl w ltac:(lia) ltac:(lia)); lia).
  revert v Bv. induction s as [|c s IH]; intros v Bv; cbn; [eexists _, _; split; [done|]; split; [lia|]; split; [done|lia]|].
  assert (tracks v v false) as Tv by (split; [lia|]; split; [done|lia]).
  destruct (digit_of c) as [d|] eqn:E; [|eauto]. apply digit_of_nonneg in E as Pd.
  rewrite Z.leb_antisym. destruct (Z.ltb_spec d base) as [L|L]; cbn; [|eauto].
  assert (0 <= v * base) by nia. destruct (lmax_room v d) as [R|]; [done|lia| |done].
  destruct (Z.leb_spec (lmax / base) v) as [J|J].
  - unfold umax in R. rewrite (wrap_small w (v * base)), wrap_small by lia.
    destruct (long_loop_ok s (v * base + d) (v * base + d) false) as (i' & o' & -> & T);
      [split; [lia|]; split; [done|unfold umax; lia]|]. destruct (numeral base s). eauto.
  - assert (v * base + d <= lmax) as R' by (pose proof (Z.div_mod lmax base ltac:(lia)); pose proof (Z.mod_pos_bound lmax base ltac:(lia)); nia).
    unfold lmax in R'. rewrite (wrap_small wl (v * base)), wrap_small by lia.
    destruct (IH (v * base + d)) as (i' & o' & -> & T); [unfold lmax; lia|]. destruct (numeral base s). eauto.
Qed.

Lemma tab_lookup (f : Z -> Z) : map f (seqZ 2 35) !! Z.to_nat (base - 2) = Some (f base).
Proof.
  change (map f (seqZ 2 35)) with (f <$> seqZ 2 35). rewrite list_lookup_fmap, lookup_seqZ_lt by lia. cbn. do 2 f_equal. lia.
Qed.

Lemma digits_ok s : exists i overflow, strtol_digits w wl base s = Some ((numeral base s).2, i, overflow) /\
  tracks (number base 0 (numeral base s).1) i overflow.
Proof.
  unfold strtol_digits, max_tab, rem_tab. rewrite !tab_lookup, !bind_ok.
  assert (0 <= umax) by (unfold umax; pose proof (Z.pow_pos_nonneg 2 w ltac:(lia) ltac:(lia)); lia).
  destruct (Z.eqb_spec wl w) as [Ew|Nw].
  - destruct (long_loop_ok s 0 0 false) as (i & o & E & T); [by split|]. unfold umax in E. rewrite E. eauto.
  - destruct (short_loop_ok s 0) as (i & o & E & T); [|done|unfold umax, lmax in E; rewrite E; eauto].
    unfold lmax. pose proof (Z.pow_pos_nonneg 2 wl ltac:(lia) ltac:(lia)). lia.
Qed.
End Loops.

(** ** Around the loops *)

Lemma finish_ok w UNSIGNED nptr s negative v i overflow : 1 < w -> tracks w v i overflow ->
  strtol_finish w UNSIGNED nptr s negative i overflow =
  let '(r, e) := ranged w UNSIGNED negative v in mkResult r (Some (offset nptr s)) e.
Proof.
  intros Pw [Pv T]. unfold strtol_finish, ranged, ULONG_MAX, LONG_MAX, LONG_MIN.
  assert (2 ^ w = 2 * 2 ^ (w - 1)) as D by (rewrite <- Z.pow_succ_r by lia; f_equal; lia).
  assert (1 < 2 ^ (w - 1)) as P by (apply Z.pow_gt_1; lia).
  assert (forall x, - 2 ^ (w - 1) <= x < 2 ^ (w - 1) -> sint w x = x) as Si by (intros x B; apply sint_small; [lia|done]).
  assert (forall x, 0 <= x <= 2 ^ (w - 1) -> sint w (wrap w (- x)) = - x) as Sn.
  { intros x B. unfold sint, wrap. rewrite <- Z.add_mod_idemp_l, Z.mod_mod, Z.add_mod_idemp_l, Z.mod_small by lia. lia. }
  assert (wrap w (wrap w (- wrap w (- 2 ^ (w - 1) + 1)) + 1) = 2 ^ (w - 1)) as M.
  { assert (wrap w (- 2 ^ (w - 1) + 1) = 2 ^ (w - 1) + 1) as ->
      by (unfold wrap; rewrite <- (Z.mod_add _ 1), Z.mod_small by lia; lia).
    assert (wrap w (- (2 ^ (w - 1) + 1)) = 2 ^ (w - 1) - 1) as ->
      by (unfold wrap; rewrite <- (Z.mod_add _ 1), Z.mod_small by lia; lia).
    rewrite wrap_small by lia. lia. }
  destruct overflow; destruct UNSIGNED; cbn [orb].
  - by rewrite (proj2 (Z.leb_le _ _)) by lia.
  - destruct negative; [rewrite (proj2 (Z.ltb_lt _ _)) by lia|rewrite (proj2 (Z.leb_le _ _)) by lia]; done.
  - destruct T as [-> T]. rewrite (proj2 (Z.leb_gt _ _)) by lia. destruct negative; [done|]. by rewrite Z.mod_small by lia.
  - destruct T as [-> T]. destruct negative.
    + rewrite M. destruct (Z.ltb_spec (2 ^ (w - 1)) v); [done|]. by rewrite Sn by lia.
    + destruct (Z.ltb_spec (2 ^ (w - 1) - 1) v), (Z.leb_spec (2 ^ (w - 1)) v); try lia; [done|]. by rewrite Si by lia.
Qed.

Lemma numeral_split base s : exists t, s = t ++ (numeral base s).2 /\ length t = length (numeral base s).1.
Proof.
  induction s as [|c s IH]; cbn; [by exists []|]. destruct (digit_of c) as [d|]; [|by exists []].
  destruct (d <? base); [|by exists []]. destruct IH as (t & E & L). destruct (numeral base s). cbn in *.
  exists (c :: t). split; [by rewrite E at 1|]. cbn. by rewrite L.
Qed.

(** The loop did not move exactly when there is no digit. *)
Lemma numeral_none base s : (length (numeral base s).2 =? length s)%nat = match (numeral base s).1 with [] => true | _ => false end.
Proof.
  destruct (numeral_split base s) as (t & E & L). apply (f_equal length) in E. rewrite length_app in E.
  destruct (numeral base s) as [[|d ds] r]; cbn in *.
  - apply Nat.eqb_eq. lia.
  - apply Nat.eqb_neq. lia.
Qed.

(** White space, and the sign. *)
Lemma skip_space_split isspace s : exists t, s = t ++ skip_space isspace s /\ Forall (fun c => isspace c = true) t.
Proof.
  induction s as [|c s IH]; cbn; [by exists []|]. destruct (isspace c) eqn:E; [|by exists []].
  destruct IH as (t & Et & F). exists (c :: t). split; [by rewrite Et at 1|by constructor].
Qed.

(** The letter of a prefix is no digit of a base up to its value. *)
Lemma letter_digit x : (toupper x = 88 -> digit_of x = Some 33) /\ (toupper x = 66 -> digit_of x = Some 11).
Proof.
  assert (forall u, 65 <= u <= 90 -> toupper x = u -> digit_of x = Some (u - 55)) as H.
  { intros u Bu E. unfold digit_of, isalpha. rewrite E. unfold toupper in E.
    destruct ((97 <=? x) && (x <=? 122)) eqn:L.
    - rewrite orb_true_r. destruct ((48 <=? x) && (x <=? 57)) eqn:D; [lia|]. f_equal. lia.
    - destruct ((48 <=? x) && (x <=? 57)) eqn:D; [lia|]. destruct ((65 <=? x) && (x <=? 90)) eqn:U; [|lia]. cbn. f_equal. lia. }
  split; intros E; [apply (H 88)|apply (H 66)]; lia.
Qed.

Lemma zero_letter b x d t : digit_of x = Some d -> 0 < b <= d -> numeral b (48 :: x :: t) = ([0], x :: t).
Proof. intros E B. cbn. rewrite E, (proj2 (Z.ltb_lt _ _)), (proj2 (Z.ltb_ge _ _)) by lia. done. Qed.

Lemma prefixed_by_zero letter b x t : prefixed_by letter b (48 :: x :: t) =
  (toupper x =? letter) && match (numeral b t).1 with [] => false | _ => true end.
Proof. cbn. by destruct (numeral b t) as [[|]]. Qed.

Lemma prefixed_by_other letter b s : letter <> 0 ->
  (cur s =? 48) && (toupper (cur (tail s)) =? letter) = false -> prefixed_by letter b s = false.
Proof.
  intros N. destruct s as [|z [|x t]]; [done..|]. cbn. intros ->. done.
Qed.

(** The prefix of the code against that of the reference: the same, or one
    without digits behind it, of which the reference keeps the zero. *)
Lemma prefix_subject bin_cst base s : 0 <= base <= 36 -> base <> 1 ->
  let '(save, b) := prefix bin_cst base s in
  2 <= b <= 36 /\
  ((save = s /\ subject bin_cst base s = (b, s)) \/
   ((numeral b save).1 <> [] /\ subject bin_cst base s = (b, save)) \/
   (exists x b0, s = 48 :: x :: save /\ (toupper x = 88 \/ (bin_cst = true /\ toupper x = 66)) /\
      (numeral b save).1 = [] /\ subject bin_cst base s = (b0, s) /\ numeral b0 s = ([0], x :: save))).
Proof.
  intros B N1. unfold prefix, subject. destruct (Z.eqb_spec (cur s) 48) as [E0|E0].
  2:{ rewrite !prefixed_by_other, !andb_false_r by (try done; by rewrite (proj2 (Z.eqb_neq _ _))).
      destruct (Z.eqb_spec base 0); (split; [lia|by left]). }
  assert (forall (c : bool) letter b, letter <> 0 -> c && (toupper (cur (tail s)) =? letter) = false ->
    c && prefixed_by letter b s = false) as Skip.
  { intros [] letter b Nl C; [|done]. apply prefixed_by_other; [done|]. cbn in C. by rewrite C, andb_false_r. }
  destruct (((base =? 0) || (base =? 16)) && (toupper (cur (tail s)) =? 88)) eqn:C16.
  { destruct s as [|z [|x t]]; cbn in E0, C16; [by rewrite andb_false_r in C16..|]. subst z. cbn [tail drop].
    split; [lia|]. right. apply andb_true_iff in C16 as [Cb X%Z.eqb_eq]. rewrite Cb, !prefixed_by_zero, X.
    cbn [Z.eqb andb Pos.eqb]. rewrite andb_false_r. destruct (numeral 16 t).1 eqn:Ed; [right|left; by split].
    exists x, (if base =? 0 then 8 else base). split; [done|]. split; [by left|]. split; [done|]. split; [done|].
    apply (zero_letter _ x 33); [by apply letter_digit|]. destruct (Z.eqb_spec base 0), (Z.eqb_spec base 16); cbn in Cb; first [done|lia]. }
  rewrite (Skip _ 88 16) by done.
  destruct (bin_cst && ((base =? 0) || (base =? 2)) && (toupper (cur (tail s)) =? 66)) eqn:C2.
  { destruct s as [|z [|x t]]; cbn in E0, C2; [by rewrite andb_false_r in C2..|]. subst z. cbn [tail drop].
    split; [lia|]. right. apply andb_true_iff in C2 as [Cb X%Z.eqb_eq]. rewrite Cb, !prefixed_by_zero, X.
    cbn [Z.eqb andb Pos.eqb]. destruct (numeral 2 t).1 eqn:Ed; [right|left; by split].
    exists x, (if base =? 0 then 8 else base). split; [done|]. split; [right; split; [by destruct bin_cst|done]|].
    split; [done|]. split; [done|]. apply (zero_letter _ x 11); [by apply letter_digit|].
    apply andb_true_iff in Cb as [_ Cb]. destruct (Z.eqb_spec base 0), (Z.eqb_spec base 2); cbn in Cb; first [done|lia]. }
  rewrite (Skip _ 66 2) by done. destruct (Z.eqb_spec base 0); (split; [lia|by left]).
Qed.

Lemma sign_split s : exists g, s = g ++ (sign s).2 /\ (g = [] \/ g = [43] \/ g = [45]).
Proof.
  unfold sign. destruct s as [|c s]; [by exists []; split; [|left]|]. cbn. destruct (Z.eqb_spec c 45) as [->|_]; [exists [45]; eauto|].
  destruct (Z.eqb_spec c 43) as [->|_]; [exists [43]; eauto|]. exists []. eauto.
Qed.

Lemma offset_app a s : offset (a ++ s) s = Z.of_nat (length a).
Proof. unfold offset. rewrite length_app. lia. Qed.

(** Without a number nothing is consumed, as no white space is a zero. *)
Lemma noconv_none isspace nptr bin_cst : isspace 48 = false ->
  noconv nptr (sign (skip_space isspace nptr)).2 bin_cst = mkResult 0 (Some 0) None.
Proof.
  intros Z0. destruct (skip_space_split isspace nptr) as (t & Et & F).
  destruct (sign_split (skip_space isspace nptr)) as (g & Eg & Hg). set (s := (sign _).2) in *. clearbody s.
  rewrite Et, Eg, app_assoc. unfold noconv. rewrite offset_app. destruct (_ && _) eqn:C; [|done].
  apply andb_true_iff in C as [C C3]. apply andb_true_iff in C as [C1 C2]. exfalso.
  apply Z.leb_le in C1. apply Z.eqb_eq in C3. rewrite !length_app in *.
  rewrite lookup_app_l in C3 by (rewrite length_app; lia).
  destruct Hg as [->|Hg].
  - cbn in *. rewrite app_nil_r in C3. destruct (t !! _) as [c|] eqn:El; [|done]. cbn in C3. subst c.
    apply (list.Forall_lookup_1 _ _ _ _ F) in El. congruence.
  - assert (length g = 1)%nat as Lg by (by destruct Hg as [->| ->]). rewrite Lg in *.
    rewrite lookup_app_l in C2 by (rewrite length_app; lia).
    rewrite lookup_app_r in C2 by lia. replace (Z.to_nat _ - length t)%nat with 0%nat in C2 by lia.
    destruct Hg as [->| ->]; cbn in C2; by rewrite andb_false_r in C2.
Qed.

Lemma noconv_prefix a x save bin_cst : (toupper x = 88 \/ (bin_cst = true /\ toupper x = 66)) ->
  noconv (a ++ 48 :: x :: save) save bin_cst = mkResult 0 (Some (offset (a ++ 48 :: x :: save) (x :: save))) None.
Proof.
  intros X. unfold noconv, offset. rewrite length_app. cbn [length].
  rewrite (proj2 (Z.leb_le _ _)) by lia.
  rewrite !lookup_app_r by lia.
  replace (Z.to_nat _ - length a)%nat with 1%nat by lia.
  replace (Z.to_nat (Z.of_nat (length a + S (S (length save))) - Z.of_nat (length save) - 2) - length a)%nat with 0%nat by lia.
  cbn. destruct X as [->|[-> ->]]; cbn; do 2 f_equal; lia.
Qed.

Lemma strtol_correct isspace w wl UNSIGNED nptr base bin_cst : isspace 48 = false -> 1 < wl <= w -> wl = w \/ wl + 6 <= w ->
  strtol_l_internal isspace w wl UNSIGNED nptr base bin_cst = Some (reference isspace w UNSIGNED nptr base bin_cst).
Proof.
  intros Z0 Bw Ww. unfold strtol_l_internal, reference. destruct (_ || _) eqn:Bb; [done|].
  pose proof (noconv_none isspace nptr bin_cst Z0) as None1.
  destruct (skip_space_split isspace nptr) as (t & Et & _).
  destruct (skip_space isspace nptr) as [|c0 s0] eqn:Es.
  { unfold noconv, offset, subject. rewrite Z.sub_diag. cbn. by rewrite !andb_false_r. }
  set (ss := c0 :: s0) in *. destruct (sign_split ss) as (g & Eg & _).
  destruct (sign ss) as [negative s]. cbn [fst snd] in *.
  pose proof (prefix_subject bin_cst base s ltac:(lia) ltac:(lia)) as P. destruct (prefix bin_cst base s) as [save b].
  destruct P as [Rb P]. destruct (digits_ok w wl b Rb ltac:(lia) Ww save) as (i & o & -> & T). rewrite bind_ok. cbv beta iota.
  rewrite numeral_none. destruct P as [[-> Sj]|[[Nd Sj]|(x & b0 & Ex & X & Nd & Sj & N0)]]; rewrite Sj.
  - destruct (numeral b s) as [[|d ds] r]; cbn [fst snd] in *; [by rewrite None1|].
    by rewrite (finish_ok w UNSIGNED nptr r negative (number b 0 (d :: ds))) by first [lia|done].
  - destruct (numeral b save) as [[|d ds] r]; cbn [fst snd] in *; [done|].
    by rewrite (finish_ok w UNSIGNED nptr r negative (number b 0 (d :: ds))) by first [lia|done].
  - rewrite Nd, N0. assert (ranged w UNSIGNED negative (number b0 0 [0]) = (0, None)) as ->.
    { unfold ranged. cbn. pose proof (Z.pow_pos_nonneg 2 w ltac:(lia) ltac:(lia)).
      pose proof (Z.pow_pos_nonneg 2 (w - 1) ltac:(lia) ltac:(lia)).
      destruct UNSIGNED, negative; rewrite ?(proj2 (Z.leb_gt _ _)), ?(proj2 (Z.ltb_ge _ _)) by lia; done. }
    rewrite Et, Eg, Ex, app_assoc. by rewrite noconv_prefix.
Qed.

(** ** Printing, then reading *)

Lemma digit_of_char d : 0 <= d < 36 -> digit_of (digit_char d) = Some d.
Proof.
  intros B. assert (forallb (fun d => match digit_of (digit_char d) with Some e => e =? d | None => false end) (seqZ 0 36) = true) as C
    by (vm_compute; reflexivity).
  rewrite forallb_forall in C. specialize (C d ltac:(apply list_elem_of_In, elem_of_seqZ; lia)).
  destruct (digit_of (digit_char d)); [|done]. f_equal. lia.
Qed.

(** Digits up to the end, or up to a character that is no digit. *)
Lemma numeral_chars base ds rest : base <= 36 -> Forall (fun d => 0 <= d < base) ds ->
  (numeral base rest).1 = [] -> numeral base ((digit_char <$> ds) ++ rest) = (ds, rest).
Proof.
  intros B F R. induction F as [|d ds Bd F IH]; cbn.
  - destruct (numeral_split base rest) as (t & E & L). rewrite R in L. destruct t; [|done].
    destruct (numeral base rest) as [ds r]. cbn in *. by subst.
  - rewrite digit_of_char, (proj2 (Z.ltb_lt _ _)) by lia. fold (digit_char <$> ds). rewrite IH. done.
Qed.

(** ["%ld"] *)
Definition print_long (n : Z) : list Z := if n <? 0 then 45 :: decimal (- n) else decimal n.

Lemma decimal_head n : 0 <= n -> exists c t, decimal n = c :: t /\ 48 <= c <= 57.
Proof.
  intros P. destruct (to_digits_ok 10 ltac:(lia) n P) as [F _ (d & ds & E & _)]. unfold decimal. rewrite E in *.
  inversion F; subst. exists (digit_char d), (digit_char <$> ds). split; [done|]. unfold digit_char.
  rewrite (proj2 (Z.ltb_lt _ _)) by lia. lia.
Qed.

Lemma reference_decimal isspace w n rest neg s0 nptr : 0 <= n -> (numeral 10 rest).1 = [] ->
  skip_space isspace nptr = s0 -> sign s0 = (neg, decimal n ++ rest) ->
  reference isspace w false nptr 10 false =
  let '(v, e) := ranged w false neg n in mkResult v (Some (offset nptr rest)) e.
Proof.
  intros P R Es Sg. unfold reference. rewrite Es, Sg. unfold subject. cbn [Z.ltb Z.eqb Z.compare Pos.eqb Pos.compare Pos.compare_cont orb andb].
  destruct (to_digits_ok 10 ltac:(lia) n P) as [F V (d & ds & E & _)]. unfold decimal. rewrite numeral_chars by first [lia|done].
  rewrite V, E. done.
Qed.

Lemma strtol_print isspace wl n rest : (forall c, 48 <= c <= 57 \/ c = 45 -> isspace c = false) ->
  1 < wl -> fits wl n -> (numeral 10 rest).1 = [] ->
  strtol isspace wl (print_long n ++ rest) 10 = Some (mkResult n (Some (Z.of_nat (length (print_long n)))) None).
Proof.
  intros Sp W B R. unfold strtol. rewrite strtol_correct; [|apply Sp; lia|lia|by left]. unfold fits in B.
  assert (forall neg v s0 nptr, 0 <= v -> skip_space isspace nptr = s0 -> sign s0 = (neg, decimal v ++ rest) ->
    ranged wl false neg v = (n, None) -> nptr = print_long n ++ rest ->
    reference isspace wl false nptr 10 false = mkResult n (Some (Z.of_nat (length (print_long n)))) None) as Go.
  { intros neg v s0 nptr Pv Es Sg Rg En. rewrite (reference_decimal isspace wl v rest neg s0 nptr) by done.
    rewrite Rg, En. by rewrite offset_app. }
  f_equal. unfold print_long in *. destruct (Z.ltb_spec n 0) as [L|L].
  - apply (Go true (- n) (45 :: decimal (- n) ++ rest)); [lia|cbn; by rewrite Sp by lia|done| |done].
    unfold ranged. rewrite (proj2 (Z.ltb_ge _ _)) by lia. f_equal. lia.
  - destruct (decimal_head n L) as (c & t & E & Bc).
    apply (Go false n (decimal n ++ rest)); [done|rewrite E; cbn; by rewrite Sp by lia| | |done].
    + rewrite E. unfold sign. cbn. by rewrite !(proj2 (Z.eqb_neq _ _)) by lia.
    + unfold ranged. by rewrite (proj2 (Z.leb_gt _ _)) by lia.
Qed.

(** ** Theorems *)

(** White space of the C locale. *)
Definition C_isspace (c : Z) : bool := ((9 <=? c) && (c <=? 13)) || (c =? 32).

(** C17: [strtol], [strtoul], [strtoll] and [strtoull] compute the reference
    conversion: the value, clamped to the range of the type with [ERANGE], the
    end of the number, and [EINVAL] for a base that is none.  The widths of
    [long] and of the result are any that are equal or at least six bits apart,
    which is where the switch from the one to the other cannot overflow; of the
    locale only that a zero is no white space is used. *)
Theorem strtol_is_reference isspace w wl UNSIGNED nptr base bin_cst :
  isspace 48 = false -> 1 < wl <= w -> wl = w \/ wl + 6 <= w ->
  strtol_l_internal isspace w wl UNSIGNED nptr base bin_cst = Some (reference isspace w UNSIGNED nptr base bin_cst).
Proof. apply strtol_correct. Qed.

(** [" -0x10z"] in base 0; ["18446744073709551616"] as [unsigned long long] with
    a 32-bit [long]; ["0x"] in base 16. *)
Lemma strtol_is_reference_witness :
  strtol_l_internal C_isspace 64 64 false [32; 45; 48; 120; 49; 48; 122] 0 false = Some (mkResult (-16) (Some 6) None) /\
  strtol_l_internal C_isspace 64 32 true [49; 56; 52; 52; 54; 55; 52; 52; 48; 55; 51; 55; 48; 57; 53; 53; 49; 54; 49; 54] 10 false =
    Some (mkResult (2 ^ 64 - 1) (Some 20) (Some ERANGE)) /\
  strtol_l_internal C_isspace 64 64 false [48; 120] 16 false = Some (mkResult 0 (Some 1) None).
Proof.
  split; [|split]; (rewrite strtol_is_reference; [vm_compute; reflexivity|done|lia|lia]).
Defined.

(** [strtol] reads what ["%ld"] printed: every [long] comes back, and the
    conversion stops behind its last digit. *)
Theorem strtol_print_long isspace wl n rest : (forall c, 48 <= c <= 57 \/ c = 45 -> isspace c = false) ->
  1 < wl -> fits wl n -> (numeral 10 rest).1 = [] ->
  strtol isspace wl (print_long n ++ rest) 10 = Some (mkResult n (Some (Z.of_nat (length (print_long n)))) None).
Proof. apply strtol_print. Qed.

Lemma strtol_print_long_witness :
  strtol C_isspace 64 ([45; 57; 50; 50; 51; 51; 55; 50; 48; 51; 54; 56; 53; 52; 55; 55; 53; 56; 48; 56] ++ [32; 49]) 10 =
  Some (mkResult (- 2 ^ 63) (Some 20) None).
Proof.
  apply (strtol_print_long C_isspace 64 (- 2 ^ 63) [32; 49]); [|done|done|done].
  intros c B. unfold C_isspace. lia.
Defined.

(** [atoi] reads every [int] that was printed, and wraps a [long] that is none. *)
Theorem atoi_print_long isspace wl n rest : (forall c, 48 <= c <= 57 \/ c = 45 -> isspace c = false) ->
  1 < wl -> fits wl n -> (numeral 10 rest).1 = [] ->
  atol isspace wl (print_long n ++ rest) = Some n /\ atoi isspace wl (print_long n ++ rest) = Some (sint 32 n).
Proof. intros. unfold atoi, atol. rewrite strtol_print by done. done. Qed.
