(* ===== verification/Inet.v ===== *)
(** * Internet addresses: [resolv/inet_pton.c], [inet_ntop.c], [inet_addr.c]

    A string is the list of its characters before the terminating zero; an
    address is the list of its bytes in network order.  The arrays on the stack
    are buffers ([Buffer]), so that a store outside them is undefined; what an
    uninitialised one holds is an argument. *)

From S2P Require Import Prelude CMonad Buffer Numerals Strtol.
Open Scope c_scope.

Definition AF_INET : Z := 2.
Definition AF_INET6 : Z := 10.
Definition NS_INADDRSZ : Z := 4.
Definition NS_IN6ADDRSZ : Z := 16.
Definition NS_INT16SZ : Z := 2.

Definition dec_digit (ch : Z) : bool := (48 <=? ch) && (ch <=? 57).

(** ** [inet_pton.c] *)

(** The loop over [tmp]; the result is that of the function. *)
Fixpoint pton4_loop (src : list Z) (saw_digit : bool) (octets tp : Z) : T bool :=
  match src with
  | [] => ret (negb (octets <? 4))
  | ch :: src =>
    if dec_digit ch then
      let! v := get tp in
      let new := v * 10 + (ch - 48) in
      if saw_digit && (v =? 0) then ret false
      else if 255 <? new then ret false
      else
        put tp new;;
        if saw_digit then pton4_loop src saw_digit octets tp
        else if 4 <? octets + 1 then ret false
        else pton4_loop src true (octets + 1) tp
    else if (ch =? 46) && saw_digit then
      if octets =? 4 then ret false
      else put (tp + 1) 0;; pton4_loop src false octets (tp + 1)
    else ret false
  end.

(** The address it stores, or [Some None] when it returns 0 and stores nothing. *)
Definition inet_pton4 (tmp src : list Z) : option (option (list Z)) :=
  match (put 0 0;; pton4_loop src false 0 0) tmp with
  | None => None
  | Some (true, tmp) => Some (Some tmp)
  | Some (false, _) => Some None
  end.

Definition hex_digit_value (ch : Z) : Z :=
  if (48 <=? ch) && (ch <=? 57) then ch - 48
  else if (97 <=? ch) && (ch <=? 102) then ch - 97 + 10
  else if (65 <=? ch) && (ch <=? 70) then ch - 65 + 10
  else -1.

Section Pton6.
(** What the array of [inet_pton4] holds. *)
Variable tmp4 : list Z.

(** The two bytes of a group; [false] for no room. *)
Definition put_group (tp val : Z) (k : T bool) : T bool :=
  if NS_IN6ADDRSZ <? tp + NS_INT16SZ then ret false
  else put tp (Z.land (wrap 8 (Z.shiftr val 8)) 255);; put (tp + 1) (Z.land (wrap 8 val) 255);; k.

(** [n] bytes from place [i] on, in place. *)
Fixpoint gets (n : nat) (i : Z) : T (list Z) :=
  match n with
  | O => ret []
  | S n => let! v := get i in let! l := gets n (i + 1) in ret (v :: l)
  end.

(** Replace [::] with zeros. *)
Definition expand (colonp : option Z) (tp : Z) : T bool :=
  match colonp with
  | None => ret (tp =? NS_IN6ADDRSZ)
  | Some c =>
    if tp =? NS_IN6ADDRSZ then ret false
    else
      let n := tp - c in
      let! moved := gets (Z.to_nat n) c in
      puts (NS_IN6ADDRSZ - n) moved;; puts c (replicate (Z.to_nat (NS_IN6ADDRSZ - n - c)) 0);; ret true
  end.

Definition pton6_end (colonp : option Z) (tp xdigits_seen val : Z) : T bool :=
  if 0 <? xdigits_seen then put_group tp val (expand colonp (tp + 2)) else expand colonp tp.

Fixpoint pton6_loop (src curtok : list Z) (colonp : option Z) (tp xdigits_seen val : Z) : T bool :=
  match src with
  | [] => pton6_end colonp tp xdigits_seen val
  | ch :: src =>
    let digit := hex_digit_value ch in
    if 0 <=? digit then
      if xdigits_seen =? 4 then ret false
      else
        let val := Z.lor (wrap 32 (Z.shiftl val 4)) digit in
        if 0xffff <? val then ret false else pton6_loop src curtok colonp tp (xdigits_seen + 1) val
    else if ch =? 58 then
      let curtok := src in
      if xdigits_seen =? 0 then
        match colonp with Some _ => ret false | None => pton6_loop src curtok (Some tp) tp xdigits_seen val end
      else
        match src with
        | [] => ret false
        | _ => put_group tp val (pton6_loop src curtok colonp (tp + 2) 0 0)
        end
    else if (ch =? 46) && (tp + NS_INADDRSZ <=? NS_IN6ADDRSZ) then
      match inet_pton4 tmp4 curtok with
      | None => undefined
      | Some None => ret false
      | Some (Some a) => puts tp a;; pton6_end colonp (tp + NS_INADDRSZ) 0 val
      end
    else ret false
  end.

Definition inet_pton6 (src : list Z) : option (option (list Z)) :=
  let go src :=
    match pton6_loop src src None 0 0 0 (replicate 16 0) with
    | None => None
    | Some (true, tmp) => Some (Some tmp)
    | Some (false, _) => Some None
    end in
  match src with
  | [] => Some None
  | ch :: src' =>
    if ch =? 58 then
      match src' with
      | [] => Some None
      | ch' :: _ => if negb (ch' =? 58) then Some None else go src'
      end
    else go src
  end.

(** The return value and the address it stores, if any. *)
Definition inet_pton (af : Z) (src : list Z) : option (Z * option (list Z)) :=
  let result r := match r with None => None | Some (Some a) => Some (1, Some a) | Some None => Some (0, None) end in
  if af =? AF_INET then result (inet_pton4 tmp4 src)
  else if af =? AF_INET6 then result (inet_pton6 src)
  else Some (-1, None).
End Pton6.

(** ** [inet_ntop.c] *)

Fixpoint nth_byte (src : list Z) (i : nat) : Z := match src, i with b :: _, O => b | _ :: src, S i => nth_byte src i | [], _ => 0 end.

(** ["%u.%u.%u.%u"] *)
Definition fmt4 (src : list Z) : list Z :=
  decimal (nth_byte src 0) ++ [46] ++ decimal (nth_byte src 1) ++ [46] ++ decimal (nth_byte src 2) ++ [46] ++ decimal (nth_byte src 3).

(** Stores the text at place [dst] of the buffer; the length, or [None] for
    [NULL].  The array [tmp] has 16 bytes. *)
Definition inet_ntop4 (src : list Z) (dst size : Z) : T (option Z) :=
  let text := fmt4 src in
  if 16 <=? len text then undefined
  else if size <=? len text then ret None
  else puts dst (text ++ [0]);; ret (Some (len text)).

(** The 16-bit groups. *)
Fixpoint words (src : list Z) : list Z :=
  match src with
  | a :: b :: src => Z.lor (Z.shiftl a 8) b :: words src
  | _ => []
  end.

(** A run of zeros: where it begins (-1: there is none) and its length. *)
Record zero_run := mkRun { zbase : Z; zlen : Z }.

Definition better (best cur : zero_run) : zero_run := if (zbase best =? -1) || (zlen best <? zlen cur) then cur else best.

Fixpoint scan_runs (i : Z) (ws : list Z) (best cur : zero_run) : zero_run * zero_run :=
  match ws with
  | [] => (best, cur)
  | w :: ws =>
    if w =? 0 then
      scan_runs (i + 1) ws best (if zbase cur =? -1 then mkRun i 1 else mkRun (zbase cur) (zlen cur + 1))
    else if negb (zbase cur =? -1) then scan_runs (i + 1) ws (better best cur) (mkRun (-1) (zlen cur))
    else scan_runs (i + 1) ws best cur
  end.

Definition best_run (ws : list Z) : zero_run :=
  let '(best, cur) := scan_runs 0 ws (mkRun (-1) 0) (mkRun (-1) 0) in
  let best := if negb (zbase cur =? -1) then better best cur else best in
  if negb (zbase best =? -1) && (zlen best <? 2) then mkRun (-1) (zlen best) else best.

(** The characters before the first zero, if there is one: what [strcpy] copies. *)
Fixpoint cstring (s : list Z) : option (list Z) :=
  match s with
  | [] => None
  | c :: s => if c =? 0 then Some [] else match cstring s with Some t => Some (c :: t) | None => None end
  end.

(** The size of the array [tmp]. *)
Definition TMP6 : Z := 46.

(** The groups from the [i]th on, at place [tp] of [tmp]. *)
Fixpoint ntop6_loop (src : list Z) (best : zero_run) (w5 : Z) (i : Z) (ws : list Z) (tp : Z) : T (option Z) :=
  match ws with
  | [] => ret (Some tp)
  | w :: ws =>
    if negb (zbase best =? -1) && (zbase best <=? i) && (i <? zbase best + zlen best) then
      if i =? zbase best then put tp 58;; ntop6_loop src best w5 (i + 1) ws (tp + 1)
      else ntop6_loop src best w5 (i + 1) ws tp
    else
      let! tp := (if negb (i =? 0) then put tp 58;; ret (tp + 1) else ret tp) in
      if (i =? 6) && (zbase best =? 0) && ((zlen best =? 6) || ((zlen best =? 5) && (w5 =? 0xffff))) then
        let! r := inet_ntop4 (drop 12 src) tp (TMP6 - tp) in
        match r with
        | None => ret None
        | Some n => ret (Some (tp + n))
        end
      else
        puts tp (hexadecimal w ++ [0]);; ntop6_loop src best w5 (i + 1) ws (tp + len (hexadecimal w))
  end.

(** The whole of [tmp] with the terminating zero: its length. *)
Definition ntop6_text (src : list Z) : T (option Z) :=
  let ws := words src in
  let best := best_run ws in
  let! r := ntop6_loop src best (nth_byte ws 5) 0 ws 0 in
  match r with
  | None => ret None
  | Some tp =>
    let! tp := (if negb (zbase best =? -1) && (zbase best + zlen best =? 8) then put tp 58;; ret (tp + 1) else ret tp) in
    put tp 0;; ret (Some (tp + 1))
  end.

(** [tmp] is what the array holds before; [size] is a [socklen_t]. *)
Definition inet_ntop6 (tmp src : list Z) (size : Z) : T (option Z) := fun dst =>
  match ntop6_text src tmp with
  | None => None
  | Some (None, _) => Some (None, dst)
  | Some (Some n, tmp) =>
    if size <? wrap 32 n then Some (None, dst)
    else match cstring tmp with
         | None => None
         | Some text => (puts 0 (text ++ [0]);; ret (Some (len text))) dst
         end
  end.

(** The length of the text, or [None] for [NULL]. *)
Definition inet_ntop (tmp : list Z) (af : Z) (src : list Z) (size : Z) : T (option Z) :=
  if af =? AF_INET then inet_ntop4 src 0 size
  else if af =? AF_INET6 then inet_ntop6 tmp src size
  else ret None.

(** ** [inet_addr.c] *)

Definition max_part : list Z := [0xffffffff; 0xffffff; 0xffff; 0xff].

(** The bytes of [htonl (val)]. *)
Definition be_bytes (val : Z) : list Z := [wrap 8 (Z.shiftr val 24); wrap 8 (Z.shiftr val 16); wrap 8 (Z.shiftr val 8); wrap 8 val].

Section Aton.
Variable isspace : Z -> bool.

(** One number: its value, whether there was a digit, and what follows;
    [Some None] is [goto ret_0]. *)
Definition aton_number (cp : list Z) : option (option (Z * bool * list Z)) :=
  if negb (dec_digit (cur cp)) then Some None
  else
    match strtol_l_internal isspace 64 64 true cp 0 false with
    | Some (mkResult ul (Some e) err) =>
      if (ul =? 2 ^ 64 - 1) && match err with Some ERANGE => true | _ => false end then Some None
      else if 0xffffffff <? ul then Some None
      else Some (Some (ul, negb (e =? 0), drop (Z.to_nat e) cp))
    | _ => None
    end.

(** The loop: [pp] parts have been stored in [res]. *)
Fixpoint aton_loop (fuel : nat) (cp res : list Z) (pp : nat) : option (option (list Z * list Z)) :=
  match fuel with
  | O => None
  | S fuel =>
    match aton_number cp with
    | None => None
    | Some None => Some None
    | Some (Some (val, digit, cp)) =>
      if cur cp =? 46 then
        if (2 <? pp)%nat || (0xff <? val) then Some None
        else aton_loop fuel (tail cp) (<[pp := val]> res) (S pp)
      else if negb (cur cp =? 0) && negb ((cur cp <? 128) && isspace (cur cp)) then Some None
      else if negb digit then Some None
      else match max_part !! pp with
           | None => None
           | Some m => if m <? val then Some None else Some (Some (zip_with Z.lor res (be_bytes val), cp))
           end
    end
  end.

(** The address and the rest of the string, or [Some None] for 0. *)
Definition inet_aton_end (cp : list Z) : option (option (list Z * list Z)) := aton_loop 4 cp [0; 0; 0; 0] 0.

Definition inet_aton_exact (cp : list Z) : option (option (list Z)) :=
  match inet_aton_end cp with
  | None => None
  | Some (Some (a, [])) => Some (Some a)
  | Some _ => Some None
  end.

(** [inet_aton] *)
Definition inet_aton_ignore_trailing (cp : list Z) : option (option (list Z)) :=
  match inet_aton_end cp with
  | None => None
  | Some (Some (a, _)) => Some (Some a)
  | Some None => Some None
  end.

Definition INADDR_NONE : list Z := [255; 255; 255; 255].

Definition inet_addr (cp : list Z) : option (list Z) :=
  match inet_aton_end cp with
  | None => None
  | Some (Some (a, _)) => Some a
  | Some None => Some INADDR_NONE
  end.
End Aton.
