(* ===== verification/InetText.v ===== *)
(** * Internet addresses: how the parsers and the printers work

    [dots] and [text6] are the texts of addresses.  [inet_pton4] accepts
    exactly the texts of four bytes; [inet_pton6] reads back groups of four
    hexadecimal digits around [::]. *)

From S2P Require Import Prelude CMonad Buffer Numerals Strtol Inet.
Open Scope c_scope.

(** ** Dotted decimals *)

(** The bytes behind the first one, and all of them. *)
Definition dots_tail (bs : list Z) : list Z := bs ≫= (fun b => 46 :: decimal b).
Definition dots (bs : list Z) : list Z := match bs with [] => [] | b :: bs => decimal b ++ dots_tail bs end.

Lemma fmt4_dots a b c d : fmt4 [a; b; c; d] = dots [a; b; c; d].
Proof. unfold fmt4, dots, dots_tail. cbn [nth_byte mbind list_bind app]. by rewrite app_nil_r. Qed.

Lemma decimal_small d : 0 <= d < 10 -> decimal d = [48 + d].
Proof.
  intros B. assert (forallb (fun d => bool_decide (decimal d = [48 + d])) (seqZ 0 10) = true) as C by (vm_compute; reflexivity).
  rewrite forallb_forall in C. specialize (C d ltac:(apply list_elem_of_In, elem_of_seqZ; lia)). by apply bool_decide_eq_true_1 in C.
Qed.

Lemma decimal_next v d : 0 < v -> 0 <= d < 10 -> v * 10 + d <= 255 -> decimal (v * 10 + d) = decimal v ++ [48 + d].
Proof.
  intros Pv Bd L.
  assert (forallb (fun n => bool_decide (decimal n = decimal (n / 10) ++ [48 + n mod 10])) (seqZ 10 246) = true) as C
    by (vm_compute; reflexivity).
  rewrite forallb_forall in C. specialize (C (v * 10 + d) ltac:(apply list_elem_of_In, elem_of_seqZ; lia)).
  apply bool_decide_eq_true_1 in C. rewrite C, (Z.add_comm (v * 10)), Z.div_add, Z.div_small, Z.mod_add, Z.mod_small by lia. done.
Qed.

Lemma first_digit d src oct pre r : 0 <= d < 10 -> oct < 4 ->
  pton4_loop (48 + d :: src) false oct (len pre) (pre ++ 0 :: r) = pton4_loop src true (oct + 1) (len pre) (pre ++ d :: r).
Proof.
  intros B O. cbn [pton4_loop]. unfold dec_digit. rewrite !(proj2 (Z.leb_le _ _)) by lia. cbn [andb].
  rewrite (bind_some _ _ _ _ _ (get_at _ _ _ _ eq_refl)). replace (0 * 10 + (48 + d - 48)) with d by lia.
  rewrite (proj2 (Z.ltb_ge _ _)) by lia. rewrite (bind_some _ _ _ _ _ (put_at _ _ _ _ _ eq_refl)).
  by rewrite (proj2 (Z.ltb_ge _ _)) by lia.
Qed.

Lemma next_digit v d src oct pre r : 0 < v -> 0 <= d < 10 -> v * 10 + d <= 255 ->
  pton4_loop (48 + d :: src) true oct (len pre) (pre ++ v :: r) = pton4_loop src true oct (len pre) (pre ++ v * 10 + d :: r).
Proof.
  intros Pv B L. cbn [pton4_loop]. unfold dec_digit. rewrite !(proj2 (Z.leb_le _ _)) by lia. cbn [andb].
  rewrite (bind_some _ _ _ _ _ (get_at _ _ _ _ eq_refl)), (proj2 (Z.eqb_neq _ _)) by lia.
  replace (v * 10 + (48 + d - 48)) with (v * 10 + d) by lia. rewrite (proj2 (Z.ltb_ge _ _)) by lia.
  by rewrite (bind_some _ _ _ _ _ (put_at _ _ _ _ _ eq_refl)).
Qed.

(** A byte is read. *)
Lemma pton4_byte b src oct pre r : byte b -> oct < 4 ->
  pton4_loop (decimal b ++ src) false oct (len pre) (pre ++ 0 :: r) = pton4_loop src true (oct + 1) (len pre) (pre ++ b :: r).
Proof.
  intros B O. unfold byte in B. pose proof (Z.div_mod b 10 ltac:(lia)) as D. pose proof (Z.mod_pos_bound b 10 ltac:(lia)) as M.
  destruct (Z.ltb_spec b 10) as [L|L]; [rewrite decimal_small by lia; apply first_digit; lia|].
  assert (0 < b / 10 <= 25) as P by lia. set (q := b / 10) in *. set (d := b mod 10) in *. clearbody q d.
  replace b with (q * 10 + d) by lia. rewrite decimal_next, <- app_assoc by lia.
  pose proof (Z.div_mod q 10 ltac:(lia)) as D'. pose proof (Z.mod_pos_bound q 10 ltac:(lia)) as M'.
  destruct (Z.ltb_spec q 10) as [L'|L'].
  - rewrite decimal_small by lia. cbn [app]. rewrite first_digit, next_digit by lia. done.
  - assert (0 < q / 10 < 10) as P' by lia. set (q' := q / 10) in *. set (d' := q mod 10) in *. clearbody q' d'.
    replace q with (q' * 10 + d') by lia. rewrite decimal_next, <- app_assoc, decimal_small by lia. cbn [app].
    rewrite first_digit, !next_digit by lia. done.
Qed.

Lemma pton4_bytes bs : forall pre oct r, Forall byte bs -> oct + len bs = 4 -> length r = length bs ->
  pton4_loop (dots_tail bs) true oct (len pre - 1) (pre ++ r) = Some (true, pre ++ bs).
Proof.
  induction bs as [|b bs IH]; intros pre oct r F O L.
  - destruct r; [|done]. cbn. rewrite (proj2 (Z.ltb_ge _ _)) by (unfold len in O; simpl in O; lia). done.
  - destruct r as [|x r]; [done|]. inversion F; subst. rewrite len_cons in O. pose proof (Nat2Z.is_nonneg (length bs)).
    cbn [dots_tail mbind list_bind app pton4_loop]. fold (dots_tail bs). change (dec_digit 46) with false.
    cbn [Z.eqb Pos.eqb andb]. rewrite (proj2 (Z.eqb_neq _ _)) by (unfold len in O; lia).
    replace (len pre - 1 + 1) with (len pre) by lia. rewrite (bind_some _ _ _ _ _ (put_at _ _ _ _ _ eq_refl)).
    rewrite pton4_byte by (first [done | unfold len in O; lia]).
    replace (pre ++ b :: r) with ((pre ++ [b]) ++ r) by (by rewrite <- app_assoc).
    replace (len pre) with (len (pre ++ [b]) - 1) by (rewrite len_app; unfold len; simpl; lia).
    rewrite IH; [by rewrite <- app_assoc|done|lia|by injection L].
Qed.

Lemma pton4_reads bs tmp : length tmp = 4%nat -> length bs = 4%nat -> Forall byte bs -> inet_pton4 tmp (dots bs) = Some (Some bs).
Proof.
  intros L Lb F. destruct tmp as [|x tmp]; [done|]. destruct bs as [|b bs]; [done|]. inversion F; subst. unfold inet_pton4.
  change (x :: tmp) with ([] ++ x :: tmp). rewrite (bind_some _ _ _ _ _ (put_at [] 0 0 x tmp eq_refl)). cbn [dots].
  pose proof (pton4_byte b (dots_tail bs) 0 [] tmp) as E. change (len []) with 0 in E. rewrite E by done.
  pose proof (pton4_bytes bs [b] 1 tmp) as E'. change (len [b] - 1) with 0 in E'. cbn [app] in *. change (0 + 1) with 1.
  rewrite E'; [done|done|unfold len; simpl in *; lia|simpl in *; lia].
Qed.

(** What is accepted is the text of four bytes. *)
Lemma pton4_sound src : forall saw v pre r tp oct, byte v -> (saw = false -> v = 0) -> len (pre ++ v :: r) = 4 ->
  tp = len pre -> oct = len pre + Z.b2z saw ->
  exists ok tmp', pton4_loop src saw oct tp (pre ++ v :: r) = Some (ok, tmp') /\
  (ok = true -> exists bs, tmp' = pre ++ bs /\ length bs = S (length r) /\ Forall byte bs /\
    (if saw then decimal v else []) ++ src = dots bs).
Proof.
  induction src as [|ch src IH]; intros saw v pre r tp oct Bv Sv L -> ->; cbn [pton4_loop].
  { eexists _, _. split; [done|]. intros O. destruct (Z.ltb_spec (len pre + Z.b2z saw) 4); [done|].
    rewrite len_app, len_cons in L. destruct r as [|x r]; [|rewrite len_cons in L; pose proof (Nat2Z.is_nonneg (length r)); destruct saw; unfold len in *; simpl in *; lia].
    destruct saw; [|unfold len in *; simpl in *; lia]. exists [v]. split; [done|]. split; [done|]. split; [by constructor; [|constructor]|]. done. }
  assert (exists tmp', @ret (list Z) bool false (pre ++ v :: r) = Some (false, tmp')) as [t0 Fail] by by eexists.
  destruct (dec_digit ch) eqn:D.
  - rewrite (bind_some _ _ _ _ _ (get_at _ _ _ _ eq_refl)). unfold dec_digit in D. unfold byte in *.
    destruct (saw && (v =? 0)) eqn:Z0; [by eexists _, _|]. destruct (Z.ltb_spec 255 (v * 10 + (ch - 48))) as [M|M]; [by eexists _, _|].
    rewrite (bind_some _ _ _ _ _ (put_at _ _ _ _ _ eq_refl)).
    assert (len (pre ++ v * 10 + (ch - 48) :: r) = 4) as L' by (rewrite len_app, len_cons in *; done).
    destruct saw.
    + destruct (IH true (v * 10 + (ch - 48)) pre r (len pre) (len pre + Z.b2z true)) as (ok & t & E & H); [unfold byte; lia|done..|].
      exists ok, t. split; [done|]. intros O. destruct (H O) as (bs & -> & Lb & F & Et). exists bs. split; [done|]. split; [done|].
      split; [done|]. rewrite <- Et, decimal_next, <- app_assoc by lia. cbn. do 2 f_equal. lia.
    + rewrite (Sv eq_refl) in *. destruct (4 <? _); [by eexists _, _|].
      destruct (IH true (0 * 10 + (ch - 48)) pre r (len pre) (len pre + Z.b2z false + 1)) as (ok & t & E & H); [unfold byte; lia|done|done|done|simpl; lia|].
      exists ok, t. split; [done|]. intros O. destruct (H O) as (bs & -> & Lb & F & Et). exists bs. split; [done|]. split; [done|].
      split; [done|]. rewrite <- Et, decimal_small by lia. cbn. f_equal. lia.
  - destruct (Z.eqb_spec ch 46) as [->|]; cbn [andb]; [|by eexists _, _]. destruct saw; [|by eexists _, _].
    destruct (Z.eqb_spec (len pre + Z.b2z true) 4) as [O4|O4]; [by eexists _, _|].
    destruct r as [|x r]; [rewrite len_app, len_cons in L; unfold len in *; simpl in *; lia|].
    replace (pre ++ v :: x :: r) with ((pre ++ [v]) ++ x :: r) in * by (by rewrite <- app_assoc).
    assert (len pre + 1 = len (pre ++ [v])) as Ep by (rewrite len_app; unfold len; simpl; lia).
    rewrite (bind_some _ _ _ _ _ (put_at _ _ _ _ _ Ep)).
    destruct (IH false 0 (pre ++ [v]) r (len pre + 1) (len pre + Z.b2z true)) as (ok & t & E & H);
      [done|done|rewrite len_app, len_cons in *; lia|done|rewrite <- Ep; simpl; lia|].
    exists ok, t. split; [done|]. intros O. destruct (H O) as (bs & -> & Lb & F & Et). exists (v :: bs).
    split; [by rewrite <- app_assoc|]. split; [cbn in *; lia|]. split; [by constructor|]. destruct bs as [|b bs]; [done|].
    cbn [dots dots_tail mbind list_bind app] in *. by rewrite Et.
Qed.

(** ** Groups *)

Definition group (w : Z) : Prop := 0 <= w < 65536.
Definition group_bytes (w : Z) : list Z := [w / 256; w mod 256].
Definition wbytes (ws : list Z) : list Z := ws ≫= group_bytes.

(** Groups separated by colons, and each followed by one. *)
Definition hexs_tail (ws : list Z) : list Z := ws ≫= (fun w => 58 :: hexadecimal w).
Definition hexs (ws : list Z) : list Z := match ws with [] => [] | w :: ws => hexadecimal w ++ hexs_tail ws end.
Definition colons (ws : list Z) : list Z := ws ≫= (fun w => hexadecimal w ++ [58]).

Lemma hexs_tail_colon ws : hexs_tail ws ++ [58] = 58 :: colons ws.
Proof.
  induction ws as [|w ws IH]; [done|]. cbn [hexs_tail colons mbind list_bind]. fold (hexs_tail ws) (colons ws).
  rewrite <- app_assoc. unfold hexs_tail in IH |- *. rewrite IH. cbn. by rewrite <- app_assoc.
Qed.

Lemma hexs_colon ws : ws <> [] -> hexs ws ++ [58] = colons ws.
Proof.
  destruct ws as [|w ws]; [done|]. intros _. cbn [hexs colons mbind list_bind]. fold (colons ws).
  rewrite <- app_assoc, hexs_tail_colon, <- app_assoc. done.
Qed.

Lemma hexs_last ws w : hexs (ws ++ [w]) = colons ws ++ hexadecimal w.
Proof.
  destruct ws as [|v ws]; [cbn; by rewrite app_nil_r|]. cbn [app hexs colons mbind list_bind]. fold (colons ws).
  unfold hexs_tail. rewrite bind_app. fold (hexs_tail ws). cbn. rewrite app_nil_r.
  rewrite (cons_middle 58), (app_assoc (hexs_tail ws)), hexs_tail_colon, <- !app_assoc. done.
Qed.

Lemma digits_nonempty b n : 2 <= b -> 0 <= n -> exists c t, digit_char <$> to_digits b n = c :: t /\ c <> 58.
Proof.
  intros Pb P. destruct (to_digits_ok b Pb n P) as [F _ (d & ds & E & _)]. rewrite E in *. inversion F; subst.
  exists (digit_char d), (digit_char <$> ds). split; [done|]. unfold digit_char. destruct (Z.ltb_spec d 10); lia.
Qed.

Lemma wbytes_len ws : len (wbytes ws) = 2 * len ws.
Proof.
  induction ws as [|w ws IH]; [done|]. cbn [wbytes mbind list_bind]. rewrite len_app, len_cons. fold (wbytes ws).
  unfold wbytes in *. rewrite IH. change (len (group_bytes w)) with 2. lia.
Qed.

Section Pton6.
Variable tmp4 : list Z.
Hypothesis tmp4_len : length tmp4 = 4%nat.

Abbreviation loop := (pton6_loop tmp4).

Lemma hex_digit_char d : 0 <= d < 16 -> hex_digit_value (digit_char d) = d.
Proof. intros B. unfold hex_digit_value, digit_char. destruct (Z.ltb_spec d 10); repeat (case_match; [lia|]); lia. Qed.

Lemma pton6_digits ds : forall s ct c tp xd val, Forall (fun d => 0 <= d < 16) ds -> 0 <= xd -> xd + len ds <= 4 ->
  0 <= val < 16 ^ xd ->
  loop ((digit_char <$> ds) ++ s) ct c tp xd val = loop s ct c tp (xd + len ds) (number 16 val ds).
Proof.
  induction ds as [|d ds IH]; intros s ct c tp xd val F P L B.
  { cbn. by rewrite Z.add_0_r. }
  inversion F as [|? ? Bd F']; subst. rewrite len_cons in L. pose proof (Nat2Z.is_nonneg (length ds)) as N. fold (len ds) in N.
  cbn [fmap list_fmap app pton6_loop]. rewrite hex_digit_char, (proj2 (Z.leb_le _ _)), (proj2 (Z.eqb_neq _ _)) by lia.
  assert (16 ^ xd <= 16 ^ 3) as B3 by (apply Z.pow_le_mono_r; lia).
  rewrite Z.shiftl_mul_pow2 by lia. rewrite wrap_small by lia. change (2 ^ 4) with 16.
  assert (Z.lor (val * 16) d = val * 16 + d) as ->.
  { rewrite <- (Z.mul_comm 16). change 16 with (2 ^ 4). rewrite Z.mul_comm. apply lor_mul_pow2_add; lia. }
  rewrite (proj2 (Z.ltb_ge _ _)) by lia. fold (digit_char <$> ds). rewrite IH by (try done; try lia; rewrite Z.pow_add_r; lia).
  rewrite len_cons. by replace (xd + 1 + len ds) with (xd + (1 + len ds)) by lia.
Qed.

(** A group is read. *)
Lemma pton6_hex w s ct c tp : group w -> exists xd, 0 < xd /\
  loop (hexadecimal w ++ s) ct c tp 0 0 = loop s ct c tp xd w.
Proof.
  intros B. unfold group in B. destruct (to_digits_ok 16 ltac:(lia) w ltac:(lia)) as [F V (d & ds & E & _)].
  pose proof (to_digits_length 16 ltac:(lia) w 4 ltac:(simpl; lia) ltac:(lia)) as L.
  exists (0 + len (to_digits 16 w)). split; [rewrite E; unfold len; simpl; lia|]. unfold hexadecimal.
  rewrite pton6_digits by (first [done | lia | unfold len; lia]). by rewrite V.
Qed.

Lemma put_group_at w pre x y r k : group w -> len pre + 2 <= 16 ->
  put_group (len pre) w k (pre ++ x :: y :: r) = k ((pre ++ group_bytes w) ++ r).
Proof.
  intros B L. unfold group in B. unfold put_group, NS_IN6ADDRSZ, NS_INT16SZ. rewrite (proj2 (Z.ltb_ge _ _)) by lia.
  rewrite (bind_some _ _ _ _ _ (put_at _ _ _ _ _ eq_refl)).
  replace (pre ++ _ :: y :: r) with ((pre ++ [Z.land (wrap 8 (Z.shiftr w 8)) 255]) ++ y :: r) by (by rewrite <- app_assoc).
  erewrite bind_some by (apply put_at; by rewrite len_app). rewrite <- !app_assoc. unfold group_bytes. cbn [app].
  change 255 with (Z.ones 8). rewrite !Z.land_ones, Z.shiftr_div_pow2 by lia. unfold wrap. rewrite !Z.mod_mod by lia.
  change (2 ^ 8) with 256. rewrite (Z.mod_small (w / 256)); [done|]. split; [apply Z.div_pos; lia|apply Z.div_lt_upper_bound; lia].
Qed.

(** Groups with a colon behind each. *)
Lemma pton6_colons ws : forall s c pre r, s <> [] -> Forall group ws -> len pre + 2 * len ws <= 16 -> len r = 2 * len ws ->
  forall r', loop (colons ws ++ s) (colons ws ++ s) c (len pre) 0 0 (pre ++ r ++ r') =
  loop s s c (len (pre ++ wbytes ws)) 0 0 ((pre ++ wbytes ws) ++ r').
Proof.
  induction ws as [|w ws IH]; intros s c pre r Ns F L Lr r'.
  { destruct r; [|unfold len in Lr; simpl in Lr; lia]. cbn. by rewrite app_nil_r. }
  inversion F as [|? ? B F']; subst. rewrite len_cons in *. pose proof (Nat2Z.is_nonneg (length ws)) as N. fold (len ws) in N.
  destruct r as [|x [|y r]]; [unfold len in *; simpl in *; lia..|].
  cbn [colons mbind list_bind]. fold (colons ws). rewrite <- !app_assoc.
  set (ct := hexadecimal w ++ _). destruct (pton6_hex w ([58] ++ colons ws ++ s) ct c (len pre) B) as (xd & Px & E).
  unfold ct at 1. rewrite E. cbn [app pton6_loop]. change (hex_digit_value 58) with (-1). cbn [Z.leb Z.compare Z.eqb Pos.eqb].
  rewrite (proj2 (Z.eqb_neq _ _)) by lia. destruct (colons ws ++ s) as [|h t] eqn:Eh; [by destruct (colons ws), s|].
  rewrite put_group_at by (first [done | lia]).
  replace (len pre + 2) with (len (pre ++ group_bytes w)) by (by rewrite len_app). rewrite <- Eh, IH; [|done|done|rewrite len_app; change (len (group_bytes w)) with 2; lia|rewrite !len_cons in Lr; lia].
  cbn [wbytes mbind list_bind]. fold (wbytes ws). by rewrite <- !app_assoc.
Qed.

(** The double colon. *)
Lemma pton6_double s ct tp : loop (58 :: s) ct None tp 0 0 = loop s s (Some tp) tp 0 0.
Proof. done. Qed.

(** The last group, or the last four bytes. *)
Lemma pton6_last_hex w ct c pre x y r : group w -> len pre + 2 <= 16 ->
  loop (hexadecimal w) ct c (len pre) 0 0 (pre ++ x :: y :: r) = expand c (len pre + 2) ((pre ++ group_bytes w) ++ r).
Proof.
  intros B L. destruct (pton6_hex w [] ct c (len pre) B) as (xd & Px & E). rewrite app_nil_r in E. rewrite E.
  cbn [pton6_loop]. unfold pton6_end. rewrite (proj2 (Z.ltb_lt _ _)) by lia. by apply put_group_at.
Qed.

Lemma pton6_last_dots bs c pre old r : length bs = 4%nat -> Forall byte bs -> len pre + 4 <= 16 -> length old = 4%nat ->
  loop (dots bs) (dots bs) c (len pre) 0 0 (pre ++ old ++ r) = expand c (len pre + 4) ((pre ++ bs) ++ r).
Proof.
  intros Lb F L Lo. destruct bs as [|b bs]; [done|]. inversion F as [|? ? B F']; subst. unfold byte in B.
  assert (dots (b :: bs) = (digit_char <$> to_digits 10 b) ++ 46 :: tail (dots_tail bs)) as E by (destruct bs; done).
  rewrite E at 1. destruct (to_digits_ok 10 ltac:(lia) b ltac:(lia)) as [Fd _ _].
  pose proof (to_digits_length 10 ltac:(lia) b 3 ltac:(simpl; lia) ltac:(lia)) as Ld.
  rewrite pton6_digits; [|eapply list.Forall_impl; [exact Fd|]; simpl; lia|lia|unfold len; lia|done].
  cbn [pton6_loop]. change (hex_digit_value 46) with (-1). cbn [Z.leb Z.compare Z.eqb Pos.eqb andb].
  unfold NS_INADDRSZ, NS_IN6ADDRSZ. rewrite (proj2 (Z.leb_le _ _)) by lia. rewrite pton4_reads by done.
  rewrite (bind_some _ _ _ _ _ (puts_at _ _ (b :: bs) old r eq_refl ltac:(congruence))). by rewrite app_assoc.
Qed.

(** The zeros in place of the double colon. *)
Lemma gets_at n i pre l r : i = len pre -> length l = n -> gets n i (pre ++ l ++ r) = Some (l, pre ++ l ++ r).
Proof.
  revert i pre l. induction n as [|n IH]; intros i pre l E L; destruct l as [|x l]; try done.
  cbn [gets app]. rewrite (bind_some _ _ _ _ _ (get_at _ _ _ _ E)). rewrite (cons_middle x pre), app_assoc.
  rewrite (bind_some _ _ _ _ _ (IH (i + 1) (pre ++ [x]) l ltac:(rewrite len_app; unfold len in *; simpl; lia) ltac:(by injection L))).
  by rewrite <- app_assoc.
Qed.

Lemma expand_at a b r : len a + len b < 16 -> len a + len b + len r = 16 ->
  expand (Some (len a)) (len a + len b) ((a ++ b) ++ r) = Some (true, a ++ replicate (length r) 0 ++ b).
Proof.
  intros L E. unfold expand, NS_IN6ADDRSZ. rewrite (proj2 (Z.eqb_neq _ _)) by lia.
  replace (len a + len b - len a) with (len b) by lia. rewrite <- app_assoc.
  erewrite bind_some by (apply gets_at; [done|unfold len; lia]).
  assert (exists u v, b ++ r = u ++ v /\ length u = length r /\ length v = length b) as (u & v & Ebr & Lu & Lv).
  { exists (take (length r) (b ++ r)), (drop (length r) (b ++ r)). rewrite take_drop, length_take, length_drop, length_app.
    split; [done|]. lia. }
  rewrite Ebr, (app_assoc a). erewrite bind_some.
  2:{ rewrite <- (app_nil_r v) at 1. apply puts_at; [rewrite len_app; unfold len in *; lia|done]. }
  rewrite app_nil_r, <- app_assoc. erewrite bind_some.
  2:{ apply puts_at; [done|]. rewrite length_replicate. unfold len in *. lia. }
  replace (Z.to_nat (16 - len b - len a)) with (length r) by (unfold len in *; lia). done.
Qed.

(** What can stand at the end of an address, and its bytes. *)
Inductive ending : list Z -> list Z -> Prop :=
  | ending_nil : ending [] []
  | ending_hex ws w : Forall group ws -> group w -> ending (colons ws ++ hexadecimal w) (wbytes ws ++ group_bytes w)
  | ending_dots ws bs : Forall group ws -> length bs = 4%nat -> Forall byte bs -> ending (colons ws ++ dots bs) (wbytes ws ++ bs).

Lemma pton6_ending tx bs : ending tx bs -> forall c pre old r, len pre + len bs <= 16 -> len old = len bs ->
  loop tx tx c (len pre) 0 0 (pre ++ old ++ r) = expand c (len pre + len bs) ((pre ++ bs) ++ r).
Proof.
  intros H c pre old r L Lo. destruct H as [|ws w F B|ws bs F Lb Fb].
  - destruct old; [|unfold len in Lo; simpl in Lo; lia]. cbn [app]. change (len []) with 0. by rewrite Z.add_0_r, app_nil_r.
  - rewrite len_app, wbytes_len in *. change (len (group_bytes w)) with 2 in *.
    destruct (split_room old (2 * len ws)) as (o1 & o2 & -> & Lo1); [unfold len in *; lia|]. rewrite len_app in Lo.
    destruct (digits_nonempty 16 w) as (h & t & Eh & _); [lia|unfold group in B; lia|].
    rewrite <- (app_assoc o1), (pton6_colons ws (hexadecimal w)); [|unfold hexadecimal; by rewrite Eh|done|lia|done].
    destruct o2 as [|x [|y [|]]]; unfold len in Lo, Lo1; simpl in Lo; try lia. cbn [app].
    rewrite pton6_last_hex by (first [done | rewrite len_app, wbytes_len; lia]). rewrite len_app, wbytes_len, <- !app_assoc.
    by rewrite Z.add_assoc.
  - rewrite len_app, wbytes_len in *. assert (len bs = 4) as Lb' by (unfold len; lia). rewrite Lb' in *.
    destruct (split_room old (2 * len ws)) as (o1 & o2 & -> & Lo1); [unfold len in *; lia|]. rewrite len_app in Lo.
    assert (exists h t, dots bs = h :: t) as (h & t & Eh).
    { destruct bs as [|b bs]; [done|]. inversion Fb as [|? ? B _]; subst. unfold byte in B.
      destruct (digits_nonempty 10 b) as (h & t & Eh & _); [lia|lia|]. cbn [dots]. unfold decimal. rewrite Eh. by eexists _, _. }
    rewrite <- (app_assoc o1), (pton6_colons ws (dots bs)); [|by rewrite Eh|done|lia|done].
    rewrite pton6_last_dots by (first [done | rewrite len_app, wbytes_len; lia | unfold len in *; lia]).
    rewrite len_app, wbytes_len, <- !app_assoc. by rewrite Z.add_assoc.
Qed.

(** The loop from the beginning, with the leading colon taken off. *)
Definition pton6_go (src : list Z) : option (option (list Z)) :=
  match loop src src None 0 0 0 (replicate 16 0) with
  | None => None
  | Some (true, tmp) => Some (Some tmp)
  | Some (false, _) => Some None
  end.

Lemma pton6_start src : cur src <> 58 -> src <> [] -> inet_pton6 tmp4 src = pton6_go src.
Proof. destruct src as [|c src]; [done|]. cbn [cur]. intros N _. unfold inet_pton6. by rewrite (proj2 (Z.eqb_neq c 58) N). Qed.

Lemma ending_start tx bs : ending tx bs -> cur tx <> 58.
Proof.
  assert (forall ws s, Forall group ws -> cur s <> 58 -> cur (colons ws ++ s) <> 58) as C.
  { intros ws s F N. destruct F as [|w ws B F]; [done|]. unfold group in B.
    destruct (digits_nonempty 16 w) as (h & t & E & Nh); [lia|lia|]. cbn [colons mbind list_bind]. unfold hexadecimal. by rewrite E. }
  intros H. destruct H as [|ws w F B|ws bs F Lb Fb]; [done|apply C; [done|]..].
  - unfold group in B. destruct (digits_nonempty 16 w) as (h & t & E & Nh); [lia|lia|]. unfold hexadecimal. by rewrite E.
  - destruct bs as [|b bs]; [done|]. inversion Fb as [|? ? B _]; subst. unfold byte in B.
    destruct (digits_nonempty 10 b) as (h & t & E & Nh); [lia|lia|]. cbn [dots]. unfold decimal. by rewrite E.
Qed.

Lemma replicate16 n : (n <= 16)%nat -> replicate 16 0 = replicate n 0 ++ replicate (16 - n) 0.
Proof. intros L. rewrite <- replicate_add. f_equal. lia. Qed.

(** An address without [::]. *)
Lemma pton6_full tx bs : ending tx bs -> tx <> [] -> len bs = 16 -> inet_pton6 tmp4 tx = Some (Some bs).
Proof.
  intros H N L. rewrite (pton6_start tx (ending_start tx bs H) N). unfold pton6_go.
  pose proof (pton6_ending tx bs H None [] (replicate 16 0) [] ltac:(change (len []) with 0; lia) ltac:(done)) as E.
  cbn [app] in E. change (len []) with 0 in E. rewrite app_nil_r in E. rewrite E. rewrite L. unfold expand. cbn. by rewrite app_nil_r.
Qed.

(** An address with [::] behind the groups [ws]. *)
Lemma pton6_compressed ws tx bs : Forall group ws -> ending tx bs -> 2 * len ws + len bs < 16 ->
  inet_pton6 tmp4 ((match ws with [] => [58] | _ => colons ws end) ++ 58 :: tx) =
  Some (Some (wbytes ws ++ replicate (16 - length (wbytes ws) - length bs) 0 ++ bs)).
Proof.
  intros F H L. pose proof (Nat2Z.is_nonneg (length bs)) as Nb. pose proof (Nat2Z.is_nonneg (length ws)) as Nw.
  assert (inet_pton6 tmp4 ((match ws with [] => [58] | _ => colons ws end) ++ 58 :: tx) = pton6_go (colons ws ++ 58 :: tx)) as ->.
  { destruct F as [|w ws B F]; [done|]. unfold group in B. apply pton6_start;
      (destruct (digits_nonempty 16 w) as (h & t & E & Nh); [lia|lia|]; cbn [colons mbind list_bind]; unfold hexadecimal; by rewrite E). }
  unfold pton6_go. pose proof (wbytes_len ws) as Lw. fold (len bs) (len ws) in *.
  assert (exists k, 16 - length (wbytes ws) - length bs = k /\ 16 = length (wbytes ws) + (length bs + k))%nat as (k & -> & Ek)
    by (eexists; split; [done|]; unfold len in *; lia).
  rewrite Ek, !replicate_add.
  pose proof (pton6_colons ws (58 :: tx) None [] (replicate (length (wbytes ws)) 0) ltac:(done) F) as E.
  change (len []) with 0 in E. cbn [app] in E. rewrite E by (unfold len in *; rewrite ?length_replicate; lia).
  rewrite pton6_double, (pton6_ending tx bs H) by (unfold len in *; rewrite ?length_replicate; lia).
  rewrite expand_at by (unfold len in *; rewrite ?length_replicate; lia). by rewrite length_replicate.
Qed.
End Pton6.
