(* ===== verification/InetPrint.v ===== *)
(** * Internet addresses: what is printed

    The run of zero groups that [inet_ntop6] replaces is the first of the
    longest ones ([best_run_first_longest]).  What it prints stays within the
    array on the stack and is a text that [inet_pton6] reads back. *)

From S2P Require Import Prelude CMonad Buffer Numerals Strtol Inet InetText.
Open Scope c_scope.

(** ** The run of zeros *)

(** [l] zero groups from the [b]th on. *)
Definition zeros_at (ws : list Z) (b l : Z) : bool := (b + l <=? len ws) && forallb (Z.eqb 0) (take (Z.to_nat l) (drop (Z.to_nat b) ws)).

(** The first of the longest runs of two or more, if there is one. *)
Definition first_longest (ws : list Z) (r : zero_run) : bool :=
  let runs := b ← seqZ 0 8; l ← seqZ 2 7; if zeros_at ws b l then [(b, l)] else [] in
  if zbase r =? -1 then match runs with [] => true | _ => false end
  else (0 <=? zbase r) && (2 <=? zlen r) && zeros_at ws (zbase r) (zlen r) &&
       forallb (fun '(b, l) => (l <? zlen r) || ((l =? zlen r) && (zbase r <=? b))) runs.

Definition flatten (ws : list Z) : list Z := (fun w => if w =? 0 then 0 else 1) <$> ws.

Lemma scan_flatten ws : forall i best cur, scan_runs i (flatten ws) best cur = scan_runs i ws best cur.
Proof.
  induction ws as [|w ws IH]; intros i best cur; [done|]. cbn [flatten fmap list_fmap scan_runs].
  fold (flatten ws). destruct (w =? 0); cbn; by rewrite !IH.
Qed.

Lemma zeros_flatten ws b l : zeros_at (flatten ws) b l = zeros_at ws b l.
Proof.
  unfold zeros_at. f_equal; [unfold len, flatten; by rewrite length_fmap|].
  unfold flatten. rewrite <- fmap_drop, <- fmap_take. generalize (take (Z.to_nat l) (drop (Z.to_nat b) ws)). intros k.
  induction k as [|w k IH]; [done|]. cbn [fmap list_fmap forallb]. fold (fmap (M:=list) (fun w => if w =? 0 then 0 else 1) k). rewrite IH.
  f_equal. destruct (Z.eqb_spec w 0) as [->|N]; [done|]. by rewrite (proj2 (Z.eqb_neq 0 w)) by lia.
Qed.

(** All lists of zeros and ones. *)
Fixpoint patterns (n : nat) : list (list Z) :=
  match n with
  | O => [[]]
  | S n => (cons 0 <$> patterns n) ++ (cons 1 <$> patterns n)
  end.

Lemma flatten_pattern ws : flatten ws ∈ patterns (length ws).
Proof.
  induction ws as [|w ws IH]; [apply list_elem_of_here|]. cbn [length patterns flatten fmap list_fmap]. fold (flatten ws).
  apply elem_of_app. destruct (w =? 0); [left|right]; apply list_elem_of_fmap; by exists (flatten ws).
Qed.

Lemma best_run_check : forallb (fun p => first_longest p (best_run p)) (patterns 8) = true.
Proof. vm_compute. reflexivity. Qed.

Lemma first_longest_flatten ws r : first_longest (flatten ws) r = first_longest ws r.
Proof.
  unfold first_longest.
  assert ((b ← seqZ 0 8; l ← seqZ 2 7; if zeros_at (flatten ws) b l then [(b, l)] else []) =
          (b ← seqZ 0 8; l ← seqZ 2 7; if zeros_at ws b l then [(b, l)] else [])) as ->.
  { apply list_bind_ext; [intros b|done]. apply list_bind_ext; [intros l|done]. by rewrite zeros_flatten. }
  by rewrite zeros_flatten.
Qed.

Lemma best_run_first_longest ws : length ws = 8%nat -> first_longest ws (best_run ws) = true.
Proof.
  intros L. pose proof best_run_check as C. rewrite forallb_forall in C. specialize (C (flatten ws)).
  rewrite <- first_longest_flatten. unfold best_run in *. rewrite <- (scan_flatten ws). apply C.
  apply list_elem_of_In. rewrite <- L. apply flatten_pattern.
Qed.

(** What the printer needs of it. *)
Lemma best_run_split ws : length ws = 8%nat -> let r := best_run ws in
  zbase r = -1 \/ (2 <= zlen r /\ exists a b, ws = a ++ replicate (Z.to_nat (zlen r)) 0 ++ b /\ len a = zbase r).
Proof.
  intros L r. pose proof (best_run_first_longest ws L) as H. unfold first_longest in H. fold r in H.
  destruct (Z.eqb_spec (zbase r) (-1)) as [|N]; [by left|right]. destruct r as [b l]. cbn [zbase zlen] in *.
  apply andb_true_iff in H as [H _]. apply andb_true_iff in H as [H Hz]. apply andb_true_iff in H as [H0 H2].
  split; [lia|]. unfold zeros_at in Hz. apply andb_true_iff in Hz as [Hl Hz].
  exists (take (Z.to_nat b) ws), (drop (Z.to_nat l) (drop (Z.to_nat b) ws)). unfold len in *. rewrite length_take. split; [|lia].
  assert (take (Z.to_nat l) (drop (Z.to_nat b) ws) = replicate (Z.to_nat l) 0) as <-; [|by rewrite !take_drop].
  apply Z.leb_le in Hl. assert (length (take (Z.to_nat l) (drop (Z.to_nat b) ws)) = Z.to_nat l) as Lt
    by (rewrite length_take, length_drop; lia).
  rewrite <- Lt at 2. revert Hz. generalize (take (Z.to_nat l) (drop (Z.to_nat b) ws)). intros k. clear.
  induction k as [|w k IH]; [done|]. cbn [forallb length replicate]. intros H. apply andb_true_iff in H as [<-%Z.eqb_eq H2]. by rewrite <- IH.
Qed.

(** ** The text *)

Lemma len_nonneg' l : 0 <= len l.
Proof. unfold len. lia. Qed.

Lemma hexadecimal_len w : group w -> len (hexadecimal w) <= 4.
Proof.
  intros B. unfold group in B. pose proof (to_digits_length 16 ltac:(lia) w 4 ltac:(simpl; lia) ltac:(lia)).
  unfold hexadecimal, len. rewrite length_fmap. lia.
Qed.

Lemma decimal_len b : byte b -> len (decimal b) <= 3.
Proof.
  intros B. unfold byte in B. pose proof (to_digits_length 10 ltac:(lia) b 3 ltac:(simpl; lia) ltac:(lia)).
  unfold decimal, len. rewrite length_fmap. lia.
Qed.

Lemma fmt4_len bs : length bs = 4%nat -> Forall byte bs -> len (fmt4 bs) <= 15.
Proof.
  intros L F. destruct bs as [|a [|b [|c [|d [|]]]]]; try done. unfold fmt4. cbn [nth_byte]. rewrite !len_app.
  rewrite !list.Forall_cons in F. destruct F as (Ba & Bb & Bc & Bd & _).
  pose proof (decimal_len a Ba). pose proof (decimal_len b Bb). pose proof (decimal_len c Bc). pose proof (decimal_len d Bd).
  change (len [46]) with 1. lia.
Qed.

(** A string is stored with its zero. *)
Lemma puts_string pre t rest : len t + 1 <= len rest ->
  exists r, puts (len pre) (t ++ [0]) (pre ++ rest) = Some (tt, (pre ++ t) ++ r) /\ len t + len r = len rest /\
    exists q, r = 0 :: q.
Proof.
  intros L. destruct (split_room rest (len t + 1)) as (o & r & -> & Lo); [unfold len in *; lia|].
  exists (0 :: r). rewrite (puts_at pre (len pre) (t ++ [0]) o r) by (first [done | rewrite length_app; unfold len in *; simpl; lia]).
  rewrite <- !app_assoc. split; [done|]. split; [rewrite len_app, len_cons; lia|by eexists].
Qed.

Section Print.
Variables (src : list Z) (best : zero_run) (w5 : Z).

Definition inside (i : Z) : bool := negb (zbase best =? -1) && (zbase best <=? i) && (i <? zbase best + zlen best).
Definition embedded : bool := (zbase best =? 0) && ((zlen best =? 6) || ((zlen best =? 5) && (w5 =? 0xffff))).

(** What the loop writes. *)
Fixpoint emit (i : Z) (ws : list Z) : list Z :=
  match ws with
  | [] => []
  | w :: ws =>
    if inside i then (if i =? zbase best then [58] else []) ++ emit (i + 1) ws
    else (if i =? 0 then [] else [58]) ++
         (if (i =? 6) && embedded then fmt4 (drop 12 src) else hexadecimal w ++ emit (i + 1) ws)
  end.

(** ** Its form *)

Lemma emit_plain i ws : zbase best = -1 -> 0 <= i -> emit i ws = if i =? 0 then hexs ws else hexs_tail ws.
Proof.
  intros B. assert (forall i ws, 0 < i -> emit i ws = hexs_tail ws) as Tail.
  { intros j k. revert j. induction k as [|w k IH]; intros j P; [done|]. cbn [emit]. unfold inside, embedded. rewrite B.
    cbn [Z.eqb Pos.eqb negb andb]. rewrite andb_false_r, (proj2 (Z.eqb_neq j 0)), IH by lia. done. }
  intros P. destruct (Z.eqb_spec i 0) as [->|]; [|by apply Tail; lia]. destruct ws as [|w ws]; [done|]. cbn [emit].
  unfold inside, embedded. rewrite B. cbn [Z.eqb Pos.eqb negb andb app]. by rewrite Tail by lia.
Qed.

Lemma emit_before a ws : forall i, 0 <= i -> i + len a <= zbase best ->
  emit i (a ++ ws) = (if i =? 0 then hexs a else hexs_tail a) ++ emit (i + len a) ws.
Proof.
  assert (forall a i, 0 < i -> i + len a <= zbase best -> emit i (a ++ ws) = hexs_tail a ++ emit (i + len a) ws) as Tail.
  { intros k. induction k as [|w k IH]; intros j P B; [change (len []) with 0; by rewrite Z.add_0_r|]. rewrite len_cons in *.
    pose proof (len_nonneg' k). cbn [emit app]. unfold inside, embedded.
    rewrite (proj2 (Z.leb_gt (zbase best) j)), andb_false_r, !(proj2 (Z.eqb_neq _ 0)) by lia. cbn [andb app]. rewrite andb_false_r, IH by lia.
    cbn [hexs_tail mbind list_bind app]. rewrite <- app_assoc. by replace (j + 1 + len k) with (j + (1 + len k)) by lia. }
  intros i P B. destruct (Z.eqb_spec i 0) as [->|]; [|by apply Tail; lia]. destruct a as [|w a]; [done|]. rewrite len_cons in *.
  pose proof (len_nonneg' a). cbn [emit app hexs]. unfold inside, embedded.
  rewrite (proj2 (Z.leb_gt (zbase best) 0)), andb_false_r by lia. cbn [andb app Z.eqb]. rewrite Tail, <- app_assoc by lia.
  done.
Qed.

Lemma emit_inside z ws : 0 <= zbase best -> len z = zlen best -> 0 < zlen best ->
  emit (zbase best) (z ++ ws) = 58 :: emit (zbase best + zlen best) ws.
Proof.
  intros P L Pl. assert (forall k i, zbase best < i -> i + len k = zbase best + zlen best ->
    emit i (k ++ ws) = emit (zbase best + zlen best) ws) as Rest.
  { intros k. induction k as [|w k IH]; intros i B E; [change (len []) with 0 in E; cbn; f_equal; lia|]. rewrite len_cons in E.
    pose proof (len_nonneg' k). cbn [emit app]. unfold inside.
    rewrite (proj2 (Z.leb_le _ _)), (proj2 (Z.ltb_lt _ _)), (proj2 (Z.eqb_neq (zbase best) _)), (proj2 (Z.eqb_neq i _)) by lia.
    cbn [negb andb app]. apply IH; lia. }
  destruct z as [|w z]; [unfold len in L; simpl in L; lia|]. rewrite len_cons in L. cbn [emit app]. unfold inside.
  rewrite (proj2 (Z.leb_le _ _)), (proj2 (Z.ltb_lt _ _)), (proj2 (Z.eqb_neq (zbase best) _)), Z.eqb_refl by lia.
  cbn [negb andb app]. by rewrite Rest by lia.
Qed.

Lemma emit_after ws : forall i, 0 < i -> 0 <= zbase best -> zbase best + zlen best <= i -> embedded = false ->
  emit i ws = hexs_tail ws.
Proof.
  induction ws as [|w ws IH]; intros i P B E V; [done|]. cbn [emit]. unfold inside.
  rewrite (proj2 (Z.ltb_ge _ _)), andb_false_r, (proj2 (Z.eqb_neq i 0)), V, andb_false_r by lia.
  rewrite IH by (first [done | lia]). done.
Qed.
(** ** Writing it *)

(** The last four bytes are printed as an IPv4 address. *)
Hypothesis v4_ok : length (drop 12 src) = 4%nat /\ Forall byte (drop 12 src).

Definition fills (pre t : list Z) (res : option (option Z * list Z)) : Prop :=
  exists rest, res = Some (Some (len (pre ++ t)), (pre ++ t) ++ rest) /\ len (pre ++ t) + len rest = TMP6.

Lemma fills_app pre t u res : fills (pre ++ t) u res -> fills pre (t ++ u) res.
Proof. unfold fills. by rewrite <- app_assoc. Qed.

(** The loop writes it when [tmp] has room for one byte more. *)
Lemma ntop6_loop_ok ws : forall i pre rest, len pre + len rest = TMP6 -> len pre + len (emit i ws) < TMP6 ->
  fills pre (emit i ws) (ntop6_loop src best w5 i ws (len pre) (pre ++ rest)).
Proof.
  unfold TMP6. induction ws as [|w ws IH]; intros i pre rest L R.
  { cbn. exists rest. rewrite app_nil_r. done. }
  assert (forall t, len pre + len ([58] ++ t) < 46 -> exists r, put (len pre) 58 (pre ++ rest) = Some (tt, (pre ++ [58]) ++ r) /\
    len (pre ++ [58]) + len r = 46) as Colon.
  { intros t Rt. rewrite len_app in Rt. pose proof (len_nonneg' t). change (len [58]) with 1 in Rt.
    destruct rest as [|x r]; [unfold len in *; simpl in *; lia|]. exists r. rewrite put_at, <- app_assoc by done. split; [done|].
    rewrite len_cons in L. rewrite len_app. change (len [58]) with 1. lia. }
  cbn [emit ntop6_loop] in *. fold (inside i). rewrite <- (andb_assoc (i =? 6)). fold embedded.
  destruct (inside i).
  - destruct (i =? zbase best); [|by apply IH]. destruct (Colon _ R) as (r & E & Lr). rewrite (bind_some _ _ _ _ _ E).
    replace (len pre + 1) with (len (pre ++ [58])) by (by rewrite len_app). apply fills_app, IH; [done|]. rewrite len_app in *. lia.
  - set (c := if i =? 0 then [] else [58]) in *.
    assert (exists r, (if negb (i =? 0) then put (len pre) 58;; ret (len pre + 1) else ret (len pre)) (pre ++ rest) =
      Some (len (pre ++ c), (pre ++ c) ++ r) /\ len (pre ++ c) + len r = 46) as (r & E & Lr).
    { unfold c in *. destruct (i =? 0); cbn [negb]; [exists rest; rewrite app_nil_r; done|].
      destruct (Colon _ R) as (r & E & Lr). exists r. split; [|done]. rewrite (bind_some _ _ _ _ _ E), (len_app pre). done. }
    rewrite (bind_some _ _ _ _ _ E). apply fills_app. rewrite len_app in R.
    assert (len (pre ++ c) + len (if (i =? 6) && embedded then fmt4 (drop 12 src) else hexadecimal w ++ emit (i + 1) ws) < 46) as R'
      by (rewrite (len_app pre); lia). clear R E. set (p := pre ++ c) in *. clearbody p.
    destruct ((i =? 6) && embedded).
    + unfold inet_ntop4, TMP6. destruct v4_ok as [L4 F4]. pose proof (fmt4_len _ L4 F4).
      rewrite (proj2 (Z.leb_gt _ _)), (proj2 (Z.leb_gt (46 - len p) _)) by lia.
      destruct (puts_string p (fmt4 (drop 12 src)) r) as (r' & Ep & Lp & _); [lia|].
      rewrite bind_bind, (bind_some _ _ _ _ _ Ep). erewrite bind_some by reflexivity. exists r'. rewrite len_app.
      split; [done|]. unfold TMP6. lia.
    + rewrite len_app in R'. pose proof (len_nonneg' (emit (i + 1) ws)).
      destruct (puts_string p (hexadecimal w) r) as (r' & Ep & Lp & _); [lia|]. rewrite (bind_some _ _ _ _ _ Ep).
      rewrite <- len_app. apply fills_app, IH; rewrite len_app; lia.
Qed.

End Print.

Lemma words_ok n src : length src = (2 * n)%nat -> Forall byte src ->
  length (words src) = n /\ Forall group (words src) /\ wbytes (words src) = src.
Proof.
  revert src. induction n as [|n IH]; intros src L F; [destruct src; [by repeat split|done]|].
  destruct src as [|a [|b src]]; [done|simpl in L; lia|]. rewrite !list.Forall_cons in F. destruct F as (Ba & Bb & F).
  unfold byte in *. destruct (IH src) as (L' & F' & E); [simpl in L; lia|done|]. cbn [words length wbytes mbind list_bind].
  rewrite Z.shiftl_mul_pow2, lor_mul_pow2_add by lia. change (2 ^ 8) with 256.
  split; [by rewrite L'|]. split; [constructor; [unfold group; lia|done]|]. fold (wbytes (words src)). unfold wbytes in *. rewrite E.
  unfold group_bytes. rewrite Z.div_add_l, Z.div_small, Z.add_0_r by lia. cbn.
  by rewrite Z.add_comm, Z.mod_add, Z.mod_small by lia.
Qed.

Lemma emit_len src best w5 ws : Forall group ws -> embedded best w5 = false ->
  forall i, len (emit src best w5 i ws) <= 5 * len ws.
Proof.
  intros F V. induction F as [|w ws B F IH]; intros i; [done|]. cbn [emit]. rewrite V, andb_false_r, len_cons.
  pose proof (hexadecimal_len w B). specialize (IH (i + 1)).
  destruct (inside best i); [destruct (i =? zbase best)|destruct (i =? 0)]; rewrite ?len_app; change (len [58]) with 1; change (len []) with 0; lia.
Qed.

Lemma wbytes_app a b : wbytes (a ++ b) = wbytes a ++ wbytes b.
Proof. apply bind_app. Qed.

Lemma wbytes_zeros n : wbytes (replicate n 0) = replicate (2 * n) 0.
Proof.
  induction n as [|n IH]; [done|]. cbn [replicate wbytes mbind list_bind]. fold (wbytes (replicate n 0)). unfold wbytes in *. rewrite IH.
  replace (2 * S n)%nat with (S (S (2 * n))) by lia. done.
Qed.

Lemma ending_hexs ws : Forall group ws -> ending (hexs ws) (wbytes ws).
Proof.
  intros F. destruct ws as [|w ws _] using rev_ind; [constructor|]. apply Forall_app in F as [F1 F2]. inversion F2; subst.
  rewrite hexs_last, wbytes_app. cbn. by constructor.
Qed.

Section Text.
Variable src : list Z.
Hypothesis src_len : length src = 16%nat.
Hypothesis src_bytes : Forall byte src.
Let ws := words src.
Let best := best_run ws.
Let w5 := nth_byte ws 5.

(** The printed address. *)
Definition text6 : list Z :=
  emit src best w5 0 ws ++ (if negb (zbase best =? -1) && (zbase best + zlen best =? 8) then [58] else []).

Lemma v4_bytes : length (drop 12 src) = 4%nat /\ Forall byte (drop 12 src).
Proof. rewrite length_drop. split; [lia|by apply Forall_drop]. Qed.

(** The form of the text with an embedded IPv4 address. *)
Lemma text6_embedded : embedded best w5 = true ->
  exists tx bs, text6 = 58 :: 58 :: tx /\ ending tx bs /\ src = replicate (16 - length bs) 0 ++ bs /\
    (length bs <= 6)%nat /\ len tx <= 20.
Proof.
  intros V. pose proof v4_bytes as [L4 F4]. destruct (words_ok 8 src src_len src_bytes) as (L & F & E). fold ws in L, F, E.
  unfold text6. pose proof V as V'. unfold embedded in V'. apply andb_true_iff in V' as [B0%Z.eqb_eq C].
  pose proof (best_run_split ws L) as Sp. cbv zeta in Sp. fold best in Sp. destruct Sp as [N|(Lz & a & b & Es & La)]; [lia|].
  rewrite B0 in La. destruct a; [|unfold len in La; simpl in La; lia]. cbn [app] in Es.
  assert (zlen best = 6 \/ zlen best = 5) as Hl by lia.
  assert (length b = 8 - Z.to_nat (zlen best))%nat as Lb by (apply (f_equal length) in Es; rewrite length_app, length_replicate in Es; lia).
  assert (emit src best w5 0 ws = 58 :: emit src best w5 (zlen best) b) as Ee.
  { rewrite Es. rewrite <- B0 at 1. rewrite emit_inside by (first [lia | unfold len; rewrite length_replicate; lia]). by rewrite B0, Z.add_0_l. }
  rewrite Ee, B0, Z.add_0_l. cbn [Z.eqb negb andb]. rewrite (proj2 (Z.eqb_neq (zlen best) 8)), app_nil_r by lia.
  assert (dots (drop 12 src) = fmt4 (drop 12 src)) as Ed.
  { destruct (drop 12 src) as [|x [|y [|z [|t [|]]]]]; try done. by rewrite fmt4_dots. }
  pose proof (fmt4_len _ L4 F4) as Lf. assert (forall i, zlen best <= i -> inside best i = false) as Out
    by (intros i Hi; unfold inside; rewrite (proj2 (Z.ltb_ge _ _)), andb_false_r by lia; done).
  assert (src = replicate (2 * Z.to_nat (zlen best)) 0 ++ wbytes b) as Esrc by (transitivity (wbytes ws); [done|]; rewrite Es; by rewrite wbytes_app, wbytes_zeros).
  destruct Hl as [Hl|Hl]; rewrite Hl in *.
  - destruct b as [|w6 [|w7 [|]]]; try done. exists (dots (drop 12 src)), (drop 12 src). cbn [emit]. rewrite Out, V by lia.
    cbn [Z.eqb Pos.eqb andb app]. rewrite Ed. split; [done|]. split; [rewrite <- Ed; by apply (ending_dots [])|]. split; [|split; [|lia]].
    + rewrite L4. rewrite Esrc at 1 2. by rewrite drop_app_length' by done.
    + lia.
  - destruct b as [|v5 [|w6 [|w7 [|]]]]; try done.
    assert (Forall group [v5]) as Fv by (rewrite Es in F; apply Forall_app in F as [_ F]; rewrite list.Forall_cons in F; destruct F as [Fv _]; by constructor).
    exists (colons [v5] ++ dots (drop 12 src)), (wbytes [v5] ++ drop 12 src).
    cbn [emit]. rewrite !Out, V by lia. cbn [Z.eqb Pos.eqb Z.add Pos.add andb app Pos.succ]. rewrite Ed.
    split; [cbn; rewrite ?app_nil_r, <- ?app_assoc; done|]. split; [rewrite <- Ed; by apply ending_dots|]. split; [|split].
    + rewrite length_app, L4. rewrite Esrc at 1 2.
      change (wbytes [v5; w6; w7]) with (wbytes [v5] ++ wbytes [w6; w7]). rewrite app_assoc, drop_app_length' by done. done.
    + rewrite length_app, L4. done.
    + pose proof (hexadecimal_len v5 ltac:(by rewrite list.Forall_cons in Fv; destruct Fv)). cbn. rewrite !len_app. change (len [58]) with 1. change (len []) with 0. lia.
Qed.

(** The form of the text otherwise. *)
Lemma text6_plain : embedded best w5 = false ->
  (text6 = hexs ws /\ ending (hexs ws) src) \/
  (exists a b n, text6 = (match a with [] => [58] | _ => colons a end) ++ 58 :: hexs b /\ Forall group a /\ Forall group b /\
     src = wbytes a ++ replicate (2 * n) 0 ++ wbytes b /\ (2 <= n)%nat).
Proof.
  intros V. destruct (words_ok 8 src src_len src_bytes) as (L & F & E). fold ws in L, F, E. unfold text6.
  pose proof (best_run_split ws L) as Sp. cbv zeta in Sp. fold best in Sp. destruct Sp as [N|(Lz & a & b & Es & La)].
  { left. rewrite emit_plain, N by (first [done | lia]). cbn [Z.eqb Pos.eqb negb andb]. rewrite app_nil_r. split; [done|].
    rewrite <- E. by apply ending_hexs. }
  right. exists a, b, (Z.to_nat (zlen best)). pose proof (len_nonneg' a) as Pa. pose proof F as F0.
  rewrite Es in F0. apply Forall_app in F0 as [Fa F0]. apply Forall_app in F0 as [_ Fb].
  split; [|split; [done|split; [done|split; [|lia]]]].
  2:{ transitivity (wbytes ws); [done|]. rewrite Es. by rewrite !wbytes_app, wbytes_zeros. }
  assert (len a + zlen best + len b = 8) as L8.
  { apply (f_equal length) in Es. rewrite !length_app, length_replicate in Es. unfold len. lia. }
  assert (emit src best w5 0 ws = hexs a ++ 58 :: hexs_tail b) as ->.
  { rewrite Es, emit_before by lia. cbn [Z.eqb]. rewrite Z.add_0_l, La.
    rewrite emit_inside by (first [lia | unfold len; rewrite length_replicate; lia]). by rewrite emit_after by (first [done | lia]). }
  rewrite (proj2 (Z.eqb_neq (zbase best) (-1))) by lia. cbn [negb andb]. rewrite <- app_assoc. cbn [app].
  assert (hexs_tail b ++ (if zbase best + zlen best =? 8 then [58] else []) = 58 :: hexs b) as ->.
  { destruct b as [|w b].
    - rewrite (proj2 (Z.eqb_eq _ _)); [done|]. change (len []) with 0 in L8. lia.
    - rewrite len_cons in L8. pose proof (len_nonneg' b). rewrite (proj2 (Z.eqb_neq _ _)), app_nil_r by lia. done. }
  destruct a as [|w a]; [done|]. rewrite (cons_middle 58 (hexs (w :: a))), app_assoc, hexs_colon by done. done.
Qed.

Lemma text6_read tmp4 : length tmp4 = 4%nat -> inet_pton6 tmp4 text6 = Some (Some src).
Proof.
  intros L4. destruct (embedded best w5) eqn:V.
  - destruct (text6_embedded V) as (tx & bs & -> & En & Es & Lb & _).
    pose proof (pton6_compressed tmp4 L4 [] tx bs ltac:(constructor) En) as E. cbn [app] in E. rewrite E.
    + cbn. by rewrite <- Es.
    + change (len []) with 0. unfold len. lia.
  - destruct (text6_plain V) as [[-> En]|(a & b & n & -> & Fa & Fb & Es & Pn)].
    + destruct (words_ok 8 src src_len src_bytes) as (L & F & _). fold ws in L, F. apply pton6_full; [done|done| |unfold len; lia].
      destruct F as [|w k B F]; [done|]. unfold group in B. destruct (digits_nonempty 16 w) as (h & t & Eh & _); [lia|lia|].
      cbn [hexs]. unfold hexadecimal. by rewrite Eh.
    + pose proof (ending_hexs b Fb) as En. apply (f_equal length) in Es as El. rewrite !length_app, length_replicate in El.
      pose proof (wbytes_len a). pose proof (wbytes_len b). rewrite (pton6_compressed tmp4 L4 a (hexs b) (wbytes b) Fa En) by (unfold len in *; lia).
      do 2 f_equal. rewrite Es. do 2 f_equal. f_equal. unfold len in *. lia.
Qed.

Lemma text6_len : len text6 <= 45 /\ len (emit src best w5 0 ws) <= len text6.
Proof.
  split; [|unfold text6; rewrite len_app; pose proof (len_nonneg' (if negb (zbase best =? -1) && (zbase best + zlen best =? 8) then [58] else [])); lia].
  destruct (embedded best w5) eqn:V.
  - destruct (text6_embedded V) as (tx & bs & -> & _ & _ & _ & Lt). rewrite !len_cons. lia.
  - destruct (words_ok 8 src src_len src_bytes) as (L & F & _). fold ws in L, F. unfold text6. rewrite len_app.
    pose proof (emit_len src best w5 ws F V 0). assert (len ws = 8) by (unfold len; lia).
    destruct (_ && _); [change (len [58]) with 1|change (len []) with 0]; lia.
Qed.

Lemma digits_chars b n : 2 <= b -> 0 <= n -> Forall (fun c => c <> 0) (digit_char <$> to_digits b n).
Proof.
  intros Pb P. destruct (to_digits_ok b Pb n P) as [F _ _]. apply list.Forall_fmap. eapply list.Forall_impl; [exact F|].
  intros d B. cbn in *. unfold digit_char. destruct (Z.ltb_spec d 10); lia.
Qed.

Lemma text6_chars : Forall (fun c => c <> 0) text6.
Proof.
  destruct (words_ok 8 src src_len src_bytes) as (_ & F & _). fold ws in F. pose proof v4_bytes as [L4 F4].
  assert (Forall (fun c => c <> 0) (fmt4 (drop 12 src))) as F44.
  { destruct (drop 12 src) as [|x [|y [|z [|t [|]]]]]; try done. rewrite !list.Forall_cons in F4. unfold byte in F4.
    unfold fmt4. cbn [nth_byte]. rewrite !list.Forall_app. unfold decimal. repeat split; try (apply digits_chars; lia); by repeat constructor. }
  unfold text6. apply Forall_app. split; [|destruct (_ && _); by repeat constructor].
  assert (forall k, Forall group k -> forall i, Forall (fun c => c <> 0) (emit src best w5 i k)) as Em; [|by apply Em].
  intros k Fk. induction Fk as [|w k B Fk IH]; intros i; [constructor|]. unfold group in B. cbn [emit].
  destruct (inside best i); apply Forall_app; (split; [destruct (i =? _); by repeat constructor|]); [apply IH|].
  destruct (_ && _); [done|]. apply Forall_app. split; [apply digits_chars; lia|apply IH].
Qed.

Lemma ntop6_text_ok tmp : len tmp = 46 -> exists rest, ntop6_text src tmp = Some (Some (len text6 + 1), text6 ++ 0 :: rest).
Proof.
  intros L. pose proof text6_len as [L1 L2]. unfold ntop6_text. fold ws best w5.
  destruct (ntop6_loop_ok src best w5 v4_bytes ws 0 [] tmp) as (rest & E & Lr); [unfold TMP6; change (len []) with 0; lia..|].
  change (len []) with 0 in E. cbn [app] in *. rewrite (bind_some _ _ _ _ _ E). clear E. unfold TMP6 in Lr.
  unfold text6 in *. set (e := emit src best w5 0 ws) in *. clearbody e. rewrite len_app in L1.
  assert (forall p r, len p + len r = 46 -> len p <= 45 -> exists rest, (put (len p) 0;; ret (Some (len p + 1))) (p ++ r) = Some (Some (len p + 1), p ++ 0 :: rest)) as Fin.
  { intros p r Lp Lp'. destruct r as [|x r]; [unfold len in *; simpl in *; lia|]. exists r. by rewrite (bind_some _ _ _ _ _ (put_at _ _ _ _ _ eq_refl)). }
  destruct (_ && _).
  - change (len [58]) with 1 in L1. destruct rest as [|x rest]; [unfold len in *; simpl in *; lia|]. rewrite bind_bind.
    rewrite (bind_some _ _ _ _ _ (put_at _ _ _ _ _ eq_refl)). erewrite bind_some by reflexivity.
    replace (e ++ 58 :: rest) with ((e ++ [58]) ++ rest) by (by rewrite <- app_assoc).
    replace (len e + 1) with (len (e ++ [58])) by (by rewrite len_app). apply Fin; rewrite len_app; change (len [58]) with 1; rewrite ?len_cons in Lr; lia.
  - rewrite app_nil_r. erewrite bind_some by reflexivity. apply Fin; [done|]. change (len []) with 0 in L1. lia.
Qed.
End Text.

Lemma cstring_app t rest : Forall (fun c => c <> 0) t -> cstring (t ++ 0 :: rest) = Some t.
Proof. induction 1 as [|c t N F IH]; [done|]. cbn. rewrite IH. by rewrite (proj2 (Z.eqb_neq _ _)). Qed.

(** The function: the text if it fits with its zero, or [NULL]. *)
Lemma ntop6_ok tmp src dst : length src = 16%nat -> Forall byte src -> len tmp = 46 ->
  (len dst <= len (text6 src) -> inet_ntop6 tmp src (len dst) dst = Some (None, dst)) /\
  (len (text6 src) < len dst -> exists rest, inet_ntop6 tmp src (len dst) dst = Some (Some (len (text6 src)), text6 src ++ 0 :: rest)).
Proof.
  intros L F T. pose proof (text6_len src L F) as [L1 _]. pose proof (len_nonneg' (text6 src)).
  destruct (ntop6_text_ok src L F tmp T) as [r E]. unfold inet_ntop6. rewrite E. rewrite wrap_small by lia. split; intros R.
  - by rewrite (proj2 (Z.ltb_lt _ _)) by lia.
  - rewrite (proj2 (Z.ltb_ge _ _)) by lia. rewrite cstring_app by by apply text6_chars.
    destruct (puts_string [] (text6 src) dst) as (r' & Ep & _ & q & ->); [lia|]. change (len []) with 0 in Ep. cbn [app] in Ep.
    rewrite (bind_some _ _ _ _ _ Ep). by exists q.
Qed.
