(* ===== verification/InetTheorems.v ===== *)
(** * Internet addresses: theorems

    [inet_pton] accepts exactly the canonical texts of IPv4 addresses and reads
    back every address of both families that [inet_ntop] printed; [inet_aton]
    agrees with it on those texts. *)

From S2P Require Import Prelude CInt CMonad Buffer Numerals Strtol StrtolTheorems Inet InetText InetPrint.
Open Scope c_scope.

(** An address of family [af]. *)
Definition address (af : Z) (a : list Z) : Prop :=
  Forall byte a /\ ((af = AF_INET /\ length a = 4%nat) \/ (af = AF_INET6 /\ length a = 16%nat)).

Definition address_text (af : Z) (a : list Z) : list Z := if af =? AF_INET then fmt4 a else text6 a.

(** ** Lemmas *)

Lemma fmt4_is_dots a : length a = 4%nat -> fmt4 a = dots a.
Proof. intros L. destruct a as [|x [|y [|z [|t [|]]]]]; try done. apply fmt4_dots. Qed.

Lemma pton4_correct tmp src : length tmp = 4%nat ->
  exists r, inet_pton4 tmp src = Some r /\
  forall a, r = Some a <-> length a = 4%nat /\ Forall byte a /\ src = fmt4 a.
Proof.
  intros L. destruct tmp as [|x tmp]; [done|].
  destruct (pton4_sound src false 0 [] tmp 0 0) as (ok & t & E & S); [done|done|unfold len; simpl in *; lia|done|done|].
  assert (inet_pton4 (x :: tmp) src = Some (if ok then Some t else None)) as R.
  { unfold inet_pton4. change (x :: tmp) with ([] ++ x :: tmp).
    rewrite (bind_some _ _ _ _ _ (put_at [] 0 0 x tmp eq_refl)), E. by destruct ok. }
  eexists. split; [exact R|]. intros a. split.
  - destruct ok; [|done]. intros [= <-]. destruct (S eq_refl) as (bs & -> & Lb & F & Et). cbn in *.
    split; [lia|]. split; [done|]. by rewrite fmt4_is_dots by lia.
  - intros (La & F & ->). rewrite fmt4_is_dots, pton4_reads in R by done. injection R as <-. done.
Qed.

(** The numbers of a dotted quad for [strtoul]. *)
Lemma reference_byte isspace b rest : (forall c, 48 <= c <= 57 -> isspace c = false) -> byte b -> cur rest = 46 \/ rest = [] ->
  reference isspace 64 true (decimal b ++ rest) 0 false = mkResult b (Some (Z.of_nat (length (decimal b)))) None.
Proof.
  intros Sp B R. unfold byte in B. destruct (decimal_head b) as (c & t & E & Bc); [lia|].
  assert (skip_space isspace (decimal b ++ rest) = decimal b ++ rest) as Es by (rewrite E; cbn; by rewrite Sp).
  assert (sign (decimal b ++ rest) = (false, decimal b ++ rest)) as Eg.
  { rewrite E. unfold sign. cbn. by rewrite !(proj2 (Z.eqb_neq _ _)) by lia. }
  unfold reference. rewrite Es, Eg. cbn [Z.ltb Z.eqb Z.compare Pos.eqb orb].
  assert (numeral 10 rest = ([], rest) /\ numeral 8 rest = ([], rest)) as [N10 N8].
  { destruct rest as [|d rest]; [done|]. destruct R as [R|R]; [|done]. cbn in R. by subst d. }
  destruct (to_digits_ok 10 ltac:(lia) b ltac:(lia)) as [F V (d & ds & Ed & H0)].
  assert (exists base ds', subject false 0 (decimal b ++ rest) = (base, decimal b ++ rest) /\
    numeral base (decimal b ++ rest) = (ds', rest) /\ ds' <> [] /\ number base 0 ds' = b) as (base & ds' & -> & -> & Nd & Vb).
  { unfold subject, decimal. rewrite Ed in *. destruct (Z.eq_dec d 0) as [->|Nz].
    - rewrite (H0 eq_refl) in *. exists 8, [0]. split; [|split; [|split; [done|by rewrite <- V]]].
      + destruct rest as [|d rest]; [done|]. destruct R as [R|R]; [|done]. cbn in R. by subst d.
      + cbn. by rewrite N8.
    - inversion F as [|? ? Bd _]; subst. exists 10, (d :: ds).
      assert (digit_char d = 48 + d) as Dc by (unfold digit_char; by rewrite (proj2 (Z.ltb_lt _ _)) by lia).
      split; [|split; [by apply numeral_chars; [lia|done|rewrite N10]|done]].
      rewrite prefixed_by_other; cbn [fmap list_fmap app cur]; rewrite ?Dc, ?(proj2 (Z.eqb_neq (48 + d) 48)) by lia; done. }
  destruct ds' as [|e ds']; [done|]. rewrite Vb. unfold ranged. rewrite (proj2 (Z.leb_gt _ _)), Z.mod_small by lia.
  by rewrite offset_app.
Qed.

Section Aton.
Variable isspace : Z -> bool.
Hypothesis no_digit_space : forall c, 48 <= c <= 57 -> isspace c = false.

Lemma aton_number_byte b rest : byte b -> cur rest = 46 \/ rest = [] ->
  aton_number isspace (decimal b ++ rest) = Some (Some (b, true, rest)).
Proof.
  intros B R. unfold aton_number, byte in *. destruct (decimal_head b) as (c & t & E & Bc); [lia|].
  rewrite E at 1. cbn [app cur]. unfold dec_digit. rewrite !(proj2 (Z.leb_le _ _)) by lia. cbn [andb negb].
  rewrite strtol_correct; [|apply no_digit_space; lia|lia|by left]. rewrite reference_byte by done.
  rewrite andb_false_r, (proj2 (Z.ltb_ge _ _)) by lia. rewrite (proj2 (Z.eqb_neq _ 0)) by (rewrite E; simpl; lia).
  by rewrite Nat2Z.id, drop_app_length.
Qed.

Lemma aton_dots a : length a = 4%nat -> Forall byte a -> inet_aton_end isspace (fmt4 a) = Some (Some (a, [])).
Proof.
  intros L F. destruct a as [|x [|y [|z [|t [|]]]]]; try done. rewrite !list.Forall_cons in F. destruct F as (Bx & By & Bz & Bt & _).
  unfold byte in *. unfold inet_aton_end, fmt4. cbn [nth_byte].
  assert (forall b rest fuel res pp, 0 <= b < 256 -> (pp <= 2)%nat ->
    aton_loop isspace (S fuel) (decimal b ++ [46] ++ rest) res pp = aton_loop isspace fuel rest (<[pp:=b]> res) (S pp)) as Part.
  { intros b rest fuel res pp B P. cbn [aton_loop]. rewrite aton_number_byte by (first [done | by left]). cbn [app cur tail].
    cbn [Z.eqb Pos.eqb]. rewrite (proj2 (Nat.ltb_ge _ _)), (proj2 (Z.ltb_ge _ _)) by lia. done. }
  rewrite !Part by lia. cbn [aton_loop]. rewrite <- (app_nil_r (decimal t)), aton_number_byte by (first [done | by right]).
  cbn [cur Z.eqb negb andb max_part lookup list_lookup]. rewrite (proj2 (Z.ltb_ge _ _)) by lia.
  assert (be_bytes t = [0; 0; 0; t]) as ->.
  { unfold be_bytes. rewrite !Z.shiftr_div_pow2, !Z.div_small by (simpl; lia). by rewrite (wrap_small 8 t) by lia. }
  cbn. by rewrite !Z.lor_0_r.
Qed.
End Aton.

(** ** Theorems *)

(** [inet_pton] for [AF_INET] returns 1 exactly for the texts of the form
    a.b.c.d with four numbers up to 255 without leading zeros, and stores those
    bytes; otherwise it returns 0.  The array on the stack is not overrun. *)
Theorem inet_pton_ipv4 tmp src : length tmp = 4%nat ->
  exists r a, inet_pton tmp AF_INET src = Some (r, a) /\
  ((r = 0 /\ a = None) \/ (r = 1 /\ exists bs, a = Some bs /\ length bs = 4%nat /\ Forall byte bs)) /\
  forall bs, a = Some bs <-> length bs = 4%nat /\ Forall byte bs /\ src = fmt4 bs.
Proof.
  intros L. destruct (pton4_correct tmp src L) as (r & E & H). unfold inet_pton. cbn [Z.eqb AF_INET Pos.eqb]. rewrite E.
  destruct r as [bs|].
  - exists 1, (Some bs). split; [done|]. split; [right; split; [done|]|done]. exists bs. destruct (H bs) as [H' _].
    destruct (H' eq_refl) as (? & ? & _). done.
  - exists 0, None. split; [done|]. split; [by left|done].
Qed.

(** ["192.0.2.255"], and the same with a leading zero. *)
Lemma inet_pton_ipv4_witness :
  (exists r a, inet_pton [7; 7; 7; 7] AF_INET [49; 57; 50; 46; 48; 46; 50; 46; 50; 53; 53] = Some (r, a) /\ r = 1 /\ a = Some [192; 0; 2; 255]) /\
  exists r a, inet_pton [7; 7; 7; 7] AF_INET [49; 57; 50; 46; 48; 48; 46; 50; 46; 50; 53; 53] = Some (r, a) /\ r = 0.
Proof.
  split.
  - destruct (inet_pton_ipv4 [7; 7; 7; 7] [49; 57; 50; 46; 48; 46; 50; 46; 50; 53; 53] eq_refl) as (r & a & E & _).
    exists r, a. split; [done|]. vm_compute in E. by injection E as <- <-.
  - destruct (inet_pton_ipv4 [7; 7; 7; 7] [49; 57; 50; 46; 48; 48; 46; 50; 46; 50; 53; 53] eq_refl) as (r & a & E & _).
    exists r, a. split; [done|]. vm_compute in E. by injection E as <- <-.
Defined.

(** C18: [inet_pton] reads back every IPv4 and IPv6 address that [inet_ntop]
    printed.  [inet_ntop] fails exactly if the text and its zero do not fit,
    and writes inside its array of 46 bytes whatever the address is.
    [tmp46] and [tmp4] are what the arrays on the stack hold. *)
Theorem inet_ntop_pton_roundtrip tmp46 tmp4 af a dst : len tmp46 = 46 -> length tmp4 = 4%nat -> address af a ->
  (len dst <= len (address_text af a) -> inet_ntop tmp46 af a (len dst) dst = Some (None, dst)) /\
  (len (address_text af a) < len dst -> exists rest,
     inet_ntop tmp46 af a (len dst) dst = Some (Some (len (address_text af a)), address_text af a ++ 0 :: rest)) /\
  inet_pton tmp4 af (address_text af a) = Some (1, Some a).
Proof.
  intros T46 T4 [F [[-> L]|[-> L]]]; unfold address_text, inet_ntop, inet_pton, AF_INET, AF_INET6; cbn [Z.eqb Pos.eqb].
  - rewrite fmt4_is_dots, pton4_reads by done. rewrite <- fmt4_is_dots by done. pose proof (fmt4_len a L F) as L15.
    unfold inet_ntop4. rewrite (proj2 (Z.leb_gt 16 _)) by lia. split; [|split; [|done]]; intros R.
    + by rewrite (proj2 (Z.leb_le _ _)).
    + rewrite (proj2 (Z.leb_gt _ _)) by lia. destruct (puts_string [] (fmt4 a) dst) as (r & Ep & _ & q & ->); [lia|].
      change (len []) with 0 in Ep. cbn [app] in Ep. rewrite (bind_some _ _ _ _ _ Ep). by exists q.
  - destruct (ntop6_ok tmp46 a dst L F T46) as [N1 N2]. split; [done|]. split; [done|]. by rewrite text6_read.
Qed.

(** [2001:db8::1] *)
Lemma inet_ntop_pton_roundtrip_witness :
  (exists rest, inet_ntop (replicate 46 7) AF_INET6 [32; 1; 13; 184; 0; 0; 0; 0; 0; 0; 0; 0; 0; 0; 0; 1] (len (replicate 20 7)) (replicate 20 7) =
     Some (Some 11, [50; 48; 48; 49; 58; 100; 98; 56; 58; 58; 49] ++ 0 :: rest)) /\
  inet_pton (replicate 4 7) AF_INET6 [50; 48; 48; 49; 58; 100; 98; 56; 58; 58; 49] =
    Some (1, Some [32; 1; 13; 184; 0; 0; 0; 0; 0; 0; 0; 0; 0; 0; 0; 1]).
Proof.
  destruct (inet_ntop_pton_roundtrip (replicate 46 7) (replicate 4 7) AF_INET6 [32; 1; 13; 184; 0; 0; 0; 0; 0; 0; 0; 0; 0; 0; 0; 1] (replicate 20 7))
    as (_ & H1 & H2); [done|done| |split; [by apply H1|exact H2]].
  split; [repeat constructor; unfold byte; lia|by right].
Defined.

(** The run of zeros that [inet_ntop6] leaves out is the first of the longest
    ones, and at least two groups long. *)
Theorem inet_ntop6_run src : length src = 16%nat -> Forall byte src -> first_longest (words src) (best_run (words src)) = true.
Proof. intros L F. apply best_run_first_longest. by destruct (words_ok 8 src L F) as (? & _). Qed.

(** [inet_aton] and [inet_addr] agree with [inet_pton] on the texts it accepts. *)
Theorem inet_aton_dotted_quad isspace a : (forall c, 48 <= c <= 57 -> isspace c = false) -> length a = 4%nat -> Forall byte a ->
  inet_aton_exact isspace (fmt4 a) = Some (Some a) /\ inet_aton_ignore_trailing isspace (fmt4 a) = Some (Some a) /\
  inet_addr isspace (fmt4 a) = Some a.
Proof. intros S L F. unfold inet_aton_exact, inet_aton_ignore_trailing, inet_addr. by rewrite aton_dots. Qed.
