(* ===== verification/Cstr.v ===== *)
(** * What the string functions promise

    A block of memory is the list of its characters and a pointer into it an
    offset.  The definitions say what [strlen], [strnlen], [strchr], [strstr],
    [stpcpy], [memcpy] and [memmove] compute on one block, [None] where they would read
    or write outside it; they go character by character and serve as the
    reference for the code that calls these functions. *)

From S2P Require Import Prelude CMonad Buffer.

(** The characters of a string: none is the terminating zero. *)
Definition cstr (s : list Z) : Prop := Forall (fun c => c <> 0) s.

#[export] Instance cstr_dec s : Decision (cstr s).
Proof. unfold cstr. apply _. Defined.

(** A pointer to the memory [m] points to the string [s]. *)
Definition is_str (m s : list Z) : Prop := cstr s /\ exists r, m = s ++ 0 :: r.

(** The block from a pointer on; a pointer to its end may be formed, one
    outside may not. *)
Definition suffix_at (b : list Z) (p : Z) : option (list Z) :=
  if (0 <=? p) && (p <=? len b) then Some (drop (Z.to_nat p) b) else None.

Fixpoint count_chars (stop : Z -> bool) (l : list Z) : option Z :=
  match l with
  | [] => None
  | c :: l => if stop c then Some 0 else Z.succ <$> count_chars stop l
  end.

Definition c_strlen (b : list Z) (p : Z) : option Z :=
  l ← suffix_at b p; count_chars (fun c => c =? 0) l.

(** At most [n] characters are read. *)
Fixpoint count_chars_n (n : nat) (l : list Z) : option Z :=
  match n, l with
  | O, _ => Some 0
  | S n, [] => None
  | S n, c :: l => if c =? 0 then Some 0 else Z.succ <$> count_chars_n n l
  end.

Definition c_strnlen (b : list Z) (p n : Z) : option Z :=
  l ← suffix_at b p; count_chars_n (Z.to_nat n) l.

(** The first [c] at or after [p], the zero included, [Some None] for a null
    result. *)
Definition c_strchr (b : list Z) (p c : Z) : option (option Z) :=
  l ← suffix_at b p;
  n ← count_chars (fun x => (x =? c) || (x =? 0)) l;
  x ← b !! Z.to_nat (p + n);
  Some (if x =? c then Some (p + n) else None).

(** The [n] characters at [p]. *)
Definition slice (b : list Z) (p n : Z) : option (list Z) :=
  if (0 <=? p) && (0 <=? n) && (p + n <=? len b) then Some (take (Z.to_nat n) (drop (Z.to_nat p) b)) else None.

(** The block with [src] stored at [p]. *)
Definition blit (b : list Z) (p : Z) (src : list Z) : option (list Z) :=
  if (0 <=? p) && (p + len src <=? len b)
  then Some (take (Z.to_nat p) b ++ src ++ drop (Z.to_nat (p + len src)) b) else None.

(** [stpcpy] to [p]: the block and where the copied zero is. *)
Definition c_stpcpy (b : list Z) (p : Z) (s : list Z) : option (list Z * Z) :=
  n ← c_strlen s 0;
  l ← slice s 0 (n + 1);
  b ← blit b p l;
  Some (b, p + n).

(** [memmove (b + d, b + p, n)] *)
Definition c_memmove (b : list Z) (d p n : Z) : option (list Z) :=
  l ← slice b p n; blit b d l.

(** The string at a pointer. *)
Definition string_at (b : list Z) (p : Z) : option (list Z) :=
  n ← c_strlen b p; slice b p n.

(** Where a word first occurs in a string. *)
Fixpoint find_sub (w s : list Z) : option Z :=
  if decide (w `prefix_of` s) then Some 0
  else match s with [] => None | _ :: s => Z.succ <$> find_sub w s end.

(** [strstr] of the string at [p] and the word [w]. *)
Definition c_strstr (b : list Z) (p : Z) (w : list Z) : option (option Z) :=
  s ← string_at b p; Some (Z.add p <$> find_sub w s).

(** ** Lemmas *)

Lemma suffix_at_app pre p r : p = len pre -> suffix_at (pre ++ r) p = Some r.
Proof.
  intros ->. unfold suffix_at. rewrite len_app.
  rewrite (proj2 (Z.leb_le 0 _)), (proj2 (Z.leb_le _ _)) by (unfold len; lia). cbn [andb].
  unfold len. by rewrite Nat2Z.id, drop_app_length.
Qed.

Lemma count_chars_app stop s r : Forall (fun c => stop c = false) s ->
  count_chars stop (s ++ r) = Z.add (len s) <$> count_chars stop r.
Proof.
  induction 1 as [|c s Hc Hs IH]; cbn [app count_chars].
  { by destruct (count_chars stop r). }
  rewrite Hc, IH. destruct (count_chars stop r); [|done]. cbn [fmap option_fmap option_map]. f_equal. rewrite len_cons. lia.
Qed.

Lemma count_chars_stop stop s c r : Forall (fun c => stop c = false) s -> stop c = true ->
  count_chars stop (s ++ c :: r) = Some (len s).
Proof. intros Hs Hc. rewrite count_chars_app by done. cbn. rewrite Hc. cbn. f_equal. lia. Qed.

Lemma c_strlen_at pre p s r : p = len pre -> cstr s -> c_strlen (pre ++ s ++ 0 :: r) p = Some (len s).
Proof.
  intros Hp Hs. unfold c_strlen. rewrite suffix_at_app by done. cbn. apply count_chars_stop; [|done].
  eapply list.Forall_impl; [exact Hs|]. cbn. lia.
Qed.

Lemma c_strlen_0 s r : cstr s -> c_strlen (s ++ 0 :: r) 0 = Some (len s).
Proof. by apply (c_strlen_at []). Qed.

Lemma is_str_len m s : is_str m s -> c_strlen m 0 = Some (len s).
Proof. intros [Hs [r ->]]. by apply c_strlen_0. Qed.

Lemma slice_mid pre p m r n : p = len pre -> n = len m -> slice (pre ++ m ++ r) p n = Some m.
Proof.
  intros -> ->. unfold slice. rewrite !len_app.
  rewrite !(proj2 (Z.leb_le _ _)) by (unfold len; lia). cbn [andb].
  unfold len. by rewrite !Nat2Z.id, drop_app_length, take_app_length.
Qed.

Lemma slice_0 m r n : n = len m -> slice (m ++ r) 0 n = Some m.
Proof. by apply (slice_mid []). Qed.

Lemma blit_at pre p old src r : p = len pre -> len old = len src -> blit (pre ++ old ++ r) p src = Some (pre ++ src ++ r).
Proof.
  intros -> Ho. unfold blit. rewrite !len_app, Ho.
  rewrite !(proj2 (Z.leb_le _ _)) by (unfold len; lia). cbn [andb].
  unfold len in *. rewrite Z2Nat.inj_add, !Nat2Z.id by lia.
  apply Nat2Z.inj in Ho. rewrite <- Ho, take_app_length, <- length_app.
  by rewrite (app_assoc pre old r), drop_app_length.
Qed.

Lemma blit_over pre p t src : p = len pre -> len src <= len t ->
  blit (pre ++ t) p src = Some (pre ++ src ++ drop (length src) t).
Proof.
  intros Hp L. destruct (split_room t (len src)) as (t1 & t2 & -> & L1); [unfold len in *; lia|].
  rewrite blit_at by done. unfold len in L1. replace (length src) with (length t1) by lia. by rewrite drop_app_length.
Qed.

(** Moving [m] down over [x]. *)
Lemma memmove_down pre x m r d p n : d = len pre -> p = len pre + len x -> n = len m ->
  exists r', c_memmove (pre ++ x ++ m ++ r) d p n = Some (pre ++ m ++ r').
Proof.
  intros -> -> ->. unfold c_memmove. rewrite (app_assoc pre x), slice_mid; [|by rewrite len_app|done].
  cbn [mbind option_bind]. rewrite <- app_assoc, blit_over; [eauto|done|]. rewrite !len_app. unfold len. lia.
Qed.

Lemma string_at_app pre p s r : p = len pre -> cstr s -> string_at (pre ++ s ++ 0 :: r) p = Some s.
Proof. intros Hp Hs. unfold string_at. rewrite c_strlen_at by done. cbn. by apply slice_mid. Qed.

Lemma count_chars_n_stop n s r : cstr s -> len s < Z.of_nat n -> count_chars_n n (s ++ 0 :: r) = Some (len s).
Proof.
  intros Hs. revert n. induction Hs as [|c s Hc Hs IH]; intros n Hn; destruct n as [|n]; cbn [app count_chars_n].
  - unfold len in Hn. simpl in Hn. lia.
  - done.
  - rewrite len_cons in Hn. unfold len in Hn. lia.
  - rewrite (proj2 (Z.eqb_neq c 0)) by done. rewrite len_cons in Hn |- *. rewrite IH by lia. cbn. f_equal. lia.
Qed.

Lemma c_strnlen_at pre p s r n : p = len pre -> cstr s -> len s < n -> c_strnlen (pre ++ s ++ 0 :: r) p n = Some (len s).
Proof.
  intros Hp Hs Hn. unfold c_strnlen. rewrite suffix_at_app by done. cbn. apply count_chars_n_stop; [done|lia].
Qed.

Lemma c_strchr_found pre p s c r : p = len pre -> cstr s -> c ∉ s -> c_strchr (pre ++ s ++ c :: r) p c = Some (Some (p + len s)).
Proof.
  intros Hp Hs Hc. unfold c_strchr. rewrite suffix_at_app by done. cbn.
  rewrite count_chars_stop.
  - cbn. assert (L : (pre ++ s ++ c :: r) !! Z.to_nat (p + len s) = Some c).
    { rewrite app_assoc. apply list_lookup_middle. rewrite length_app, Hp. unfold len. lia. }
    rewrite L. cbn. by rewrite Z.eqb_refl.
  - apply list.Forall_forall. intros x Hx. cbn. apply orb_false_iff. split; apply Z.eqb_neq.
    + intros ->. done.
    + by apply (proj1 (list.Forall_forall _ _) Hs).
  - cbn. by rewrite Z.eqb_refl.
Qed.

Lemma c_strchr_none pre p s c r : p = len pre -> cstr s -> c <> 0 -> c ∉ s -> c_strchr (pre ++ s ++ 0 :: r) p c = Some None.
Proof.
  intros Hp Hs H0 Hc. unfold c_strchr. rewrite suffix_at_app by done. cbn.
  rewrite count_chars_stop.
  - cbn. assert (L : (pre ++ s ++ 0 :: r) !! Z.to_nat (p + len s) = Some 0).
    { rewrite app_assoc. apply list_lookup_middle. rewrite length_app, Hp. unfold len. lia. }
    rewrite L. cbn. by destruct c.
  - apply list.Forall_forall. intros x Hx. cbn. apply orb_false_iff. split; apply Z.eqb_neq.
    + intros ->. done.
    + by apply (proj1 (list.Forall_forall _ _) Hs).
  - cbn. apply orb_true_r.
Qed.

Lemma find_sub_spec w s n : find_sub w s = Some n ->
  exists a b, s = a ++ w ++ b /\ len a = n /\ forall a' b', s = a' ++ w ++ b' -> len a <= len a'.
Proof.
  revert n. induction s as [|c s IH]; intros n; cbn [find_sub]; case_decide as D; intros E; try done.
  - injection E as <-. destruct D as [b D]. exists [], b. split; [done|]. split; [done|]. intros. unfold len. simpl. lia.
  - injection E as <-. destruct D as [b D]. exists [], b. split; [done|]. split; [done|]. intros. unfold len. simpl. lia.
  - apply fmap_Some in E as (m & E & ->). destruct (IH m E) as (a & b & Es & La & Min).
    exists (c :: a), b. split; [by rewrite Es|]. split; [rewrite len_cons; lia|].
    intros [|c' a'] b' E'.
    + destruct D. by exists b'.
    + injection E' as -> E'. specialize (Min a' b' E'). rewrite !len_cons. lia.
Qed.

Lemma find_sub_none w s : find_sub w s = None -> forall a b, s <> a ++ w ++ b.
Proof.
  induction s as [|c s IH]; cbn [find_sub]; case_decide as D; intros E a b Es; try done.
  - destruct a; [|done]. destruct D. by exists b.
  - destruct a as [|c' a].
    + destruct D. by exists b.
    + injection Es as -> Es. apply fmap_None in E. by apply (IH E a b).
Qed.
