(* ===== verification/Argz.v ===== *)
(** * Argument vectors: [string/argz-*.c], [string/envz.c]

    An argz vector is a block of memory that holds strings one after the
    other, each with its zero, and the length of the part in use; the block is
    [NULL] when there is nothing to hold.  A pointer into the block of a vector
    is an offset from its beginning, a [const char *] argument the list of the
    characters from there to the end of its object.  The allocator is a class:
    it has a state of its own and may refuse any request. *)

From S2P Require Import Prelude CMonad CLoop CInt Buffer Cstr.
Open Scope c_scope.

(** What the code needs of the allocator: it returns, with [NULL] or with a
    block of the size asked for, whose contents are arbitrary. *)
Class Malloc (H : Type) := {
  malloc : Z -> M H (option (list Z));
  malloc_spec : forall n h, exists r h', malloc n h = Some (r, h') /\
    match r with Some b => len b = n | None => True end }.

Inductive error_t := ENOMEM | EINVAL.

(** [*argz] and [*argz_len]. *)
Record vec := Vec { argz : option (list Z); argz_len : Z }.

(** The memory behind a pointer: there is none behind [NULL]. *)
Definition mem (p : option (list Z)) : list Z := default [] p.

Definition size (n : Z) : Z := wrap 64 n.

Section Code.
Context {H : Type} `{Malloc H}.

Definition lift {A} (o : option A) : M H A := fun h => match o with Some a => Some (a, h) | None => None end.

(** A loop whose body allocates. *)
Definition loop {S R} (step : S -> M H (S + R)) (s : S) : M H R := fun h =>
  run 64 (fun '(s, h) => match step s h with
                         | None => inr None
                         | Some (inl s', h') => inl (s', h')
                         | Some (inr r, h') => inr (Some (r, h'))
                         end) (s, h).

(** The old contents are kept; a block is freed by asking for no memory.  A
    caller then takes [NULL] for an error and still has the pointer to the freed
    block; no operation on a vector with a string in it asks for no memory. *)
Definition realloc (p : option (list Z)) (n : Z) : M H (option (list Z)) :=
  match p with
  | None => malloc n
  | Some old =>
    if n =? 0 then ret None
    else let! r := malloc n in ret ((fun b => take (Z.to_nat n) old ++ drop (length old) b) <$> r)
  end.

(** ** Adding *)

Definition __argz_append (v : vec) (buf : list Z) (buf_len : Z) : M H (option error_t * vec) :=
  let new_argz_len := size (argz_len v + buf_len) in
  let! new_argz := realloc (argz v) new_argz_len in
  match new_argz with
  | Some b =>
    let! l := lift (slice buf 0 buf_len) in
    let! b := lift (blit b (argz_len v) l) in
    ret (None, Vec (Some b) new_argz_len)
  | None => ret (Some ENOMEM, v)
  end.

Definition __argz_add (v : vec) (str : list Z) : M H (option error_t * vec) :=
  let! n := lift (c_strlen str 0) in
  __argz_append v str (size (n + 1)).

(** ** Making a vector *)

(** The loop that adds up [tlen]. *)
Fixpoint argv_length (argv : list (list Z)) (argc tlen : Z) : option Z :=
  match argv with
  | [] => Some tlen
  | s :: argv =>
    n ← c_strlen s 0;
    argc ← chk 32 (argc + 1);
    argv_length argv argc (size (tlen + size (n + 1)))
  end.

Fixpoint copy_argv (argv : list (list Z)) (b : list Z) (p : Z) : option (list Z) :=
  match argv with
  | [] => Some b
  | s :: argv => '(b, p) ← c_stpcpy b p s; copy_argv argv b (p + 1)
  end.

(** [v] is what the two results hold before the call. *)
Definition __argz_create (argv : list (list Z)) (v : vec) : M H (option error_t * vec) :=
  let! tlen := lift (argv_length argv 0 0) in
  if tlen =? 0 then ret (None, Vec None tlen)
  else
    let! r := malloc tlen in
    match r with
    | None => ret (Some ENOMEM, Vec None (argz_len v))
    | Some b => let! b := lift (copy_argv argv b 0) in ret (None, Vec (Some b) tlen)
    end.

(** The loop of [__argz_create_sep] and [__argz_add_sep]: the new [nlen] and
    the block. *)
Fixpoint sep_loop (delim : Z) (rp : list Z) (wp nlen : Z) (b : list Z) : option (Z * list Z) :=
  match rp with
  | [] => None
  | c :: rp' =>
    '(wp, nlen, b) ←
      (if c =? delim then
         (ends ← (if 0 <? wp then x ← b !! Z.to_nat (wp - 1); Some (negb (x =? 0)) else Some false);
          if (ends : bool) then b ← blit b wp [0]; Some (wp + 1, nlen, b)
          else Some (wp, size (nlen - 1), b))
       else b ← blit b wp [c]; Some (wp + 1, nlen, b));
    if c =? 0 then Some (nlen, b) else sep_loop delim rp' wp nlen b
  end.

Definition __argz_create_sep (string : list Z) (delim : Z) (v : vec) : M H (option error_t * vec) :=
  let! n := lift (c_strlen string 0) in
  let nlen := size (n + 1) in
  if 1 <? nlen then
    let! r := malloc nlen in
    match r with
    | None => ret (Some ENOMEM, Vec None (argz_len v))
    | Some b =>
      let! '(nlen, b) := lift (sep_loop delim string 0 nlen b) in
      if nlen =? 0 then ret (None, Vec None nlen) else ret (None, Vec (Some b) nlen)
    end
  else ret (None, Vec None 0).

Definition __argz_add_sep (v : vec) (string : list Z) (delim : Z) : M H (option error_t * vec) :=
  let! n := lift (c_strlen string 0) in
  let nlen := size (n + 1) in
  if 1 <? nlen then
    let! r := realloc (argz v) (size (argz_len v + nlen)) in
    match r with
    | None => ret (Some ENOMEM, Vec None (argz_len v))
    | Some b =>
      let! '(nlen, b) := lift (sep_loop delim string (argz_len v) nlen b) in
      ret (None, Vec (Some b) (size (argz_len v + nlen)))
    end
  else ret (None, v).

(** ** Going through a vector *)

Definition __argz_count (b : list Z) (l : Z) : option Z :=
  run 64 (fun '(p, l, count) =>
    if 0 <? l then
      match c_strlen b p with
      | None => inr None
      | Some part_len => inl (p + part_len + 1, size (l - size (part_len + 1)), size (count + 1))
      end
    else inr (Some count)) (0, l, 0).

(** [argv[i] = v] *)
Definition set_argv (argv : list (option Z)) (i : Z) (v : option Z) : option (list (option Z)) :=
  if i <? Z.of_nat (length argv) then Some (<[Z.to_nat i := v]> argv) else None.

(** [argv] is the array that is filled, [i] the place of the next pointer. *)
Definition __argz_extract (b : list Z) (l : Z) (argv : list (option Z)) : option (list (option Z)) :=
  '(argv, i) ← run 64 (fun '(p, l, argv, i) =>
    if 0 <? l then
      match c_strlen b p, set_argv argv i (Some p) with
      | Some part_len, Some argv => inl (p + part_len + 1, size (l - size (part_len + 1)), argv, i + 1)
      | _, _ => inr None
      end
    else inr (Some (argv, i))) (0, l, argv, 0);
  set_argv argv i None.

Definition __argz_next (b : list Z) (l : Z) (entry : option Z) : option (option Z) :=
  match entry with
  | Some e =>
    e ← (if e <? l then n ← c_strlen b e; Some (e + n + 1) else Some e);
    Some (if l <=? e then None else Some e)
  | None => Some (if 0 <? l then Some 0 else None)
  end.

(** ** Changing a vector *)

Definition argz_delete (v : vec) (entry : option Z) : option vec :=
  match entry with
  | None => Some v
  | Some e =>
    n ← c_strlen (mem (argz v)) e;
    let entry_len := size (n + 1) in
    let l := size (argz_len v - entry_len) in
    b ← c_memmove (mem (argz v)) e (e + entry_len) (size (l - e));
    Some (if l =? 0 then Vec None l else Vec (Some b) l)
  end.

(** [while (before[-1]) before--;] *)
Definition entry_start (b : list Z) (before : Z) : option Z :=
  run 64 (fun p =>
    match (if 0 <? p then b !! Z.to_nat (p - 1) else None) with
    | None => inr None
    | Some c => if c =? 0 then inr (Some p) else inl (p - 1)
    end) before.

Definition __argz_insert (v : vec) (before : option Z) (entry : list Z) : M H (option error_t * vec) :=
  match before with
  | None => __argz_add v entry
  | Some p =>
    if (p <? 0) || (argz_len v <=? p) then ret (Some EINVAL, v)
    else
      let! p := lift (if 0 <? p then entry_start (mem (argz v)) p else Some p) in
      let after_before := size (argz_len v - p) in
      let! n := lift (c_strlen entry 0) in
      let entry_len := size (n + 1) in
      let new_argz_len := size (argz_len v + entry_len) in
      let! new_argz := realloc (argz v) new_argz_len in
      match new_argz with
      | Some b =>
        let! b := lift (c_memmove b (p + entry_len) p after_before) in
        let! l := lift (slice entry 0 entry_len) in
        let! b := lift (blit b p l) in
        ret (None, Vec (Some b) new_argz_len)
      | None => ret (Some ENOMEM, v)
      end
  end.

Definition __argz_stringify (b : list Z) (l sep : Z) : option (list Z) :=
  if 0 <? l then
    run 64 (fun '(b, p, l) =>
      match c_strnlen b p l with
      | None => inr None
      | Some part_len =>
        let p := p + part_len in
        let l := size (l - part_len) in
        if l <=? 1 then inr (Some b)
        else match blit b p [sint 8 sep] with
             | None => inr None
             | Some b => inl (b, p + 1, size (l - 1))
             end
      end) (b, 0, l)
  else Some b.

(** ** Replacing *)

(** [string/strndup.c] *)
Definition __strndup (s : list Z) (n : Z) : M H (option (list Z)) :=
  let! l := lift (c_strnlen s 0 n) in
  let! new := malloc (size (l + 1)) in
  match new with
  | None => ret None
  | Some b =>
    let! b := lift (blit b l [0]) in
    let! x := lift (slice s 0 l) in
    let! b := lift (blit b 0 x) in
    ret (Some b)
  end.

Definition str_append (to : option (list Z)) (to_len : Z) (buf : list Z) (buf_len : Z) : M H (option (list Z) * Z) :=
  let new_len := size (to_len + buf_len) in
  let! new_to := realloc to (size (new_len + 1)) in
  match new_to with
  | Some b =>
    let! x := lift (slice buf 0 buf_len) in
    let! b := lift (blit b to_len x) in
    let! b := lift (blit b (to_len + buf_len) [0]) in
    ret (Some b, new_len)
  | None => ret (None, to_len)
  end.

(** The replacements in one string: [from] points into [src]. *)
Definition replace_arg (src str with_ : list Z) (str_len with_len : Z) : option (list Z) -> Z -> Z -> M H (option (list Z)) :=
  fun to to_len from =>
  loop (fun '(to, to_len, from) =>
    match to, from with
    | Some _, Some f =>
      let! '(to, to_len) := str_append to to_len with_ with_len in
      match to with
      | Some _ =>
        let! l := lift (suffix_at src f) in
        let! m := lift (c_strstr src f (take (Z.to_nat str_len) str)) in
        match m with
        | Some m =>
          let! '(to, to_len) := str_append to to_len l (m - f) in
          ret (inl (to, to_len, Some (m + str_len)))
        | None =>
          let! n := lift (c_strlen src f) in
          let! '(to, to_len) := str_append to to_len l n in
          ret (inl (to, to_len, None))
        end
      | None => ret (inl (to, to_len, from))
      end
    | _, _ => ret (inr to)
    end) (to, to_len, Some from).

(** The state of the loop over the arguments. *)
Record replacing := Replacing {
  err : option error_t; arg : option Z; dst : vec; delayed_copy : bool; replace_count : Z }.

(** One argument at [a]. *)
Definition replace_step (src str with_ : list Z) (str_len with_len : Z) (r : replacing) (a : Z) : M H replacing :=
  let! l := lift (suffix_at src a) in
  let! m := lift (c_strstr src a (take (Z.to_nat str_len) str)) in
  match m with
  | Some m =>
    let to_len := m - a in
    let! to := __strndup l to_len in
    let! to := replace_arg src str with_ str_len with_len to to_len (m + str_len) in
    let! '(e, d, delayed) :=
      match to with
      | Some t =>
        let! '(e, d) :=
          (if delayed_copy r then
             if 0 <? a then __argz_append (dst r) src a else ret (None, dst r)
           else ret (None, dst r)) in
        let! '(e, d) := (match e with Some _ => ret (e, d) | None => __argz_add d t end) in
        ret (e, d, false)
      | None => ret (Some ENOMEM, dst r, delayed_copy r)
      end in
    ret (Replacing e (Some a) d delayed (wrap 32 (replace_count r + 1)))
  | None =>
    if delayed_copy r then ret (Replacing None (Some a) (dst r) true (replace_count r))
    else let! '(e, d) := __argz_add (dst r) l in ret (Replacing e (Some a) d false (replace_count r))
  end.

(** The body of the loop over the arguments. *)
Definition replace_loop_step (v : vec) (str with_ : list Z) (str_len with_len : Z) (r : replacing) : M H (replacing + replacing) :=
  let src := mem (argz v) in
  match err r with
  | Some _ => ret (inr r)
  | None =>
    let! a := lift (__argz_next src (argz_len v) (arg r)) in
    match a with
    | None => ret (inr r)
    | Some a => let! r := replace_step src str with_ str_len with_len r a in ret (inl r)
    end
  end.

(** [str] is [None] for [NULL], and so is [count] for [replace_count]; the new
    count is the last result. *)
Definition __argz_replace (v : vec) (str : option (list Z)) (with_ : list Z) (count : option Z)
  : M H (option error_t * vec * option Z) :=
  match str with
  | None => ret (None, v, count)
  | Some str =>
    let! c := lift (str !! 0%nat) in
    if c =? 0 then ret (None, v, count)
    else
      let! str_len := lift (c_strlen str 0) in
      let! with_len := lift (c_strlen with_ 0) in
      let! r := loop (replace_loop_step v str with_ str_len with_len)
                  (Replacing None None (Vec None 0) true (default 0 count)) in
      ret (err r, match err r with Some _ => v | None => if delayed_copy r then v else dst r end,
           (fun _ => replace_count r) <$> count)
  end.

(** ** Environment vectors: names with values *)

Definition SEP : Z := 61.

Definition is_end (c : Z) : bool := (c =? 0) || (c =? SEP).

(** The loop that sees how far [name] and the entry match: where it stops. *)
Definition match_name (b name : list Z) : Z -> Z -> option (Z * Z * Z) := fun e l =>
  run 64 (fun '(p, e, l) =>
    if l =? 0 then inr (Some (p, e, l))
    else match name !! Z.to_nat p, b !! Z.to_nat e with
         | Some c, Some d =>
           if (c =? d) && negb (c =? 0) && negb (c =? SEP) then inl (p + 1, e + 1, size (l - 1))
           else inr (Some (p, e, l))
         | _, _ => inr None
         end) (0, e, l).

(** The loop that skips the rest of an entry. *)
Definition skip_entry (b : list Z) : Z -> Z -> option (Z * Z) := fun e l =>
  run 64 (fun '(e, l) =>
    if l =? 0 then inr (Some (e, l))
    else match b !! Z.to_nat e with
         | Some d => if d =? 0 then inr (Some (e, l)) else inl (e + 1, size (l - 1))
         | None => inr None
         end) (e, l).

Definition envz_entry (b : list Z) (l : Z) (name : list Z) : option (option Z) :=
  run 64 (fun '(entry, l) =>
    if l =? 0 then inr (Some None)
    else match match_name b name entry l with
         | None => inr None
         | Some (p, e, l) =>
           match b !! Z.to_nat e, name !! Z.to_nat p with
           | Some d, Some c =>
             if is_end d && is_end c then inr (Some (Some entry))
             else match skip_entry b e l with
                  | None => inr None
                  | Some (e, l) => if l =? 0 then inl (e, l) else inl (e + 1, size (l - 1))
                  end
           | _, _ => inr None
           end
         end) (0, l).

(** [while ( *entry && *entry != SEP) entry++;] *)
Definition name_end (b : list Z) : Z -> option Z := fun e =>
  run 64 (fun e => match b !! Z.to_nat e with
                   | None => inr None
                   | Some c => if is_end c then inr (Some e) else inl (e + 1)
                   end) e.

Definition envz_get (b : list Z) (l : Z) (name : list Z) : option (option Z) :=
  entry ← envz_entry b l name;
  match entry with
  | None => Some None
  | Some e =>
    e ← name_end b e;
    c ← b !! Z.to_nat e;
    Some (if c =? 0 then None else Some (e + 1))
  end.

Definition envz_remove (v : vec) (name : list Z) : option vec :=
  entry ← envz_entry (mem (argz v)) (argz_len v) name;
  match entry with
  | Some _ => argz_delete v entry
  | None => Some v
  end.

Definition envz_add (v : vec) (name : list Z) (value : option (list Z)) : M H (option error_t * vec) :=
  let! v := lift (envz_remove v name) in
  match value with
  | Some value =>
    let! name_len := lift (c_strlen name 0) in
    let! value_len := lift (c_strlen value 0) in
    let old_envz_len := argz_len v in
    let new_envz_len := size (old_envz_len + name_len + 1 + value_len + 1) in
    let! new_envz := realloc (argz v) new_envz_len in
    match new_envz with
    | Some b =>
      let! x := lift (slice name 0 name_len) in
      let! b := lift (blit b old_envz_len x) in
      let! b := lift (blit b (old_envz_len + name_len) [SEP]) in
      let! x := lift (slice value 0 value_len) in
      let! b := lift (blit b (old_envz_len + name_len + 1) x) in
      let! b := lift (blit b (new_envz_len - 1) [0]) in
      ret (None, Vec (Some b) new_envz_len)
    | None => ret (Some ENOMEM, v)
    end
  | None => __argz_add v name
  end.

(** The body of the loop of [envz_merge]; [envz2] is the memory behind the second
    vector, [p] where the loop is in it and [l] what is left. *)
Definition envz_merge_step (envz2 : list Z) (override : bool) (s : option error_t * vec * Z * Z)
  : M H ((option error_t * vec * Z * Z) + (option error_t * vec)) :=
  let '(err, v, p, l) := s in
  match err with
  | Some _ => ret (inr (err, v))
  | None =>
    if l =? 0 then ret (inr (err, v))
    else
      let! name := lift (suffix_at envz2 p) in
      let! old := lift (envz_entry (mem (argz v)) (argz_len v) name) in
      let! n := lift (c_strlen envz2 p) in
      let new_len := size (n + 1) in
      let! '(err, v) :=
        match old with
        | None => __argz_append v name new_len
        | Some _ =>
          if override then let! v := lift (argz_delete v old) in __argz_append v name new_len
          else ret (None, v)
        end in
      ret (inl (err, v, p + new_len, size (l - new_len)))
  end.

Definition envz_merge (v : vec) (envz2 : list Z) (envz2_len : Z) (override : bool) : M H (option error_t * vec) :=
  loop (envz_merge_step envz2 override) (None, v, 0, envz2_len).

Definition envz_strip (v : vec) : option vec :=
  run 64 (fun '(b, entry, left_) =>
    if left_ =? 0 then inr (Some (Vec (const b <$> argz v) entry))
    else match c_strlen b entry, c_strchr b entry SEP with
         | Some n, Some sep =>
           let entry_len := size (n + 1) in
           let left_ := size (left_ - entry_len) in
           match sep with
           | None => match c_memmove b entry (entry + entry_len) left_ with
                     | None => inr None
                     | Some b => inl (b, entry, left_)
                     end
           | Some _ => inl (b, entry + entry_len, left_)
           end
         | _, _ => inr None
         end) (mem (argz v), 0, argz_len v).
End Code.
