(* ===== verification/ArgzRep.v ===== *)
(** * Argument vectors as lists of strings

    [is_argz v es]: the vector [v] holds the strings [es].  Lemmas that give
    the effect of each operation on the list, for every answer of the
    allocator. *)

From S2P Require Import Prelude CMonad CLoop CInt Buffer Cstr Argz.
Open Scope c_scope.

(** The memory of the strings. *)
Fixpoint flat (es : list (list Z)) : list Z :=
  match es with
  | [] => []
  | e :: es => e ++ 0 :: flat es
  end.

Record is_argz (v : vec) (es : list (list Z)) : Prop := {
  ag_strings : Forall cstr es;
  ag_len : argz_len v = len (flat es);
  ag_block : exists rest, mem (argz v) = flat es ++ rest }.

(** The strings fit the address space. *)
Definition small (es : list (list Z)) : Prop := len (flat es) < 2 ^ 64.

(** The result of an operation that needs memory: the new vector, or the old
    one when there is none. *)
Definition done_or (v : vec) (es : list (list Z)) (e : option error_t) (v' : vec) : Prop :=
  match e with
  | None => is_argz v' es
  | Some e => e = ENOMEM /\ v' = v
  end.

Lemma flat_app es fs : flat (es ++ fs) = flat es ++ flat fs.
Proof. induction es as [|e es IH]; [done|]. cbn [flat app]. rewrite IH, <- app_assoc. done. Qed.

Lemma len_pos l : 0 <= len l.
Proof. unfold len. lia. Qed.

Lemma len_nil : len [] = 0.
Proof. done. Qed.

Lemma len_zero l : len l = 0 -> l = [].
Proof. unfold len. destruct l; [done|cbn; lia]. Qed.

Lemma len_flat_cons e es : len (flat (e :: es)) = len e + 1 + len (flat es).
Proof. cbn [flat]. rewrite len_app, len_cons. lia. Qed.

Lemma len_flat_one e : len (flat [e]) = len e + 1.
Proof. rewrite len_flat_cons. change (flat []) with (@nil Z). rewrite len_nil. lia. Qed.

Lemma len_flat_app es fs : len (flat (es ++ fs)) = len (flat es) + len (flat fs).
Proof. by rewrite flat_app, len_app. Qed.

Lemma len_flat_count es : Z.of_nat (length es) <= len (flat es).
Proof. induction es as [|e es IH]; [done|]. rewrite len_flat_cons. cbn [length]. pose proof (len_pos e). lia. Qed.

Lemma len_flat_nil es : len (flat es) = 0 -> es = [].
Proof. destruct es as [|e es]; [done|]. rewrite len_flat_cons. pose proof (len_pos e). pose proof (len_pos (flat es)). lia. Qed.

Lemma size_small n : 0 <= n < 2 ^ 64 -> size n = n.
Proof. apply wrap_small. Qed.

(** Solves [size n = n]-style side goals with lengths as atoms. *)
Ltac lens :=
  repeat match goal with
  | |- context [len ?l] => lazymatch goal with _ : 0 <= len l |- _ => fail | _ => pose proof (len_pos l) end
  | _ : context [len ?l] |- _ => lazymatch goal with _ : 0 <= len l |- _ => fail | _ => pose proof (len_pos l) end
  end.

(** The rule for a loop with the budget [2^64], applied to the loop of the goal;
    the goals are the step, the start, the bound and the rest. *)
Tactic Notation "by_loop" uconstr(inv) uconstr(post) constr(n) "as" simple_intropattern(pat) :=
  match goal with
  | |- context [run 64 ?step ?s] => destruct (run_spec step inv post 64 n s) as pat
  end.

Lemma empty_vec_ok : is_argz (Vec None 0) [].
Proof. constructor; [done|done|by exists []]. Qed.

(** The place where the strings [es] of a block end. *)
Lemma strlen_entry l1 e l2 rest : cstr e -> c_strlen (flat (l1 ++ e :: l2) ++ rest) (len (flat l1)) = Some (len e).
Proof.
  intros He. rewrite flat_app. cbn [flat]. rewrite <- !app_assoc. cbn [app]. by apply c_strlen_at.
Qed.

(** ** Making a vector *)

Lemma argv_length_spec argv es argc tlen : Forall2 is_str argv es -> 0 <= argc -> argc + Z.of_nat (length es) < 2 ^ 31 ->
  0 <= tlen -> tlen + len (flat es) < 2 ^ 64 -> argv_length argv argc tlen = Some (tlen + len (flat es)).
Proof.
  intros F. revert argc tlen. induction F as [|m s argv es [Hs [r ->]] F IH]; intros argc tlen Ha Hn Ht Hl.
  { cbn [argv_length flat]. rewrite len_nil. f_equal. lia. }
  rewrite len_flat_cons in *. cbn [length] in Hn. cbn [argv_length].
  rewrite c_strlen_0 by done. cbn [mbind option_bind].
  rewrite chk_fits by (unfold fits; change (32 - 1) with 31; lia). cbn [mbind option_bind].
  lens. rewrite !size_small by (rewrite ?size_small by lia; lia). rewrite IH by lia. f_equal. lia.
Qed.

Lemma copy_argv_spec argv es pre p old r : Forall2 is_str argv es -> p = len pre -> len old = len (flat es) ->
  copy_argv argv (pre ++ old ++ r) p = Some (pre ++ flat es ++ r).
Proof.
  intros F. revert pre p old. induction F as [|m s argv es [Hs [r' ->]] F IH]; intros pre p old Hp Ho.
  { apply len_zero in Ho as ->. done. }
  rewrite len_flat_cons in Ho. lens.
  destruct (split_room old (len s + 1)) as (o1 & o2 & -> & Lo); [lia|]. rewrite len_app in Ho.
  cbn [copy_argv flat]. unfold c_stpcpy. rewrite c_strlen_0 by done. cbn [mbind option_bind].
  rewrite (cons_middle 0 s r'), (app_assoc s [0] r').
  assert (L1 : len (s ++ [0]) = len s + 1) by (rewrite len_app; done).
  rewrite slice_0 by lia. cbn [mbind option_bind]. rewrite <- (app_assoc o1).
  rewrite blit_at by lia. cbn [mbind option_bind].
  rewrite (app_assoc pre), IH; [|rewrite len_app; lia|lia].
  f_equal. rewrite <- !app_assoc. done.
Qed.

(** The fields of a string. *)
Fixpoint fields (d : Z) (s : list Z) : list (list Z) :=
  match s with
  | [] => [[]]
  | c :: s => if c =? d then [] :: fields d s
              else match fields d s with f :: fs => (c :: f) :: fs | [] => [[c]] end
  end.

(** Those that are kept: the ones that are not empty, and the last. *)
Fixpoint kept (fs : list (list Z)) : list (list Z) :=
  match fs with
  | [] => []
  | [f] => [f]
  | [] :: fs => kept fs
  | f :: fs => f :: kept fs
  end.

(** What the loop writes; [in_field] tells whether the character before is
    one of a field. *)
Fixpoint sep_out (d : Z) (in_field : bool) (s : list Z) : list Z :=
  match s with
  | [] => [0]
  | c :: s => if c =? d then if in_field then 0 :: sep_out d false s else sep_out d false s
              else c :: sep_out d true s
  end.

Lemma fields_cons d s : exists f fs, fields d s = f :: fs.
Proof. destruct s as [|c s]; cbn; [eauto|]. case_match; [eauto|]. case_match; eauto. Qed.

Lemma sep_out_fields d s : 
  sep_out d false s = flat (kept (fields d s)) /\
  forall f fs, fields d s = f :: fs -> sep_out d true s = f ++ 0 :: flat (kept fs).
Proof.
  induction s as [|c s [IH1 IH2]]; cbn [sep_out fields].
  { split; [done|]. by intros f fs [= <- <-]. }
  destruct (fields_cons d s) as (g & gs & E). specialize (IH2 g gs E). rewrite E in *.
  destruct (c =? d).
  - rewrite IH1. split; [done|]. by intros f fs [= <- <-].
  - rewrite IH2. split; [|by intros f fs [= <- <-]]. by destruct gs.
Qed.

Lemma sep_out_len d i s : 1 <= len (sep_out d i s) <= len s + 1.
Proof.
  revert i. induction s as [|c s IH]; intros i; cbn [sep_out]; [change (len [0]) with 1; rewrite len_nil; lia|].
  rewrite len_cons. specialize (IH false) as A. specialize (IH true) as B.
  destruct (c =? d), i; rewrite ?len_cons; lia.
Qed.

Definition in_field (out : list Z) : bool := match list.last out with Some x => negb (x =? 0) | None => false end.

Lemma in_field_snoc out x : in_field (out ++ [x]) = negb (x =? 0).
Proof. unfold in_field. by rewrite list.last_snoc. Qed.

Lemma in_field_read out room : 
  (if 0 <? len out then x ← (out ++ room) !! Z.to_nat (len out - 1); Some (negb (x =? 0)) else Some false) =
  Some (in_field out).
Proof.
  destruct out as [|x out _] using rev_ind; [done|].
  rewrite in_field_snoc, len_app. change (len [x]) with 1. pose proof (len_pos out).
  rewrite (proj2 (Z.ltb_lt _ _)) by lia. rewrite <- app_assoc. cbn [app].
  rewrite list_lookup_middle by (unfold len; lia). done.
Qed.

Lemma blit_next out x y room : blit (out ++ y :: room) (len out) [x] = Some ((out ++ [x]) ++ room).
Proof. rewrite <- app_assoc. change (y :: room) with ([y] ++ room). by rewrite (blit_at out) by done. Qed.

Lemma sep_loop_spec d s r out wp nlen room rest : d <> 0 -> cstr s -> wp = len out -> len s + 1 <= nlen < 2 ^ 64 ->
  len room = len (sep_out d (in_field out) s) ->
  sep_loop d (s ++ 0 :: r) wp nlen (out ++ room ++ rest) =
  Some (nlen - (len s + 1) + len room, out ++ sep_out d (in_field out) s ++ rest).
Proof.
  intros Hd Hs ->. revert out nlen room. induction Hs as [|c s Hc Hs IH]; intros out nlen room Hn Hr.
  - cbn [sep_out] in *. destruct room as [|y [|? room]]; try by (rewrite ?len_cons, ?len_nil in Hr; lens; lia).
    cbn [app sep_loop]. rewrite (proj2 (Z.eqb_neq 0 d)) by lia. rewrite blit_next. cbn [mbind option_bind].
    rewrite Z.eqb_refl, <- app_assoc. cbn [app]. f_equal. f_equal. rewrite len_cons, !len_nil. lia.
  - cbn [sep_out app sep_loop] in *. rewrite len_cons in Hn. destruct (Z.eqb_spec c d) as [->|Ne].
    + rewrite in_field_read. cbn [mbind option_bind]. destruct (in_field out) eqn:I.
      * destruct room as [|y room]; [rewrite len_cons, len_nil in Hr; lens; lia|]. rewrite !len_cons in Hr.
        cbn [app]. rewrite blit_next. cbn [mbind option_bind]. rewrite (proj2 (Z.eqb_neq d 0)) by done.
        change (len out + 1) with (len out + len [0]). rewrite <- len_app.
        rewrite (IH (out ++ [0])); [|lia|rewrite in_field_snoc; cbn; lia]. rewrite in_field_snoc, <- app_assoc. cbn [Z.eqb negb app].
        rewrite !len_cons. f_equal. f_equal. lia.
      * cbn [mbind option_bind]. rewrite (proj2 (Z.eqb_neq d 0)) by done. pose proof (len_pos s). rewrite size_small by lia.
        rewrite IH; [|lia|by rewrite I]. rewrite I, len_cons. f_equal. f_equal. lia.
    + destruct room as [|y room]; [rewrite len_cons, len_nil in Hr; lens; lia|]. rewrite !len_cons in Hr.
      cbn [app]. rewrite blit_next. cbn [mbind option_bind]. rewrite (proj2 (Z.eqb_neq c 0)) by done.
      change (len out + 1) with (len out + len [c]). rewrite <- len_app.
      assert (I : in_field (out ++ [c]) = true) by (rewrite in_field_snoc; by rewrite (proj2 (Z.eqb_neq c 0))).
      rewrite (IH (out ++ [c])); [|lia|rewrite I; lia]. rewrite I, <- app_assoc. cbn [app].
      rewrite !len_cons. f_equal. f_equal. lia.
Qed.

Section Ops.
Context {H : Type} `{Malloc H}.
Implicit Types h : H.

Lemma lift_some {A B} (a : A) (f : A -> M H B) h : bind (lift (Some a)) f h = f a h.
Proof. done. Qed.

Lemma realloc_spec p a rest n h : mem p = a ++ rest -> len a <= n -> 0 < n ->
  exists r h', realloc p n h = Some (r, h') /\
    match r with Some b => exists room, b = a ++ room /\ len room = n - len a | None => True end.
Proof.
  intros Ep Ha Hn. destruct p as [old|]; cbn in Ep; unfold realloc.
  - rewrite (proj2 (Z.eqb_neq n 0)) by lia.
    destruct (malloc_spec n h) as (r & h' & E & Hr). erewrite bind_some by exact E. cbn.
    eexists _, h'. split; [reflexivity|]. destruct r as [b|]; [|done]. cbn. subst old.
    exists (take (Z.to_nat n - length a) rest ++ drop (length (a ++ rest)) b).
    assert (La : (length a <= Z.to_nat n)%nat) by (unfold len in Ha; lia).
    split.
    + rewrite app_assoc. f_equal. rewrite take_app. f_equal. by rewrite take_ge by lia.
    + unfold len in *. rewrite length_app, length_take, length_drop, length_app. lia.
  - destruct (malloc_spec n h) as (r & h' & E & Hr). exists r, h'. split; [done|].
    destruct r as [b|]; [|done]. destruct a; [|done]. exists b. split; [done|]. rewrite len_nil. lia.
Qed.

Lemma append_spec v es buf n fs r h : is_argz v es -> buf = flat fs ++ r -> n = len (flat fs) -> Forall cstr fs ->
  small (es ++ fs) -> es ++ fs <> [] ->
  exists e v' h', __argz_append v buf n h = Some ((e, v'), h') /\ done_or v (es ++ fs) e v'.
Proof.
  intros [Hs Hl [rest Hb]] -> -> Hf Sm Ne. unfold small in Sm. rewrite len_flat_app in Sm.
  assert (0 < len (flat (es ++ fs))).
  { pose proof (len_pos (flat (es ++ fs))). pose proof (len_flat_nil (es ++ fs)). destruct (Z.eq_dec (len (flat (es ++ fs))) 0); [|lia]. by exfalso; auto. }
  rewrite len_flat_app in *. lens. unfold __argz_append. rewrite Hl, size_small by lia.
  destruct (realloc_spec (argz v) (flat es) rest (len (flat es) + len (flat fs)) h) as (b & h' & E & Hr); [done|lia|lia|].
  erewrite bind_some by exact E. destruct b as [b|].
  - destruct Hr as (room & -> & Hr).
    rewrite slice_0 by done. rewrite lift_some.
    rewrite <- (app_nil_r room), (blit_at (flat es)) by (done || lia). rewrite lift_some.
    eexists None, _, h'. split; [reflexivity|]. constructor; cbn.
    + by apply Forall_app.
    + by rewrite len_flat_app.
    + exists []. by rewrite flat_app, !app_nil_r.
  - eexists (Some ENOMEM), v, h'. done.
Qed.

Lemma add_spec v es m s h : is_argz v es -> is_str m s -> small (es ++ [s]) ->
  exists e v' h', __argz_add v m h = Some ((e, v'), h') /\ done_or v (es ++ [s]) e v'.
Proof.
  intros Hv [Hs [r ->]] Sm. unfold __argz_add. rewrite c_strlen_0 by done. rewrite lift_some.
  pose proof (len_flat_one s) as L.
  unfold small in Sm. rewrite len_flat_app in Sm. lens. rewrite size_small by lia.
  eapply append_spec with (r := r); eauto.
  - cbn [flat]. by rewrite <- app_assoc.
  - unfold small. by rewrite len_flat_app.
  - by destruct es.
Qed.

Lemma fields_cstr d s : cstr s -> Forall cstr (fields d s).
Proof.
  induction 1 as [|c s Hc Hs IH]; cbn [fields]; [by repeat constructor|].
  destruct (c =? d); [by constructor; [constructor|]|]. destruct (fields_cons d s) as (f & fs & E). rewrite E in *.
  apply list.Forall_cons in IH as [Hf Hfs]. constructor; [by constructor|done].
Qed.

Lemma kept_cstr fs : Forall cstr fs -> Forall cstr (kept fs).
Proof.
  induction 1 as [|f fs Hf Hfs IH]; [done|]. cbn [kept]. destruct f, fs; try done; try by constructor.
Qed.

Lemma create_spec argv es v h : Forall2 is_str argv es -> Z.of_nat (length es) < 2 ^ 31 -> small es ->
  exists e v' h', __argz_create argv v h = Some ((e, v'), h') /\
    match e with None => is_argz v' es | Some e => e = ENOMEM /\ argz v' = None end.
Proof.
  intros F Hn Sm. unfold small in Sm. unfold __argz_create. rewrite (argv_length_spec argv es) by (done || lia).
  rewrite lift_some, Z.add_0_l.
  assert (Hs : Forall cstr es).
  { clear -F. induction F as [|? ? ? ? [? _]]; by constructor. }
  destruct (Z.eqb_spec (len (flat es)) 0) as [E0|E0].
  { apply len_flat_nil in E0 as ->. eexists None, _, h. split; [reflexivity|]. apply empty_vec_ok. }
  destruct (malloc_spec (len (flat es)) h) as (r & h' & E & Hr). erewrite bind_some by exact E.
  destruct r as [b|]; [|by eexists (Some ENOMEM), _, h'].
  pose proof (copy_argv_spec argv es [] 0 b [] F eq_refl Hr) as C. cbn [app] in C. rewrite !app_nil_r in C.
  rewrite C, lift_some. eexists None, _, h'. split; [reflexivity|].
  constructor; [done|done|]. exists []. cbn. by rewrite app_nil_r.
Qed.

(** A block with room behind what it holds is filled by the loop. *)
Lemma sep_fill d m s es b room nlen : is_str m s -> d <> 0 -> Forall cstr es -> b = flat es ++ room ->
  len room = len s + 1 -> len s + 1 < 2 ^ 64 -> nlen = len s + 1 ->
  exists rest, sep_loop d m (len (flat es)) nlen b =
    Some (len (flat (kept (fields d s))), flat (es ++ kept (fields d s)) ++ rest).
Proof.
  intros [Hs [r ->]] Hd He -> Hr Hl ->.
  assert (I : in_field (flat es) = false).
  { clear -He. destruct es as [|e es _] using rev_ind; [done|]. rewrite flat_app. cbn [flat].
    rewrite app_assoc, in_field_snoc. done. }
  pose proof (sep_out_len d false s) as L. pose proof (len_pos s).
  destruct (split_room room (len (sep_out d false s))) as (r1 & r2 & -> & L1); [lia|].
  exists r2. rewrite sep_loop_spec; [|done..|lia|by rewrite I]. rewrite I, flat_app, <- app_assoc.
  destruct (sep_out_fields d s) as [<- _]. f_equal. f_equal. lia.
Qed.

Lemma create_sep_spec m s d v h : is_str m s -> d <> 0 -> len s + 1 < 2 ^ 64 ->
  exists e v' h', __argz_create_sep m d v h = Some ((e, v'), h') /\
    match e with
    | None => is_argz v' (if decide (s = []) then [] else kept (fields d s))
    | Some e => e = ENOMEM /\ argz v' = None
    end.
Proof.
  intros Hm Hd Hl. pose proof (proj1 Hm) as Hs. unfold __argz_create_sep. rewrite (is_str_len m s) by done.
  pose proof (len_pos s). rewrite lift_some, size_small by lia.
  case_decide as D.
  { subst s. eexists None, _, h. split; [reflexivity|apply empty_vec_ok]. }
  assert (len s <> 0) by (intros E0; by apply len_zero in E0). rewrite (proj2 (Z.ltb_lt _ _)) by lia.
  destruct (malloc_spec (len s + 1) h) as (b & h' & E & Hb). erewrite bind_some by exact E.
  destruct b as [b|]; [|by eexists (Some ENOMEM), _, h'].
  destruct (sep_fill d m s [] b b (len s + 1)) as [rest Ef]; [done..|].
  change (len (flat [])) with 0 in Ef. rewrite Ef, lift_some. cbn [app].
  assert (N : len (flat (kept (fields d s))) <> 0).
  { destruct (sep_out_fields d s) as [<- _]. pose proof (sep_out_len d false s). lia. }
  rewrite (proj2 (Z.eqb_neq _ _)) by done. eexists None, _, h'. split; [reflexivity|].
  constructor; [by apply kept_cstr, fields_cstr|done|by exists rest].
Qed.

Lemma add_sep_spec v es m s d h : is_argz v es -> is_str m s -> d <> 0 -> len (flat es) + len s + 1 < 2 ^ 64 ->
  exists e v' h', __argz_add_sep v m d h = Some ((e, v'), h') /\
    match e with
    | None => is_argz v' (es ++ if decide (s = []) then [] else kept (fields d s))
    | Some e => e = ENOMEM /\ v' = Vec None (len (flat es))
    end.
Proof.
  intros Hv Hm Hd Hl. destruct (Hv) as [He Hn [rest Hb]]. pose proof (proj1 Hm) as Hs.
  unfold __argz_add_sep. rewrite (is_str_len m s) by done. lens. rewrite lift_some, size_small by lia.
  case_decide as D.
  { subst s. rewrite app_nil_r. eexists None, v, h. done. }
  assert (len s <> 0) by (intros E0; by apply len_zero in E0). rewrite (proj2 (Z.ltb_lt _ _)) by lia.
  rewrite Hn, (size_small (len (flat es) + _)) by lia.
  destruct (realloc_spec (argz v) (flat es) rest (len (flat es) + (len s + 1)) h) as (b & h' & E & Hr); [done|lia|lia|].
  erewrite bind_some by exact E. destruct b as [b|]; [|by eexists (Some ENOMEM), _, h'].
  destruct Hr as (room & -> & Hr).
  destruct (sep_fill d m s es (flat es ++ room) room (len s + 1)) as [rest' Ef]; [done..|lia|lia|done|].
  rewrite Ef, lift_some. pose proof (sep_out_len d false s) as L. destruct (sep_out_fields d s) as [F _]. rewrite F in L.
  rewrite size_small by lia. eexists None, _, h'. split; [reflexivity|].
  constructor; [apply Forall_app; split; [done|by apply kept_cstr, fields_cstr]|by rewrite len_flat_app|by exists rest'].
Qed.
End Ops.
