(* ===== verification/ArgzOps.v ===== *)
(** * Walking through and changing argument vectors

    Counting, extracting, stepping, deleting, inserting and printing, as
    operations on the list of strings. *)

From S2P Require Import Prelude CMonad CLoop CInt Buffer Cstr Argz ArgzRep.
Open Scope c_scope.

(** The offsets of the strings. *)
Fixpoint starts (o : Z) (es : list (list Z)) : list Z :=
  match es with
  | [] => []
  | e :: es => o :: starts (o + len e + 1) es
  end.

Lemma starts_app o es fs : starts o (es ++ fs) = starts o es ++ starts (o + len (flat es)) fs.
Proof.
  revert o. induction es as [|e es IH]; intros o; cbn [starts app].
  - change (flat []) with (@nil Z). by rewrite len_nil, Z.add_0_r.
  - rewrite IH, len_flat_cons. do 3 f_equal. lia.
Qed.

Lemma length_starts o es : length (starts o es) = length es.
Proof. revert o. induction es as [|e es IH]; intros o; [done|]. cbn. by rewrite IH. Qed.

(** A walk has passed the strings [l1] of a vector. *)
Lemma flat_snoc_len l1 e : len (flat (l1 ++ [e])) = len (flat l1) + len e + 1.
Proof. rewrite len_flat_app, len_flat_one. lia. Qed.

Lemma flat_nil_pos (es : list (list Z)) : es <> [] -> 0 < len (flat es).
Proof.
  intros Ne. destruct (Z.eq_dec (len (flat es)) 0) as [E|E]; [by apply len_flat_nil in E|].
  pose proof (len_pos (flat es)). lia.
Qed.

Lemma store_ptr_at pre i v x post : i = Z.of_nat (length pre) ->
  set_argv (pre ++ x :: post) i v = Some (pre ++ v :: post).
Proof.
  intros ->. unfold set_argv. rewrite length_app. cbn [length].
  rewrite (proj2 (Z.ltb_lt _ _)) by lia. rewrite Nat2Z.id. f_equal.
  replace (length pre) with (length pre + 0)%nat by lia. by rewrite insert_app_r.
Qed.

Section Walk.
Variables (es : list (list Z)) (b rest : list Z).
Hypothesis block : b = flat es ++ rest.
Hypothesis strings : Forall cstr es.
Hypothesis bounded : small es.

(** What a step reads in front of the strings [e :: l2]. *)
Lemma walk_strlen l1 e l2 : es = l1 ++ e :: l2 ->
  c_strlen b (len (flat l1)) = Some (len e) /\ cstr e /\
  len e + 1 <= len (flat (e :: l2)) < 2 ^ 64 /\ 0 < len (flat (e :: l2)) /\
  size (len e + 1) = len e + 1 /\ size (len (flat (e :: l2)) - (len e + 1)) = len (flat l2).
Proof.
  intros E. rewrite block, E. unfold small in bounded. rewrite E in strings, bounded.
  apply Forall_app in strings as [_ [He _]%list.Forall_cons].
  rewrite len_flat_app, len_flat_cons in bounded. lens.
  rewrite strlen_entry by done. rewrite len_flat_cons. repeat (split; [done || lia|]). rewrite !size_small by lia. lia.
Qed.

Lemma count_spec : __argz_count b (len (flat es)) = Some (Z.of_nat (length es)).
Proof.
  pose proof (len_flat_count es) as C.
  unfold __argz_count.
  by_loop
    (fun n '(p, l, c) => exists l1 l2, es = l1 ++ l2 /\ p = len (flat l1) /\ l = len (flat l2) /\
       c = Z.of_nat (length l1) /\ n = l)
    (fun c => c = Z.of_nat (length es)) (len (flat es)) as (r & E & ->); [| |done|done].
  - intros n [[p l] c] (l1 & l2 & E & -> & -> & -> & ->). destruct l2 as [|e l2].
    + cbn. by rewrite E, app_nil_r.
    + destruct (walk_strlen l1 e l2 E) as (-> & _ & B & P & E1 & E2).
      rewrite (proj2 (Z.ltb_lt _ _)) by lia. rewrite E1, E2, size_small.
      * exists (len (flat l2)). rewrite len_flat_cons. lens. split; [lia|].
        exists (l1 ++ [e]), l2. rewrite E, <- app_assoc, flat_snoc_len, length_app. cbn [length]. repeat split; lia.
      * rewrite E, length_app in C. cbn [length] in C. unfold small in bounded. rewrite E in bounded. rewrite len_flat_app in *. lia.
  - by exists [], es.
Qed.

Lemma extract_spec argv : (length es < length argv)%nat ->
  __argz_extract b (len (flat es)) argv = Some ((Some <$> starts 0 es) ++ None :: drop (S (length es)) argv).
Proof.
  intros Room. unfold __argz_extract.
  by_loop
    (fun n '(p, l, a, i) => exists l1 l2, es = l1 ++ l2 /\ p = len (flat l1) /\ l = len (flat l2) /\
       a = (Some <$> starts 0 l1) ++ drop (length l1) argv /\ i = Z.of_nat (length l1) /\ n = l)
    (fun '(a, i) => a = (Some <$> starts 0 es) ++ drop (length es) argv /\ i = Z.of_nat (length es))
    (len (flat es)) as ([a i] & E & -> & ->); [| |done|].
  - intros n [[[p l] a] i] (l1 & l2 & E & -> & -> & -> & -> & ->). destruct l2 as [|e l2].
    + cbn. rewrite app_nil_r in E. by rewrite E.
    + destruct (walk_strlen l1 e l2 E) as (-> & _ & B & P & E1 & E2).
      rewrite (proj2 (Z.ltb_lt _ _)) by lia. rewrite E1, E2.
      destruct (drop (length l1) argv) as [|x post] eqn:D.
      { apply (f_equal length) in D. rewrite length_drop in D. rewrite E, length_app in Room. cbn in D, Room. lia. }
      rewrite store_ptr_at by (by rewrite length_fmap, length_starts).
      exists (len (flat l2)). rewrite len_flat_cons. lens. split; [lia|].
      exists (l1 ++ [e]), l2. rewrite E, <- app_assoc, flat_snoc_len, length_app, starts_app, fmap_app. cbn [length starts fmap list_fmap].
      rewrite <- drop_drop, D. cbn [drop]. rewrite <- app_assoc. repeat split; lia.
  - exists [], es. done.
  - rewrite E. cbn [mbind option_bind].
    destruct (drop (length es) argv) as [|x post] eqn:D.
    { apply (f_equal length) in D. rewrite length_drop in D. cbn in D. lia. }
    rewrite store_ptr_at by (by rewrite length_fmap, length_starts). f_equal. f_equal. f_equal.
    replace (S (length es)) with (length es + 1)%nat by lia. by rewrite <- drop_drop, D.
Qed.

(** Stepping: [NULL] leads to the first string, a string to the next. *)
Lemma next_first : __argz_next b (len (flat es)) None = Some (head (starts 0 es)).
Proof.
  unfold __argz_next. f_equal. destruct es as [|e l]; [done|].
  rewrite len_flat_cons. lens. by rewrite (proj2 (Z.ltb_lt _ _)) by lia.
Qed.

Lemma next_entry l1 e l2 : es = l1 ++ e :: l2 ->
  __argz_next b (len (flat es)) (Some (len (flat l1))) = Some (head (starts (len (flat l1) + len e + 1) l2)).
Proof.
  intros E. destruct (walk_strlen l1 e l2 E) as (L & _ & B & P & _). unfold __argz_next. rewrite L.
  rewrite E, len_flat_app. rewrite (proj2 (Z.ltb_lt _ _)) by lia. cbn [mbind option_bind]. f_equal.
  rewrite len_flat_cons. destruct l2 as [|f l2]; cbn [starts head].
  - change (flat []) with (@nil Z). rewrite len_nil. by rewrite (proj2 (Z.leb_le _ _)) by lia.
  - rewrite len_flat_cons. lens. by rewrite (proj2 (Z.leb_gt _ _)) by lia.
Qed.
End Walk.

(** ** Deleting *)

Lemma vec_split v l1 e l2 : is_argz v (l1 ++ e :: l2) ->
  exists rest, mem (argz v) = flat l1 ++ (e ++ [0]) ++ flat l2 ++ rest.
Proof.
  intros [_ _ [rest ->]]. exists rest. rewrite flat_app. cbn [flat]. by rewrite <- !app_assoc.
Qed.

Lemma delete_spec v l1 e l2 : is_argz v (l1 ++ e :: l2) -> small (l1 ++ e :: l2) ->
  exists v', argz_delete v (Some (len (flat l1))) = Some v' /\ is_argz v' (l1 ++ l2).
Proof.
  intros Hv Sm. destruct (vec_split v l1 e l2 Hv) as [rest' Eb]. destruct (Hv) as [Hs Hl [rest Hb]].
  destruct (walk_strlen (l1 ++ e :: l2) (mem (argz v)) rest Hb Hs Sm l1 e l2 eq_refl) as (L & _ & B & P & E1 & E2).
  unfold argz_delete. rewrite L. cbn [mbind option_bind]. rewrite E1, Hl.
  rewrite len_flat_app, len_flat_cons in *. unfold small in Sm. rewrite len_flat_app, len_flat_cons in Sm. lens.
  rewrite (size_small (_ + _ - _)) by lia. rewrite size_small by lia.
  replace (len (flat l1) + (len e + 1 + len (flat l2)) - (len e + 1)) with (len (flat (l1 ++ l2))) by (rewrite len_flat_app; lia).
  destruct (memmove_down (flat l1) (e ++ [0]) (flat l2) rest' (len (flat l1)) (len (flat l1) + (len e + 1))
    (len (flat (l1 ++ l2)) - len (flat l1))) as [r' Em]; [done|rewrite len_app; change (len [0]) with 1; lia|rewrite len_flat_app; lia|].
  rewrite Eb, Em. cbn [mbind option_bind]. eexists. split; [reflexivity|].
  assert (Forall cstr (l1 ++ l2)).
  { apply Forall_app in Hs as [? [? ?]%list.Forall_cons]. by apply Forall_app. }
  destruct (Z.eqb_spec (len (flat (l1 ++ l2))) 0) as [E0|E0].
  - apply len_flat_nil in E0 as ->. apply empty_vec_ok.
  - constructor; [done|done|]. exists r'. cbn. by rewrite flat_app, <- app_assoc.
Qed.

(** ** Inserting *)

(** Going back to the beginning of a string that is not the first. *)
Lemma entry_start_spec pre a r : cstr a -> len a < 2 ^ 64 - 1 ->
  entry_start (pre ++ 0 :: a ++ r) (len pre + 1 + len a) = Some (len pre + 1).
Proof.
  intros Ha Ba. unfold entry_start. 
  by_loop (fun n p => exists a1 a2, a = a1 ++ a2 /\ p = len pre + 1 + len a1 /\ n = len a1)
    (fun p => p = len pre + 1) (len a) as (p & E & ->); [| |lia|done].
  - intros n p (a1 & a2 & Ea & -> & ->). lens. rewrite (proj2 (Z.ltb_lt _ _)) by lia.
    destruct a1 as [|c a1 _] using rev_ind.
    + rewrite len_nil. rewrite list_lookup_middle by (unfold len; lia). cbn. lia.
    + rewrite len_app. change (len [c]) with 1.
      assert (Lk : (pre ++ 0 :: a ++ r) !! Z.to_nat (len pre + 1 + (len a1 + 1) - 1) = Some c).
      { rewrite Ea. rewrite <- !app_assoc. rewrite app_comm_cons, app_assoc. cbn [app]. apply list_lookup_middle.
        rewrite length_app. cbn [length]. unfold len. lia. }
      rewrite Lk. assert (c <> 0).
      { unfold cstr in Ha. rewrite Ea in Ha. apply Forall_app in Ha as [[_ Ha]%Forall_app _]. by apply list.Forall_cons in Ha as [? _]. }
      rewrite (proj2 (Z.eqb_neq c 0)) by done. exists (len a1). lens. split; [lia|].
      exists a1, (c :: a2). rewrite Ea, <- app_assoc. split; [done|]. split; [lia|done].
  - exists a, []. by rewrite app_nil_r.
Qed.

(** In the first string the loop reads in front of the block. *)
Lemma entry_start_undefined e r i : cstr e -> 0 < i <= len e -> entry_start (e ++ r) i = None.
Proof.
  intros He Bi. unfold entry_start.
  match goal with |- ?l = _ => destruct l as [x|] eqn:E end; [|reflexivity]. exfalso.
  apply (run_inv _ (fun p => 0 <= p <= i) (fun _ => False)) in E; [exact E| |lia].
  intros p Bp. destruct (Z.ltb_spec 0 p); [|done]. rewrite lookup_app_l by (unfold len in *; lia).
  destruct (e !! Z.to_nat (p - 1)) as [c|] eqn:Lk; [|done].
  rewrite (proj2 (Z.eqb_neq c 0)); [lia|]. by apply (proj1 (list.Forall_lookup _ _) He _ _ Lk).
Qed.

Lemma entry_start_vec l1 e l2 rest i : l1 <> [] -> cstr e -> 0 <= i <= len e -> len e < 2 ^ 64 - 1 ->
  entry_start (flat (l1 ++ e :: l2) ++ rest) (len (flat l1) + i) = Some (len (flat l1)).
Proof.
  intros Ne He Bi Be. destruct l1 as [|f l1 _] using rev_ind; [done|].
  destruct (split_room e i Bi) as (a & c & -> & La).
  rewrite <- app_assoc. rewrite !flat_app. cbn [flat app]. rewrite <- !app_assoc. cbn [app].
  rewrite (app_assoc (flat l1) f). rewrite len_app, len_app. change (len [0]) with 1.
  pose proof (entry_start_spec (flat l1 ++ f) a (c ++ 0 :: flat l2 ++ rest)) as S. rewrite len_app in S.
  replace (len (flat l1) + (len f + 1)) with (len (flat l1) + len f + 1) by lia. rewrite <- La.
  apply S; [by apply Forall_app in He as [? _]|]. rewrite len_app in Be. lens. lia.
Qed.

Section Insert.
Context {H : Type} `{Malloc H}.

(** [i] characters into a string; the first one is only found at its beginning. *)
Lemma insert_spec v l1 e l2 i m s h : is_argz v (l1 ++ e :: l2) -> is_str m s -> small (l1 ++ s :: e :: l2) ->
  0 <= i <= len e -> (l1 = [] -> i = 0) ->
  exists err v' h', __argz_insert v (Some (len (flat l1) + i)) m h = Some ((err, v'), h') /\
    done_or v (l1 ++ s :: e :: l2) err v'.
Proof.
  intros [Hs Hl [rest Hb]] Hm Sm Bi Hi. pose proof (is_str_len m s Hm) as Lm. destruct Hm as [Hc [r ->]].
  unfold small in Sm. rewrite len_flat_app, len_flat_cons in Sm.
  assert (He : cstr e) by (by apply Forall_app in Hs as [_ [? _]%list.Forall_cons]).
  assert (L2 : len (flat (l1 ++ e :: l2)) = len (flat l1) + len (flat (e :: l2))) by apply len_flat_app.
  assert (L3 : len e + 1 <= len (flat (e :: l2))) by (rewrite len_flat_cons; lens; lia). lens.
  unfold __argz_insert. rewrite Hl, (proj2 (Z.ltb_ge _ _)), (proj2 (Z.leb_gt _ _)) by lia. cbn [orb].
  assert (Es : (if 0 <? len (flat l1) + i then entry_start (mem (argz v)) (len (flat l1) + i)
                else Some (len (flat l1) + i)) = Some (len (flat l1))).
  { destruct l1 as [|f l1].
    - rewrite Hi by done. done.
    - rewrite (proj2 (Z.ltb_lt _ _)) by (rewrite len_flat_cons in *; lens; lia). rewrite Hb. apply entry_start_vec; try done; lia. }
  rewrite Es, lift_some, Lm, lift_some. rewrite !size_small by (rewrite ?size_small by lia; lia).
  destruct (realloc_spec (argz v) (flat (l1 ++ e :: l2)) rest (len (flat (l1 ++ e :: l2)) + (len s + 1)) h)
    as (b & h' & E & Hr); [done|lia|lia|].
  erewrite bind_some by exact E. destruct b as [b|]; [|by eexists (Some ENOMEM), _, h'].
  destruct Hr as (room & -> & Hr). rewrite flat_app, <- app_assoc. unfold c_memmove.
  rewrite slice_mid by (done || rewrite ?len_app; lia). cbn [mbind option_bind].
  destruct (split_room (flat (e :: l2) ++ room) (len s + 1)) as (t1 & t2 & Et & Lt); [rewrite len_app; lia|].
  assert (Lt2 : len t2 = len (flat (e :: l2))).
  { apply (f_equal len) in Et. rewrite !len_app in Et. lia. }
  rewrite Et, (app_assoc (flat l1) t1), <- (app_nil_r t2), blit_at; [|rewrite len_app; lia|done].
  rewrite lift_some. rewrite (cons_middle 0 s r), (app_assoc s [0] r).
  assert (Ls : len (s ++ [0]) = len s + 1) by (rewrite len_app; done).
  rewrite slice_0 by lia. rewrite lift_some, app_nil_r, <- app_assoc.
  rewrite (blit_at (flat l1) (len (flat l1)) t1 (s ++ [0])) by (done || lia). rewrite lift_some.
  eexists None, _, h'. split; [reflexivity|]. constructor.
  - apply Forall_app in Hs as [? ?]. apply Forall_app. split; [done|by constructor].
  - cbn [argz_len]. rewrite len_app, len_flat_app, (len_flat_cons s). lia.
  - exists []. rewrite flat_app. cbn [flat mem argz default]. by rewrite app_nil_r, <- app_assoc.
Qed.

(** ... and in front of the beginning of the block otherwise. *)
Lemma insert_first_undefined v e l2 i m h : is_argz v (e :: l2) -> 0 < i <= len e ->
  __argz_insert v (Some i) m h = None.
Proof.
  intros [Hs Hl [rest Hb]] Bi. unfold __argz_insert. rewrite Hl, len_flat_cons. lens.
  rewrite (proj2 (Z.ltb_ge _ _)), (proj2 (Z.leb_gt _ _)), (proj2 (Z.ltb_lt 0 _)) by lia. cbn [orb].
  rewrite Hb. cbn [flat]. rewrite <- app_assoc, entry_start_undefined; [done| |done].
  by apply list.Forall_cons in Hs as [? _].
Qed.
End Insert.

(** ** Printing *)

(** Every string followed by the separator. *)
Fixpoint separated (sep : Z) (es : list (list Z)) : list Z :=
  match es with
  | [] => []
  | e :: es => e ++ sep :: separated sep es
  end.

(** The strings with the separator between them. *)
Fixpoint join (sep : Z) (es : list (list Z)) : list Z :=
  match es with
  | [] => []
  | [e] => e
  | e :: es => e ++ sep :: join sep es
  end.

Lemma separated_app sep es fs : separated sep (es ++ fs) = separated sep es ++ separated sep fs.
Proof. induction es as [|e es IH]; [done|]. cbn. by rewrite IH, <- app_assoc. Qed.

Lemma len_separated sep es : len (separated sep es) = len (flat es).
Proof. induction es as [|e es IH]; [done|]. cbn [separated flat]. rewrite !len_app, !len_cons. lia. Qed.

Lemma separated_join sep es e : separated sep es ++ e = join sep (es ++ [e]).
Proof.
  induction es as [|f es IH]; [done|]. cbn [separated app]. rewrite <- app_assoc. cbn [app]. rewrite IH.
  cbn [join]. destruct es; done.
Qed.

Lemma stringify_spec es rest sep : Forall cstr es -> small es -> fits 8 sep -> es <> [] ->
  __argz_stringify (flat es ++ rest) (len (flat es)) sep = Some (join sep es ++ 0 :: rest).
Proof.
  intros Hs Sm Hsep Ne. unfold __argz_stringify. pose proof (flat_nil_pos es Ne). rewrite (proj2 (Z.ltb_lt _ _)) by done.
  by_loop (fun n '(b, p, l) => exists l1 l2, es = l1 ++ l2 /\ l2 <> [] /\ b = separated sep l1 ++ flat l2 ++ rest /\
      p = len (flat l1) /\ l = len (flat l2) /\ n = l)
    (fun b => b = join sep es ++ 0 :: rest) (len (flat es)) as (b & E & ->); [| |done|done].
  - intros n [[b p] l] (l1 & l2 & E & Ne2 & -> & -> & -> & ->). destruct l2 as [|e l2]; [done|].
    rewrite E in Hs. apply Forall_app in Hs as [_ [He _]%list.Forall_cons].
    unfold small in Sm. rewrite E, len_flat_app, len_flat_cons in Sm. cbn [flat]. rewrite <- app_assoc. cbn [app].
    rewrite c_strnlen_at by (rewrite ?len_separated, ?len_app, ?len_cons; done || (lens; lia)).
    rewrite len_app, len_cons. lens. rewrite size_small by lia.
    replace (len e + (1 + len (flat l2)) - len e) with (1 + len (flat l2)) by lia.
    destruct l2 as [|f l2].
    + cbn [flat]. rewrite len_nil. cbn. rewrite (app_assoc _ e), separated_join. by rewrite E.
    + assert (0 < len (flat (f :: l2))) by (by apply flat_nil_pos). rewrite (proj2 (Z.leb_gt _ _)) by lia.
      rewrite (app_assoc (separated sep l1)), sint_small by (done || lia).
      replace (len (flat l1) + len e) with (len (separated sep l1 ++ e)) by (rewrite len_app, len_separated; lia).
      rewrite blit_next. exists (len (flat (f :: l2))). split; [lia|].
      exists (l1 ++ [e]), (f :: l2). rewrite E, <- app_assoc, separated_app, flat_snoc_len, len_app, len_separated, size_small by lia.
      cbn [separated app]. rewrite <- !app_assoc. repeat split; (done || lia).
  - exists [], es. done.
Qed.

(** Splitting what was joined. *)
Lemma fields_join d es : es <> [] -> Forall (fun e => d ∉ e) es -> fields d (join d es) = es.
Proof.
  intros Ne F. induction F as [|e es He F IH]; [done|]. clear Ne.
  assert (A : forall e s, d ∉ e -> fields d (e ++ s) = match fields d s with f :: fs => (e ++ f) :: fs | [] => [] end).
  { clear. induction e as [|c e IH]; intros s He; cbn [app fields].
    - by destruct (fields_cons d s) as (f & fs & ->).
    - apply not_elem_of_cons in He as [Hc He]. rewrite IH by done. rewrite (proj2 (Z.eqb_neq c d)) by congruence.
      by destruct (fields_cons d s) as (f & fs & ->). }
  destruct es as [|f es].
  - cbn [join]. rewrite <- (app_nil_r e) at 1. rewrite A by done. cbn. by rewrite app_nil_r.
  - change (join d (e :: f :: es)) with (e ++ d :: join d (f :: es)). rewrite A by done. cbn [fields]. rewrite Z.eqb_refl. rewrite IH by done. by rewrite app_nil_r.
Qed.

Lemma kept_all es : Forall (fun e => e <> []) es -> kept es = es.
Proof.
  induction 1 as [|e es He F IH]; [done|]. cbn [kept]. destruct es; destruct e; try done. by rewrite IH.
Qed.
