(* ===== verification/ArgzReplace.v ===== *)
(** * Replacing in argument vectors

    [substitute w x s] is the string [s] with every occurrence of [w], from
    the left and without overlaps, replaced by [x]; [__argz_replace] applies
    it to every string of the vector or leaves the vector alone. *)

From S2P Require Import Prelude CMonad CLoop CInt Buffer Cstr Argz ArgzRep ArgzOps.
Open Scope c_scope.

Fixpoint substitute_fuel (fuel : nat) (w x s : list Z) : list Z :=
  match fuel with
  | O => s
  | S fuel => match find_sub w s with
              | None => s
              | Some n => take (Z.to_nat n) s ++ x ++ substitute_fuel fuel w x (drop (Z.to_nat n + length w) s)
              end
  end.

(** Every round but the last shortens the string. *)
Definition substitute (w x s : list Z) : list Z := substitute_fuel (S (length s)) w x s.

Lemma find_sub_split w s n : find_sub w s = Some n ->
  exists a b, s = a ++ w ++ b /\ len a = n /\ take (Z.to_nat n) s = a /\ drop (Z.to_nat n + length w) s = b.
Proof.
  intros E. apply find_sub_spec in E as (a & b & -> & <- & _). exists a, b. unfold len. rewrite Nat2Z.id.
  repeat split; [by rewrite take_app_length|]. by rewrite <- drop_drop, !drop_app_length.
Qed.

Lemma substitute_fuel_enough w x s f g : w <> [] -> (length s < f)%nat -> (length s < g)%nat ->
  substitute_fuel f w x s = substitute_fuel g w x s.
Proof.
  intros Hw. revert s g. induction f as [|f IH]; intros s g Hf Hg; [lia|]. destruct g as [|g]; [lia|].
  cbn [substitute_fuel]. destruct (find_sub w s) as [n|] eqn:E; [|done].
  destruct (find_sub_split w s n E) as (a & b & Es & La & Et & Ed). rewrite Et, Ed.
  do 2 f_equal. assert (length w <> O) by (by destruct w). rewrite Es, !length_app in Hf, Hg. apply IH; lia.
Qed.

Lemma substitute_none w x s : find_sub w s = None -> substitute w x s = s.
Proof. intros E. unfold substitute. cbn [substitute_fuel]. by rewrite E. Qed.

Lemma substitute_some w x s a b : w <> [] -> find_sub w s = Some (len a) -> s = a ++ w ++ b ->
  substitute w x s = a ++ x ++ substitute w x b.
Proof.
  intros Hw E Es. unfold substitute. cbn [substitute_fuel]. rewrite E.
  destruct (find_sub_split w s (len a) E) as (a' & b' & Es' & La & -> & ->).
  assert (a' = a /\ b' = b) as [-> ->].
  { rewrite Es in Es'. apply app_inj_1 in Es' as [-> Es']; [|unfold len in La; lia]. by apply app_inv_head in Es' as ->. }
  change (match find_sub w b with None => b | Some n => _ end) with (substitute_fuel (S (length b)) w x b).
  do 2 f_equal. assert (length w <> O) by (by destruct w).
  apply substitute_fuel_enough; [done| |lia]. rewrite Es, !length_app. lia.
Qed.

Lemma cstr_app a b : cstr (a ++ b) <-> cstr a /\ cstr b.
Proof. apply Forall_app. Qed.

Lemma substitute_cstr w x s : w <> [] -> cstr x -> cstr s -> cstr (substitute w x s).
Proof.
  intros Hw Hx. unfold substitute. generalize (S (length s)) as f. intros f. revert s.
  induction f as [|f IH]; intros s Hs; [done|]. cbn [substitute_fuel].
  destruct (find_sub w s) as [n|] eqn:E; [|done].
  destruct (find_sub_split w s n E) as (a & b & -> & La & -> & ->). rewrite !cstr_app in *. naive_solver.
Qed.

(** The occurrences are counted once for each string. *)
Definition has_match (w s : list Z) : bool := match find_sub w s with Some _ => true | None => false end.

Section Replace.
Context {H : Type} `{Malloc H}.
Implicit Types h : H.

Lemma loop_spec {S R} (step : S -> M H (S + R)) (Inv : Z -> S -> Prop) (Post : R -> Prop) n s h :
  (forall n s h, Inv n s -> exists r h', step s h = Some (r, h') /\
     match r with inl s' => exists n', 0 <= n' < n /\ Inv n' s' | inr r => Post r end) ->
  Inv n s -> n < 2 ^ 64 -> exists r h', loop step s h = Some (r, h') /\ Post r.
Proof.
  intros Hstep Hs Hn. unfold loop.
  by_loop (fun n '(s, _) => Inv n s) (fun '(r, _) => Post r) n as ([r h'] & E & P); [|done|done|].
  - intros m [s' h'] Hm. destruct (Hstep m s' h' Hm) as ([s''|r] & h'' & -> & P); done.
  - exists r, h'. done.
Qed.

Lemma str_append_spec to acc rest buf l r h : to = Some (acc ++ rest) -> buf = l ++ r -> len acc + len l + 1 < 2 ^ 64 ->
  exists to' n h', str_append to (len acc) buf (len l) h = Some ((to', n), h') /\
    match to' with Some b => n = len (acc ++ l) /\ b = (acc ++ l) ++ [0] | None => True end.
Proof.
  intros -> -> B. unfold str_append. lens. rewrite !size_small by (rewrite ?size_small by lia; lia).
  destruct (realloc_spec (Some (acc ++ rest)) acc rest (len acc + len l + 1) h) as (b & h' & E & Hr); [done|lia|lia|].
  erewrite bind_some by exact E. destruct b as [b|]; [|by eexists None, _, h'].
  destruct Hr as (room & -> & Hr).
  destruct (split_room room (len l)) as (r1 & r2 & -> & L1); [lia|]. rewrite len_app in Hr.
  rewrite slice_0 by done. rewrite lift_some, blit_at by done. rewrite lift_some, app_assoc.
  rewrite <- (app_nil_r r2), blit_at; [|by rewrite len_app|change (len [0]) with 1; lia].
  rewrite lift_some. eexists (Some _), _, h'. split; [reflexivity|]. rewrite len_app, app_nil_r. done.
Qed.

Section Arg.
Variables (w x mw mx : list Z).
Hypothesis is_w : is_str mw w.
Hypothesis is_x : is_str mx x.
Hypothesis w_ok : w <> [].

Lemma take_w : take (Z.to_nat (len w)) mw = w.
Proof. destruct is_w as [_ [r ->]]. unfold len. rewrite Nat2Z.id. by rewrite take_app_length. Qed.

Lemma strstr_at pre p s post : p = len pre -> cstr s ->
  c_strstr (pre ++ s ++ 0 :: post) p (take (Z.to_nat (len w)) mw) = Some (Z.add p <$> find_sub w s).
Proof. intros Hp Hs. unfold c_strstr. rewrite string_at_app, take_w by done. done. Qed.

(** The replacements in the string [s] of [src], of which the beginning is
    already in [to]. *)
Lemma replace_arg_spec src pre s post to acc rest h : src = pre ++ s ++ 0 :: post -> cstr s -> cstr acc ->
  match to with Some b => b = acc ++ rest | None => True end ->
  len acc + len x + len (substitute w x s) + 1 < 2 ^ 64 -> 1 + len s < 2 ^ 64 ->
  exists to' h', replace_arg src mw mx (len w) (len x) to (len acc) (len pre) h = Some (to', h') /\
    match to' with Some b => is_str b (acc ++ x ++ substitute w x s) | None => True end.
Proof.
  intros Esrc Hs Hacc Hto B Bs. unfold replace_arg. set (target := acc ++ x ++ substitute w x s).
  assert (Ht : cstr target).
  { destruct is_x. unfold target. rewrite !cstr_app. split; [done|]. split; [done|]. by apply substitute_cstr. }
  assert (Bt : len target + 1 < 2 ^ 64) by (unfold target; rewrite !len_app; lia).
  apply (loop_spec _ (fun n '(to, to_len, from) =>
    match (to : option (list Z)), (from : option Z) with
    | None, _ => True
    | Some b, None => n = 0 /\ b = target ++ [0]
    | Some b, Some f => exists pre s acc rest, src = pre ++ s ++ 0 :: post /\ cstr s /\ f = len pre /\ b = acc ++ rest /\
        to_len = len acc /\ acc ++ x ++ substitute w x s = target /\ n = 1 + len s
    end) _ (1 + len s)); [| |lia].
  - clearbody target. clear - w_ok is_w is_x Ht Bt. intros n [[to to_len] from] h I. destruct to as [b|]; [|eexists (inr None), h; done].
    destruct from as [f|]; [|destruct I as [_ ->]; eexists (inr (Some _)), h; split; [reflexivity|]; split; [done|by exists []]].
    destruct I as (pre & s & acc & rest & -> & Hs & -> & -> & -> & Et & ->).
    pose proof is_x as [Hx [rx Ex]]. rewrite Ex.
    assert (La : len acc + len x + len (substitute w x s) = len target) by (rewrite <- Et, !len_app; lia). lens.
    destruct (str_append_spec (Some (acc ++ rest)) acc rest (x ++ 0 :: rx) x (0 :: rx) h) as (to1 & n1 & h1 & E1 & P1); [done|done|lia|].
    erewrite bind_some by exact E1. destruct to1 as [b1|]; [|eexists (inl _), h1; split; [reflexivity|]; exists 0; split; [lia|done]].
    destruct P1 as [-> ->]. rewrite suffix_at_app, lift_some, strstr_at, lift_some by done.
    destruct (find_sub w s) as [n|] eqn:Fs.
    + destruct (find_sub_split w s n Fs) as (a & c & -> & <- & _ & _).
      rewrite (substitute_some w x _ a c) in Et, La by done. cbn [fmap option_fmap option_map].
      replace (len pre + len a - len pre) with (len a) by lia. rewrite !len_app in La. lens.
      destruct (str_append_spec (Some ((acc ++ x) ++ [0])) (acc ++ x) [0] ((a ++ w ++ c) ++ 0 :: post) a (w ++ c ++ 0 :: post) h1)
        as (to2 & n2 & h2 & E2 & P2); [done|by rewrite <- !app_assoc|rewrite len_app; lia|].
      erewrite bind_some by exact E2. destruct to2 as [b2|]; (eexists (inl _), h2; split; [reflexivity|]).
      * destruct P2 as [-> ->]. rewrite !len_app. assert (0 < len w).
        { destruct (Z.eq_dec (len w) 0) as [E0|]; [by apply len_zero in E0|lia]. }
        lens. exists (1 + len c). split; [lia|].
        exists (pre ++ a ++ w), c, ((acc ++ x) ++ a), [0]. rewrite !len_app, <- !app_assoc.
        apply cstr_app in Hs as [_ Hs]. apply cstr_app in Hs as [_ Hs]. repeat split; (done || lia || by rewrite <- Et, <- !app_assoc).
      * exists 0. pose proof (len_pos (a ++ w ++ c)). split; [lia|done].
    + rewrite substitute_none in Et, La by done. cbn [fmap option_fmap option_map].
      rewrite c_strlen_at, lift_some by done.
      destruct (str_append_spec (Some ((acc ++ x) ++ [0])) (acc ++ x) [0] (s ++ 0 :: post) s (0 :: post) h1)
        as (to2 & n2 & h2 & E2 & P2); [done|done|rewrite len_app; lia|].
      erewrite bind_some by exact E2. exists (inl (to2, n2, None)), h2. split; [reflexivity|]. exists 0. split; [lia|].
      destruct to2 as [b2|]; [|done]. destruct P2 as [_ ->]. split; [done|]. by rewrite <- Et, <- !app_assoc.
  - destruct to as [b|]; [|done]. by exists pre, s, acc, rest.
Qed.

Lemma strndup_spec a r h : cstr a -> len a + 1 < 2 ^ 64 ->
  exists to h', __strndup (a ++ r) (len a) h = Some (to, h') /\ match to with Some b => b = a ++ [0] | None => True end.
Proof.
  intros Ha B. unfold __strndup.
  assert (L : c_strnlen (a ++ r) 0 (len a) = Some (len a)).
  { unfold c_strnlen. pose proof (suffix_at_app [] 0 (a ++ r) eq_refl) as S0. cbn [app] in S0. rewrite S0. cbn [mbind option_bind]. unfold len at 1. rewrite Nat2Z.id.
    clear B S0. induction Ha as [|c a Hc Ha IH]; [done|]. cbn [length app count_chars_n].
    rewrite (proj2 (Z.eqb_neq c 0)) by done. rewrite IH. cbn. f_equal. rewrite len_cons. lia. }
  rewrite L, lift_some. lens. rewrite size_small by lia.
  destruct (malloc_spec (len a + 1) h) as (b & h' & E & Hb). erewrite bind_some by exact E.
  destruct b as [b|]; [|by eexists None, h'].
  destruct (split_room b (len a)) as (b1 & b2 & -> & L1); [lia|]. rewrite len_app in Hb.
  rewrite <- (app_nil_r b2), (blit_at b1) by (done || change (len [0]) with 1; lia). rewrite lift_some, slice_0, lift_some by done.
  pose proof (blit_at [] 0 b1 a [0] eq_refl L1) as Bl. cbn [app] in *. rewrite Bl, lift_some. by eexists (Some _), h'.
Qed.

(** ** The loop over the strings *)

Variables (es : list (list Z)) (src rest : list Z) (c0 : Z).
Hypothesis src_ok : src = flat es ++ rest.
Hypothesis strings : Forall cstr es.
Hypothesis bounded : small es.
Local Abbreviation sub := (substitute w x).
Hypothesis bounded' : small (sub <$> es).

Definition matches (l : list (list Z)) : Z := Z.of_nat (length (filter (fun s => has_match w s = true) l)).

(** [arg] points to the last of the strings [l]. *)
Definition arg_at (l : list (list Z)) (a : option Z) : Prop :=
  match a with
  | None => l = []
  | Some p => exists l0 f, l = l0 ++ [f] /\ p = len (flat l0)
  end.

(** The strings [l] are done. *)
Record replaced (l : list (list Z)) (r : replacing) : Prop := {
  rp_err : err r = None;
  rp_arg : arg_at l (arg r);
  rp_count : replace_count r = wrap 32 (c0 + matches l);
  rp_dst : if delayed_copy r then dst r = Vec None 0 /\ Forall (fun s => find_sub w s = None) l
           else is_argz (dst r) (sub <$> l) }.

Lemma next_after l1 l2 a : es = l1 ++ l2 -> arg_at l1 a ->
  __argz_next src (len (flat es)) a = Some (match l2 with [] => None | _ => Some (len (flat l1)) end).
Proof.
  intros E A. destruct a as [p|]; cbn in A.
  - destruct A as (l0 & f & -> & ->). rewrite <- app_assoc in E. cbn [app] in E.
    rewrite (next_entry es src rest src_ok strings bounded l0 f l2 E). f_equal. destruct l2; [done|]. cbn.
    by rewrite flat_snoc_len.
  - subst l1. rewrite (next_first es src rest) by done. f_equal. subst es. by destruct l2.
Qed.

Lemma sub_unmatched l : Forall (fun s => find_sub w s = None) l -> sub <$> l = l.
Proof. induction 1 as [|s l Hs F IH]; [done|]. cbn. rewrite IH. f_equal. by apply substitute_none. Qed.

Lemma matches_snoc l e : matches (l ++ [e]) = matches l + b2z (has_match w e).
Proof.
  unfold matches. rewrite list.filter_app, length_app, list.filter_cons. cbn. destruct (has_match w e); case_decide; try done; cbn; lia.
Qed.

Lemma wrap_succ n : wrap 32 (wrap 32 n + 1) = wrap 32 (n + 1).
Proof. unfold wrap. by rewrite Zplus_mod_idemp_l. Qed.

(** [dst] when the first match is found: the strings before it. *)
Lemma catch_up_spec l1 e l2 r h : es = l1 ++ e :: l2 -> replaced l1 r ->
  exists er d h', (if delayed_copy r then
      if 0 <? len (flat l1) then __argz_append (dst r) src (len (flat l1)) else ret (None, dst r)
    else ret (None, dst r)) h = Some ((er, d), h') /\
    match er with None => is_argz d (sub <$> l1) | Some er => er = ENOMEM end.
Proof.
  intros E [_ _ _ Hd]. destruct (delayed_copy r); [|by eexists None, (dst r), h].
  destruct Hd as [-> F]. rewrite sub_unmatched by done. destruct l1 as [|f l1].
  { eexists None, _, h. split; [reflexivity|apply empty_vec_ok]. }
  rewrite (proj2 (Z.ltb_lt _ _)) by (by apply flat_nil_pos).
  unfold small in bounded. rewrite E, len_flat_app in bounded. lens.
  assert (Esrc : src = flat (f :: l1) ++ flat (e :: l2) ++ rest) by (rewrite src_ok, E, flat_app, <- app_assoc; done).
  destruct (append_spec (Vec None 0) [] src (len (flat (f :: l1))) (f :: l1) (flat (e :: l2) ++ rest) h)
    as (er & d & h' & Ea & P); [apply empty_vec_ok|done|done| |unfold small; cbn [app]; lia|done|].
  { rewrite E in strings. by apply Forall_app in strings as [? _]. }
  exists er, d, h'. split; [done|]. destruct er as [er|]; [by destruct P|done].
Qed.

(** The block around a string. *)
Lemma src_split l1 e l2 : es = l1 ++ e :: l2 -> src = flat l1 ++ e ++ 0 :: flat l2 ++ rest.
Proof. intros E. rewrite src_ok, E, flat_app. cbn [flat]. by rewrite <- !app_assoc. Qed.

Lemma split_bounds l1 e l2 : es = l1 ++ e :: l2 ->
  cstr e /\ len (flat l1) + len e + 1 < 2 ^ 64 /\ len (flat (sub <$> l1)) + len (sub e) + 1 < 2 ^ 64.
Proof.
  intros E. unfold small in bounded, bounded'. rewrite E in strings, bounded, bounded'.
  apply Forall_app in strings as [_ [? _]%list.Forall_cons]. rewrite fmap_app in bounded'. cbn [fmap list_fmap] in bounded'.
  rewrite len_flat_app, len_flat_cons in bounded, bounded'. lens. split; [done|]. lia.
Qed.

Lemma step_matched l1 e l2 r n h : es = l1 ++ e :: l2 -> replaced l1 r -> find_sub w e = Some n ->
  exists r' h', replace_step src mw mx (len w) (len x) r (len (flat l1)) h = Some (r', h') /\
    (err r' = Some ENOMEM \/ replaced (l1 ++ [e]) r').
Proof.
  intros E R Fn. destruct (split_bounds l1 e l2 E) as (He & B1 & B2).
  unfold replace_step. rewrite (src_split l1 e l2 E). rewrite suffix_at_app, lift_some, strstr_at, lift_some by done.
  rewrite Fn. cbn [fmap option_fmap option_map]. rewrite <- (src_split l1 e l2 E).
  destruct (find_sub_split w e n Fn) as (a & c & Ee & <- & _ & _).
  replace (len (flat l1) + len a - len (flat l1)) with (len a) by lia.
  assert (Se : sub e = a ++ x ++ sub c) by (by apply substitute_some).
  rewrite Se, !len_app in B2. rewrite Ee, !len_app in B1. rewrite Ee, !cstr_app in He. destruct He as (Ha & _ & Hc). lens.
  rewrite Ee, <- !app_assoc.
  destruct (strndup_spec a (w ++ c ++ 0 :: flat l2 ++ rest) h) as (to & h1 & E1 & P1); [done|lia|].
  erewrite bind_some by exact E1.
  destruct (replace_arg_spec src (flat l1 ++ a ++ w) c (flat l2 ++ rest) to a [0] h1) as (to2 & h2 & E2 & P2);
    [by rewrite (src_split l1 e l2 E), Ee, <- !app_assoc|done|done|done|lia|lia|].
  rewrite !len_app, Z.add_assoc in E2. erewrite bind_some by exact E2. rewrite <- Se in P2.
  destruct to2 as [t|]; [|by eexists _, h2; split; [reflexivity|left]].
  destruct (catch_up_spec l1 e l2 r h2 E R) as (er & d & h3 & E3 & P3).
  rewrite bind_bind. erewrite bind_some by exact E3. destruct er as [er|].
  { subst er. by eexists _, h3; split; [reflexivity|left]. }
  destruct (add_spec d (sub <$> l1) t (sub e) h3) as (er & d' & h4 & E4 & P4); [done|done| |].
  { unfold small. rewrite len_flat_app, len_flat_one, Se, !len_app. lia. }
  rewrite bind_bind. erewrite bind_some by exact E4.
  eexists _, h4. split; [reflexivity|]. destruct er as [er|]; [left; by destruct P4 as [-> _]|right].
  rewrite <- Ee. constructor; [done|by exists l1, e| |by rewrite fmap_app].
  cbn. rewrite (rp_count _ _ R), matches_snoc. unfold has_match. rewrite Fn, wrap_succ. f_equal. cbn. lia.
Qed.

Lemma step_unmatched l1 e l2 r h : es = l1 ++ e :: l2 -> replaced l1 r -> find_sub w e = None ->
  exists r' h', replace_step src mw mx (len w) (len x) r (len (flat l1)) h = Some (r', h') /\
    (err r' = Some ENOMEM \/ replaced (l1 ++ [e]) r').
Proof.
  intros E R Fn. destruct (split_bounds l1 e l2 E) as (He & B1 & B2). rewrite substitute_none in B2 by done.
  unfold replace_step. rewrite (src_split l1 e l2 E). rewrite suffix_at_app, lift_some, strstr_at, lift_some by done.
  rewrite Fn. cbn [fmap option_fmap option_map].
  assert (C : wrap 32 (c0 + matches (l1 ++ [e])) = replace_count r).
  { rewrite (rp_count _ _ R), matches_snoc. unfold has_match. rewrite Fn. cbn. f_equal. lia. }
  pose proof (rp_dst _ _ R) as D. destruct (delayed_copy r).
  - eexists _, h. split; [reflexivity|]. right. constructor; cbn; [done|by exists l1, e|done|].
    destruct D as [-> D]. split; [done|]. apply Forall_app. split; [done|by constructor].
  - destruct (add_spec (dst r) (sub <$> l1) (e ++ 0 :: flat l2 ++ rest) e h) as (er & d' & h4 & E4 & P4);
      [done|split; [done|eauto]|unfold small; rewrite len_flat_app, len_flat_one; lia|].
    erewrite bind_some by exact E4. eexists _, h4. split; [reflexivity|].
    destruct er as [er|]; [left; by destruct P4 as [-> _]|right]. constructor; [done|by exists l1, e|done|].
    cbn [delayed_copy]. rewrite fmap_app. cbn [fmap list_fmap]. by rewrite (substitute_none w x e).
Qed.

Lemma replace_step_spec l1 e l2 r h : es = l1 ++ e :: l2 -> replaced l1 r ->
  exists r' h', replace_step src mw mx (len w) (len x) r (len (flat l1)) h = Some (r', h') /\
    (err r' = Some ENOMEM \/ replaced (l1 ++ [e]) r').
Proof.
  intros E R. destruct (find_sub w e) eqn:F; [by eapply step_matched|by eapply step_unmatched].
Qed.

Lemma replace_loop_spec v h : mem (argz v) = src -> argz_len v = len (flat es) ->
  exists r h', loop (replace_loop_step v mw mx (len w) (len x)) (Replacing None None (Vec None 0) true (wrap 32 c0)) h =
    Some (r, h') /\ (err r = Some ENOMEM \/ replaced es r).
Proof.
  intros Ev El.
  apply (loop_spec _ (fun n r => (err r = Some ENOMEM /\ n = 0) \/
    exists l1 l2, es = l1 ++ l2 /\ replaced l1 r /\ n = Z.of_nat (length l2)) _ (Z.of_nat (length es))).
  - intros n r h' [[Er ->]|(l1 & l2 & E & R & ->)].
    { unfold replace_loop_step. rewrite Er. eexists (inr r), h'. split; [reflexivity|]. by left. }
    unfold replace_loop_step. rewrite Ev, El, (rp_err _ _ R), (next_after l1 l2 (arg r) E (rp_arg _ _ R)), lift_some. destruct l2 as [|e l2].
    + eexists (inr r), h'. split; [reflexivity|]. right. by rewrite E, app_nil_r.
    + destruct (replace_step_spec l1 e l2 r h' E R) as (r' & h2 & E2 & P2). erewrite bind_some by exact E2.
      eexists (inl r'), h2. split; [reflexivity|]. destruct P2 as [P2|P2].
      * exists 0. cbn [length]. split; [lia|]. by left.
      * exists (Z.of_nat (length l2)). cbn [length]. split; [lia|]. right. exists (l1 ++ [e]), l2.
        by rewrite <- app_assoc.
  - right. exists [], es. split; [done|]. split; [|done]. constructor; cbn; [done|done| |done].
    by rewrite Z.add_0_r.
  - pose proof (len_flat_count es). unfold small in bounded. lia.
Qed.
End Arg.
End Replace.
