(* ===== verification/EnvzRep.v ===== *)
(** * Environment vectors as finite maps

    An environment vector is an argument vector whose strings are names, or
    names with a value behind the first [=].  Looking up, removing and adding
    are the operations of a finite map from names to optional values, as long
    as no name occurs twice; the operations keep it that way. *)

From S2P Require Import Prelude CMonad CLoop CInt Buffer Cstr Argz ArgzRep ArgzOps ArgzReplace.
Open Scope c_scope.

(** The name and the value of an entry. *)
Fixpoint ename (e : list Z) : list Z :=
  match e with
  | [] => []
  | c :: e => if c =? SEP then [] else c :: ename e
  end.

Fixpoint evalue (e : list Z) : option (list Z) :=
  match e with
  | [] => None
  | c :: e => if c =? SEP then Some e else evalue e
  end.

Definition is_env (v : vec) (es : list (list Z)) : Prop :=
  is_argz v es /\ small es /\ NoDup (ename <$> es).

Definition env_map (es : list (list Z)) : gmap (list Z) (option (list Z)) :=
  list_to_map ((fun e => (ename e, evalue e)) <$> es).

(** The character at the beginning of a string, with its zero. *)
Definition first_char (s : list Z) : Z := match s with [] => 0 | c :: _ => c end.

Definition plain (u : list Z) : Prop := Forall (fun c => is_end c = false) u.

Lemma is_end_false c : is_end c = false <-> c <> 0 /\ c <> SEP.
Proof. unfold is_end. rewrite orb_false_iff, !Z.eqb_neq. done. Qed.

Lemma ename_app u s : plain u -> ename (u ++ s) = u ++ ename s.
Proof.
  induction 1 as [|c u Hc Hu IH]; [done|]. cbn [ename app]. apply is_end_false in Hc as [_ Hc].
  by rewrite (proj2 (Z.eqb_neq _ _) Hc), IH.
Qed.

Lemma ename_end s : cstr s -> is_end (first_char s) = true -> ename s = [].
Proof.
  destruct s as [|c s]; [done|]. intros [Hc _]%list.Forall_cons. cbn. unfold is_end.
  rewrite (proj2 (Z.eqb_neq c 0)) by done. cbn. by intros ->.
Qed.

Lemma ename_go c s : is_end c = false -> ename (c :: s) = c :: ename s.
Proof. intros [_ Hc]%is_end_false. cbn. by rewrite (proj2 (Z.eqb_neq _ _) Hc). Qed.

(** Where two names stop matching decides whether they are equal. *)
Lemma names_differ u e n : plain u -> cstr e -> cstr n ->
  ~ (first_char n = first_char e /\ is_end (first_char n) = false) ->
  (is_end (first_char e) && is_end (first_char n) = true <-> ename (u ++ e) = ename (u ++ n)).
Proof.
  intros Hu He Hn Stop. rewrite !ename_app by done.
  destruct (is_end (first_char e)) eqn:Ee, (is_end (first_char n)) eqn:En; cbn [andb].
  - rewrite !ename_end by done. done.
  - rewrite (ename_end e) by done. destruct n as [|c n]; [done|]. cbn in En. rewrite (ename_go c n En).
    split; [done|]. by intros E%app_inv_head.
  - rewrite (ename_end n) by done. destruct e as [|c e]; [done|]. cbn in Ee. rewrite (ename_go c e Ee).
    split; [done|]. by intros E%app_inv_head.
  - destruct e as [|c e]; [done|]. destruct n as [|d n]; [done|]. cbn [first_char] in *. rewrite !ename_go by done.
    split; [done|]. intros E%app_inv_head. injection E as -> _. by destruct Stop.
Qed.

Lemma lookup_first pre s r p : p = len pre -> (pre ++ s ++ 0 :: r) !! Z.to_nat p = Some (first_char s).
Proof. intros ->. unfold len. rewrite Nat2Z.id. destruct s as [|c s]; cbn; by apply list_lookup_middle. Qed.

Section Entry.
Variables (pre e post n nr : list Z).
Hypothesis e_ok : cstr e.
Hypothesis n_ok : cstr n.
Abbreviation b := (pre ++ e ++ 0 :: post).

Lemma b_at u e2 : e = u ++ e2 -> b = (pre ++ u) ++ e2 ++ 0 :: post.
Proof. intros ->. by rewrite <- !app_assoc. Qed.

Lemma match_name_spec l : len e < l < 2 ^ 64 ->
  exists u e2 n2, match_name b (n ++ 0 :: nr) (len pre) l = Some (len u, len pre + len u, l - len u) /\
    e = u ++ e2 /\ n = u ++ n2 /\ plain u /\ ~ (first_char n2 = first_char e2 /\ is_end (first_char n2) = false).
Proof.
  intros Bl. unfold match_name.
  by_loop (fun k '(p, q, m) => exists u e2 n2, e = u ++ e2 /\ n = u ++ n2 /\ plain u /\ p = len u /\
      q = len pre + len u /\ m = l - len u /\ k = len e2)
    (fun '(p, q, m) => exists u e2 n2, e = u ++ e2 /\ n = u ++ n2 /\ plain u /\ p = len u /\
      q = len pre + len u /\ m = l - len u /\ ~ (first_char n2 = first_char e2 /\ is_end (first_char n2) = false))
    (len e) as ([[p q] m] & E & u & e2 & n2 & Ee & En & Hu & -> & -> & -> & S); [| |lia|by exists u, e2, n2].
  - intros k [[p q] m] (u & e2 & n2 & Ee & En & Hu & -> & -> & -> & ->).
    assert (Le : len e = len u + len e2) by (rewrite Ee; apply len_app). lens.
    rewrite (proj2 (Z.eqb_neq _ 0)) by lia.
    rewrite (b_at u e2 Ee), lookup_first by (by rewrite len_app).
    rewrite En, <- app_assoc, lookup_first by done.
    destruct (Z.eqb_spec (first_char n2) (first_char e2)) as [Ec|Ec]; cbn [andb].
    2: { exists u, e2, n2. repeat split; try done. by intros []. }
    destruct (is_end (first_char n2)) eqn:Ei.
    + unfold is_end in Ei. rewrite <- negb_orb, Ei. cbn. exists u, e2, n2. repeat split; try done. unfold is_end. rewrite Ei. by intros [].
    + assert (Ei' := Ei). unfold is_end in Ei. rewrite <- negb_orb, Ei. cbn [negb].
      destruct n2 as [|c n2]; [done|]. destruct e2 as [|d e2]; [cbn in Ec, Ei'; by subst c|]. cbn in Ec, Ei'. subst d.
      rewrite len_cons in *. lens. exists (len e2). split; [lia|]. exists (u ++ [c]), e2, n2. rewrite size_small, len_app by lia.
      change (len [c]) with 1. rewrite <- !app_assoc. repeat split; try done; try lia. apply Forall_app. split; [done|by constructor].
  - exists [], e, n. rewrite len_nil. repeat split; try lia. constructor.
Qed.

Lemma skip_entry_spec u e2 l : e = u ++ e2 -> len e < l < 2 ^ 64 ->
  skip_entry b (len pre + len u) (l - len u) = Some (len pre + len e, l - len e).
Proof.
  intros Ee Bl. unfold skip_entry.
  by_loop (fun k '(q, m) => exists u e2, e = u ++ e2 /\ q = len pre + len u /\ m = l - len u /\ k = len e2)
    (fun '(q, m) => q = len pre + len e /\ m = l - len e) (len e2) as ([q m] & E & -> & ->); [| | |done].
  - clear Ee u e2. intros k [q m] (u & e2 & Ee & -> & -> & ->).
    assert (Le : len e = len u + len e2) by (rewrite Ee; apply len_app). lens.
    rewrite (proj2 (Z.eqb_neq _ 0)) by lia. rewrite (b_at u e2 Ee), lookup_first by (by rewrite len_app).
    destruct e2 as [|c e2]; cbn [first_char].
    + rewrite len_nil in Le. split; lia.
    + assert (c <> 0). { unfold cstr in e_ok. rewrite Ee in e_ok. by apply Forall_app in e_ok as [_ [? _]%list.Forall_cons]. }
      rewrite (proj2 (Z.eqb_neq c 0)) by done. rewrite len_cons in *. lens. exists (len e2). split; [lia|].
      exists (u ++ [c]), e2. rewrite size_small, len_app by lia. change (len [c]) with 1. rewrite <- app_assoc. repeat split; lia || done.
  - by exists u, e2.
  - rewrite Ee, len_app in Bl. lens. lia.
Qed.
End Entry.

(** What a search for the name of [n] finds. *)
Definition found (n : list Z) (es : list (list Z)) (r : option Z) : Prop :=
  match r with
  | None => Forall (fun e => ename e <> ename n) es
  | Some p => exists l1 e l2, es = l1 ++ e :: l2 /\ p = len (flat l1) /\ ename e = ename n /\
      Forall (fun e => ename e <> ename n) l1
  end.

Lemma envz_entry_spec es rest m n : Forall cstr es -> small es -> is_str m n ->
  exists r, envz_entry (flat es ++ rest) (len (flat es)) m = Some r /\ found n es r.
Proof.
  intros Hes Sm [Hn [nr ->]]. unfold envz_entry.
  by_loop (fun k '(p, l) => exists l1 l2, es = l1 ++ l2 /\ p = len (flat l1) /\ l = len (flat l2) /\
      Forall (fun e => ename e <> ename n) l1 /\ k = len (flat l2)) (found n es) (len (flat es)) as (r & E & P);
    [| |done|eauto].
  - intros k [p l] (l1 & l2 & E & -> & -> & F & ->). destruct l2 as [|e l2].
    { cbn. by rewrite E, app_nil_r. }
    assert (He : cstr e). { rewrite E in Hes. by apply Forall_app in Hes as [_ [? _]%list.Forall_cons]. }
    unfold small in Sm. rewrite E, len_flat_app, len_flat_cons in Sm. rewrite len_flat_cons. lens.
    rewrite (proj2 (Z.eqb_neq _ 0)) by lia.
    assert (Eb : flat es ++ rest = flat l1 ++ e ++ 0 :: flat l2 ++ rest).
    { rewrite E, flat_app. cbn [flat]. by rewrite <- !app_assoc. }
    destruct (match_name_spec (flat l1) e (flat l2 ++ rest) n nr He (len e + 1 + len (flat l2)))
      as (u & e2 & n2 & Em & Ee & En & Hu & Stop); [lia|].
    assert (K1 : (flat l1 ++ e ++ 0 :: flat l2 ++ rest) !! Z.to_nat (len (flat l1) + len u) = Some (first_char e2)).
    { rewrite Ee, <- app_assoc, app_assoc. apply lookup_first. by rewrite len_app. }
    assert (K2 : (n ++ 0 :: nr) !! Z.to_nat (len u) = Some (first_char n2)).
    { rewrite En, <- app_assoc. by apply lookup_first. }
    rewrite Eb, Em, K1, K2.
    assert (He2 : cstr e2) by (rewrite Ee in He; by apply cstr_app in He as [_ ?]).
    assert (Hn2 : cstr n2) by (rewrite En in Hn; by apply cstr_app in Hn as [_ ?]).
    pose proof (names_differ u e2 n2 Hu He2 Hn2 Stop) as D. rewrite <- Ee, <- En in D.
    destruct (is_end (first_char e2) && is_end (first_char n2)).
    + exists l1, e, l2. repeat split; try done. by apply D.
    + erewrite (skip_entry_spec (flat l1) e) by (done || lia).
      rewrite (proj2 (Z.eqb_neq _ 0)), size_small by lia. exists (len (flat l2)). split; [lia|].
      exists (l1 ++ [e]), l2. rewrite E, <- app_assoc, flat_snoc_len. repeat split; try lia.
      apply Forall_app. split; [done|]. constructor; [|done]. intros E'. by apply D in E'.
  - by exists [], es.
Qed.

(** ** The map of a vector *)

Lemma ename_split e : cstr e -> plain (ename e) /\ e = ename e ++ match evalue e with Some v => SEP :: v | None => [] end.
Proof.
  induction 1 as [|c e Hc He [IH1 IH2]]; cbn [ename evalue]; [by split; [constructor|]|].
  destruct (Z.eqb_spec c SEP) as [->|Ne]; [by split; [constructor|]|].
  split; [constructor; [by apply is_end_false|done]|]. cbn [app]. by rewrite <- IH2.
Qed.

Lemma env_map_cons e es : env_map (e :: es) = <[ename e := evalue e]> (env_map es).
Proof. done. Qed.

Lemma env_map_app es fs : env_map (es ++ fs) = env_map es ∪ env_map fs.
Proof. unfold env_map. by rewrite fmap_app, list_to_map_app. Qed.

Lemma env_map_none k es : Forall (fun e => ename e <> k) es -> env_map es !! k = None.
Proof.
  induction 1 as [|e es He F IH]; [done|]. rewrite env_map_cons. by rewrite lookup_insert_ne.
Qed.

Lemma found_lookup n es r : found n es r ->
  match r with
  | None => env_map es !! ename n = None
  | Some p => exists l1 e l2, es = l1 ++ e :: l2 /\ p = len (flat l1) /\ env_map es !! ename n = Some (evalue e)
  end.
Proof.
  destruct r as [p|]; [|apply env_map_none]. intros (l1 & e & l2 & -> & -> & E & F).
  exists l1, e, l2. split; [done|]. split; [done|].
  rewrite env_map_app, env_map_cons, lookup_union_r by (by apply env_map_none). rewrite <- E. apply lookup_insert_eq.
Qed.

(** The entries of other names. *)
Definition without (k : list Z) (es : list (list Z)) : list (list Z) := filter (fun e => ename e <> k) es.

Lemma env_map_without k es : env_map (without k es) = delete k (env_map es).
Proof.
  unfold without. induction es as [|e es IH]; [done|]. rewrite list.filter_cons, env_map_cons. case_decide as D.
  - rewrite env_map_cons, IH. symmetry. by apply delete_insert_ne.
  - assert (ename e = k) as <- by (by destruct (decide (ename e = k))). rewrite IH. symmetry. apply delete_insert_eq.
Qed.

Lemma env_map_put k x es e : ename e = k -> evalue e = x -> env_map (without k es ++ [e]) = <[k := x]> (env_map es).
Proof.
  intros <- <-. rewrite env_map_app, env_map_without, env_map_cons. change (env_map []) with (∅ : gmap (list Z) (option (list Z))).
  apply map_eq. intros i. destruct (decide (i = ename e)) as [->|Ne].
  - rewrite lookup_union_r by apply lookup_delete_eq. by rewrite !lookup_insert_eq.
  - rewrite lookup_insert_ne by done. destruct (env_map es !! i) eqn:E.
    + apply lookup_union_Some_l. by rewrite lookup_delete_ne.
    + rewrite lookup_union_r by (by rewrite lookup_delete_ne). by rewrite lookup_insert_ne.
Qed.

Lemma without_flat k es : len (flat (without k es)) <= len (flat es).
Proof.
  unfold without. induction es as [|e es IH]; [done|]. rewrite list.filter_cons, len_flat_cons. case_decide; rewrite ?len_flat_cons; lens; lia.
Qed.

Lemma without_nodup k es : NoDup (ename <$> es) -> NoDup (ename <$> without k es) /\ k ∉ ename <$> without k es.
Proof.
  unfold without. induction es as [|e es IH]; [split; [done|apply not_elem_of_nil]|].
  cbn [fmap list_fmap]. intros [Ne N]%list.NoDup_cons. destruct (IH N) as [IH1 IH2]. rewrite list.filter_cons. case_decide as D; [|done].
  cbn [fmap list_fmap]. split.
  - apply list.NoDup_cons. split; [|done]. intros (f & Ef & Hf)%list_elem_of_fmap. apply Ne. rewrite Ef.
    apply list_elem_of_fmap_2. by apply list_elem_of_filter in Hf as [_ ?].
  - by apply not_elem_of_cons.
Qed.

Lemma without_absent k es : Forall (fun e => ename e <> k) es -> without k es = es.
Proof. induction 1 as [|e es He F IH]; [done|]. unfold without in *. rewrite list.filter_cons, decide_True by done. by rewrite IH. Qed.

Lemma without_split k l1 e l2 : NoDup (ename <$> l1 ++ e :: l2) -> ename e = k -> without k (l1 ++ e :: l2) = l1 ++ l2.
Proof.
  intros N <-. rewrite fmap_app in N. cbn [fmap list_fmap] in N. apply list.NoDup_app in N as (_ & N1 & [N2 _]%list.NoDup_cons).
  assert (A : forall l, ename e ∉ ename <$> l -> Forall (fun f => ename f <> ename e) l).
  { intros l Hl. apply list.Forall_forall. intros f Hf Ef. apply Hl. rewrite <- Ef. by apply list_elem_of_fmap_2. }
  unfold without. rewrite list.filter_app, list.filter_cons, decide_False by (intros X; by apply X). fold (without (ename e) l1) (without (ename e) l2).
  rewrite !without_absent; [done|by apply A|]. apply A. intros Hi. apply (N1 _ Hi), list_elem_of_here.
Qed.

Lemma env_put_nodup k es e : NoDup (ename <$> es) -> ename e = k -> NoDup (ename <$> without k es ++ [e]).
Proof.
  intros N E. destruct (without_nodup k es N) as [N1 N2]. rewrite fmap_app. apply list.NoDup_app. split; [done|]. split; [|apply list.NoDup_singleton].
  intros x Hx Hy. cbn in Hy. apply list_elem_of_singleton in Hy as ->. by rewrite E in Hx.
Qed.

Lemma without_strings k es : Forall cstr es -> Forall cstr (without k es).
Proof. intros F. apply list.Forall_forall. intros e [_ He]%list_elem_of_filter. by apply (proj1 (list.Forall_forall _ _) F). Qed.

(** ** Searching and removing *)

Lemma name_end_spec pre u s post : plain u -> cstr s -> is_end (first_char s) = true -> len u < 2 ^ 64 ->
  name_end (pre ++ (u ++ s) ++ 0 :: post) (len pre) = Some (len pre + len u).
Proof.
  intros Hu Hs He Bu. unfold name_end.
  by_loop (fun k q => exists u1 u2, u = u1 ++ u2 /\ q = len pre + len u1 /\ k = len u2)
    (fun q => q = len pre + len u) (len u) as (q & E & ->); [| |done|done].
  - intros k q (u1 & u2 & Eu & -> & ->).
    assert (L : (pre ++ (u ++ s) ++ 0 :: post) !! Z.to_nat (len pre + len u1) = Some (first_char (u2 ++ s))).
    { rewrite Eu, <- !app_assoc, (app_assoc pre), (app_assoc u2). apply lookup_first. by rewrite len_app. }
    rewrite L. destruct u2 as [|c u2]; cbn [app first_char].
    + rewrite He, Eu, app_nil_r. done.
    + unfold plain in Hu. rewrite Eu in Hu. apply Forall_app in Hu as [_ [-> _]%list.Forall_cons].
      rewrite len_cons. lens. exists (len u2). split; [lia|]. exists (u1 ++ [c]), u2. rewrite <- app_assoc, len_app.
      change (len [c]) with 1. repeat split; lia || done.
  - exists [], u. rewrite len_nil. repeat split; lia.
Qed.

(** What [envz_get] returns: a pointer to the value. *)
Lemma envz_get_spec es rest m n : Forall cstr es -> small es -> is_str m n ->
  exists r, envz_get (flat es ++ rest) (len (flat es)) m = Some r /\
    match env_map es !! ename n with
    | Some (Some x) => exists p, r = Some p /\ string_at (flat es ++ rest) p = Some x
    | _ => r = None
    end.
Proof.
  intros Hes Sm Hm. destruct (envz_entry_spec es rest m n Hes Sm Hm) as (r & E & F). apply found_lookup in F.
  unfold envz_get. rewrite E, bind_ok. destruct r as [p|]; [|exists None; by rewrite F].
  destruct F as (l1 & e & l2 & Ee & -> & ->).
  assert (He : cstr e). { rewrite Ee in Hes. by apply Forall_app in Hes as [_ [? _]%list.Forall_cons]. }
  unfold small in Sm. rewrite Ee, len_flat_app, len_flat_cons in Sm. lens.
  destruct (ename_split e He) as [Hu Es]. set (s := match evalue e with Some v => SEP :: v | None => [] end) in *.
  assert (Eb : flat es ++ rest = flat l1 ++ (ename e ++ s) ++ 0 :: flat l2 ++ rest).
  { rewrite Ee, flat_app. cbn [flat]. rewrite <- !app_assoc. rewrite Es at 1. by rewrite <- app_assoc. }
  assert (Hs : cstr s) by (rewrite Es in He; by apply cstr_app in He as [_ ?]).
  rewrite Eb, name_end_spec; [|done|done|unfold s; by destruct (evalue e)|rewrite Es, len_app in Sm; lens; lia].
  rewrite bind_ok, <- (app_assoc (ename e)), (app_assoc (flat l1)), lookup_first by (by rewrite len_app). rewrite bind_ok.
  unfold s. destruct (evalue e) as [x|] eqn:Ev; cbn [first_char Z.eqb SEP].
  - eexists. split; [reflexivity|]. eexists. split; [reflexivity|].
    rewrite <- app_assoc. cbn [app]. rewrite (cons_middle 61), (app_assoc (ename e)), (app_assoc (flat l1)).
    apply string_at_app; [rewrite !len_app; change (len [61]) with 1; lia|].
    unfold s in Hs. by apply list.Forall_cons in Hs as [_ ?].
  - by exists None.
Qed.

Lemma envz_remove_spec v es m n : is_env v es -> is_str m n ->
  exists v', envz_remove v m = Some v' /\ is_env v' (without (ename n) es).
Proof.
  intros (Hv & Sm & N) Hm. destruct (Hv) as [Hs Hl [rest Hb]].
  destruct (envz_entry_spec es rest m n Hs Sm Hm) as (r & E & F). unfold envz_remove. rewrite Hb, Hl, E, bind_ok.
  assert (Sm' : small (without (ename n) es)) by (unfold small in *; pose proof (without_flat (ename n) es); lia).
  destruct (without_nodup (ename n) es N) as [N' _].
  destruct r as [p|]; cbn in F.
  - destruct F as (l1 & e & l2 & -> & -> & En & _). destruct (delete_spec v l1 e l2 Hv Sm) as (v' & Ed & Hd).
    exists v'. split; [done|]. split; [|done]. by rewrite without_split.
  - exists v. split; [done|]. rewrite without_absent by done. done.
Qed.

(** ** Adding, merging, stripping *)

Definition new_entry (n : list Z) (x : option (list Z)) : list Z :=
  match x with Some x => n ++ SEP :: x | None => n end.

Lemma new_entry_name n x : ename (new_entry n x) = ename n.
Proof.
  destruct x as [x|]; [|done]. cbn [new_entry]. induction n as [|c n IH]; [done|]. cbn. by rewrite IH.
Qed.

Lemma new_entry_value n x : SEP ∉ n -> evalue (new_entry n x) = x.
Proof.
  intros Hn. destruct x as [x|]; cbn [new_entry]; induction n as [|c n IH]; try done;
    apply not_elem_of_cons in Hn as [Hc Hn]; cbn; rewrite (proj2 (Z.eqb_neq c SEP)) by congruence; by apply IH.
Qed.

(** A value argument: [NULL], or memory with a string. *)
Definition is_opt_str (m : option (list Z)) (x : option (list Z)) : Prop :=
  match m, x with
  | None, None => True
  | Some m, Some x => is_str m x
  | _, _ => False
  end.

Section Memory.
Context {H : Type} `{Malloc H}.
Implicit Types h : H.

(** The stores of [envz_add] behind the strings [f]. *)
Lemma envz_add_stores f room n nr x xr N h : len room = len n + 1 + len x + 1 -> N = len f + len n + 1 + len x + 1 ->
  (let! x1 := lift (slice (n ++ nr) 0 (len n)) in
   let! b := lift (blit (f ++ room) (len f) x1) in
   let! b := lift (blit b (len f + len n) [SEP]) in
   let! x2 := lift (slice (x ++ xr) 0 (len x)) in
   let! b := lift (blit b (len f + len n + 1) x2) in
   let! b := lift (blit b (N - 1) [0]) in
   ret (@None error_t, Vec (Some b) N)) h = Some ((None, Vec (Some (f ++ (n ++ SEP :: x) ++ [0])) N), h).
Proof.
  intros Hr ->. lens. rewrite !slice_0, lift_some by done.
  destruct (split_room room (len n)) as (r1 & r2 & -> & L1); [lia|]. rewrite len_app in Hr.
  destruct r2 as [|y r2]; [rewrite len_nil in Hr; lia|]. rewrite len_cons in Hr. lens.
  destruct (split_room r2 (len x)) as (r3 & r4 & -> & L3); [lia|]. rewrite len_app in Hr.
  rewrite blit_at, lift_some by done. rewrite (app_assoc f n).
  replace (len f + len n) with (len (f ++ n)) by apply len_app. rewrite blit_next, !lift_some.
  rewrite blit_at, lift_some; [|rewrite !len_app; change (len [SEP]) with 1; lia|done].
  rewrite <- (app_nil_r r4), (app_assoc _ x), blit_at; [|rewrite !len_app; change (len [SEP]) with 1; lia|change (len [0]) with 1; lia].
  rewrite lift_some. unfold ret. do 4 f_equal. rewrite app_nil_r, <- !app_assoc. done.
Qed.

(** [done_or] for environments: without memory the old entry is gone. *)
Definition env_added (es : list (list Z)) (k : list Z) (e : list Z) (err : option error_t) (v' : vec) : Prop :=
  match err with
  | None => is_env v' (without k es ++ [e])
  | Some er => er = ENOMEM /\ is_env v' (without k es)
  end.

Lemma envz_add_spec v es mn n mx x h : is_env v es -> is_str mn n -> is_opt_str mx x ->
  len (flat es) + len (new_entry n x) + 1 < 2 ^ 64 ->
  exists err v' h', envz_add v mn mx h = Some ((err, v'), h') /\ env_added es (ename n) (new_entry n x) err v'.
Proof.
  intros Hv Hn Hx B. destruct (envz_remove_spec v es mn n Hv Hn) as (v1 & E1 & H1).
  unfold envz_add. rewrite E1, lift_some. destruct (H1) as (A1 & S1 & N1).
  pose proof (without_flat (ename n) es) as Bw.
  assert (N2 : NoDup (ename <$> without (ename n) es ++ [new_entry n x])).
  { apply env_put_nodup; [by destruct Hv as (_ & _ & ?)|apply new_entry_name]. }
  assert (S2 : small (without (ename n) es ++ [new_entry n x])).
  { unfold small. rewrite len_flat_app, len_flat_one. lia. }
  destruct mx as [mx|], x as [x|]; try done; cbn [is_opt_str new_entry] in *.
  - pose proof Hn as [Hcn [nr ->]]. pose proof Hx as [Hcx [xr ->]]. rewrite !c_strlen_0 by done. rewrite !lift_some.
    destruct A1 as [Hs Hl [rest Hb]]. set (f := flat (without (ename n) es)) in *. rewrite len_app, len_cons in B. lens.
    rewrite Hl, size_small by lia.
    destruct (realloc_spec (argz v1) f rest (len f + len n + 1 + len x + 1) h) as (b & h' & E & Hr); [done|lia|lia|].
    erewrite bind_some by exact E. destruct b as [b|]; [|by eexists (Some ENOMEM), _, h'].
    destruct Hr as (room & -> & Hr).
    rewrite (envz_add_stores f room n (0 :: nr) x (0 :: xr)) by (done || lia).
    eexists None, _, h'. split; [reflexivity|]. split; [|done]. constructor; cbn [argz_len argz mem default].
    + apply Forall_app. split; [done|]. constructor; [|done]. apply cstr_app. split; [done|]. by constructor.
    + rewrite len_flat_app, len_flat_one, len_app, len_cons. subst f. lia.
    + exists []. rewrite flat_app. cbn [flat]. by rewrite app_nil_r.
  - destruct (add_spec v1 (without (ename n) es) mn n h) as (err & v' & h' & E & P); [done|done|done|].
    exists err, v', h'. split; [done|]. destruct err; cbn in P; [by destruct P as [-> ->]|done].
Qed.

(** One entry of the second vector. *)
Definition merge1 (override : bool) (es : list (list Z)) (e : list Z) : list (list Z) :=
  if bool_decide (ename e ∈ ename <$> es) then if override then without (ename e) es ++ [e] else es
  else es ++ [e].

Lemma merge1_flat o es e : len (flat (merge1 o es e)) <= len (flat es) + len e + 1.
Proof.
  unfold merge1. pose proof (without_flat (ename e) es). lens.
  repeat case_match; rewrite ?len_flat_app, ?len_flat_one; lia.
Qed.

Lemma merge1_nodup o es e : NoDup (ename <$> es) -> NoDup (ename <$> merge1 o es e).
Proof.
  intros N. unfold merge1. case_bool_decide as D; [destruct o; [by apply env_put_nodup|done]|].
  rewrite fmap_app. apply list.NoDup_app. split; [done|]. split; [|apply list.NoDup_singleton].
  intros x Hx Hy. cbn in Hy. apply list_elem_of_singleton in Hy as ->. done.
Qed.

Lemma append_env v es fs e r h : is_argz v es -> cstr e -> len (flat es) + len e + 1 < 2 ^ 64 -> NoDup (ename <$> es) ->
  fs = es ++ [e] -> NoDup (ename <$> fs) ->
  exists err v' h', __argz_append v (e ++ 0 :: r) (len e + 1) h = Some ((err, v'), h') /\
    match err with None => is_env v' fs | Some er => er = ENOMEM /\ is_env v' es end.
Proof.
  intros Hv He B N -> N'. lens.
  assert (small (es ++ [e])) by (unfold small; rewrite len_flat_app, len_flat_one; lia).
  destruct (append_spec v es (e ++ 0 :: r) (len e + 1) [e] r h) as (err & v' & h' & E & P);
    [done|cbn [flat]; by rewrite <- app_assoc|by rewrite len_flat_one|by constructor|done|by destruct es|].
  exists err, v', h'. split; [done|]. destruct err as [er|]; cbn in P; [|done].
  destruct P as [-> ->]. split; [done|]. split; [done|]. split; [unfold small; lia|done].
Qed.

Lemma merge_entry_spec v es e r (o : bool) h : is_env v es -> cstr e -> len (flat es) + len e + 1 < 2 ^ 64 ->
  exists old, envz_entry (mem (argz v)) (argz_len v) (e ++ 0 :: r) = Some old /\
  exists err v' h',
    match old with
    | None => __argz_append v (e ++ 0 :: r) (len e + 1)
    | Some _ => if o then let! v := lift (argz_delete v old) in __argz_append v (e ++ 0 :: r) (len e + 1)
                else ret (None, v)
    end h = Some ((err, v'), h') /\
    match err with None => is_env v' (merge1 o es e) | Some er => er = ENOMEM /\ exists es', is_env v' es' end.
Proof.
  intros (Hv & Sm & N) He B. destruct (Hv) as [Hs Hl [rest Hb]]. rewrite Hb, Hl.
  destruct (envz_entry_spec es rest (e ++ 0 :: r) e Hs Sm) as (old & E & F); [split; eauto|].
  exists old. split; [done|]. pose proof (merge1_nodup o es e N) as N'. unfold merge1 in *.
  destruct old as [p|]; cbn in F.
  - destruct F as (l1 & f & l2 & -> & -> & Ef & _). rewrite bool_decide_eq_true_2 in *.
    2,3: rewrite fmap_app, <- Ef; apply elem_of_app; right; apply list_elem_of_here.
    destruct o; [|by eexists None, v, h]. destruct (delete_spec v l1 f l2 Hv Sm) as (v1 & Ed & Hd). rewrite Ed, lift_some.
    pose proof (without_flat (ename e) (l1 ++ f :: l2)). destruct (without_nodup (ename e) (l1 ++ f :: l2) N) as [N1 _].
    rewrite without_split in * by done.
    destruct (append_env v1 (l1 ++ l2) _ e r h Hd He ltac:(lia) N1 eq_refl N') as (err & v' & h' & Ea & P).
    exists err, v', h'. split; [done|]. destruct err; [|done]. destruct P. eauto.
  - assert (D : ename e ∉ ename <$> es).
    { intros (g & Eg & Hg)%list_elem_of_fmap. by apply (proj1 (list.Forall_forall _ _) F g Hg). }
    rewrite bool_decide_eq_false_2 in * by done.
    destruct (append_env v es _ e r h Hv He B N eq_refl N') as (err & v' & h' & Ea & P).
    exists err, v', h'. split; [done|]. destruct err; [|done]. destruct P. eauto.
Qed.

Lemma envz_merge_spec v es fs rest o h : is_env v es -> Forall cstr fs -> len (flat es) + len (flat fs) < 2 ^ 64 ->
  exists err v' h', envz_merge v (flat fs ++ rest) (len (flat fs)) o h = Some ((err, v'), h') /\
    match err with None => is_env v' (fold_left (merge1 o) fs es) | Some er => er = ENOMEM /\ exists es', is_env v' es' end.
Proof.
  intros Hv Hf B. unfold envz_merge.
  destruct (loop_spec (envz_merge_step (flat fs ++ rest) o)
    (fun n '(err, v, p, l) => match err with
      | Some er => er = ENOMEM /\ exists es', is_env v es'
      | None => exists f1 f2, fs = f1 ++ f2 /\ p = len (flat f1) /\ l = len (flat f2) /\ n = l /\
          is_env v (fold_left (merge1 o) f1 es) /\ len (flat (fold_left (merge1 o) f1 es)) <= len (flat es) + len (flat f1)
      end)
    (fun '(err, v) => match err with
      | Some er => er = ENOMEM /\ exists es', is_env v es'
      | None => is_env v (fold_left (merge1 o) fs es)
      end) (len (flat fs)) (None, v, 0, len (flat fs)) h) as ([err v'] & h' & E & P); [| | |by exists err, v', h'].
  - clear v Hv h. intros n [[[err v] p] l] h I. destruct err as [er|]; [by exists (inr (Some er, v)), h|].
    destruct I as (f1 & f2 & Ef & -> & -> & -> & Hv & Bl). destruct f2 as [|e f2].
    { exists (inr (None, v)), h. split; [done|]. by rewrite Ef, app_nil_r. }
    assert (Sm : small fs) by (unfold small; lens; lia).
    destruct (walk_strlen fs _ rest eq_refl Hf Sm f1 e f2 Ef) as (L & He & Be & Bp & E1 & E2).
    unfold envz_merge_step. rewrite (proj2 (Z.eqb_neq _ 0)) by lia. rewrite L.
    assert (Eb : flat fs ++ rest = flat f1 ++ e ++ 0 :: flat f2 ++ rest) by (rewrite Ef, flat_app; cbn [flat]; by rewrite <- !app_assoc).
    rewrite Eb, suffix_at_app, lift_some by done.
    rewrite Ef, len_flat_app, len_flat_cons in B.
    destruct (merge_entry_spec v _ e (flat f2 ++ rest) o h Hv He) as (old & Eo & err & v' & h' & Es & P); [lens; lia|].
    rewrite Eo, !lift_some. cbn zeta. rewrite E1, E2. erewrite bind_some by exact Es. exists (inl (err, v', len (flat f1) + (len e + 1), len (flat f2))), h'.
    split; [reflexivity|]. exists (len (flat f2)). rewrite len_flat_cons. lens. split; [lia|]. destruct err as [er|]; [done|].
    exists (f1 ++ [e]), f2. rewrite <- app_assoc, flat_snoc_len, fold_left_app. cbn [fold_left].
    pose proof (merge1_flat o (fold_left (merge1 o) f1 es) e). split; [done|]. split; [lia|]. split; [done|]. split; [done|]. split; [exact P|lia].
  - exists [], fs. cbn [flat fold_left]. rewrite len_nil. split; [done|]. split; [done|]. split; [done|]. split; [done|]. split; [exact Hv|lia].
  - lens. lia.
Qed.
End Memory.

(** The map of a merged vector. *)
Lemma env_map_merge1 o es e : env_map (merge1 o es e) =
  if o then <[ename e := evalue e]> (env_map es) else env_map es ∪ {[ename e := evalue e]}.
Proof.
  assert (Dom : ename e ∈ ename <$> es \/ env_map es !! ename e = None).
  { destruct (decide (ename e ∈ ename <$> es)) as [|D]; [by left|right]. apply env_map_none. apply list.Forall_forall.
    intros f Hf Ef. apply D. rewrite <- Ef. by apply list_elem_of_fmap_2. }
  assert (Snoc : env_map es !! ename e = None -> env_map (es ++ [e]) = <[ename e := evalue e]> (env_map es)).
  { intros E. rewrite env_map_app, env_map_cons. change (env_map []) with (∅ : gmap (list Z) (option (list Z))).
    rewrite insert_empty, insert_union_singleton_r by done. done. }
  unfold merge1. case_bool_decide as D.
  - destruct o; [by apply env_map_put|]. apply map_eq. intros i.
    destruct (env_map es !! i) as [x|] eqn:E; [symmetry; by apply lookup_union_Some_l|].
    rewrite lookup_union_r by done. destruct (decide (i = ename e)) as [->|Ne]; [|by rewrite lookup_singleton_ne].
    exfalso. apply list_elem_of_fmap in D as (f & Ef & Hf). clear -E Ef Hf.
    induction es as [|g es IH]; [by apply not_elem_of_nil in Hf|]. rewrite env_map_cons in E.
    apply lookup_insert_None in E as [E1 E2]. apply elem_of_cons in Hf as [->|Hf]; [by symmetry in Ef|by apply IH].
  - destruct Dom as [?|Dom]; [done|]. rewrite Snoc by done. destruct o; [done|]. by apply insert_union_singleton_r.
Qed.

Lemma env_map_override es fs : env_map (fold_left (merge1 true) fs es) = env_map (reverse fs) ∪ env_map es.
Proof.
  revert es. induction fs as [|e fs IH]; intros es; cbn [fold_left].
  { symmetry. apply map_empty_union. }
  rewrite IH, env_map_merge1, reverse_cons, env_map_app, <- (assoc_L (∪)). f_equal.
  change (env_map [e]) with (<[ename e := evalue e]> (∅ : gmap (list Z) (option (list Z)))).
  by rewrite <- insert_union_l, map_empty_union.
Qed.

Lemma env_map_keep es fs : env_map (fold_left (merge1 false) fs es) = env_map es ∪ env_map fs.
Proof.
  revert es. induction fs as [|e fs IH]; intros es; cbn [fold_left].
  { symmetry. apply map_union_empty. }
  rewrite IH, env_map_merge1, env_map_cons, <- (assoc_L (∪)). f_equal. by rewrite <- insert_union_singleton_l.
Qed.

(** The entries that have a value. *)
Definition valued (es : list (list Z)) : list (list Z) := filter (fun e => is_Some (evalue e)) es.

Lemma valued_snoc l e : valued (l ++ [e]) = valued l ++ match evalue e with Some _ => [e] | None => [] end.
Proof.
  unfold valued. rewrite list.filter_app, list.filter_cons, list.filter_nil. f_equal.
  destruct (evalue e); case_decide as D; try done. by destruct D.
Qed.

Lemma strip_strchr pre e post : cstr e ->
  exists r, c_strchr (pre ++ e ++ 0 :: post) (len pre) SEP = Some r /\ (evalue e = None <-> r = None).
Proof.
  intros He. destruct (ename_split e He) as [Hp Es]. 
  assert (Hn : cstr (ename e) /\ SEP ∉ ename e).
  { split; [eapply list.Forall_impl; [exact Hp|]; by intros c [? _]%is_end_false|].
    intros Hi. apply (proj1 (list.Forall_forall _ _) Hp) in Hi. done. }
  destruct Hn as [Hn Hi]. destruct (evalue e) as [x|].
  - rewrite Es, <- app_assoc. cbn [app]. rewrite c_strchr_found by done. by eexists.
  - rewrite app_nil_r in Es. rewrite <- Es in Hi. rewrite c_strchr_none by done. by eexists.
Qed.

Lemma envz_strip_spec v es : is_argz v es -> small es ->
  exists v', envz_strip v = Some v' /\ is_argz v' (valued es).
Proof.
  intros [Hs Hl [rest Hb]] Sm. unfold envz_strip.
  by_loop (fun n '(b, p, l) => exists l1 l2 r, es = l1 ++ l2 /\ b = flat (valued l1) ++ flat l2 ++ r /\
      p = len (flat (valued l1)) /\ l = len (flat l2) /\ n = l)
    (fun v' => is_argz v' (valued es)) (argz_len v) as (v' & E & P); [| |by rewrite Hl|by exists v'].
  - intros n [[b p] l] (l1 & l2 & r & E & -> & -> & -> & ->). destruct l2 as [|e l2].
    + cbn [flat]. rewrite len_nil. cbn [Z.eqb]. rewrite app_nil_r in E. subst l1. constructor.
      * apply list.Forall_forall. intros e [_ He]%list_elem_of_filter. by apply (proj1 (list.Forall_forall _ _) Hs).
      * done.
      * cbn [argz]. destruct (argz v) as [b|]; cbn [fmap option_fmap option_map mem default const]; [by exists r|].
        exists []. cbn [mem default] in Hb. destruct es as [|e es]; [done|]. apply (f_equal len) in Hb.
        rewrite len_app, len_flat_cons, len_nil in Hb. lens. lia.
    + rewrite E in Hs. apply Forall_app in Hs as [_ [He _]%list.Forall_cons].
      unfold small in Sm. rewrite E, len_flat_app, len_flat_cons in Sm. rewrite len_flat_cons. cbn [flat]. rewrite <- (app_assoc e). cbn [app]. lens.
      rewrite (proj2 (Z.eqb_neq _ 0)) by lia. rewrite c_strlen_at by done.
      destruct (strip_strchr (flat (valued l1)) e (flat l2 ++ r) He) as (o & -> & Ho).
      rewrite !size_small by (rewrite ?size_small by lia; lia).
      replace (len e + 1 + len (flat l2) - (len e + 1)) with (len (flat l2)) by lia.
      destruct o as [o|].
      * exists (len (flat l2)). split; [lia|]. exists (l1 ++ [e]), l2, r.
        assert (V : valued (l1 ++ [e]) = valued l1 ++ [e]).
        { rewrite valued_snoc. destruct (evalue e) eqn:Ev; [done|]. by pose proof (proj1 Ho eq_refl). }
        rewrite V, E, flat_snoc_len, flat_app. cbn [flat]. rewrite <- !app_assoc. repeat split; lia.
      * destruct (memmove_down (flat (valued l1)) (e ++ [0]) (flat l2) r (len (flat (valued l1)))
          (len (flat (valued l1)) + (len e + 1)) (len (flat l2))) as [r' Em];
          [done|rewrite len_app; change (len [0]) with 1; lia|done|].
        rewrite <- (app_assoc e) in Em. cbn [app] in Em. rewrite Em. exists (len (flat l2)). split; [lia|].
        exists (l1 ++ [e]), l2, r'. assert (V : valued (l1 ++ [e]) = valued l1).
        { rewrite valued_snoc, (proj2 Ho eq_refl). apply app_nil_r. }
        rewrite V, E, <- app_assoc. done.
  - exists [], es, rest. rewrite Hb, Hl. done.
Qed.

Lemma env_map_valued es : NoDup (ename <$> es) -> env_map (valued es) = filter (fun kv => is_Some kv.2) (env_map es).
Proof.
  unfold valued. induction es as [|e es IH]; [done|]. cbn [fmap list_fmap]. intros [Ne N]%list.NoDup_cons. specialize (IH N).
  assert (Fr : env_map es !! ename e = None).
  { apply env_map_none, list.Forall_forall. intros f Hf Ef. apply Ne. rewrite <- Ef. by apply list_elem_of_fmap_2. }
  rewrite list.filter_cons, env_map_cons. case_decide as D.
  - by rewrite env_map_cons, map_filter_insert_True, IH.
  - rewrite map_filter_insert_False, IH by done. by rewrite delete_id.
Qed.

Lemma valued_nodup es : NoDup (ename <$> es) -> NoDup (ename <$> valued es).
Proof.
  unfold valued. induction es as [|e es IH]; [done|]. cbn [fmap list_fmap]. intros [Ne N]%list.NoDup_cons.
  rewrite list.filter_cons. case_decide; [|by apply IH]. cbn [fmap list_fmap]. apply list.NoDup_cons. split; [|by apply IH].
  intros (f & Ef & Hf)%list_elem_of_fmap. apply Ne. rewrite Ef. apply list_elem_of_fmap_2. by apply list_elem_of_filter in Hf as [_ ?].
Qed.

Lemma valued_flat es : len (flat (valued es)) <= len (flat es).
Proof.
  unfold valued. induction es as [|e es IH]; [done|]. rewrite list.filter_cons, len_flat_cons. case_decide; rewrite ?len_flat_cons; lens; lia.
Qed.
