(* ===== verification/ArgzTheorems.v ===== *)
(** * Theorems on argument and environment vectors *)

From S2P Require Import Prelude CMonad CLoop CInt Buffer Cstr Argz ArgzRep ArgzOps ArgzReplace EnvzRep.
Open Scope c_scope.

(** An allocator that has memory for [h] more blocks. *)
#[export] Program Instance counted : Malloc nat := {|
  malloc n h := match h with
                | S h' => if 0 <=? n then Some (Some (replicate (Z.to_nat n) 170), h') else Some (None, h)
                | O => Some (None, h)
                end |}.
Next Obligation.
  intros n [|h]; [by exists None, O|]. cbn. destruct (Z.leb_spec 0 n); [|by exists None, (S h)].
  eexists _, h. split; [reflexivity|]. cbn. unfold len. rewrite length_replicate. lia.
Qed.

Section Vectors.
Context {H : Type} `{Malloc H}.
Implicit Types h : H.

(** ** Inserting *)

(** What inserting [s] before the pointer [before] does to the strings [es]. *)
Inductive insertion (es : list (list Z)) (s : list Z) : option Z -> option (option error_t * list (list Z)) -> Prop :=
| insert_end : insertion es s None (Some (None, es ++ [s]))
| insert_outside p : p < 0 \/ len (flat es) <= p -> insertion es s (Some p) (Some (Some EINVAL, es))
| insert_before l1 e l2 i : es = l1 ++ e :: l2 -> 0 <= i <= len e -> (l1 = [] -> i = 0) ->
    insertion es s (Some (len (flat l1) + i)) (Some (None, l1 ++ s :: e :: l2))
| insert_in_first e l2 i : es = e :: l2 -> 0 < i <= len e -> insertion es s (Some i) None.

(** C34: the result of [argz_insert] for every pointer.  The string goes to the
    end for [NULL]; a pointer outside the vector is refused with [EINVAL];
    a pointer to a string, or into one that is not the first, puts the new
    string before it; a pointer behind the beginning of the first string makes
    the loop read in front of the block.  Without memory nothing changes. *)
Theorem argz_insert_correct v es before m s out h : is_argz v es -> is_str m s -> small (es ++ [s]) ->
  insertion es s before out ->
  match out with
  | None => __argz_insert v before m h = None
  | Some (e, es') => exists e' v' h', __argz_insert v before m h = Some ((e', v'), h') /\
      (e' = e /\ is_argz v' es' \/ e' = Some ENOMEM /\ v' = v)
  end.
Proof.
  intros Hv Hm Sm I. destruct I as [|p Hp|l1 e l2 i -> Bi Hi|e l2 i -> Bi].
  - destruct (add_spec v es m s h Hv Hm Sm) as (e & v' & h' & E & P). exists e, v', h'. split; [done|].
    destruct e as [e|]; [right; by destruct P as [-> ->]|by left].
  - exists (Some EINVAL), v, h. split; [|by left]. unfold __argz_insert. rewrite (ag_len _ _ Hv).
    by destruct (Z.ltb_spec p 0), (Z.leb_spec (len (flat es)) p); cbn [orb]; try lia.
  - destruct (insert_spec v l1 e l2 i m s h) as (er & v' & h' & E & P); [done|done| |done|done|].
    { unfold small in *. rewrite !len_flat_app, !len_flat_cons in *. change (flat []) with (@nil Z) in Sm. rewrite len_nil in Sm. lia. }
    exists er, v', h'. split; [done|]. destruct er as [er|]; [right; by destruct P as [-> ->]|by left].
  - by eapply insert_first_undefined.
Qed.

(** ** Strings with separators *)

(** C35: [argz_add_sep] appends the fields of a string that are not empty, and the
    last field whatever it is; an empty string adds nothing.  Without memory
    it returns [ENOMEM] with the pointer to the vector overwritten by [NULL]
    and the length unchanged, so the caller has lost the strings. *)
Theorem argz_add_sep_correct v es m s d h : is_argz v es -> is_str m s -> d <> 0 -> len (flat es) + len s + 1 < 2 ^ 64 ->
  exists e v' h', __argz_add_sep v m d h = Some ((e, v'), h') /\
    match e with
    | None => is_argz v' (es ++ if decide (s = []) then [] else kept (fields d s))
    | Some e => e = ENOMEM /\ argz v' = None /\ argz_len v' = argz_len v
    end.
Proof.
  intros Hv Hm Hd B. destruct (add_sep_spec v es m s d h Hv Hm Hd B) as (e & v' & h' & E & P).
  exists e, v', h'. split; [done|]. destruct e; [|done]. destruct P as [-> ->]. by rewrite (ag_len _ _ Hv).
Qed.

(** turning a vector into text and back: for strings that are not empty and
    do not contain the separator, [argz_stringify] followed by
    [argz_create_sep] gives a vector of the same strings, or there is no memory
    for it. *)
Theorem argz_stringify_create_sep v es sep w h : is_argz v es -> small es -> es <> [] -> fits 8 sep -> sep <> 0 ->
  Forall (fun e => e <> [] /\ sep ∉ e) es ->
  exists text e v' h', __argz_stringify (mem (argz v)) (argz_len v) sep = Some text /\
    __argz_create_sep text sep w h = Some ((e, v'), h') /\
    match e with None => is_argz v' es | Some e => e = ENOMEM /\ argz v' = None end.
Proof.
  intros [Hs Hl [rest Hb]] Sm Ne Fs S0 F. rewrite Hb, Hl, stringify_spec by done. exists (join sep es ++ 0 :: rest).
  assert (Lj : len (join sep es) + 1 = len (flat es)).
  { destruct es as [|e es _] using rev_ind; [done|]. rewrite <- separated_join, len_app, len_separated, flat_snoc_len. lia. }
  assert (Hj : cstr (join sep es)).
  { clear -Hs S0. induction Hs as [|e es He Hes IH]; [constructor|]. destruct es; [done|].
    change (cstr (e ++ sep :: join sep (l :: es))). apply cstr_app. split; [done|]. by constructor. }
  destruct (create_sep_spec (join sep es ++ 0 :: rest) (join sep es) sep w h) as (e & v' & h' & E & P);
    [by split; [|eexists]|done|unfold small in Sm; lia|].
  exists e, v', h'. split; [done|]. split; [done|]. destruct e; [done|].
  assert (Ek : kept (fields sep (join sep es)) = es).
  { rewrite fields_join; [apply kept_all|done|]; (eapply list.Forall_impl; [exact F|naive_solver]). }
  rewrite Ek in P.
  rewrite decide_False in P; [done|]. intros J. destruct F as [|e es [He _] _]; [done|]. by destruct e, es.
Qed.

(** ** Replacing *)

(** C20: [argz_replace] replaces in every string all the occurrences of [w], from
    the left, by [x], and adds to the count the number of strings (not of
    occurrences) in which there was one; when memory runs out at any of its
    allocations the vector is as before. *)
Theorem argz_replace_correct v es mw w mx x count h : is_argz v es -> is_str mw w -> is_str mx x -> w <> [] ->
  small es -> small (substitute w x <$> es) -> 0 <= count < 2 ^ 32 ->
  exists e v' c' h', __argz_replace v (Some mw) mx (Some count) h = Some ((e, v', Some c'), h') /\
    match e with
    | None => is_argz v' (substitute w x <$> es) /\ c' = wrap 32 (count + matches w es)
    | Some e => e = ENOMEM /\ v' = v
    end.
Proof.
  intros Hv Hw Hx Ne Sm Sm' Bc. destruct (Hv) as [Hs Hl [rest Hb]].
  unfold __argz_replace. pose proof (is_str_len mw w Hw) as Lw. pose proof (is_str_len mx x Hx) as Lx.
  assert (Hc : exists c, mw !! 0%nat = Some c /\ c <> 0).
  { destruct Hw as [Hc [r ->]]. destruct w as [|c w]; [done|]. exists c. split; [done|]. by apply list.Forall_cons in Hc as [? _]. }
  destruct Hc as (c & Ec & Hc). rewrite Ec, lift_some, (proj2 (Z.eqb_neq c 0) Hc), Lw, lift_some, Lx, lift_some.
  destruct (replace_loop_spec w x mw mx Hw Hx Ne es (mem (argz v)) rest count Hb Hs Sm Sm' v h eq_refl Hl) as (r & h' & E & P).
  rewrite (wrap_small 32 count) in E by done.
  erewrite bind_some by exact E. eexists _, _, _, h'. split; [reflexivity|].
  destruct P as [->|[-> _ -> Hd]]; [done|]. split; [|done].
  destruct (delayed_copy r); [|done]. destruct Hd as [_ F]. by rewrite sub_unmatched.
Qed.

(** ** Environments *)

(** The calls that change an environment. *)
Inductive call :=
| Add (name : list Z) (value : option (list Z))
| Remove (name : list Z)
| Merge (other : list (list Z)) (override : bool)
| Strip.

(** The memory of a string argument. *)
Definition arg_of (s : list Z) : list Z := s ++ [0].

Definition exec (c : call) (v : vec) : M H (option error_t * vec) :=
  match c with
  | Add n x => envz_add v (arg_of n) (arg_of <$> x)
  | Remove n => let! v := lift (envz_remove v (arg_of n)) in ret (None, v)
  | Merge fs o => envz_merge v (flat fs) (len (flat fs)) o
  | Strip => let! v := lift (envz_strip v) in ret (None, v)
  end.

(** A sequence of calls, up to the first that finds no memory. *)
Fixpoint exec_all (cs : list call) (v : vec) : M H (option error_t * vec) :=
  match cs with
  | [] => ret (None, v)
  | c :: cs => let! '(e, v) := exec c v in match e with Some _ => ret (e, v) | None => exec_all cs v end
  end.

(** What the calls mean. *)
Definition meaning (c : call) (m : gmap (list Z) (option (list Z))) : gmap (list Z) (option (list Z)) :=
  match c with
  | Add n x => <[n := x]> m
  | Remove n => delete n m
  | Merge fs true => env_map (reverse fs) ∪ m
  | Merge fs false => m ∪ env_map fs
  | Strip => filter (fun kv => is_Some kv.2) m
  end.

Definition good_call (c : call) : Prop :=
  match c with
  | Add n x => cstr n /\ (SEP ∉ n) /\ match x with Some x => cstr x | None => True end
  | Remove n => cstr n /\ SEP ∉ n
  | Merge fs _ => Forall cstr fs
  | Strip => True
  end.

(** The memory a call may add. *)
Definition cost (c : call) : Z :=
  match c with
  | Add n x => len (new_entry n x) + 1
  | Merge fs _ => len (flat fs)
  | _ => 0
  end.

Lemma arg_of_str s : cstr s -> is_str (arg_of s) s.
Proof. intros Hs. split; [done|]. by exists []. Qed.

Lemma ename_plain n : SEP ∉ n -> ename n = n.
Proof.
  induction n as [|c n IH]; [done|]. intros [Hc Hn]%not_elem_of_cons. cbn.
  by rewrite (proj2 (Z.eqb_neq c SEP)), IH by congruence.
Qed.

Lemma merged_flat o fs es : len (flat (fold_left (merge1 o) fs es)) <= len (flat es) + len (flat fs).
Proof.
  revert es. induction fs as [|e fs IH]; intros es; cbn [fold_left]; [cbn [flat]; rewrite len_nil; lia|].
  specialize (IH (merge1 o es e)). pose proof (merge1_flat o es e). rewrite len_flat_cons. lia.
Qed.

Lemma exec_spec c v es h : is_env v es -> good_call c -> len (flat es) + cost c < 2 ^ 64 ->
  exists e v' h' es', exec c v h = Some ((e, v'), h') /\ is_env v' es' /\
    match e with
    | None => env_map es' = meaning c (env_map es) /\ len (flat es') <= len (flat es) + cost c
    | Some e => e = ENOMEM
    end.
Proof.
  intros Hv G B. destruct c as [n x|n|fs o|]; cbn [exec good_call cost meaning] in *.
  - destruct G as (Hn & Sn & Hx).
    assert (Hx' : is_opt_str (arg_of <$> x) x) by (destruct x; [by apply arg_of_str|done]).
    destruct (envz_add_spec v es (arg_of n) n (arg_of <$> x) x h Hv (arg_of_str n Hn) Hx') as (e & v' & h' & E & P); [lia|].
    rewrite ename_plain in P by done. destruct e as [e|]; cbn in P.
    + destruct P as [-> P]. by eexists _, v', h', _.
    + eexists None, v', h', _. split; [done|]. split; [done|]. split.
      * apply env_map_put; [by rewrite new_entry_name, ename_plain|by apply new_entry_value].
      * pose proof (without_flat n es). rewrite len_flat_app, len_flat_one. lia.
  - destruct G as [Hn Sn]. destruct (envz_remove_spec v es (arg_of n) n Hv (arg_of_str n Hn)) as (v' & E & P).
    rewrite ename_plain in P by done. rewrite E, lift_some. eexists None, v', h, _. split; [done|]. split; [done|].
    split; [apply env_map_without|]. pose proof (without_flat n es). lia.
  - destruct (envz_merge_spec v es fs [] o h Hv G B) as (e & v' & h' & E & P). rewrite app_nil_r in E.
    destruct e as [e|].
    + destruct P as [-> [es' P]]. by eexists _, v', h', es'.
    + eexists None, v', h', _. split; [done|]. split; [done|]. split; [|apply merged_flat].
      destruct o; [apply env_map_override|apply env_map_keep].
  - destruct Hv as (Hv & Sm & N). destruct (envz_strip_spec v es Hv Sm) as (v' & E & P).
    pose proof (valued_flat es). rewrite E, lift_some. eexists None, v', h, _. split; [done|].
    split; [split; [done|]; split; [unfold small in *; lia|by apply valued_nodup]|]. split; [by apply env_map_valued|lia].
Qed.

Lemma exec_all_spec cs v es h : is_env v es -> Forall good_call cs -> len (flat es) + foldr Z.add 0 (cost <$> cs) < 2 ^ 64 ->
  exists e v' h' es', exec_all cs v h = Some ((e, v'), h') /\ is_env v' es' /\
    match e with
    | None => env_map es' = fold_left (fun m c => meaning c m) cs (env_map es)
    | Some e => e = ENOMEM
    end.
Proof.
  intros Hv F. revert v es h Hv. induction F as [|c cs Hc F IH]; intros v es h Hv B; cbn [exec_all fold_left].
  { by eexists None, v, h, es. }
  cbn [fmap list_fmap foldr] in B.
  assert (0 <= foldr Z.add 0 (cost <$> cs)).
  { clear. induction cs as [|c cs IH]; cbn [fmap list_fmap foldr]; [lia|]. destruct c; cbn [cost]; lens; lia. }
  destruct (exec_spec c v es h Hv Hc) as (e & v' & h' & es' & E & Hv' & P); [lia|]. erewrite bind_some by exact E.
  destruct e as [e|]; [subst e; by eexists _, v', h', es'|]. destruct P as [<- B']. apply IH; [done|lia].
Qed.

(** C8: a sequence of [envz_add], [envz_remove], [envz_merge] and [envz_strip] on a
    vector in which no name occurs twice refines the same sequence of
    operations on a finite map from names to optional values, of which
    [envz_get] then reads the values; a merge that overrides takes the last
    entry of a name, one that does not the first.  When a call finds no memory
    the vector is still one in which no name occurs twice. *)
Theorem envz_refines_map cs v es h : is_env v es -> Forall good_call cs ->
  len (flat es) + foldr Z.add 0 (cost <$> cs) < 2 ^ 64 ->
  exists e v' h' es', exec_all cs v h = Some ((e, v'), h') /\ is_env v' es' /\
    match e with
    | Some e => e = ENOMEM
    | None => forall n, cstr n -> SEP ∉ n ->
        exists r, envz_get (mem (argz v')) (argz_len v') (arg_of n) = Some r /\
          match fold_left (fun m c => meaning c m) cs (env_map es) !! n with
          | Some (Some x) => exists p, r = Some p /\ string_at (mem (argz v')) p = Some x
          | _ => r = None
          end
    end.
Proof.
  intros Hv F B. destruct (exec_all_spec cs v es h Hv F B) as (e & v' & h' & es' & E & Hv' & P).
  exists e, v', h', es'. split; [done|]. split; [done|]. destruct e as [e|]; [done|]. intros n Hn Sn.
  destruct Hv' as ([Hs Hl [rest Hb]] & Sm & _). rewrite Hb, Hl, <- P.
  pose proof (envz_get_spec es' rest (arg_of n) n Hs Sm (arg_of_str n Hn)) as G. by rewrite ename_plain in G.
Qed.

(** ** Making a vector and taking it apart *)

(** The pointers that [argz_extract] finds in a vector made by [argz_create] are
    pointers to the strings, in order. *)
Theorem argz_create_extract argv es v array h : Forall2 is_str argv es -> Z.of_nat (length es) < 2 ^ 31 -> small es ->
  (length es < length array)%nat ->
  exists e v' h', __argz_create argv v h = Some ((e, v'), h') /\
    match e with
    | Some e => e = ENOMEM /\ argz v' = None
    | None => exists ps, __argz_count (mem (argz v')) (argz_len v') = Some (Z.of_nat (length es)) /\
        __argz_extract (mem (argz v')) (argz_len v') array = Some ((Some <$> ps) ++ None :: drop (S (length es)) array) /\
        Forall2 (fun p s => string_at (mem (argz v')) p = Some s) ps es
    end.
Proof.
  intros F Hn Sm Ha. destruct (create_spec argv es v h F Hn Sm) as (e & v' & h' & E & P).
  exists e, v', h'. split; [done|]. destruct e as [e|]; [done|]. destruct P as [Hs Hl [rest Hb]].
  exists (starts 0 es). rewrite Hl. split; [by apply (count_spec es _ rest)|]. split; [by apply (extract_spec es _ rest)|].
  rewrite Hb. clear -Hs. change 0 with (len (flat [])). change (flat es ++ rest) with (flat [] ++ flat es ++ rest).
  generalize (@nil (list Z)) as l1. induction Hs as [|e es He Hs IH]; intros l1; cbn [starts flat]; constructor.
  - rewrite <- app_assoc. by apply string_at_app.
  - replace (flat l1 ++ (e ++ 0 :: flat es) ++ rest) with (flat (l1 ++ [e]) ++ flat es ++ rest).
    + specialize (IH (l1 ++ [e])). by rewrite flat_snoc_len in IH.
    + rewrite flat_app. cbn [flat]. by rewrite <- !app_assoc.
Qed.
End Vectors.

(** ** Witnesses *)

Definition w_vec : vec := Vec (Some [97; 61; 49; 0; 98; 98; 0; 7]) 7.
Definition w_es : list (list Z) := [[97; 61; 49]; [98; 98]].

Lemma w_argz : is_argz w_vec w_es.
Proof. constructor; [by repeat constructor|done|by exists [7]]. Qed.

Lemma w_env : is_env w_vec w_es.
Proof. split; [apply w_argz|]. split; [done|]. by vm_compute; repeat constructor; set_solver. Qed.

Lemma argz_insert_witness : exists e' v' h', __argz_insert w_vec (Some 5) [99; 0] 1%nat = Some ((e', v'), h') /\
  (e' = None /\ is_argz v' [[97; 61; 49]; [99]; [98; 98]] \/ e' = Some ENOMEM /\ v' = w_vec).
Proof.
  refine (argz_insert_correct w_vec w_es (Some 5) [99; 0] [99] (Some (None, [[97; 61; 49]; [99]; [98; 98]])) 1%nat w_argz _ _ _).
  - split; [by repeat constructor|by exists []].
  - done.
  - by apply (insert_before w_es [99] [[97; 61; 49]] [98; 98] [] 1).
Defined.

Lemma argz_add_sep_witness : exists e v' h', __argz_add_sep w_vec [58; 99; 58; 58; 100; 58; 0] 58 1%nat = Some ((e, v'), h') /\
  match e with
  | None => is_argz v' (w_es ++ [[99]; [100]; []])
  | Some e => e = ENOMEM /\ argz v' = None /\ argz_len v' = 7
  end.
Proof.
  refine (argz_add_sep_correct w_vec w_es [58; 99; 58; 58; 100; 58; 0] [58; 99; 58; 58; 100; 58] 58 1%nat w_argz _ _ _).
  - split; [by repeat constructor|by exists []].
  - done.
  - done.
Defined.

Lemma argz_stringify_witness : exists text e v' h', __argz_stringify (mem (argz w_vec)) 7 44 = Some text /\
  __argz_create_sep text 44 (Vec None 0) 1%nat = Some ((e, v'), h') /\
  match e with None => is_argz v' w_es | Some e => e = ENOMEM /\ argz v' = None end.
Proof.
  refine (argz_stringify_create_sep w_vec w_es 44 (Vec None 0) 1%nat w_argz _ _ _ _ _); [done..|].
  by repeat constructor; set_solver.
Defined.

Lemma argz_replace_witness :
  exists e v' c' h', __argz_replace w_vec (Some [98; 0]) [99; 100; 0] (Some 5) 20%nat = Some ((e, v', Some c'), h') /\
  match e with
  | None => is_argz v' [[97; 61; 49]; [99; 100; 99; 100]] /\ c' = 6
  | Some e => e = ENOMEM /\ v' = w_vec
  end.
Proof.
  refine (argz_replace_correct w_vec w_es [98; 0] [98] [99; 100; 0] [99; 100] 5 20%nat w_argz _ _ _ _ _ _); try done.
  - split; [by repeat constructor|by exists []].
  - split; [by repeat constructor|by exists []].
Defined.

Lemma envz_refines_witness :
  exists e v' h' es', exec_all [Add [99] (Some [50]); Merge [[97; 61; 51]; [100]] true; Remove [98; 98]; Strip] w_vec 9%nat = Some ((e, v'), h') /\
    is_env v' es' /\
    match e with
    | Some e => e = ENOMEM
    | None => forall n, cstr n -> SEP ∉ n ->
        exists r, envz_get (mem (argz v')) (argz_len v') (arg_of n) = Some r /\
          match fold_left (fun m c => meaning c m)
            [Add [99] (Some [50]); Merge [[97; 61; 51]; [100]] true; Remove [98; 98]; Strip] (env_map w_es) !! n with
          | Some (Some x) => exists p, r = Some p /\ string_at (mem (argz v')) p = Some x
          | _ => r = None
          end
    end.
Proof.
  refine (envz_refines_map _ w_vec w_es 9%nat w_env _ _); [|done].
  repeat constructor; try done; set_solver.
Defined.

Lemma argz_create_extract_witness : exists e v' h', __argz_create [[97; 0]; [0]; [98; 99; 0; 1]] (Vec None 0) 1%nat = Some ((e, v'), h') /\
  match e with
  | Some e => e = ENOMEM /\ argz v' = None
  | None => exists ps, __argz_count (mem (argz v')) (argz_len v') = Some 3 /\
      __argz_extract (mem (argz v')) (argz_len v') (replicate 5 (Some 0)) = Some ((Some <$> ps) ++ None :: [Some 0]) /\
      Forall2 (fun p s => string_at (mem (argz v')) p = Some s) ps [[97]; []; [98; 99]]
  end.
Proof.
  refine (argz_create_extract [[97; 0]; [0]; [98; 99; 0; 1]] [[97]; []; [98; 99]] (Vec None 0) (replicate 5 (Some 0)) 1%nat _ _ _ _).
  - repeat constructor; try done; by eexists.
  - done.
  - done.
  - cbn. lia.
Defined.
