(* ===== verification/Rand48.v ===== *)
(** * The 48-bit generators: [stdlib/drand48-iter.c] and its callers

    The state of a call is the [struct drand48_data] it is given and one array
    of the caller; an array argument is a pointer that may also point into the
    structure.  [erand48_r] builds a double from its bits and subtracts [1.0],
    which is exact; a double in [[0, 2)] is given in units of [2^-52]. *)

From S2P Require Import Prelude CInt.

(** [unsigned short [3]], lowest element first. *)
Definition triple : Type := Z * Z * Z.

Record drand48_data := Drand48 {
  d_x : triple;         (** [__x], the current state *)
  d_old_x : triple;     (** [__old_x], the state before [seed48] *)
  d_c : Z;              (** [__c], the additive constant *)
  d_init : Z;           (** [__init], the flag for initializing *)
  d_a : Z }.            (** [__a], the factor *)

(** The structure and an array of the caller. *)
Record store48 := Store48 { data : drand48_data; outside : triple }.

(** Where an array argument points to. *)
Inductive array := X_array | Old_array | Outside.

Definition load48 (p : array) (s : store48) : triple :=
  match p with
  | X_array => d_x (data s)
  | Old_array => d_old_x (data s)
  | Outside => outside s
  end.

Definition set_x (d : drand48_data) (x : triple) : drand48_data := Drand48 x (d_old_x d) (d_c d) (d_init d) (d_a d).
Definition set_old (d : drand48_data) (x : triple) : drand48_data := Drand48 (d_x d) x (d_c d) (d_init d) (d_a d).
Definition set_params (d : drand48_data) (a c : Z) : drand48_data := Drand48 (d_x d) (d_old_x d) c 1 a.

Definition save48 (p : array) (x : triple) (s : store48) : store48 :=
  match p with
  | X_array => Store48 (set_x (data s) x) (outside s)
  | Old_array => Store48 (set_old (data s) x) (outside s)
  | Outside => Store48 (data s) x
  end.

Definition default_a : Z := 0x5deece66d.
Definition default_c : Z := 0xb.

(** [(uint64_t) v[2] << 32 | (uint32_t) v[1] << 16 | v[0]] *)
Definition pack48 (v : triple) : Z :=
  let '(v0, v1, v2) := v in
  Z.lor (Z.lor (Z.shiftl v2 32) (wrap 32 (Z.shiftl v1 16))) v0.

Definition __drand48_iterate (xsubi : array) (s : store48) : store48 :=
  let s := if d_init (data s) =? 0 then Store48 (set_params (data s) default_a default_c) (outside s) else s in
  let X := pack48 (load48 xsubi s) in
  let result := wrap 64 (wrap 64 (X * d_a (data s)) + d_c (data s)) in
  save48 xsubi (Z.land result 0xffff, Z.land (Z.shiftr result 16) 0xffff, Z.land (Z.shiftr result 32) 0xffff) s.

(** ** Numbers from the state *)

Definition __nrand48_r (xsubi : array) (s : store48) : Z * store48 :=
  let s := __drand48_iterate xsubi s in
  let '(x0, x1, x2) := load48 xsubi s in
  (Z.lor (Z.shiftl x2 15) (Z.shiftr x1 1), s).

(** The shift wraps, as in GNU C. *)
Definition __jrand48_r (xsubi : array) (s : store48) : Z * store48 :=
  let s := __drand48_iterate xsubi s in
  let '(x0, x1, x2) := load48 xsubi s in
  (sint 32 (Z.lor (Z.shiftl x2 16) x1), s).

(** The fields of [union ieee754_double], each of its width. *)
Record ieee754_double := Ieee { negative : Z; exponent : Z; mantissa0 : Z; mantissa1 : Z }.

(** The value of a positive double with the exponent of [1.0], in units of
    [2^-52]. *)
Definition units52 (t : ieee754_double) : Z := 2 ^ 52 + (mantissa0 t * 2 ^ 32 + mantissa1 t).

Definition __erand48_r (xsubi : array) (s : store48) : ieee754_double * Z * store48 :=
  let s := __drand48_iterate xsubi s in
  let '(x0, x1, x2) := load48 xsubi s in
  let temp := Ieee 0 0x3ff
    (wrap 20 (Z.lor (Z.shiftl x2 4) (Z.shiftr x1 12)))
    (wrap 32 (Z.lor (Z.shiftl (Z.land x1 0xfff) 20) (Z.shiftl x0 4))) in
  (temp, units52 temp - 2 ^ 52, s).

Definition drand48_r (s : store48) : ieee754_double * Z * store48 := __erand48_r X_array s.

(** [None] for the result [-1]: there is no structure. *)
Definition lrand48_r (s : option store48) : option (Z * store48) := __nrand48_r X_array <$> s.
Definition mrand48_r (s : option store48) : option (Z * store48) := __jrand48_r X_array <$> s.

(** ** Seeding *)

Definition __seed48_r (seed16v : array) (s : store48) : store48 :=
  let s := save48 Old_array (d_x (data s)) s in
  let s := save48 X_array (load48 seed16v s) s in
  Store48 (set_params (data s) default_a default_c) (outside s).

Definition seed48 (seed16v : array) (s : store48) : array * store48 := (Old_array, __seed48_r seed16v s).

Definition __srand48_r (seedval : Z) (s : store48) : store48 :=
  let seedval := Z.land seedval 0xffffffff in
  let s := save48 X_array (0x330e, wrap 16 (Z.land seedval 0xffff), wrap 16 (Z.shiftr seedval 16)) s in
  Store48 (set_params (data s) default_a default_c) (outside s).

(** [param] is an array of seven elements of the caller. *)
Definition __lcong48_r (x a : triple) (c : Z) (s : store48) : store48 :=
  let s := save48 X_array x s in
  Store48 (set_params (data s) (pack48 a) c) (outside s).

(** ** Packed states *)

Definition short (v : Z) : Prop := 0 <= v < 2 ^ 16.
Definition good_triple (v : triple) : Prop := let '(v0, v1, v2) := v in short v0 /\ short v1 /\ short v2.

(** The number whose digits the elements are. *)
Definition packed48 (v : triple) : Z := let '(v0, v1, v2) := v in v0 + v1 * 2 ^ 16 + v2 * 2 ^ 32.

Definition good_store (s : store48) : Prop :=
  good_triple (d_x (data s)) /\ good_triple (d_old_x (data s)) /\ good_triple (outside s) /\
  short (d_c (data s)) /\ 0 <= d_a (data s) < 2 ^ 48.

(** The factor and the constant in use. *)
Definition factor (s : store48) : Z := if d_init (data s) =? 0 then default_a else d_a (data s).
Definition constant (s : store48) : Z := if d_init (data s) =? 0 then default_c else d_c (data s).

Lemma packed_bounds v : good_triple v -> 0 <= packed48 v < 2 ^ 48.
Proof. destruct v as [[v0 v1] v2]. unfold good_triple, short, packed48. lia. Qed.

Lemma pack_packed v : good_triple v -> pack48 v = packed48 v.
Proof.
  destruct v as [[v0 v1] v2]. unfold good_triple, short, pack48, packed48. intros (B0 & B1 & B2).
  rewrite !Z.shiftl_mul_pow2 by lia. rewrite wrap_small by lia.
  rewrite (lor_mul_pow2_add v2 (v1 * 2 ^ 16) 32) by lia.
  replace (v2 * 2 ^ 32 + v1 * 2 ^ 16) with ((v2 * 2 ^ 16 + v1) * 2 ^ 16) by lia.
  rewrite lor_mul_pow2_add by lia. lia.
Qed.

Lemma packed_inj v w : good_triple v -> good_triple w -> packed48 v = packed48 w -> v = w.
Proof.
  destruct v as [[v0 v1] v2], w as [[w0 w1] w2]. unfold good_triple, short, packed48. intros (? & ? & ?) (? & ? & ?) E.
  assert (v0 = w0) by lia. assert (v1 = w1) by lia. assert (v2 = w2) by lia. by subst.
Qed.

Lemma land_16 x : Z.land x 0xffff = x mod 2 ^ 16.
Proof. apply (Z.land_ones x 16). lia. Qed.

Lemma split_packed r : let v := (Z.land r 0xffff, Z.land (Z.shiftr r 16) 0xffff, Z.land (Z.shiftr r 32) 0xffff) in
  good_triple v /\ packed48 v = r mod 2 ^ 48.
Proof.
  cbn zeta. unfold good_triple, short, packed48. rewrite !land_16, !Z.shiftr_div_pow2 by lia.
  split; [repeat split; apply Z.mod_pos_bound; lia|].
  replace (2 ^ 48) with (2 ^ 16 * (2 ^ 16 * 2 ^ 16)) by lia. rewrite !Z.rem_mul_r by lia.
  replace (2 ^ 32) with (2 ^ 16 * 2 ^ 16) by lia. rewrite <- Z.div_div by lia. lia.
Qed.

Lemma wrap64_mod48 x : wrap 64 x mod 2 ^ 48 = x mod 2 ^ 48.
Proof. unfold wrap. apply Z.mod_mod_divide. by exists (2 ^ 16). Qed.

Lemma load_save p x s : load48 p (save48 p x s) = x.
Proof. by destruct p. Qed.

(** One step, through any of the pointers. *)
Lemma iterate_step p s : good_store s ->
  let s' := __drand48_iterate p s in
  packed48 (load48 p s') = (packed48 (load48 p s) * factor s + constant s) mod 2 ^ 48 /\
  good_triple (load48 p s') /\ good_store s' /\ factor s' = factor s /\ constant s' = constant s /\
  forall q, q <> p -> load48 q s' = load48 q s.
Proof.
  intros (G1 & G2 & G3 & G4 & G5). cbn zeta. unfold __drand48_iterate, factor, constant.
  set (s1 := if d_init (data s) =? 0 then Store48 (set_params (data s) default_a default_c) (outside s) else s).
  assert (L : forall q, load48 q s1 = load48 q s) by (intros q; unfold s1; by destruct (d_init (data s) =? 0), q).
  assert (A : d_a (data s1) = (if d_init (data s) =? 0 then default_a else d_a (data s)) /\
              d_c (data s1) = (if d_init (data s) =? 0 then default_c else d_c (data s)) /\
              (d_init (data s1) =? 0) = false).
  { unfold s1. destruct (d_init (data s) =? 0) eqn:E; [done|]. done. }
  destruct A as (Ea & Ec & Ei). rewrite <- Ea, <- Ec.
  assert (G : good_store s1).
  { unfold s1. destruct (d_init (data s) =? 0); [|unfold good_store; tauto]. unfold good_store. cbn. unfold short, default_c, default_a. repeat split; try done; try lia. }
  assert (Gp : good_triple (load48 p s)) by (by destruct p).
  rewrite L, (pack_packed _ Gp). set (r := wrap 64 (wrap 64 (packed48 (load48 p s) * d_a (data s1)) + d_c (data s1))).
  destruct (split_packed r) as [Gv Ev]. rewrite !load_save. split; [|split; [done|]].
  - rewrite Ev. unfold r. rewrite wrap64_mod48, <- Zplus_mod_idemp_l, wrap64_mod48, Zplus_mod_idemp_l. done.
  - clearbody r. revert Gv. generalize (Z.land r 65535, Z.land (Z.shiftr r 16) 65535, Z.land (Z.shiftr r 32) 65535).
    intros v Gv. destruct G as (? & ? & ? & ? & ?).
    destruct p; cbn; rewrite ?Ei; (split; [unfold good_store; cbn; tauto|]); (split; [done|]); (split; [done|]);
      intros q Hq; rewrite <- L; by destruct q.
Qed.
