(* ===== verification/Rand48Theorems.v ===== *)
(** * Theorems on the 48-bit generators *)

From S2P Require Import Prelude CInt Rand48.

#[local] Ltac Zify.zify_post_hook ::= Z.to_euclidean_division_equations.

(** ** What the functions return *)

(** The next state, as a number. *)
Definition next48 (a c X : Z) : Z := (X * a + c) mod 2 ^ 48.

Lemma next48_bounds a c X : 0 <= next48 a c X < 2 ^ 48.
Proof. apply Z.mod_pos_bound. lia. Qed.

(** The numbers made of the elements of a state. *)
Lemma high31 v0 v1 v2 : good_triple (v0, v1, v2) ->
  Z.lor (Z.shiftl v2 15) (Z.shiftr v1 1) = packed48 (v0, v1, v2) / 2 ^ 17.
Proof.
  unfold good_triple, short, packed48. intros (B0 & B1 & B2). rewrite Z.shiftl_mul_pow2, Z.shiftr_div_pow2 by lia.
  rewrite lor_mul_pow2_add by lia. lia.
Qed.

Lemma high32 v0 v1 v2 : good_triple (v0, v1, v2) -> Z.lor (Z.shiftl v2 16) v1 = packed48 (v0, v1, v2) / 2 ^ 16.
Proof.
  unfold good_triple, short, packed48. intros (B0 & B1 & B2). rewrite Z.shiftl_mul_pow2 by lia.
  rewrite lor_mul_pow2_add by lia. lia.
Qed.

Lemma mantissa_bits v0 v1 v2 : good_triple (v0, v1, v2) ->
  let m0 := Z.lor (Z.shiftl v2 4) (Z.shiftr v1 12) in
  let m1 := Z.lor (Z.shiftl (Z.land v1 0xfff) 20) (Z.shiftl v0 4) in
  wrap 20 m0 = m0 /\ wrap 32 m1 = m1 /\ m0 * 2 ^ 32 + m1 = packed48 (v0, v1, v2) * 2 ^ 4.
Proof.
  unfold good_triple, short, packed48. intros (B0 & B1 & B2). cbn zeta.
  change 0xfff with (Z.ones 12). rewrite Z.land_ones by lia.
  rewrite !Z.shiftl_mul_pow2, Z.shiftr_div_pow2 by lia.
  rewrite !lor_mul_pow2_add by lia. rewrite !wrap_small by lia. lia.
Qed.

(** each function moves the state it is given, the structure's or the
    caller's array, to [a X + c] modulo [2^48], with the standard factor and
    constant if none were set, touches no other array, and returns numbers
    taken from the new state [X']: [nrand48] the 31 high bits, [jrand48] the 32
    high bits as a signed number, [erand48] the double [X' / 2^48], built with
    all the fields of the union in range. *)
Theorem rand48_results p s : good_store s ->
  let X' := next48 (factor s) (constant s) (packed48 (load48 p s)) in
  let s' := __drand48_iterate p s in
  __nrand48_r p s = (X' / 2 ^ 17, s') /\
  __jrand48_r p s = (sint 32 (X' / 2 ^ 16), s') /\
  (exists t, __erand48_r p s = (t, X' * 2 ^ 4, s') /\ negative t = 0 /\ exponent t = 1023 /\
     0 <= mantissa0 t < 2 ^ 20 /\ 0 <= mantissa1 t < 2 ^ 32) /\
  0 <= X' * 2 ^ 4 < 2 ^ 52 /\ 0 <= X' / 2 ^ 17 < 2 ^ 31 /\
  packed48 (load48 p s') = X' /\ good_store s' /\ (forall q, q <> p -> load48 q s' = load48 q s).
Proof.
  intros G X' s'. destruct (iterate_step p s G) as (E & Gv & G' & _ & _ & L). fold s' in E, Gv, G', L.
  change (packed48 (load48 p s') = X') in E. assert (B : 0 <= X' < 2 ^ 48) by apply next48_bounds.
  unfold __nrand48_r, __jrand48_r, __erand48_r. fold s'.
  destruct (load48 p s') as [[v0 v1] v2] eqn:Ev. rewrite (high31 v0 v1 v2), (high32 v0 v1 v2), E by done.
  destruct (mantissa_bits v0 v1 v2 Gv) as (M0 & M1 & M2). rewrite E in M2.
  split; [done|]. split; [done|]. split.
  { eexists. split.
    - f_equal. f_equal. unfold units52. cbn [mantissa0 mantissa1]. rewrite M0, M1. lia.
    - cbn [negative exponent mantissa0 mantissa1]. repeat split; apply wrap_bounds; lia. }
  split; [lia|]. split; [lia|]. done.
Qed.

(** [srand48], [seed48] and [lcong48] install the state, the factor and the
    constant they describe: the 32 low bits of the seed above [0x330e]; the
    given array; the given parameters.  [seed48] returns a pointer to the state
    it replaced.  When that very pointer is passed to [seed48] later, the array
    is overwritten before it is read: the state does not change at all,
    instead of going back. *)
Theorem seeding_installs s : good_store s ->
  (forall seed, let s' := __srand48_r seed s in good_store s' /\
     packed48 (d_x (data s')) = (seed mod 2 ^ 32) * 2 ^ 16 + 0x330e /\ factor s' = default_a /\ constant s' = default_c) /\
  (forall x, good_triple x -> let '(old, s') := seed48 Outside (Store48 (data s) x) in good_store s' /\
     d_x (data s') = x /\ load48 old s' = d_x (data s) /\ factor s' = default_a /\ constant s' = default_c) /\
  (forall x a c, good_triple x -> good_triple a -> short c -> let s' := __lcong48_r x a c s in good_store s' /\
     d_x (data s') = x /\ factor s' = packed48 a /\ constant s' = c) /\
  d_x (data (__seed48_r Old_array s)) = d_x (data s).
Proof.
  intros (G1 & G2 & G3 & G4 & G5). unfold good_store in *. split; [|split; [|split; [|done]]].
  - intros seed. cbn. change 0xffffffff with (Z.ones 32). rewrite Z.land_ones by lia. rewrite land_16, Z.shiftr_div_pow2 by lia.
    pose proof (Z.mod_pos_bound seed (2 ^ 32) ltac:(lia)) as B. rewrite !wrap_small by lia.
    unfold good_triple, short, default_c, default_a. cbn. repeat split; try done; lia.
  - intros x Gx. cbn. unfold short, default_c, default_a. cbn. repeat split; try done; lia.
  - intros x a c Gx Ga Gc. unfold __lcong48_r. cbn zeta. rewrite pack_packed by done. cbn.
    pose proof (packed_bounds a Ga). repeat split; done || apply Gc || lia.
Qed.

(** ** The period *)

(** [1 + a + ... + a^(n-1)] *)
Fixpoint geo (a : Z) (n : nat) : Z := match n with O => 0 | S n => 1 + a * geo a n end.

Lemma geo_add a m n : geo a (m + n) = geo a m + a ^ Z.of_nat m * geo a n.
Proof.
  induction m as [|m IH]; [cbn [geo Nat.add]; change (a ^ Z.of_nat 0) with 1; lia|].
  cbn [geo Nat.add]. rewrite IH, Nat2Z.inj_succ, Z.pow_succ_r by lia. lia.
Qed.

(** The states without the modulus. *)
Fixpoint lcg (a c X : Z) (n : nat) : Z := match n with O => X | S n => lcg a c X n * a + c end.

Lemma lcg_geo a c X n : lcg a c X n = X + geo a n * (X * (a - 1) + c).
Proof. induction n as [|n IH]; cbn [lcg geo]; [lia|]. rewrite IH. lia. Qed.

Lemma lcg_add a c X m n : lcg a c X (m + n) = lcg a c (lcg a c X m) n.
Proof. induction n as [|n IH]; [by rewrite Nat.add_0_r|]. rewrite Nat.add_succ_r. cbn [lcg]. by rewrite IH. Qed.

Section Period.
Variable b : Z.
Abbreviation a := (4 * b + 1).

Lemma geo_parity n : exists k, geo a n = Z.of_nat n + 2 * k.
Proof.
  induction n as [|n [k IH]]; [by exists 0|]. cbn [geo]. rewrite IH, Nat2Z.inj_succ.
  exists (2 * b * (Z.of_nat n + 2 * k) + k). lia.
Qed.

Lemma pow_mod4 n : exists k, a ^ Z.of_nat n = 4 * k + 1.
Proof.
  induction n as [|n [k IH]]; [by exists 0|]. rewrite Nat2Z.inj_succ, Z.pow_succ_r, IH by lia. exists (b * (4 * k + 1) + k). lia.
Qed.

Lemma pow2_odd_divide (k : nat) x m : (2 ^ Z.of_nat k | x * (2 * m + 1)) -> (2 ^ Z.of_nat k | x).
Proof.
  revert x. induction k as [|k IH]; intros x [q E]; [by exists x; lia|].
  rewrite Nat2Z.inj_succ, Z.pow_succ_r in * by lia.
  assert (exists y, x = 2 * y) as [y ->] by (exists (q * 2 ^ Z.of_nat k - x * m); lia).
  destruct (IH y) as [r Er]; [exists q; lia|]. exists r. lia.
Qed.

(** The power of two in [geo a n] is that in [n]. *)
Lemma geo_divide (k n : nat) : (2 ^ Z.of_nat k | geo a n) <-> (2 ^ Z.of_nat k | Z.of_nat n).
Proof.
  revert n. induction k as [|k IH]; intros n; [split; intros _; apply Z.divide_1_l|].
  rewrite Nat2Z.inj_succ, Z.pow_succ_r by lia.
  destruct (Nat.Even_or_Odd n) as [[m ->]|[m ->]].
  - destruct (pow_mod4 m) as [j Ej].
    assert (E : geo a (2 * m) = 2 * (geo a m * (2 * j + 1))).
    { replace (2 * m)%nat with (m + m)%nat by lia. rewrite geo_add, Ej. lia. }
    rewrite E, Nat2Z.inj_mul. change (Z.of_nat 2) with 2. rewrite !Z.mul_divide_cancel_l by lia. rewrite <- IH. split.
    + apply pow2_odd_divide.
    + apply Z.divide_mul_l.
  - destruct (geo_parity (2 * m + 1)) as [j Ej]. rewrite Ej. split; intros [q E]; exfalso; lia.
Qed.

(** The state comes back after [n] steps exactly when [2^48] divides [n]. *)
Lemma lcg_period c X n : c mod 2 = 1 -> lcg a c X n mod 2 ^ 48 = X mod 2 ^ 48 <-> (2 ^ 48 | Z.of_nat n).
Proof.
  intros Hc. rewrite <- (geo_divide 48). rewrite lcg_geo.
  assert (exists m, X * (a - 1) + c = 2 * m + 1) as [m ->] by (exists (2 * X * b + c / 2); lia).
  change (2 ^ Z.of_nat 48) with (2 ^ 48). split.
  - intros E. apply (pow2_odd_divide 48 _ m). change (2 ^ Z.of_nat 48) with (2 ^ 48).
    apply Z.mod_divide; [lia|]. lia.
  - intros [q ->]. replace (X + q * 2 ^ 48 * (2 * m + 1)) with (X + (q * (2 * m + 1)) * 2 ^ 48) by lia.
    apply Z.mod_add. lia.
Qed.
End Period.

(** The store after [n] calls with the same array. *)
Definition calls (p : array) (n : nat) (s : store48) : store48 := Nat.iter n (__drand48_iterate p) s.

Lemma calls_lcg p n s : good_store s ->
  packed48 (load48 p (calls p n s)) = lcg (factor s) (constant s) (packed48 (load48 p s)) n mod 2 ^ 48 /\
  good_triple (load48 p (calls p n s)) /\ good_store (calls p n s) /\
  factor (calls p n s) = factor s /\ constant (calls p n s) = constant s.
Proof.
  intros G. unfold calls. induction n as [|n (IH1 & IH2 & IH3 & IH4 & IH5)]; cbn [lcg].
  - change (Nat.iter 0 (__drand48_iterate p) s) with s. assert (Gp : good_triple (load48 p s)) by (destruct G as (? & ? & ? & _); by destruct p).
    pose proof (packed_bounds _ Gp). by rewrite Z.mod_small.
  - destruct (iterate_step p _ IH3) as (E & Gv & G' & Ef & Ec & _).
    change (Nat.iter (S n) (__drand48_iterate p) s) with (__drand48_iterate p (Nat.iter n (__drand48_iterate p) s)).
    rewrite E, Ef, Ec, IH1, IH4, IH5. split; [|done].
    rewrite <- Zplus_mod_idemp_l, Zmult_mod_idemp_l, Zplus_mod_idemp_l. done.
Qed.

(** A function that sends [[0, n)] to itself and separates its elements
    reaches all of them. *)
Lemma inj_surj (n : Z) (f : Z -> Z) : (forall i, 0 <= i < n -> 0 <= f i < n) ->
  (forall i j, 0 <= i < n -> 0 <= j < n -> f i = f j -> i = j) ->
  forall y, 0 <= y < n -> exists i, 0 <= i < n /\ f i = y.
Proof.
  intros Hr Hi y Hy.
  assert (N : NoDup (f <$> seqZ 0 n)).
  { apply NoDup_fmap_2_strong; [|apply NoDup_seqZ]. intros i j Bi%elem_of_seqZ Bj%elem_of_seqZ. apply Hi; lia. }
  assert (P : seqZ 0 n ≡ₚ f <$> seqZ 0 n).
  { symmetry. apply submseteq_length_Permutation; [|by rewrite length_fmap].
    apply NoDup_submseteq; [done|]. intros z (i & -> & Bi%elem_of_seqZ)%list_elem_of_fmap. apply elem_of_seqZ.
    specialize (Hr i ltac:(lia)). lia. }
  assert (In : y ∈ f <$> seqZ 0 n) by (rewrite <- P; apply elem_of_seqZ; lia).
  apply list_elem_of_fmap in In as (i & -> & Bi%elem_of_seqZ). exists i. split; [lia|done].
Qed.

(** C24: the generator has the full period: with a factor that is [1] modulo [4]
    and an odd constant, as the standard ones are, two numbers of calls lead
    to the same state exactly when they are equal modulo [2^48], and every
    state is reached within [2^48] calls. *)
Theorem rand48_full_period p s : good_store s -> factor s mod 4 = 1 -> constant s mod 2 = 1 ->
  (forall i j, load48 p (calls p i s) = load48 p (calls p j s) <-> Z.of_nat i mod 2 ^ 48 = Z.of_nat j mod 2 ^ 48) /\
  (forall x, good_triple x -> exists n, Z.of_nat n < 2 ^ 48 /\ load48 p (calls p n s) = x).
Proof.
  intros G Ha Hc. assert (exists b, factor s = 4 * b + 1) as [b Eb] by (exists (factor s / 4); lia).
  assert (K : forall i n, load48 p (calls p (i + n) s) = load48 p (calls p i s) <-> (2 ^ 48 | Z.of_nat n)).
  { intros i n. destruct (calls_lcg p i s G) as (Ei & Gi & _). destruct (calls_lcg p (i + n) s G) as (Ein & Gin & _).
    rewrite <- (lcg_period b (constant s) (lcg (factor s) (constant s) (packed48 (load48 p s)) i)) by done.
    rewrite <- Eb, <- lcg_add, <- Ein, <- Ei. split; [by intros ->|]. by apply packed_inj. }
  assert (D : forall i j, load48 p (calls p i s) = load48 p (calls p j s) <-> Z.of_nat i mod 2 ^ 48 = Z.of_nat j mod 2 ^ 48).
  { assert (D' : forall i n, load48 p (calls p (i + n) s) = load48 p (calls p i s) <-> Z.of_nat (i + n) mod 2 ^ 48 = Z.of_nat i mod 2 ^ 48).
    { intros i n. rewrite K, Nat2Z.inj_add. split; [intros [q ->]; by rewrite Z.mod_add|].
      intros E. apply Z.mod_divide; [done|]. lia. }
    intros i j. destruct (le_ge_dec i j) as [L|L].
    - replace j with (i + (j - i))%nat by lia. specialize (D' i (j - i)%nat). split; intros E; symmetry; by apply D'.
    - replace i with (j + (i - j))%nat by lia. apply D'. }
  split; [done|]. intros x Gx.
  destruct (inj_surj (2 ^ 48) (fun i => packed48 (load48 p (calls p (Z.to_nat i) s)))) with (y := packed48 x) as (i & Bi & Ei).
  - intros i Bi. apply packed_bounds. by destruct (calls_lcg p (Z.to_nat i) s G) as (_ & ? & _).
  - intros i j Bi Bj E. apply packed_inj in E; [|by destruct (calls_lcg p (Z.to_nat i) s G) as (_ & ? & _)|by destruct (calls_lcg p (Z.to_nat j) s G) as (_ & ? & _)].
    apply D in E. rewrite !Z2Nat.id, !Z.mod_small in E by lia. done.
  - by apply packed_bounds.
  - exists (Z.to_nat i). split; [lia|]. apply packed_inj in Ei; [done| |done]. by destruct (calls_lcg p (Z.to_nat i) s G) as (_ & ? & _).
Qed.

(** ** Witnesses *)

Definition w_store48 : store48 := __srand48_r 42 (Store48 (Drand48 (0, 0, 0) (0, 0, 0) 0 0 0) (1, 2, 3)).

Lemma w_store48_good : good_store w_store48.
Proof. vm_compute. repeat split; discriminate. Qed.

Lemma rand48_results_witness : let X' := next48 default_a default_c 2765582 in
  __nrand48_r X_array w_store48 = (X' / 2 ^ 17, __drand48_iterate X_array w_store48) /\ X' / 2 ^ 17 = 1598855263.
Proof. split; [exact (proj1 (rand48_results X_array w_store48 w_store48_good))|reflexivity]. Defined.

Lemma seeding_witness : d_x (data (__seed48_r Old_array w_store48)) = (0x330e, 42, 0).
Proof. apply (seeding_installs w_store48 w_store48_good). Defined.

Lemma rand48_full_period_witness :
  (exists n, Z.of_nat n < 2 ^ 48 /\ load48 Outside (calls Outside n w_store48) = (7, 7, 7)) /\
  load48 Outside (calls Outside 3 w_store48) <> load48 Outside (calls Outside 8 w_store48).
Proof.
  split.
  - apply (rand48_full_period Outside w_store48 w_store48_good eq_refl eq_refl). vm_compute. repeat split; discriminate.
  - intros E. apply (rand48_full_period Outside w_store48 w_store48_good eq_refl eq_refl) in E. discriminate E.
Defined.
