(* ===== verification/StringWord.v ===== *)
(** * Words of bytes: [string-fza.h], [string-fzb.h], [string-fzc.h],
      [string-fzi.h], [string-shift.h], [string-misc.h], [memcopy.h]

    The string functions look at memory in words of type [op_t].  The model
    has both byte orders and both sizes of [op_t].  [wordm l] is the word
    whose bytes in memory order are [l]; the lemmas say which bytes of a word
    each of the bit tricks finds. *)

From S2P Require Import Prelude CInt.

Class OpT := {
  op_size : nat;
  little_endian : bool;
  op_size_ok : op_size = 4%nat \/ op_size = 8%nat }.

Definition op_le64 : OpT := {| op_size := 8; little_endian := true; op_size_ok := or_intror eq_refl |}.
Definition op_be32 : OpT := {| op_size := 4; little_endian := false; op_size_ok := or_introl eq_refl |}.

(** The number of trailing zero bits. *)
Fixpoint ctz_pos (p : positive) : Z := match p with xO p => 1 + ctz_pos p | _ => 0 end.

Section Code.
Context `{OpT}.

(** [sizeof (op_t)] and its bits. *)
Definition opsiz : Z := Z.of_nat op_size.
Definition bits : Z := 8 * opsiz.

Definition op (x : Z) : Z := wrap bits x.
Definition lnot_op (x : Z) : Z := op (Z.lnot x).

(** [unsigned char c_in] *)
Definition repeat_bytes (c_in : Z) : Z := op ((op (-1) / 0xff) * wrap 8 c_in).

Definition extractbyte (x idx : Z) : Z :=
  if little_endian then wrap 8 (Z.shiftr x (idx * 8)) else wrap 8 (Z.shiftr x ((opsiz - 1 - idx) * 8)).

Definition find_zero_low (x : Z) : Z :=
  let lsb := repeat_bytes 0x01 in
  let msb := repeat_bytes 0x80 in
  Z.land (Z.land (op (x - lsb)) (lnot_op x)) msb.

Definition find_zero_all (x : Z) : Z :=
  let m := repeat_bytes 0x7f in
  lnot_op (Z.lor (Z.lor (op (Z.land x m + m)) x) m).

Definition find_eq_low (x1 x2 : Z) : Z := find_zero_low (Z.lxor x1 x2).
Definition find_eq_all (x1 x2 : Z) : Z := find_zero_all (Z.lxor x1 x2).
Definition find_zero_eq_low (x1 x2 : Z) : Z := Z.lor (find_zero_low x1) (find_zero_low (Z.lxor x1 x2)).
Definition find_zero_eq_all (x1 x2 : Z) : Z := Z.lor (find_zero_all x1) (find_zero_all (Z.lxor x1 x2)).

Definition find_zero_ne_all (x1 x2 : Z) : Z :=
  let m := repeat_bytes 0x7f in
  let eq := Z.lxor x1 x2 in
  let nz1 := Z.lor (op (Z.land x1 m + m)) x1 in
  let ne2 := Z.lor (op (Z.land eq m + m)) eq in
  Z.land (Z.lor ne2 (lnot_op nz1)) (lnot_op m).

Definition has_zero (x : Z) : bool := negb (find_zero_low x =? 0).
Definition has_eq (x1 x2 : Z) : bool := negb (find_eq_low x1 x2 =? 0).
Definition has_zero_eq (x1 x2 : Z) : bool := negb (find_zero_eq_low x1 x2 =? 0).

(** The builtins, not defined for [0]. *)
Definition clz (c : Z) : option Z := if c =? 0 then None else Some (bits - 1 - Z.log2 c).
Definition ctz (c : Z) : option Z := match c with Zpos p => Some (ctz_pos p) | _ => None end.

Definition index_first (c : Z) : option Z :=
  r ← (if little_endian then ctz c else clz c); Some (r / 8).

Definition index_last (c : Z) : option Z :=
  r ← (if little_endian then clz c else ctz c); Some (opsiz - 1 - r / 8).

Definition index_first_zero (x : Z) : option Z :=
  index_first (if little_endian then find_zero_low x else find_zero_all x).
Definition index_first_eq (x1 x2 : Z) : option Z :=
  index_first (if little_endian then find_eq_low x1 x2 else find_eq_all x1 x2).
Definition index_first_zero_eq (x1 x2 : Z) : option Z :=
  index_first (if little_endian then find_zero_eq_low x1 x2 else find_zero_eq_all x1 x2).
Definition index_first_zero_ne (x1 x2 : Z) : option Z := index_first (find_zero_ne_all x1 x2).
Definition index_last_zero (x : Z) : option Z :=
  index_last (if little_endian then find_zero_all x else find_zero_low x).
Definition index_last_eq (x1 x2 : Z) : option Z := index_last_zero (Z.lxor x1 x2).

Definition shift_find (word s : Z) : Z :=
  if little_endian then Z.shiftr word (8 * (s mod opsiz)) else op (Z.shiftl word (8 * (s mod opsiz))).

Definition shift_find_last (word s : Z) : Z :=
  let s := s mod opsiz in
  if s =? 0 then word
  else if little_endian then Z.land word (lnot_op (op (Z.shiftl (op (-1)) (s * 8))))
  else Z.land word (lnot_op (Z.shiftr (op (-1)) (s * 8))).

Definition MERGE (w0 sh_1 w1 sh_2 : Z) : Z :=
  if little_endian then Z.lor (Z.shiftr w0 sh_1) (op (Z.shiftl w1 sh_2))
  else Z.lor (op (Z.shiftl w0 sh_1)) (Z.shiftr w1 sh_2).

(** [PTR_ALIGN_DOWN] and [PTR_ALIGN_UP] *)
Definition align_down (a : Z) : Z := Z.land a (- opsiz).
Definition align_up (a : Z) : Z := align_down (a + opsiz - 1).
End Code.

(** ** Numbers as lists of bytes, the least significant first *)

Definition is_byte (b : Z) : Prop := 0 <= b < 256.

Fixpoint lev (l : list Z) : Z :=
  match l with
  | [] => 0
  | b :: l => b + 256 * lev l
  end.

Lemma pow256_S n : 256 ^ Z.of_nat (S n) = 256 * 256 ^ Z.of_nat n.
Proof. rewrite Nat2Z.inj_succ. apply Z.pow_succ_r. lia. Qed.

Lemma pow256_bits n : 2 ^ (8 * Z.of_nat n) = 256 ^ Z.of_nat n.
Proof. by rewrite Z.pow_mul_r by lia. Qed.

Lemma lev_bounds l : Forall is_byte l -> 0 <= lev l < 256 ^ Z.of_nat (length l).
Proof.
  induction 1 as [|b l Hb F IH]; [done|]. cbn [lev length]. rewrite pow256_S. unfold is_byte in Hb. lia.
Qed.

Lemma lev_app l k : lev (l ++ k) = lev l + 256 ^ Z.of_nat (length l) * lev k.
Proof. induction l as [|b l IH]; cbn [lev app length]; [change (256 ^ Z.of_nat 0) with 1; lia|]. rewrite pow256_S, IH. lia. Qed.

Lemma lev_zeros n : lev (replicate n 0) = 0.
Proof. induction n as [|n IH]; [done|]. cbn. rewrite IH. done. Qed.

Lemma lev_inj l k : Forall is_byte l -> Forall is_byte k -> length l = length k -> lev l = lev k -> l = k.
Proof.
  intros Fl. revert k. induction Fl as [|b l Hb Fl IH]; intros [|c k] Fk L E; try done.
  apply list.Forall_cons in Fk as [Hc Fk]. cbn [lev] in E. unfold is_byte in *. assert (b = c) as <- by lia.
  f_equal. apply IH; [done|by injection L|lia].
Qed.

(** A bit operation works on each byte. *)
Lemma split_byte b x : is_byte b -> b + 256 * x = Z.lor (Z.shiftl x 8) b.
Proof. intros Hb. rewrite Z.shiftl_mul_pow2 by lia. rewrite lor_mul_pow2_add by (unfold is_byte in Hb; lia). lia. Qed.

Lemma testbit_byte b x i : is_byte b -> 0 <= i -> Z.testbit (b + 256 * x) i = if i <? 8 then Z.testbit b i else Z.testbit x (i - 8).
Proof.
  intros Hb Hi. rewrite split_byte by done. rewrite Z.lor_spec, Z.shiftl_spec by done.
  destruct (Z.ltb_spec i 8).
  - by rewrite (Z.testbit_neg_r x) by lia.
  - assert (Z.testbit b i = false) as ->; [|by rewrite orb_false_r].
    destruct (Z.eq_dec b 0) as [->|]; [apply Z.bits_0|]. apply Z.bits_above_log2; [unfold is_byte in Hb; lia|].
    assert (Z.log2 b < 8) by (apply Z.log2_lt_pow2; unfold is_byte in Hb; lia). lia.
Qed.

Section Bytewise.
Variables (f : Z -> Z -> Z) (fb : bool -> bool -> bool).
Hypothesis f_spec : forall x y i, 0 <= i -> Z.testbit (f x y) i = fb (Z.testbit x i) (Z.testbit y i).
Hypothesis f_byte : forall x y, is_byte x -> is_byte y -> is_byte (f x y).

Lemma bytewise_cons b c x y : is_byte b -> is_byte c -> f (b + 256 * x) (c + 256 * y) = f b c + 256 * f x y.
Proof.
  intros Hb Hc. apply Z.bits_inj'. intros i Hi. rewrite f_spec, !testbit_byte by auto.
  destruct (Z.ltb_spec i 8); by rewrite f_spec by lia.
Qed.
End Bytewise.

Lemma is_byte_bits x : (forall i, 8 <= i -> Z.testbit x i = false) -> 0 <= x -> is_byte x.
Proof.
  intros Hh Hx. split; [done|]. destruct (Z.eq_dec x 0) as [->|]; [lia|]. change 256 with (2 ^ 8). apply Z.log2_lt_pow2; [lia|].
  destruct (Z.lt_ge_cases (Z.log2 x) 8) as [|G]; [done|]. specialize (Hh _ G). rewrite Z.bit_log2 in Hh by lia. done.
Qed.

Lemma byte_high b i : is_byte b -> 8 <= i -> Z.testbit b i = false.
Proof.
  intros Hb Hi. destruct (Z.eq_dec b 0) as [->|]; [apply Z.bits_0|]. apply Z.bits_above_log2; [unfold is_byte in Hb; lia|].
  assert (Z.log2 b < 8) by (apply Z.log2_lt_pow2; unfold is_byte in Hb; lia). lia.
Qed.

Lemma land_byte x y : is_byte x -> is_byte y -> is_byte (Z.land x y).
Proof.
  intros Hx Hy. apply is_byte_bits.
  - intros i Hi. by rewrite Z.land_spec, byte_high.
  - apply Z.land_nonneg. left. unfold is_byte in Hx. lia.
Qed.
Lemma lor_byte x y : is_byte x -> is_byte y -> is_byte (Z.lor x y).
Proof.
  intros Hx Hy. apply is_byte_bits.
  - intros i Hi. by rewrite Z.lor_spec, !byte_high.
  - apply Z.lor_nonneg. unfold is_byte in *. lia.
Qed.
Lemma lxor_byte x y : is_byte x -> is_byte y -> is_byte (Z.lxor x y).
Proof.
  intros Hx Hy. apply is_byte_bits.
  - intros i Hi. by rewrite Z.lxor_spec, !byte_high.
  - apply Z.lxor_nonneg. unfold is_byte in *. lia.
Qed.

Lemma land_cons b c x y : is_byte b -> is_byte c -> Z.land (b + 256 * x) (c + 256 * y) = Z.land b c + 256 * Z.land x y.
Proof. apply (bytewise_cons Z.land andb); [intros; apply Z.land_spec|apply land_byte]. Qed.
Lemma lor_cons b c x y : is_byte b -> is_byte c -> Z.lor (b + 256 * x) (c + 256 * y) = Z.lor b c + 256 * Z.lor x y.
Proof. apply (bytewise_cons Z.lor orb); [intros; apply Z.lor_spec|apply lor_byte]. Qed.
Lemma lxor_cons b c x y : is_byte b -> is_byte c -> Z.lxor (b + 256 * x) (c + 256 * y) = Z.lxor b c + 256 * Z.lxor x y.
Proof. apply (bytewise_cons Z.lxor xorb); [intros; apply Z.lxor_spec|apply lxor_byte]. Qed.

Lemma zip_lev (f : Z -> Z -> Z) l k : f 0 0 = 0 ->
  (forall b c x y, is_byte b -> is_byte c -> f (b + 256 * x) (c + 256 * y) = f b c + 256 * f x y) ->
  Forall is_byte l -> Forall is_byte k -> length l = length k -> f (lev l) (lev k) = lev (zip_with f l k).
Proof.
  intros H0 Hc Fl. revert k. induction Fl as [|b l Hb Fl IH]; intros [|c k] Fk L; try done.
  apply list.Forall_cons in Fk as [Hbc Fk]. cbn [lev zip_with]. rewrite Hc by done. rewrite IH; [done|done|by injection L].
Qed.

Lemma lxor_lev l k : Forall is_byte l -> Forall is_byte k -> length l = length k -> Z.lxor (lev l) (lev k) = lev (zip_with Z.lxor l k).
Proof. apply zip_lev; [done|apply lxor_cons]. Qed.
Lemma lor_lev l k : Forall is_byte l -> Forall is_byte k -> length l = length k -> Z.lor (lev l) (lev k) = lev (zip_with Z.lor l k).
Proof. apply zip_lev; [done|apply lor_cons]. Qed.
Lemma land_lev l k : Forall is_byte l -> Forall is_byte k -> length l = length k -> Z.land (lev l) (lev k) = lev (zip_with Z.land l k).
Proof. apply zip_lev; [done|apply land_cons]. Qed.

(** The complement of a word. *)
Lemma lnot_lev l : Forall is_byte l -> Z.lnot (lev l) mod 256 ^ Z.of_nat (length l) = lev (map (fun b => 255 - b) l).
Proof.
  intros F. assert (E : lev l + lev (map (fun b => 255 - b) l) = 256 ^ Z.of_nat (length l) - 1).
  { clear F. induction l as [|b l IH]; [done|]. cbn [lev map length]. rewrite pow256_S. lia. }
  assert (F' : Forall is_byte (map (fun b => 255 - b) l)).
  { clear E. induction F; cbn [map]; constructor; [unfold is_byte in *; lia|done]. }
  pose proof (lev_bounds _ F') as B. rewrite length_map in B.
  unfold Z.lnot. replace (Z.pred (- lev l)) with (lev (map (fun b => 255 - b) l) + (-1) * 256 ^ Z.of_nat (length l)) by lia.
  rewrite Z.mod_add by lia. by apply Z.mod_small.
Qed.

(** Adding without carries, and every number below [256^n] as bytes. *)
Lemma add_lev l k : length l = length k -> lev l + lev k = lev (zip_with Z.add l k).
Proof. revert k. induction l as [|b l IH]; intros [|c k] L; try done. cbn [lev zip_with]. injection L as L. rewrite <- IH by done. lia. Qed.

Lemma lev_surj n x : 0 <= x < 256 ^ Z.of_nat n -> exists l, length l = n /\ Forall is_byte l /\ x = lev l.
Proof.
  revert x. induction n as [|n IH]; intros x B.
  { exists []. change (256 ^ Z.of_nat 0) with 1 in B. cbn. split; [done|]. split; [constructor|lia]. }
  rewrite pow256_S in B. destruct (IH (x / 256)) as (l & L & F & E); [pose proof (Z.div_mod x 256); pose proof (Z.mod_pos_bound x 256); nia|].
  exists (x mod 256 :: l). split; [cbn; lia|]. split; [constructor; [unfold is_byte; pose proof (Z.mod_pos_bound x 256); lia|done]|].
  cbn [lev]. rewrite <- E. pose proof (Z.div_mod x 256). lia.
Qed.

Definition zmask (b : Z) : Z := if b =? 0 then 128 else 0.

Lemma zmask_byte b : is_byte (zmask b).
Proof. unfold zmask, is_byte. destruct (b =? 0); lia. Qed.

(** What holds of every byte can be checked. *)
Lemma byte_forall (P : Z -> bool) : forallb P (seqZ 0 256) = true -> forall b, is_byte b -> P b = true.
Proof.
  intros E b Hb. rewrite forallb_forall in E. apply E. apply list_elem_of_In, elem_of_seqZ. unfold is_byte in Hb. lia.
Qed.

Lemma zero_all_byte b : is_byte b -> 255 - Z.lor (Z.lor (Z.land b 127 + 127) b) 127 = zmask b.
Proof.
  intros Hb. apply Z.eqb_eq.
  by apply (byte_forall (fun b => 255 - Z.lor (Z.lor (Z.land b 127 + 127) b) 127 =? zmask b)); [vm_compute|].
Qed.

Lemma add127_byte b : is_byte b -> is_byte (Z.land b 127 + 127).
Proof.
  intros Hb. assert (E : (Z.land b 127 <=? 127) = true); [|pose proof (land_byte b 127 Hb ltac:(unfold is_byte; lia)); unfold is_byte in *; lia].
  by apply (byte_forall (fun b => Z.land b 127 <=? 127)); [vm_compute|].
Qed.

Lemma Forall_bytes_map (f : Z -> Z) l : (forall b, is_byte b -> is_byte (f b)) -> Forall is_byte l -> Forall is_byte (map f l).
Proof. intros Hf F. induction F; cbn [map]; constructor; auto. Qed.

Lemma Forall_bytes_zip (f : Z -> Z -> Z) l k : (forall b c, is_byte b -> is_byte c -> is_byte (f b c)) ->
  Forall is_byte l -> Forall is_byte k -> Forall is_byte (zip_with f l k).
Proof. intros Hf F. revert k. induction F; intros [|c k] Fk; cbn [zip_with]; try constructor; apply list.Forall_cons in Fk as []; auto. Qed.

Lemma replicate_bytes n c : is_byte c -> Forall is_byte (replicate n c).
Proof. intros Hc. induction n; cbn; by constructor. Qed.

Lemma zip_replicate (f : Z -> Z -> Z) l n c : length l = n -> zip_with f l (replicate n c) = map (fun b => f b c) l.
Proof. intros <-. induction l as [|b l IH]; [done|]. cbn. by rewrite IH. Qed.

Lemma zip_map2 (f : Z -> Z -> Z) (g h : Z -> Z) l : zip_with f (map g l) (map h l) = map (fun b => f (g b) (h b)) l.
Proof. induction l as [|b l IH]; [done|]. cbn. by rewrite IH. Qed.

(** The exact mask of the zero bytes. *)
Lemma zero_all_lev l n : Forall is_byte l -> length l = n -> let m := lev (replicate n 127) in
  Z.lnot (Z.lor (Z.lor ((Z.land (lev l) m + m) mod 256 ^ Z.of_nat n) (lev l)) m) mod 256 ^ Z.of_nat n = lev (map zmask l).
Proof.
  intros F <-. cbn zeta. set (n := length l).
  assert (F1 : Forall is_byte (replicate n 127)) by (apply replicate_bytes; unfold is_byte; lia).
  rewrite land_lev, zip_replicate by (done || by rewrite length_replicate).
  rewrite add_lev, zip_replicate by (by rewrite ?length_replicate, length_map). rewrite map_map.
  set (l2 := map (fun b => Z.land b 127 + 127) l).
  assert (F2 : Forall is_byte l2) by (apply Forall_bytes_map; [apply add127_byte|done]).
  assert (L2 : length l2 = n) by (unfold l2; by rewrite length_map).
  pose proof (lev_bounds l2 F2) as B. rewrite L2 in B. rewrite (Z.mod_small (lev l2)) by done.
  rewrite lor_lev by (done || (unfold l2; by rewrite length_map)). unfold l2. rewrite <- (map_id l) at 2. rewrite zip_map2. cbn [id].
  assert (F3 : Forall is_byte (map (fun b => Z.lor (Z.land b 127 + 127) b) l)).
  { apply Forall_bytes_map; [|done]. intros b Hb. apply lor_byte; [by apply add127_byte|done]. }
  rewrite lor_lev, zip_replicate by (done || by rewrite ?length_replicate, length_map). rewrite map_map.
  assert (F4 : Forall is_byte (map (fun b => Z.lor (Z.lor (Z.land b 127 + 127) b) 127) l)).
  { apply Forall_bytes_map; [|done]. intros b Hb. apply lor_byte; [|unfold is_byte; lia]. apply lor_byte; [by apply add127_byte|done]. }
  pose proof (lnot_lev _ F4) as E. rewrite length_map in E. fold n in E. rewrite E, map_map. f_equal.
  clear -F. induction F as [|b l Hb F IH]; [done|]. cbn [map]. by rewrite zero_all_byte, IH.
Qed.
