(* ===== verification/StringFind.v ===== *)
(** * What the bit tricks find

    The masks of [StringWord] in memory order: which byte of a word is found
    first or last. *)

From S2P Require Import Prelude CInt StringWord.

(** The word of a subtraction that does not look at carries: right up to the
    first zero byte. *)
Definition zero_low (n : nat) (l : list Z) : Z :=
  Z.land (Z.land ((lev l - lev (replicate n 1)) mod 256 ^ Z.of_nat n) (lev (map (fun b => 255 - b) l))) (lev (replicate n 128)).

Lemma mod_cons b x n : is_byte b -> (b + 256 * x) mod (256 * 256 ^ Z.of_nat n) = b + 256 * (x mod 256 ^ Z.of_nat n).
Proof.
  intros Hb. unfold is_byte in Hb. rewrite Z.rem_mul_r by lia.
  replace (b + 256 * x) with (b + x * 256) by lia. rewrite Z.mod_add, Z.mod_small, Z.div_add, Z.div_small, Z.add_0_l by lia. done.
Qed.

Lemma nonzero_low_byte b : is_byte b -> b <> 0 -> Z.land (Z.land (b - 1) (255 - b)) 128 = 0.
Proof.
  intros Hb Hz. apply Z.eqb_eq.
  assert (E : (b =? 0) || (Z.land (Z.land (b - 1) (255 - b)) 128 =? 0) = true).
  { by apply (byte_forall (fun b => (b =? 0) || (Z.land (Z.land (b - 1) (255 - b)) 128 =? 0))); [vm_compute|]. }
  by rewrite (proj2 (Z.eqb_neq b 0) Hz) in E.
Qed.

Lemma zero_low_cons n b l : is_byte b -> b <> 0 -> zero_low (S n) (b :: l) = 256 * zero_low n l.
Proof.
  intros Hb Hz. unfold zero_low. cbn [replicate lev map]. rewrite pow256_S.
  replace (b + 256 * lev l - (1 + 256 * lev (replicate n 1))) with ((b - 1) + 256 * (lev l - lev (replicate n 1))) by lia.
  assert (is_byte (b - 1)) by (unfold is_byte in *; lia). assert (is_byte (255 - b)) by (unfold is_byte in *; lia).
  rewrite mod_cons, land_cons, land_cons; [|apply land_byte|..]; try done. by rewrite nonzero_low_byte.
Qed.

Lemma zero_low_none l : Forall is_byte l -> 0 ∉ l -> zero_low (length l) l = 0.
Proof.
  induction 1 as [|b l Hb F IH]; intros Hz; [done|]. apply not_elem_of_cons in Hz as [Hb0 Hz].
  cbn [length]. rewrite zero_low_cons by (done || congruence). by rewrite IH.
Qed.

(** The bytes of a word masked twice. *)
Lemma land3_bytes y l n c : 0 <= y < 256 ^ Z.of_nat n -> Forall is_byte l -> length l = n -> is_byte c ->
  exists k, length k = n /\ Forall is_byte k /\ Z.land (Z.land y (lev l)) (lev (replicate n c)) = lev k.
Proof.
  intros By F L Hc. destruct (lev_surj n y By) as (ly & Ly & Fy & ->).
  rewrite land_lev by (done || congruence).
  assert (L1 : length (zip_with Z.land ly l) = n) by (rewrite length_zip_with; lia).
  assert (F1 : Forall is_byte (zip_with Z.land ly l)) by (by apply Forall_bytes_zip; [apply land_byte|..]).
  rewrite land_lev; [|done|by apply replicate_bytes|by rewrite length_replicate].
  eexists. split; [|split; [|reflexivity]].
  - rewrite length_zip_with, length_replicate. lia.
  - apply Forall_bytes_zip; [apply land_byte|done|by apply replicate_bytes].
Qed.

Lemma zero_low_bytes l : Forall is_byte l -> exists k, length k = length l /\ Forall is_byte k /\ zero_low (length l) l = lev k.
Proof.
  intros F. apply land3_bytes; [apply Z.mod_pos_bound; lia|apply Forall_bytes_map; [unfold is_byte; lia|done]|apply length_map|unfold is_byte; lia].
Qed.

Lemma zero_low_found pre post : Forall is_byte pre -> 0 ∉ pre -> Forall is_byte post ->
  exists junk, Forall is_byte junk /\ length junk = length post /\
    zero_low (length (pre ++ 0 :: post)) (pre ++ 0 :: post) = lev (replicate (length pre) 0 ++ 128 :: junk).
Proof.
  induction 1 as [|b pre Hb F IH]; intros Hz Fp.
  - cbn [app length replicate]. unfold zero_low. cbn [replicate lev map]. rewrite pow256_S. set (n := length post).
    replace (0 + 256 * lev post - (1 + 256 * lev (replicate n 1))) with (255 + 256 * (lev post - lev (replicate n 1) - 1)) by lia.
    rewrite mod_cons, land_cons, land_cons by (try apply land_byte; unfold is_byte; lia).
    destruct (land3_bytes ((lev post - lev (replicate n 1) - 1) mod 256 ^ Z.of_nat n) (map (fun b => 255 - b) post) n 128)
      as (k & Lk & Fk & ->); [apply Z.mod_pos_bound; lia|apply Forall_bytes_map; [unfold is_byte; lia|done]|apply length_map|unfold is_byte; lia|].
    by exists k.
  - apply not_elem_of_cons in Hz as [Hb0 Hz]. destruct (IH Hz Fp) as (junk & Fj & Lj & E).
    exists junk. split; [done|]. split; [done|]. cbn [app length replicate lev]. rewrite zero_low_cons by (done || congruence).
    rewrite E. lia.
Qed.

(** ** Trailing and leading zeros *)

Lemma ctz_pos_spec p : exists q, Zpos p = 2 ^ ctz_pos p * (2 * q + 1) /\ 0 <= ctz_pos p.
Proof.
  induction p as [p IH|p [q [E Hc]]|]; cbn [ctz_pos].
  - exists (Zpos p). change (2 ^ 0) with 1. split; lia.
  - exists q. rewrite Z.pow_add_r by lia. change (2 ^ 1) with 2. split; lia.
  - by exists 0.
Qed.

(** The factors of two are determined. *)
Lemma two_factor t q s r : 0 <= t -> 0 <= s -> 2 ^ t * (2 * q + 1) = 2 ^ s * r -> s <= t.
Proof.
  intros Ht Hs E. destruct (Z.le_gt_cases s t) as [|G]; [done|]. exfalso.
  replace s with (t + 1 + (s - t - 1)) in E by lia. rewrite !Z.pow_add_r in E by lia. change (2 ^ 1) with 2 in E.
  assert (0 < 2 ^ t) by (apply Z.pow_pos_nonneg; lia).
  assert (2 * q + 1 = 2 * (2 ^ (s - t - 1) * r)) by (apply (Z.mul_reg_l _ _ (2 ^ t)); lia). lia.
Qed.

Lemma lev_pos_app i b r : is_byte b -> b <> 0 -> Forall is_byte r -> 
  lev (replicate i 0 ++ b :: r) = 2 ^ (8 * Z.of_nat i) * (b + 256 * lev r) /\ 0 < lev (replicate i 0 ++ b :: r).
Proof.
  intros Hb Hz F. rewrite lev_app, lev_zeros, length_replicate, pow256_bits. cbn [lev]. pose proof (lev_bounds r F).
  assert (0 < 256 ^ Z.of_nat i) by (apply Z.pow_pos_nonneg; lia). unfold is_byte in Hb. split; [lia|]. nia.
Qed.

Section Find.
Context `{OpT}.

Lemma opsiz_pos : 0 < opsiz.
Proof. unfold opsiz. destruct op_size_ok as [->| ->]; lia. Qed.

Lemma opsiz_le : opsiz <= 8.
Proof. unfold opsiz. destruct op_size_ok as [->| ->]; lia. Qed.

Lemma op_mod x : op x = x mod 256 ^ Z.of_nat op_size.
Proof. unfold op, wrap, bits, opsiz. by rewrite pow256_bits. Qed.

Lemma repeat_one : op (-1) / 0xff = lev (replicate op_size 1).
Proof. unfold op, wrap, bits, opsiz. by destruct op_size_ok as [E|E]; rewrite E. Qed.

Lemma lev_repeat n c : lev (replicate n 1) * c = lev (replicate n c).
Proof. induction n as [|n IH]; [done|]. cbn [replicate lev]. rewrite <- IH. lia. Qed.

Lemma repeat_bytes_lev c : is_byte c -> repeat_bytes c = lev (replicate op_size c).
Proof.
  intros Hc. unfold repeat_bytes. rewrite wrap_small by (unfold is_byte in Hc; lia).
  rewrite repeat_one, lev_repeat, op_mod. pose proof (lev_bounds _ (replicate_bytes op_size c Hc)) as B.
  rewrite length_replicate in B. by apply Z.mod_small.
Qed.

(** The word with the bytes [l] in memory. *)
Definition wordm (l : list Z) : Z := lev (if little_endian then l else rev l).

Definition is_word (l : list Z) : Prop := Forall is_byte l /\ length l = op_size.

Lemma rev_bytes l : Forall is_byte l -> Forall is_byte (rev l).
Proof.
  intros F. apply list.Forall_forall. intros b Hb. apply list_elem_of_In, in_rev, list_elem_of_In in Hb.
  by apply (proj1 (list.Forall_forall _ _) F).
Qed.

Lemma rev_zip (f : Z -> Z -> Z) l k : length l = length k -> rev (zip_with f l k) = zip_with f (rev l) (rev k).
Proof.
  revert k. induction l as [|b l IH]; intros [|c k] L; try done. injection L as L. cbn [zip_with rev].
  rewrite IH by done. rewrite zip_with_app by (by rewrite !length_rev). done.
Qed.

Lemma zip_wordm (f : Z -> Z -> Z) l k :
  (forall l k, Forall is_byte l -> Forall is_byte k -> length l = length k -> f (lev l) (lev k) = lev (zip_with f l k)) ->
  is_word l -> is_word k -> f (wordm l) (wordm k) = wordm (zip_with f l k).
Proof.
  intros Hf [Fl Ll] [Fk Lk]. unfold wordm. destruct little_endian; [apply Hf; (done || congruence)|].
  rewrite rev_zip by congruence. apply Hf; [by apply rev_bytes..|]. rewrite !length_rev. congruence.
Qed.

Lemma zip_word (f : Z -> Z -> Z) l k : (forall b c, is_byte b -> is_byte c -> is_byte (f b c)) ->
  is_word l -> is_word k -> is_word (zip_with f l k).
Proof. intros Hf [Fl Ll] [Fk Lk]. split; [by apply Forall_bytes_zip|]. rewrite length_zip_with. lia. Qed.

Lemma map_word (f : Z -> Z) l : (forall b, is_byte b -> is_byte (f b)) -> is_word l -> is_word (map f l).
Proof. intros Hf [Fl Ll]. split; [by apply Forall_bytes_map|]. by rewrite length_map. Qed.

Lemma wordm_inj l k : is_word l -> is_word k -> wordm l = wordm k -> l = k.
Proof.
  intros [Fl Ll] [Fk Lk]. unfold wordm. destruct little_endian; [apply lev_inj; (done || congruence)|].
  intros E. apply lev_inj in E; [|by apply rev_bytes..|rewrite !length_rev; congruence].
  rewrite <- (rev_involutive l), E. apply rev_involutive.
Qed.

Lemma repeat_wordm c : is_byte c -> repeat_bytes c = wordm (replicate op_size c) /\ is_word (replicate op_size c).
Proof.
  intros Hc. split; [|split; [by apply replicate_bytes|apply length_replicate]]. unfold wordm. rewrite repeat_bytes_lev by done.
  destruct little_endian; [done|]. f_equal. induction op_size as [|n IH]; [done|]. cbn [replicate rev]. rewrite <- IH.
  clear. induction n as [|n IH]; [done|]. cbn. by rewrite <- IH.
Qed.

(** ** Positions *)

Lemma rev_zeros n : rev (replicate n 0) = replicate n 0.
Proof. induction n as [|n IH]; [done|]. cbn [replicate rev]. rewrite IH. clear. induction n as [|n IH]; [done|]. cbn. by rewrite IH. Qed.

Lemma ctz_lev i b r : is_byte b -> b <> 0 -> Forall is_byte r ->
  exists t, ctz (lev (replicate i 0 ++ b :: r)) = Some t /\ t / 8 = Z.of_nat i.
Proof.
  intros Hb Hz F. destruct (lev_pos_app i b r Hb Hz F) as [E P]. set (c := lev (replicate i 0 ++ b :: r)) in *.
  destruct c as [|p|p]; [lia| |lia]. cbn [ctz]. exists (ctz_pos p). split; [done|].
  destruct (ctz_pos_spec p) as (q & Ep & Ht). rewrite Ep in E. clear P Ep.
  pose proof (two_factor _ q (8 * Z.of_nat i) _ Ht ltac:(lia) E) as L1.
  assert (L2 : ctz_pos p < 8 * Z.of_nat i + 8).
  { destruct (Z.lt_ge_cases (ctz_pos p) (8 * Z.of_nat i + 8)) as [|G]; [done|]. exfalso.
    replace (ctz_pos p) with (8 * Z.of_nat i + (8 + (ctz_pos p - 8 * Z.of_nat i - 8))) in E by lia.
    rewrite (Z.pow_add_r 2 (8 * Z.of_nat i)), (Z.pow_add_r 2 8) in E by lia. change (2 ^ 8) with 256 in E.
    rewrite <- Z.mul_assoc in E. apply Z.mul_reg_l in E; [|assert (0 < 2 ^ (8 * Z.of_nat i)) by (apply Z.pow_pos_nonneg; lia); lia].
    unfold is_byte in Hb. lia. }
  symmetry. apply (Z.div_unique _ _ _ (ctz_pos p - 8 * Z.of_nat i)); lia.
Qed.

Lemma clz_lev r b i : is_byte b -> b <> 0 -> Forall is_byte r -> (length r + 1 + i = op_size)%nat ->
  exists t, clz (lev (r ++ b :: replicate i 0)) = Some t /\ t / 8 = Z.of_nat i.
Proof.
  intros Hb Hz F L. rewrite lev_app. cbn [lev]. rewrite lev_zeros.
  pose proof (lev_bounds r F) as B. set (n := Z.of_nat (length r)) in *.
  assert (P : 0 < 256 ^ n) by (apply Z.pow_pos_nonneg; lia). unfold is_byte in Hb.
  set (c := lev r + 256 ^ n * (b + 256 * 0)). assert (256 ^ n <= c < 256 ^ (n + 1)).
  { unfold c. rewrite Z.pow_add_r by lia. change (256 ^ 1) with 256. nia. }
  assert (8 * n <= Z.log2 c).
  { apply Z.log2_le_pow2; [lia|]. rewrite Z.pow_mul_r by lia. change (2 ^ 8) with 256. lia. }
  assert (Z.log2 c < 8 * n + 8).
  { apply Z.log2_lt_pow2; [lia|]. replace (8 * n + 8) with (8 * (n + 1)) by lia. rewrite Z.pow_mul_r by lia. change (2 ^ 8) with 256. lia. }
  unfold clz. rewrite (proj2 (Z.eqb_neq c 0)) by lia. eexists. split; [reflexivity|].
  unfold bits, opsiz. symmetry. apply (Z.div_unique _ _ _ (8 * n + 7 - Z.log2 c)); lia.
Qed.

Lemma index_first_spec i b r : is_byte b -> b <> 0 -> is_word (replicate i 0 ++ b :: r) ->
  index_first (wordm (replicate i 0 ++ b :: r)) = Some (Z.of_nat i).
Proof.
  intros Hb Hz [F L]. rewrite length_app, length_replicate in L. cbn [length] in L.
  apply Forall_app in F as [_ [_ F]%list.Forall_cons]. unfold index_first, wordm. destruct little_endian.
  - destruct (ctz_lev i b r Hb Hz F) as (t & -> & <-). done.
  - rewrite rev_app_distr. cbn [rev]. rewrite rev_zeros, <- app_assoc. cbn [app].
    destruct (clz_lev (rev r) b i Hb Hz) as (t & -> & <-); [by apply rev_bytes|rewrite length_rev; lia|]. done.
Qed.

Lemma index_last_spec i b r : is_byte b -> b <> 0 -> is_word (r ++ b :: replicate i 0) ->
  index_last (wordm (r ++ b :: replicate i 0)) = Some (Z.of_nat (length r)).
Proof.
  intros Hb Hz [F L]. rewrite length_app in L. cbn [length] in L. rewrite length_replicate in L.
  apply Forall_app in F as [F _]. unfold index_last, wordm. destruct little_endian.
  - destruct (clz_lev r b i Hb Hz F) as (t & -> & E); [lia|]. cbn. rewrite E. f_equal. unfold opsiz. lia.
  - rewrite rev_app_distr. cbn [rev]. rewrite rev_zeros, <- app_assoc. cbn [app].
    destruct (ctz_lev i b (rev r) Hb Hz) as (t & -> & E); [by apply rev_bytes|]. cbn. rewrite E. f_equal. unfold opsiz. lia.
Qed.

(** ** Masks *)

Lemma lnot_wordm x l : x = wordm l -> is_word l -> lnot_op x = wordm (map (fun b => 255 - b) l).
Proof.
  intros -> [F L]. unfold lnot_op. rewrite op_mod, <- L. unfold wordm. destruct little_endian; [by apply lnot_lev|].
  rewrite <- map_rev. rewrite <- (length_rev l). apply lnot_lev. by apply rev_bytes.
Qed.

Lemma find_zero_all_wordm l : is_word l -> find_zero_all (wordm l) = wordm (map zmask l).
Proof.
  intros [F L]. unfold find_zero_all, lnot_op. rewrite !op_mod, repeat_bytes_lev by (unfold is_byte; lia).
  unfold wordm. destruct little_endian; [by apply zero_all_lev|]. rewrite <- map_rev. apply zero_all_lev; [by apply rev_bytes|].
  by rewrite length_rev.
Qed.

Lemma find_zero_low_lev l : is_word l -> find_zero_low (wordm l) = zero_low op_size (if little_endian then l else rev l).
Proof.
  intros [F L]. unfold find_zero_low, lnot_op, zero_low. rewrite !op_mod, !repeat_bytes_lev by (unfold is_byte; lia).
  unfold wordm. destruct little_endian.
  - by rewrite <- L, lnot_lev.
  - rewrite <- (lnot_lev (rev l)) by (by apply rev_bytes). by rewrite length_rev, L.
Qed.

(** Up to the first zero byte the other mask is the same. *)
Lemma zero_low_upto pre b post : Forall is_byte (pre ++ b :: post) -> 0 ∉ pre ->
  exists junk, Forall is_byte junk /\ length junk = length post /\
    zero_low (length (pre ++ b :: post)) (pre ++ b :: post) = lev (replicate (length pre) 0 ++ zmask b :: junk).
Proof.
  intros [F1 [Hb F2]%list.Forall_cons]%Forall_app Hz. destruct (Z.eq_dec b 0) as [->|Nz].
  { by apply zero_low_found. }
  unfold zmask. rewrite (proj2 (Z.eqb_neq b 0)) by done. induction F1 as [|c pre Hc F1 IH]; cbn [app length replicate lev].
  - rewrite zero_low_cons by done.
    destruct (zero_low_bytes post F2) as (k & Lk & Fk & ->).
    exists k. done.
  - apply not_elem_of_cons in Hz as [Hc0 Hz]. destruct (IH Hz) as (junk & Fj & Lj & E).
    exists junk. split; [done|]. split; [done|]. rewrite zero_low_cons by (done || congruence). rewrite E. cbn [lev]. lia.
Qed.

(** The test for a zero byte. *)
Lemma has_zero_spec l : is_word l -> has_zero (wordm l) = bool_decide (0 ∈ l).
Proof.
  intros [F L]. unfold has_zero. rewrite find_zero_low_lev by done. set (k := if little_endian then l else rev l).
  assert (Fk : Forall is_byte k) by (unfold k; destruct little_endian; [done|by apply rev_bytes]).
  assert (Lk : length k = op_size) by (unfold k; destruct little_endian; [done|by rewrite length_rev]).
  assert (Ik : 0 ∈ l <-> 0 ∈ k).
  { unfold k. destruct little_endian; [done|]. by rewrite !list_elem_of_In, <- in_rev. }
  rewrite (bool_decide_ext _ _ Ik), <- Lk. case_bool_decide as D.
  - apply list_elem_of_split_l in D as (pre & post & -> & Hz).
    apply Forall_app in Fk as [F1 [_ F2]%list.Forall_cons]. destruct (zero_low_found pre post F1 Hz F2) as (junk & Fj & _ & ->).
    destruct (lev_pos_app (length pre) 128 junk) as [_ P]; [unfold is_byte; lia|lia|done|]. by rewrite (proj2 (Z.eqb_neq _ 0)) by lia.
  - by rewrite zero_low_none.
Qed.

(** The first byte that satisfies a test is the first one in its exact mask. *)
Lemma index_first_map (g : Z -> Z) pre b post : (forall b, is_byte b -> is_byte (g b)) -> is_word (pre ++ b :: post) ->
  Forall (fun b => g b = 0) pre -> g b <> 0 -> index_first (wordm (map g (pre ++ b :: post))) = Some (Z.of_nat (length pre)).
Proof.
  intros Hg W Hp Hb. pose proof (map_word g _ Hg W) as W'. rewrite map_app in *. cbn [map] in *.
  assert (E : map g pre = replicate (length pre) 0).
  { clear -Hp. induction Hp as [|c pre Hc Hp IH]; [done|]. cbn [map length replicate]. by rewrite IH, Hc. }
  rewrite E in *. destruct W as [[_ [Fb _]%list.Forall_cons]%Forall_app _]. apply index_first_spec; auto.
Qed.

Lemma zmask_zero b : zmask b = 0 <-> b <> 0.
Proof. unfold zmask. destruct (Z.eqb_spec b 0); naive_solver. Qed.

Lemma not_zero_masks pre : 0 ∉ pre -> Forall (fun b => zmask b = 0) pre.
Proof. intros Hz. apply list.Forall_forall. intros b Hb. apply zmask_zero. by intros ->. Qed.

Lemma index_first_zero_spec pre post : is_word (pre ++ 0 :: post) -> 0 ∉ pre ->
  index_first_zero (wordm (pre ++ 0 :: post)) = Some (Z.of_nat (length pre)).
Proof.
  intros W Hz. unfold index_first_zero. destruct little_endian eqn:En.
  - rewrite find_zero_low_lev, En by done. destruct (W) as [[F1 [_ F2]%list.Forall_cons]%Forall_app L].
    destruct (zero_low_found pre post F1 Hz F2) as (junk & Fj & Lj & E). rewrite <- L, E.
    replace (lev (replicate (length pre) 0 ++ 128 :: junk)) with (wordm (replicate (length pre) 0 ++ 128 :: junk)) by (unfold wordm; by rewrite En).
    apply index_first_spec; [unfold is_byte; lia|lia|]. split.
    + apply Forall_app. split; [by apply replicate_bytes|]. constructor; [unfold is_byte; lia|done].
    + rewrite <- L, !length_app, length_replicate. cbn [length]. lia.
  - rewrite find_zero_all_wordm by done. apply index_first_map; [intros; apply zmask_byte|done|by apply not_zero_masks|done].
Qed.

Lemma index_last_zero_spec pre post : is_word (pre ++ 0 :: post) -> 0 ∉ post ->
  index_last_zero (wordm (pre ++ 0 :: post)) = Some (Z.of_nat (length pre)).
Proof.
  intros W Hz. destruct (W) as [[F1 [_ F2]%list.Forall_cons]%Forall_app L]. rewrite length_app in L. cbn [length] in L.
  unfold index_last_zero. destruct little_endian eqn:En.
  - rewrite find_zero_all_wordm by done. rewrite map_app. cbn [map].
    assert (E : map zmask post = replicate (length post) 0).
    { pose proof (not_zero_masks post Hz) as M. clear -M. induction M as [|c post Hc M IH]; [done|]. cbn [map length replicate]. by rewrite IH, Hc. }
    rewrite E. rewrite <- (length_map zmask pre). apply index_last_spec; [unfold is_byte; cbn; lia|done|]. split.
    + apply Forall_app. split; [by apply Forall_bytes_map; [intros; apply zmask_byte|]|]. constructor; [apply zmask_byte|by apply replicate_bytes].
    + rewrite length_app, length_map. cbn [length]. rewrite length_replicate. lia.
  - rewrite find_zero_low_lev, En by done. rewrite rev_app_distr. cbn [rev]. rewrite <- app_assoc. cbn [app].
    destruct (zero_low_found (rev post) (rev pre)) as (junk & Fj & Lj & E); [by apply rev_bytes|by rewrite list_elem_of_In, <- in_rev, <- list_elem_of_In|by apply rev_bytes|].
    rewrite length_rev in Lj.
    replace (zero_low op_size (rev post ++ 0 :: rev pre)) with (wordm (rev junk ++ 128 :: replicate (length post) 0)).
    + replace (length pre) with (length (rev junk)) by (by rewrite length_rev). apply index_last_spec; [unfold is_byte; lia|lia|]. split.
      * apply Forall_app. split; [by apply rev_bytes|]. constructor; [unfold is_byte; lia|by apply replicate_bytes].
      * rewrite length_app, length_rev. cbn [length]. rewrite length_replicate. lia.
    + unfold wordm. rewrite En, rev_app_distr. cbn [rev]. rewrite rev_zeros, rev_involutive, <- app_assoc. cbn [app].
      rewrite length_rev in E. rewrite <- E. f_equal. rewrite length_app. cbn [length]. rewrite !length_rev. lia.
Qed.

(** ** Equal bytes *)

Definition xor_with (c : Z) (l : list Z) : list Z := map (fun b => Z.lxor b c) l.

Lemma xor_repeat l c : is_word l -> is_byte c ->
  Z.lxor (wordm l) (repeat_bytes c) = wordm (xor_with c l) /\ is_word (xor_with c l).
Proof.
  intros W Hc. destruct (repeat_wordm c Hc) as [-> Wc]. split.
  - rewrite (zip_wordm Z.lxor) by (done || apply lxor_lev). f_equal. apply zip_replicate. by destruct W.
  - apply map_word; [|done]. intros b Hb. by apply lxor_byte.
Qed.

Lemma xor_mem c l : 0 ∈ xor_with c l <-> c ∈ l.
Proof.
  unfold xor_with. rewrite !list_elem_of_In, in_map_iff. split.
  - intros (b & E & Hb). apply Z.lxor_eq in E as ->. done.
  - intros Hc. exists c. by rewrite Z.lxor_nilpotent.
Qed.

Lemma xor_split c pre post : xor_with c (pre ++ c :: post) = xor_with c pre ++ 0 :: xor_with c post.
Proof. unfold xor_with. rewrite map_app. cbn [map]. by rewrite Z.lxor_nilpotent. Qed.

Lemma has_eq_spec l c : is_word l -> is_byte c -> has_eq (wordm l) (repeat_bytes c) = bool_decide (c ∈ l).
Proof.
  intros W Hc. destruct (xor_repeat l c W Hc) as [E W']. unfold has_eq, find_eq_low. rewrite E.
  rewrite <- (bool_decide_ext _ _ (xor_mem c l)). by apply has_zero_spec.
Qed.

Lemma index_first_eq_spec pre c post : is_word (pre ++ c :: post) -> is_byte c -> c ∉ pre ->
  index_first_eq (wordm (pre ++ c :: post)) (repeat_bytes c) = Some (Z.of_nat (length pre)).
Proof.
  intros W Hc Hn. destruct (xor_repeat _ c W Hc) as [E W']. unfold index_first_eq, find_eq_low, find_eq_all. rewrite E.
  rewrite xor_split in *. change (index_first_zero (wordm (xor_with c pre ++ 0 :: xor_with c post)) = Some (Z.of_nat (length pre))).
  rewrite index_first_zero_spec; [unfold xor_with; by rewrite length_map|done|by rewrite xor_mem].
Qed.

Lemma index_last_eq_spec pre c post : is_word (pre ++ c :: post) -> is_byte c -> c ∉ post ->
  index_last_eq (wordm (pre ++ c :: post)) (repeat_bytes c) = Some (Z.of_nat (length pre)).
Proof.
  intros W Hc Hn. destruct (xor_repeat _ c W Hc) as [E W']. unfold index_last_eq. rewrite E.
  rewrite xor_split in *. rewrite index_last_zero_spec; [unfold xor_with; by rewrite length_map|done|by rewrite xor_mem].
Qed.

Lemma find_eq_all_wordm l c : is_word l -> is_byte c ->
  find_eq_all (wordm l) (repeat_bytes c) = wordm (map (fun b => if b =? c then 128 else 0) l).
Proof.
  intros W Hc. destruct (xor_repeat l c W Hc) as [E W']. unfold find_eq_all. rewrite E, find_zero_all_wordm by done.
  unfold xor_with. rewrite map_map. f_equal. apply map_ext. intros b. unfold zmask.
  destruct (Z.eqb_spec b c) as [->|Ne]; [by rewrite Z.lxor_nilpotent|]. destruct (Z.eqb_spec (Z.lxor b c) 0) as [E0|]; [|done].
  by apply Z.lxor_eq in E0.
Qed.

(** ** A zero or a given byte *)

Definition stops (c b : Z) : bool := (b =? 0) || (b =? c).

Lemma find_zero_eq_all_wordm l c : is_word l -> is_byte c ->
  find_zero_eq_all (wordm l) (repeat_bytes c) = wordm (map (fun b => if stops c b then 128 else 0) l).
Proof.
  intros W Hc. unfold find_zero_eq_all. change (find_zero_all (Z.lxor (wordm l) (repeat_bytes c))) with (find_eq_all (wordm l) (repeat_bytes c)).
  rewrite find_eq_all_wordm, find_zero_all_wordm by done. rewrite (zip_wordm Z.lor).
  - rewrite zip_map2. f_equal. apply map_ext. intros b. unfold stops, zmask. by destruct (b =? 0), (b =? c).
  - apply lor_lev.
  - apply map_word; [intros; apply zmask_byte|done].
  - apply map_word; [intros b _; unfold is_byte; destruct (b =? c); lia|done].
Qed.

Lemma has_zero_eq_spec l c : is_word l -> is_byte c ->
  has_zero_eq (wordm l) (repeat_bytes c) = existsb (stops c) l.
Proof.
  intros W Hc. assert (E : has_zero_eq (wordm l) (repeat_bytes c) = has_zero (wordm l) || has_eq (wordm l) (repeat_bytes c)).
  { unfold has_zero_eq, has_zero, has_eq, find_zero_eq_low, find_eq_low. rewrite <- negb_andb. f_equal.
    destruct (Z.eqb_spec (find_zero_low (wordm l)) 0) as [->|N]; cbn [andb]; [by rewrite Z.lor_0_l|].
    apply Z.eqb_neq. intros [? _]%Z.lor_eq_0_iff. done. }
  rewrite E, has_zero_spec, has_eq_spec by done. clear. induction l as [|b l IH]; [done|]. cbn [existsb]. rewrite <- IH. unfold stops.
  repeat case_bool_decide; destruct (Z.eqb_spec b 0), (Z.eqb_spec b c); set_solver.
Qed.

Lemma index_first_zero_eq_spec pre b post c : is_word (pre ++ b :: post) -> is_byte c ->
  Forall (fun b => stops c b = false) pre -> stops c b = true ->
  index_first_zero_eq (wordm (pre ++ b :: post)) (repeat_bytes c) = Some (Z.of_nat (length pre)).
Proof.
  intros W Hc Hp Hb. unfold index_first_zero_eq. destruct little_endian eqn:En.
  - unfold find_zero_eq_low. destruct (xor_repeat _ c W Hc) as [E W']. rewrite E, !find_zero_low_lev, En by done.
    destruct (W) as [F L]. destruct (W') as [F' L']. unfold xor_with in *. rewrite map_app in *. cbn [map] in *.
    assert (Z1 : 0 ∉ pre) by (intros I; apply (proj1 (list.Forall_forall _ _) Hp) in I; done).
    assert (Z2 : 0 ∉ map (fun b => Z.lxor b c) pre).
    { intros I. apply (xor_mem c pre) in I. apply (proj1 (list.Forall_forall _ _) Hp) in I. unfold stops in I. by rewrite Z.eqb_refl, orb_true_r in I. }
    destruct (zero_low_upto pre b post F Z1) as (j1 & Fj1 & Lj1 & E1).
    destruct (zero_low_upto _ _ _ F' Z2) as (j2 & Fj2 & Lj2 & E2). rewrite L in E1. rewrite L' in E2. rewrite E1, E2.
    rewrite length_map in *. assert (Fz : Forall is_byte (replicate (length pre) 0)) by (by apply replicate_bytes).
    rewrite lor_lev; [|by apply Forall_app; split; [|constructor; [apply zmask_byte|]]..|rewrite !length_app; cbn [length]; lia].
    rewrite zip_with_app by done. cbn [zip_with].
    assert (Ez : zip_with Z.lor (replicate (length pre) 0) (replicate (length pre) 0) = replicate (length pre) 0).
    { clear. induction (length pre) as [|n IH]; [done|]. cbn. by rewrite IH. }
    rewrite Ez. set (k := replicate (length pre) 0 ++ _). replace (lev k) with (wordm k) by (unfold wordm; by rewrite En). subst k.
    apply index_first_spec.
    + apply lor_byte; apply zmask_byte.
    + unfold stops, zmask in *. destruct (Z.eqb_spec b 0); [by destruct (Z.lxor b c =? 0)|].
      destruct (Z.eqb_spec b c) as [->|]; [by rewrite Z.lxor_nilpotent|done].
    + rewrite length_app in L. cbn [length] in L. split.
      * apply Forall_app. split; [done|]. constructor; [apply lor_byte; apply zmask_byte|]. by apply Forall_bytes_zip; [apply lor_byte|..].
      * rewrite length_app, length_replicate. cbn [length]. rewrite length_zip_with. lia.
  - rewrite find_zero_eq_all_wordm by done. apply index_first_map; [intros x _; unfold is_byte; destruct (stops c x); lia|done| |by rewrite Hb].
    eapply list.Forall_impl; [exact Hp|]. by intros x ->.
Qed.

(** ** A zero or a difference *)

Definition ne_mask (b d : Z) : Z := if (b =? 0) || negb (b =? d) then 128 else 0.

Lemma ne_byte_check : forallb (fun b => forallb (fun e =>
  Z.land (Z.lor (Z.lor (Z.land e 127 + 127) e) (255 - Z.lor (Z.land b 127 + 127) b)) 128 =?
  (if (b =? 0) || negb (e =? 0) then 128 else 0)) (seqZ 0 256)) (seqZ 0 256) = true.
Proof. vm_compute. reflexivity. Qed.

Lemma ne_byte b d : is_byte b -> is_byte d -> let e := Z.lxor b d in
  Z.land (Z.lor (Z.lor (Z.land e 127 + 127) e) (255 - Z.lor (Z.land b 127 + 127) b)) (255 - 127) = ne_mask b d.
Proof.
  intros Hb Hd e. change (255 - 127) with 128.
  pose proof (byte_forall _ (byte_forall _ ne_byte_check b Hb) e (lxor_byte b d Hb Hd)) as E. cbn beta in E. apply Z.eqb_eq in E.
  rewrite E. unfold ne_mask, e.
  destruct (Z.eqb_spec b d) as [->|Ne]; [by rewrite Z.lxor_nilpotent|].
  rewrite (proj2 (Z.eqb_neq (Z.lxor b d) 0)); [done|]. by intros ?%Z.lxor_eq.
Qed.

Lemma add127_wordm l : is_word l -> let l' := map (fun b => Z.land b 127 + 127) l in
  op (Z.land (wordm l) (repeat_bytes 127) + repeat_bytes 127) = wordm l' /\ is_word l'.
Proof.
  intros W. cbn zeta. destruct (repeat_wordm 127 ltac:(unfold is_byte; lia)) as [-> W7].
  assert (W' : is_word (map (fun b => Z.land b 127 + 127) l)) by (apply map_word; [apply add127_byte|done]). split; [|done].
  rewrite (zip_wordm Z.land) by (done || apply land_lev). destruct (W) as [F L]. rewrite zip_replicate by done.
  assert (E : wordm (map (fun b => Z.land b 127) l) + wordm (replicate op_size 127) = wordm (map (fun b => Z.land b 127 + 127) l)).
  { unfold wordm. destruct little_endian.
    - rewrite add_lev by (by rewrite length_map, length_replicate). rewrite zip_replicate by (by rewrite length_map). by rewrite map_map.
    - assert (R : rev (replicate op_size 127) = replicate op_size 127).
      { clear. induction op_size as [|n IH]; [done|]. cbn [replicate rev]. rewrite IH. clear. induction n as [|n IH]; [done|]. cbn. by rewrite IH. }
      rewrite R, add_lev by (by rewrite length_rev, length_map, length_replicate).
      rewrite zip_replicate by (by rewrite length_rev, length_map). by rewrite <- !map_rev, map_map. }
  rewrite E, op_mod. apply Z.mod_small. destruct W' as [F' L']. rewrite <- L'. unfold wordm. destruct little_endian; [by apply lev_bounds|].
  rewrite <- (length_rev (map _ l)). apply lev_bounds. by apply rev_bytes.
Qed.

Lemma find_zero_ne_all_wordm l k : is_word l -> is_word k -> find_zero_ne_all (wordm l) (wordm k) = wordm (zip_with ne_mask l k).
Proof.
  intros Wl Wk. unfold find_zero_ne_all.
  assert (We : is_word (zip_with Z.lxor l k)) by (by apply zip_word; [apply lxor_byte|..]).
  rewrite (zip_wordm Z.lxor l k) by (done || apply lxor_lev). set (e := zip_with Z.lxor l k) in *.
  destruct (add127_wordm l Wl) as [-> Wl1]. destruct (add127_wordm e We) as [-> We1].
  rewrite (zip_wordm Z.lor _ l), (zip_wordm Z.lor _ e) by (done || apply lor_lev).
  set (nz1 := zip_with Z.lor (map _ l) l). set (ne2 := zip_with Z.lor (map _ e) e).
  assert (W1 : is_word nz1) by (by apply zip_word; [apply lor_byte|..]).
  assert (W2 : is_word ne2) by (by apply zip_word; [apply lor_byte|..]).
  rewrite (lnot_wordm (wordm nz1) nz1) by done. destruct (repeat_wordm 127 ltac:(unfold is_byte; lia)) as [E7 W7].
  rewrite (lnot_wordm _ _ E7 W7).
  assert (W3 : is_word (map (fun b => 255 - b) nz1)) by (apply map_word; [unfold is_byte; lia|done]).
  assert (W4 : is_word (map (fun b => 255 - b) (replicate op_size 127))) by (apply map_word; [unfold is_byte; lia|done]).
  rewrite (zip_wordm Z.lor ne2) by (done || apply lor_lev).
  rewrite (zip_wordm Z.land); [|apply land_lev|by apply zip_word; [apply lor_byte|..]|done]. f_equal.
  destruct Wl as [Fl Ll], Wk as [Fk Lk]. clear - Fl Fk Ll Lk. unfold nz1, ne2, e. clear nz1 ne2 e.
  revert k Lk Fk. rewrite <- Ll. clear Ll. induction Fl as [|b l Hb Fl IH]; intros [|d k] Lk Fk; try done.
  apply list.Forall_cons in Fk as [Hd Fk]. cbn [length replicate map zip_with]. rewrite IH by (done || by injection Lk).
  by rewrite ne_byte.
Qed.
End Find.
