(* ===== verification/StringShift.v ===== *)
(** * Shifting and joining words

    In memory order: dropping the bytes in front of a string, keeping those
    before its end, joining the parts of two words, and extracting a byte. *)

From S2P Require Import Prelude CInt StringWord StringFind.

Lemma shr_lev l r : Forall is_byte l -> (r <= length l)%nat -> Z.shiftr (lev l) (8 * Z.of_nat r) = lev (drop r l).
Proof.
  intros F L. rewrite Z.shiftr_div_pow2, pow256_bits by lia. rewrite <- (take_drop r l) at 1. rewrite lev_app.
  rewrite length_take, Nat.min_l by done. rewrite (Z.mul_comm (256 ^ _)), Z.div_add by (apply Z.pow_nonzero; lia).
  assert (B : 0 <= lev (take r l) < 256 ^ Z.of_nat (length (take r l))) by (apply lev_bounds, Forall_take, F).
  rewrite length_take, Nat.min_l in B by done. by rewrite Z.div_small.
Qed.

Lemma shl_lev l r : Forall is_byte l -> (r <= length l)%nat ->
  Z.shiftl (lev l) (8 * Z.of_nat r) mod 256 ^ Z.of_nat (length l) = lev (replicate r 0 ++ take (length l - r) l).
Proof.
  intros F L. rewrite Z.shiftl_mul_pow2, pow256_bits by lia. rewrite lev_app, lev_zeros, length_replicate, Z.add_0_l.
  rewrite <- (take_drop (length l - r) l) at 1. rewrite lev_app, length_take, Nat.min_l by lia.
  set (n := length l) in *. assert (E : 256 ^ Z.of_nat n = 256 ^ Z.of_nat r * 256 ^ Z.of_nat (n - r)).
  { rewrite <- Z.pow_add_r by lia. f_equal. lia. }
  rewrite E. replace ((lev (take (n - r) l) + 256 ^ Z.of_nat (n - r) * lev (drop (n - r) l)) * 256 ^ Z.of_nat r)
    with (256 ^ Z.of_nat r * lev (take (n - r) l) + lev (drop (n - r) l) * (256 ^ Z.of_nat r * 256 ^ Z.of_nat (n - r))) by lia.
  rewrite Z.mod_add by (rewrite <- E; apply Z.pow_nonzero; lia). apply Z.mod_small.
  assert (B : 0 <= lev (take (n - r) l) < 256 ^ Z.of_nat (length (take (n - r) l))) by (apply lev_bounds, Forall_take, F).
  rewrite length_take, Nat.min_l in B by lia. assert (0 < 256 ^ Z.of_nat r) by (apply Z.pow_pos_nonneg; lia). nia.
Qed.

Lemma lev_snoc_zeros l n : lev (l ++ replicate n 0) = lev l.
Proof. rewrite lev_app, lev_zeros. lia. Qed.

(** Or-ing lists that do not overlap. *)
Lemma lor_lev_disjoint a b n m : Forall is_byte a -> Forall is_byte b -> length a = n -> length b = m ->
  Z.lor (lev a) (lev (replicate n 0 ++ b)) = lev (a ++ b).
Proof.
  intros Fa Fb <- <-. rewrite <- (lev_snoc_zeros a (length b)).
  rewrite lor_lev; [|apply Forall_app; split; [done|by apply replicate_bytes]|apply Forall_app; split; [by apply replicate_bytes|done]|
    rewrite !length_app, !length_replicate; lia].
  rewrite zip_with_app by (by rewrite length_replicate). f_equal. f_equal.
  - rewrite zip_replicate by done. clear. induction a as [|x a IH]; [done|]. cbn. by rewrite IH, Z.lor_0_r.
  - clear. induction b as [|x b IH]; [done|]. cbn. by rewrite IH.
Qed.


Section Shift.
Context `{OpT}.

Lemma shift_find_wordm l s r : is_word l -> s mod opsiz = Z.of_nat r -> (r <= op_size)%nat ->
  shift_find (wordm l) s = wordm (drop r l ++ replicate r 0).
Proof.
  intros [F L] E Hr. unfold shift_find. rewrite E. unfold wordm. destruct little_endian.
  - rewrite shr_lev by (done || lia). by rewrite lev_snoc_zeros.
  - rewrite op_mod, <- L, <- (length_rev l), shl_lev; [|by apply rev_bytes|rewrite length_rev; lia].
    f_equal. rewrite rev_app_distr, rev_zeros. f_equal. rewrite length_rev, firstn_rev. f_equal. f_equal. lia.
Qed.

Lemma MERGE_wordm a b ofs sh_1 sh_2 : is_word a -> is_word b -> (ofs <= op_size)%nat ->
  sh_1 = 8 * Z.of_nat ofs -> sh_2 = bits - sh_1 -> MERGE (wordm a) sh_1 (wordm b) sh_2 = wordm (drop ofs a ++ take ofs b).
Proof.
  intros [Fa La] [Fb Lb] Ho -> ->.
  replace (bits - 8 * Z.of_nat ofs) with (8 * Z.of_nat (op_size - ofs)) by (unfold bits, opsiz; lia).
  unfold MERGE, wordm. destruct little_endian.
  - rewrite shr_lev by (done || lia). rewrite op_mod, <- Lb, shl_lev by (done || lia).
    replace (length b - (length b - ofs))%nat with ofs by lia.
    apply (lor_lev_disjoint _ _ _ ofs); [by apply Forall_drop|by apply Forall_take|rewrite length_drop; lia|rewrite length_take; lia].
  - rewrite Z.lor_comm, op_mod, <- La, <- (length_rev a), shl_lev by (first [by apply rev_bytes|rewrite !length_rev; lia]).
    rewrite shr_lev; [|by apply rev_bytes|rewrite !length_rev; lia]. rewrite length_rev.
    rewrite (lor_lev_disjoint _ _ ofs (op_size - ofs)).
    + rewrite rev_app_distr. f_equal. f_equal.
      * rewrite skipn_rev. f_equal. f_equal. lia.
      * rewrite firstn_rev. f_equal. f_equal. lia.
    + apply Forall_drop. by apply rev_bytes.
    + apply Forall_take. by apply rev_bytes.
    + rewrite length_drop, length_rev. lia.
    + rewrite length_take, length_rev. lia.
Qed.

Lemma extractbyte_wordm l i b : is_word l -> l !! i = Some b -> extractbyte (wordm l) (Z.of_nat i) = b.
Proof.
  intros [F L] E. assert (Hi : (i < length l)%nat) by (by apply lookup_lt_Some in E).
  assert (Hb : is_byte b) by (by apply (proj1 (list.Forall_lookup _ _) F _ _ E)).
  assert (W : forall l i b, is_byte b -> Forall is_byte l -> l !! i = Some b -> wrap 8 (Z.shiftr (lev l) (8 * Z.of_nat i)) = b).
  { clear. intros l i b Hb F E. rewrite shr_lev by (done || apply lookup_lt_Some in E; lia).
    rewrite (drop_S l b i E). cbn [lev]. unfold wrap. change (2 ^ 8) with 256. rewrite Z.mul_comm, Z.mod_add by lia. by apply Z.mod_small. }
  unfold extractbyte, wordm. destruct little_endian.
  - rewrite Z.mul_comm. by apply W.
  - replace ((opsiz - 1 - Z.of_nat i) * 8) with (8 * Z.of_nat (length l - 1 - i)) by (unfold opsiz; lia).
    apply W; [done|by apply rev_bytes|]. rewrite <- E.
    replace (rev l) with (reverse l) by (unfold reverse; by rewrite rev_append_rev, app_nil_r).
    rewrite reverse_lookup by lia. f_equal. lia.
Qed.

Lemma index_first_zero_ne_spec pre b d post post' : is_word (pre ++ b :: post) -> is_word (pre ++ d :: post') ->
  0 ∉ pre -> b = 0 \/ b <> d ->
  index_first_zero_ne (wordm (pre ++ b :: post)) (wordm (pre ++ d :: post')) = Some (Z.of_nat (length pre)).
Proof.
  intros W W' Hz Hb. unfold index_first_zero_ne. rewrite find_zero_ne_all_wordm by done.
  destruct (W) as [F L]. destruct (W') as [F' L']. rewrite length_app in L, L'. cbn [length] in L, L'.
  rewrite zip_with_app by done. cbn [zip_with].
  assert (E : zip_with ne_mask pre pre = replicate (length pre) 0).
  { clear -Hz. induction pre as [|c pre IH]; [done|]. apply not_elem_of_cons in Hz as [Hc Hz]. cbn. rewrite IH by done.
    unfold ne_mask. rewrite (proj2 (Z.eqb_neq c 0)), Z.eqb_refl by congruence. done. }
  rewrite E. assert (Hm : forall x y, is_byte (ne_mask x y)) by (intros x y; unfold ne_mask, is_byte; destruct (_ || _); lia).
  apply index_first_spec; [done| |].
  - unfold ne_mask. destruct Hb as [->|Hb]; [done|]. rewrite (proj2 (Z.eqb_neq b d)) by done. by rewrite orb_true_r.
  - split; [|rewrite length_app, length_replicate; cbn [length]; rewrite length_zip_with; lia].
    apply Forall_app. split; [by apply replicate_bytes|]. constructor; [done|].
    apply Forall_app in F as [_ [_ F]%list.Forall_cons], F' as [_ [_ F']%list.Forall_cons]. by apply Forall_bytes_zip.
Qed.

(** Keeping the first bytes. *)
Lemma zip_keep l r n : Forall is_byte l -> length l = n -> (r <= n)%nat ->
  zip_with Z.land l (replicate r 255 ++ replicate (n - r) 0) = take r l ++ replicate (n - r) 0.
Proof.
  intros F <- Hr. rewrite <- (take_drop r l) at 1. assert (L1 : length (take r l) = r) by (rewrite length_take; lia).
  rewrite zip_with_app by (by rewrite length_replicate). f_equal.
  - rewrite zip_replicate by done. apply (Forall_take _ r) in F. clear -F. induction F as [|b l' Hb F IH]; [done|]. cbn. rewrite IH. f_equal.
    change 255 with (Z.ones 8). rewrite Z.land_ones by lia. by apply Z.mod_small.
  - rewrite zip_replicate by (by rewrite length_drop). rewrite <- (length_drop l r). generalize (drop r l). clear. intros l.
    induction l as [|b l IH]; [done|]. cbn. by rewrite IH, Z.land_0_r.
Qed.

Lemma rev_replicate (n : nat) (c : Z) : rev (replicate n c) = replicate n c.
Proof.
  induction n as [|n IH]; [done|]. cbn [replicate rev]. rewrite IH. clear. induction n as [|n IH]; [done|]. cbn. by rewrite IH.
Qed.

Lemma ones_wordm : op (-1) = wordm (replicate op_size 255) /\ is_word (replicate op_size 255).
Proof.
  assert (W : is_word (replicate op_size 255)) by (split; [apply replicate_bytes; unfold is_byte; lia|apply length_replicate]).
  split; [|done]. unfold wordm. rewrite rev_replicate.
  replace (if little_endian then replicate op_size 255 else replicate op_size 255) with (replicate op_size 255) by (by destruct little_endian).
  pose proof (lnot_lev (replicate op_size 0) (replicate_bytes op_size 0 ltac:(unfold is_byte; lia))) as E.
  rewrite length_replicate, lev_zeros in E. rewrite op_mod. change (-1) with (Z.lnot 0). rewrite E. f_equal.
  clear. induction op_size as [|n IH]; [done|]. cbn. by rewrite IH.
Qed.

Lemma map_complement n : map (fun b => 255 - b) (replicate n 0) = replicate n 255 /\ map (fun b => 255 - b) (replicate n 255) = replicate n 0.
Proof. induction n as [|n [IH1 IH2]]; [done|]. cbn. by rewrite IH1, IH2. Qed.

Lemma shift_find_last_wordm l s r : is_word l -> s mod opsiz = Z.of_nat r -> (0 < r < op_size)%nat ->
  shift_find_last (wordm l) s = wordm (take r l ++ replicate (op_size - r) 0).
Proof.
  intros W E Hr. destruct (W) as [F L]. unfold shift_find_last. rewrite E, (proj2 (Z.eqb_neq _ 0)) by lia. destruct ones_wordm as [Eo _]. rewrite Eo.
  destruct (map_complement r) as [C1 C2], (map_complement (op_size - r)) as [C3 C4].
  assert (K : forall l', Forall is_byte l' -> length l' = op_size ->
    Z.land (lev l') (lev (replicate r 255 ++ replicate (op_size - r) 0)) = lev (take r l' ++ replicate (op_size - r) 0)).
  { intros l' F' L'. rewrite land_lev; [by rewrite zip_keep by (done || lia)|done| |rewrite length_app, !length_replicate; lia].
    apply Forall_app. split; apply replicate_bytes; unfold is_byte; lia. }
  unfold wordm. rewrite rev_replicate. destruct little_endian.
  - rewrite (Z.mul_comm _ 8). unfold lnot_op. rewrite !op_mod.
    assert (F5 : Forall is_byte (replicate op_size 255)) by (apply replicate_bytes; unfold is_byte; lia).
    pose proof (shl_lev (replicate op_size 255) r F5) as S. rewrite length_replicate in S. rewrite S by lia.
    rewrite take_replicate, Nat.min_l by lia.
    assert (F6 : Forall is_byte (replicate r 0 ++ replicate (op_size - r) 255)) by (apply Forall_app; split; apply replicate_bytes; unfold is_byte; lia).
    pose proof (lnot_lev _ F6) as N. rewrite length_app, !length_replicate in N. replace (r + (op_size - r))%nat with op_size in N by lia.
    rewrite N, map_app, C1, C4. by apply K.
  - rewrite (Z.mul_comm _ 8). unfold lnot_op. rewrite !op_mod.
    assert (F5 : Forall is_byte (replicate op_size 255)) by (apply replicate_bytes; unfold is_byte; lia).
    rewrite shr_lev by (done || rewrite length_replicate; lia). rewrite drop_replicate, <- (lev_snoc_zeros (replicate (op_size - r) 255) r).
    assert (F6 : Forall is_byte (replicate (op_size - r) 255 ++ replicate r 0)) by (apply Forall_app; split; apply replicate_bytes; unfold is_byte; lia).
    pose proof (lnot_lev _ F6) as N. rewrite length_app, !length_replicate in N. replace (op_size - r + r)%nat with op_size in N by lia.
    rewrite N, map_app, C1, C4, rev_app_distr, rev_zeros.
    assert (L' : length (rev l) = op_size) by (by rewrite length_rev).
    rewrite land_lev; [|by apply rev_bytes|apply Forall_app; split; apply replicate_bytes; unfold is_byte; lia|rewrite length_app, !length_replicate; lia].
    f_equal. rewrite <- (take_drop r l) at 1. rewrite rev_app_distr. rewrite zip_with_app by (rewrite length_rev, length_drop, length_replicate; lia).
    f_equal.
    + rewrite zip_replicate by (rewrite length_rev, length_drop; lia). replace (op_size - r)%nat with (length (rev (drop r l))) by (rewrite length_rev, length_drop; lia).
      generalize (rev (drop r l)). clear. intros k. induction k as [|b k IH]; [done|]. cbn. by rewrite IH, Z.land_0_r.
    + rewrite zip_replicate by (rewrite length_rev, length_take; lia).
      apply (Forall_take _ r), rev_bytes in F. clear -F. induction F as [|b l' Hb F IH]; [done|]. cbn. rewrite IH. f_equal.
      change 255 with (Z.ones 8). rewrite Z.land_ones by lia. by apply Z.mod_small.
Qed.
End Shift.
