(* ===== verification/StringSearch.v ===== *)
(** * Searching strings by words: [string/strlen.c], [strchrnul.c], [strchr.c],
      [memchr.c], [strnlen.c], [rawmemchr.c], [memrchr.c], [strrchr.c]

    Memory is read in aligned words; a word may be read when it is mapped,
    and reading another is undefined behaviour.  A pointer is an address, a
    null result [None]. *)

From S2P Require Import Prelude CInt CLoop StringWord StringFind StringShift.

Record memory := Mem { byte_at : Z -> Z; mapped : Z -> bool }.

Section Code.
Context `{OpT}.

Definition window (m : memory) (a : Z) (n : nat) : list Z := map (fun i => byte_at m (a + Z.of_nat i)) (seq 0 n).

(** [*p] for an aligned [const op_t *p], and for a [const char *p]. *)
Definition load_word (m : memory) (p : Z) : option Z := if mapped m p then Some (wordm (window m p op_size)) else None.
Definition load_byte (m : memory) (p : Z) : option Z := if mapped m (align_down p) then Some (byte_at m p) else None.

Definition __strlen (m : memory) (str : Z) : option Z :=
  let word_ptr := align_down str in
  word ← load_word m word_ptr;
  let mask := shift_find (find_zero_all word) str in
  if negb (mask =? 0) then index_first mask
  else
    '(word_ptr, word) ← run 64 (fun p =>
      match load_word m (p + opsiz) with
      | None => inr None
      | Some w => if has_zero w then inr (Some (p + opsiz, w)) else inl (p + opsiz)
      end) word_ptr;
    i ← index_first_zero word;
    Some (word_ptr + i - str).

Definition __strchrnul (m : memory) (str c_in : Z) : option Z :=
  let word_ptr := align_down str in
  let repeated_c := repeat_bytes c_in in
  word ← load_word m word_ptr;
  let mask := shift_find (find_zero_eq_all word repeated_c) str in
  if negb (mask =? 0) then i ← index_first mask; Some (str + i)
  else
    '(word_ptr, word) ← run 64 (fun p =>
      match load_word m (p + opsiz) with
      | None => inr None
      | Some w => if has_zero_eq w repeated_c then inr (Some (p + opsiz, w)) else inl (p + opsiz)
      end) word_ptr;
    i ← index_first_zero_eq word repeated_c;
    Some (word_ptr + i).

Definition strchr (m : memory) (s c_in : Z) : option (option Z) :=
  r ← __strchrnul m s c_in;
  b ← load_byte m r;
  Some (if b =? wrap 8 c_in then Some r else None).

(** Saturating addition of addresses. *)
Definition UINTPTR_MAX : Z := 2 ^ bits - 1.
Definition sadd (x y : Z) : Z := if UINTPTR_MAX - x <? y then UINTPTR_MAX else x + y.

Definition __memchr (m : memory) (s c_in n : Z) : option (option Z) :=
  if n =? 0 then Some None
  else
    let word_ptr := align_down s in
    word ← load_word m word_ptr;
    let repeated_c := repeat_bytes c_in in
    let lbyte := sadd s (n - 1) in
    let lword := align_down lbyte in
    let mask := shift_find (find_eq_all word repeated_c) s in
    if negb (mask =? 0) then
      i ← index_first mask;
      let ret := s + i in Some (if ret <=? lbyte then Some ret else None)
    else if word_ptr =? lword then Some None
    else
      run 64 (fun word_ptr =>
        match load_word m word_ptr with
        | None => inr None
        | Some word =>
          if word_ptr =? lword then
            inr (if has_eq word repeated_c then
                   i ← index_first_eq word repeated_c;
                   let ret := word_ptr + i in Some (if ret <=? lbyte then Some ret else None)
                 else Some None)
          else if has_eq word repeated_c then
            inr (i ← index_first_eq word repeated_c; Some (Some (word_ptr + i)))
          else inl (word_ptr + opsiz)
        end) (word_ptr + opsiz).

Definition __strnlen (m : memory) (str maxlen : Z) : option Z :=
  found ← __memchr m str 0 maxlen;
  Some (match found with Some p => p - str | None => maxlen end).

Definition __rawmemchr (m : memory) (s c : Z) : option (option Z) :=
  if negb (wrap 8 c =? 0) then __memchr m s c UINTPTR_MAX
  else n ← __strlen m s; Some (Some (s + n)).

Definition __memrchr (m : memory) (s c_in n : Z) : option (option Z) :=
  if n =? 0 then Some None
  else
    let word_ptr := align_up (s + n) - opsiz in
    let s_int := s + n in
    word ← load_word m word_ptr;
    let repeated_c := repeat_bytes c_in in
    let sword := align_down s in
    let mask := shift_find_last (find_eq_all word repeated_c) s_int in
    if negb (mask =? 0) then
      i ← index_last mask;
      let ret := word_ptr + i in Some (if s <=? ret then Some ret else None)
    else if word_ptr =? sword then Some None
    else
      run 64 (fun word_ptr =>
        match load_word m word_ptr with
        | None => inr None
        | Some word =>
          if word_ptr =? sword then
            inr (if has_eq word repeated_c then
                   i ← index_last_eq word repeated_c;
                   let ret := word_ptr + i in Some (if s <=? ret then Some ret else None)
                 else Some None)
          else if has_eq word repeated_c then
            inr (i ← index_last_eq word repeated_c; Some (Some (word_ptr + i)))
          else inl (word_ptr - opsiz)
        end) (word_ptr - opsiz).

Definition strrchr (m : memory) (s c : Z) : option (option Z) :=
  n ← __strlen m s; __memrchr m s c (n + 1).
End Code.

(** ** Words of memory *)

Definition good_memory (m : memory) : Prop := forall a, is_byte (byte_at m a).

Section Memory.
Context `{OpT}.
Variable m : memory.
Hypothesis m_ok : good_memory m.

Lemma length_window a n : length (window m a n) = n.
Proof. unfold window. by rewrite length_map, length_seq. Qed.

Lemma window_app a n k : window m a (n + k) = window m a n ++ window m (a + Z.of_nat n) k.
Proof.
  unfold window. rewrite seq_app, map_app. f_equal. replace (0 + n)%nat with n by lia.
  rewrite <- (Nat.add_0_r n) at 1. clear. revert n. generalize O. induction k as [|k IH]; intros j n; [done|]. cbn [seq map].
  f_equal; [f_equal; lia|]. replace (S (n + j)) with (n + S j)%nat by lia. apply IH.
Qed.

Lemma window_cons a n : window m a (S n) = byte_at m a :: window m (a + 1) n.
Proof. change (S n) with (1 + n)%nat. rewrite window_app. cbn. by rewrite Z.add_0_r. Qed.

Lemma window_split a n k : (k < n)%nat ->
  window m a n = window m a k ++ byte_at m (a + Z.of_nat k) :: window m (a + Z.of_nat k + 1) (n - k - 1).
Proof. intros Hk. rewrite <- window_cons, <- window_app. f_equal. lia. Qed.

Lemma window_at a n k : (k < n)%nat -> window m a n !! k = Some (byte_at m (a + Z.of_nat k)).
Proof. intros Hk. rewrite (window_split a n k Hk). apply list_lookup_middle. by rewrite length_window. Qed.

Lemma window_ext a b n : (forall j, 0 <= j < Z.of_nat n -> byte_at m (a + j) = byte_at m (b + j)) -> window m a n = window m b n.
Proof. intros E. unfold window. apply map_ext_in. intros j [_ Hj]%in_seq. apply E. lia. Qed.

Lemma drop_window a n k : (k <= n)%nat -> drop k (window m a n) = window m (a + Z.of_nat k) (n - k).
Proof.
  intros Hk. replace n with (k + (n - k))%nat at 1 by lia. rewrite window_app. rewrite <- (length_window a k) at 1. by rewrite drop_app_length.
Qed.

Lemma take_window a n k : (k <= n)%nat -> take k (window m a n) = window m a k.
Proof.
  intros Hk. replace n with (k + (n - k))%nat at 1 by lia. rewrite window_app. rewrite <- (length_window a k) at 1. by rewrite take_app_length.
Qed.

Lemma Forall_window (P : Z -> Prop) a n : (forall x, a <= x < a + Z.of_nat n -> P (byte_at m x)) -> Forall P (window m a n).
Proof.
  revert a. induction n as [|n IH]; intros a Hp; [constructor|]. rewrite window_cons. constructor; [apply Hp; lia|]. apply IH. intros x Hx. apply Hp. lia.
Qed.

Lemma window_elem x a n : x ∈ window m a n <-> exists y, a <= y < a + Z.of_nat n /\ byte_at m y = x.
Proof.
  revert a. induction n as [|n IH]; intros a.
  - split; [by intros ?%not_elem_of_nil|]. intros (y & ? & _). lia.
  - rewrite window_cons, elem_of_cons, IH. split.
    + intros [->|(y & Hy & E)]; [exists a|exists y]; split; (done || lia).
    + intros (y & Hy & E). destruct (Z.eq_dec y a) as [->|]; [by left|]. right. exists y. split; [lia|done].
Qed.

Lemma window_bytes a n : Forall is_byte (window m a n).
Proof. apply Forall_window. intros x _. apply m_ok. Qed.

Lemma window_word a : is_word (window m a op_size).
Proof. split; [apply window_bytes|apply length_window]. Qed.

Lemma load_word_ok p : mapped m p = true -> load_word m p = Some (wordm (window m p op_size)).
Proof. unfold load_word. by intros ->. Qed.

(** ** Alignment *)

Lemma align_down_eq a : align_down a = a - a mod opsiz.
Proof.
  unfold align_down. assert (exists k, 0 <= k /\ opsiz = 2 ^ k) as (k & Hk & ->).
  { unfold opsiz. destruct op_size_ok as [->| ->]; [by exists 2|by exists 3]. }
  replace (- 2 ^ k) with (Z.lnot (Z.ones k)) by (unfold Z.lnot; rewrite Z.ones_equiv; lia).
  rewrite <- Z.ldiff_land, Z.ldiff_ones_r, Z.shiftl_mul_pow2, Z.shiftr_div_pow2 by done.
  pose proof (Z.div_mod a (2 ^ k) ltac:(apply Z.pow_nonzero; lia)). lia.
Qed.

Lemma align_down_bounds a : align_down a <= a < align_down a + opsiz /\ align_down a mod opsiz = 0.
Proof.
  rewrite align_down_eq. pose proof opsiz_pos. pose proof (Z.mod_pos_bound a opsiz opsiz_pos). split; [lia|].
  rewrite Zminus_mod, Z.mod_mod, Z.sub_diag by lia. apply Z.mod_0_l. lia.
Qed.

Lemma align_unique a p : p mod opsiz = 0 -> p <= a < p + opsiz -> align_down a = p.
Proof.
  intros Hp B. rewrite align_down_eq. pose proof opsiz_pos. assert (a mod opsiz = a - p); [|lia].
  assert (opsiz <> 0) as Nz by lia. pose proof (Z.div_mod p opsiz Nz). symmetry. apply (Z.mod_unique _ _ (p / opsiz)); lia.
Qed.

Lemma align_next p : p mod opsiz = 0 -> (p + opsiz) mod opsiz = 0 /\ (p - opsiz) mod opsiz = 0.
Proof.
  intros Hp. pose proof opsiz_pos. replace (p + opsiz) with (p + 1 * opsiz) by lia. replace (p - opsiz) with (p + (-1) * opsiz) by lia.
  by rewrite !Z.mod_add by lia.
Qed.

Lemma aligned_lt p q : p mod opsiz = 0 -> q mod opsiz = 0 -> p < q -> p + opsiz <= q.
Proof.
  intros Hp Hq L. pose proof opsiz_pos as Po. assert (opsiz <> 0) as Nz by lia.
  apply Z.mod_divide in Hp as [i ->], Hq as [j ->]; [|done..]. assert (i < j) by nia. nia.
Qed.

(** The offset of an address in its word. *)
Lemma align_offset a : exists r, a = align_down a + Z.of_nat r /\ a mod opsiz = Z.of_nat r /\ (r < op_size)%nat.
Proof.
  pose proof opsiz_pos. pose proof (Z.mod_pos_bound a opsiz opsiz_pos) as B. exists (Z.to_nat (a mod opsiz)).
  rewrite Z2Nat.id, align_down_eq by lia. unfold opsiz in B |- *. lia.
Qed.

(** ** The first word *)

(** The mask of the bytes from [s] to the end of its word. *)
Section First.
Variables (P : Z -> bool).
Definition mask_of (b : Z) : Z := if P b then 128 else 0.

Lemma mask_of_byte b : is_byte (mask_of b).
Proof. unfold mask_of, is_byte. destruct (P b); lia. Qed.

Lemma first_mask s x : x = wordm (map mask_of (window m (align_down s) op_size)) ->
  (forall e, s <= e < align_down s + opsiz -> P (byte_at m e) = true -> (forall y, s <= y < e -> P (byte_at m y) = false) ->
     shift_find x s <> 0 /\ index_first (shift_find x s) = Some (e - s)) /\
  ((forall y, s <= y < align_down s + opsiz -> P (byte_at m y) = false) -> shift_find x s = 0).
Proof.
  intros ->. destruct (align_offset s) as (r & Es & Em & Hr). set (a := align_down s) in *.
  assert (W : is_word (map mask_of (window m a op_size))).
  { apply map_word; [intros; apply mask_of_byte|apply window_word]. }
  rewrite (shift_find_wordm _ s r W Em) by lia. rewrite skipn_map, drop_window, <- Es by lia.
  assert (Lo : opsiz = Z.of_nat op_size) by done.
  split.
  - intros e Be Pe Ne. assert (exists k, e = s + Z.of_nat k /\ (k < op_size - r)%nat) as (k & -> & Hk).
    { exists (Z.to_nat (e - s)). lia. }
    rewrite (window_split s (op_size - r) k Hk), map_app. cbn [map]. rewrite <- app_assoc. cbn [app].
    assert (Ez : map mask_of (window m s k) = replicate k 0).
    { assert (F : Forall (fun b => mask_of b = 0) (window m s k)).
      { apply Forall_window. intros x Hx. unfold mask_of. rewrite Ne by lia. done. }
      rewrite <- (length_window s k) at 2. clear -F. induction F as [|b l Hb F IH]; [done|]. cbn [map length replicate]. by rewrite Hb, IH. }
    rewrite Ez. set (t := map mask_of _ ++ replicate r 0).
    assert (Wt : is_word (replicate k 0 ++ mask_of (byte_at m (s + Z.of_nat k)) :: t)).
    { split.
      - apply Forall_app. split; [by apply replicate_bytes|]. constructor; [apply mask_of_byte|]. apply Forall_app.
        split; [apply Forall_bytes_map; [intros; apply mask_of_byte|apply window_bytes]|by apply replicate_bytes].
      - unfold t. rewrite length_app. cbn [length]. rewrite length_app, length_map, length_window, !length_replicate. lia. }
    assert (Mk : mask_of (byte_at m (s + Z.of_nat k)) <> 0) by (unfold mask_of; by rewrite Pe).
    assert (I : index_first (wordm (replicate k 0 ++ mask_of (byte_at m (s + Z.of_nat k)) :: t)) = Some (Z.of_nat k)).
    { apply index_first_spec; [apply mask_of_byte|done|done]. }
    split; [|rewrite I; f_equal; lia]. intros E. rewrite E in I. unfold index_first, ctz, clz in I. by destruct little_endian.
  - intros Ne. assert (Ez : map mask_of (window m s (op_size - r)) = replicate (op_size - r) 0).
    { assert (F : Forall (fun b => mask_of b = 0) (window m s (op_size - r))).
      { apply Forall_window. intros x Hx. unfold mask_of. rewrite Ne by lia. done. }
      rewrite <- (length_window s (op_size - r)) at 2. clear -F. induction F as [|b l Hb F IH]; [done|]. cbn [map length replicate]. by rewrite Hb, IH. }
    rewrite Ez, <- replicate_add. unfold wordm. rewrite rev_zeros. destruct little_endian; apply lev_zeros.
Qed.
End First.

(** ** Scanning *)

(** The words of [s] and behind up to the one in which the search ends can be
    read. *)
Definition readable (P : Z -> bool) (s : Z) : Prop := forall w, w mod opsiz = 0 -> align_down s <= w ->
  (forall y, s <= y < w -> P (byte_at m y) = false) -> mapped m w = true.

(** [e] is the first address from [s] on where [P] holds. *)
Definition first_at (P : Z -> bool) (s e : Z) : Prop :=
  s <= e /\ P (byte_at m e) = true /\ forall y, s <= y < e -> P (byte_at m y) = false.

Lemma existsb_window (P : Z -> bool) a n : existsb P (window m a n) = true <-> exists y, a <= y < a + Z.of_nat n /\ P (byte_at m y) = true.
Proof.
  rewrite existsb_exists. setoid_rewrite <- list_elem_of_In. split.
  - intros (x & (y & Hy & <-)%window_elem & Px). by exists y.
  - intros (y & Hy & Py). exists (byte_at m y). split; [|done]. apply window_elem. by exists y.
Qed.

Lemma scan_loop (P has : Z -> bool) s e p : p mod opsiz = 0 -> align_down s <= p -> readable P s -> first_at P s e ->
  p + opsiz <= e -> e - p < 2 ^ 64 ->
  (forall q, has (wordm (window m q op_size)) = existsb P (window m q op_size)) ->
  run 64 (fun p =>
      match load_word m (p + opsiz) with
      | None => inr None
      | Some w => if has w then inr (Some (p + opsiz, w)) else inl (p + opsiz)
      end) p = Some (align_down e, wordm (window m (align_down e) op_size)).
Proof.
  intros Ap Bp R (Bs & Pe & Ne) Be B64 Hh. pose proof opsiz_pos as Po.
  destruct (run_spec (fun p =>
      match load_word m (p + opsiz) with
      | None => inr None
      | Some w => if has w then inr (Some (p + opsiz, w)) else inl (p + opsiz)
      end)
    (fun n q => q mod opsiz = 0 /\ align_down s <= q /\ q + opsiz <= e /\ n = e - q)
    (fun r => r = (align_down e, wordm (window m (align_down e) op_size))) 64 (e - p) p) as (r & -> & ->); [|done|done|done].
  intros n q (Aq & Bq & Eq & ->). destruct (align_next q Aq) as [An _].
  rewrite load_word_ok by (apply R; [done|lia|]; intros y Hy; apply Ne; lia). rewrite Hh.
  destruct (existsb P (window m (q + opsiz) op_size)) eqn:Ex.
  - apply existsb_window in Ex as (y & Hy & Py). assert (e <= y).
    { destruct (Z.le_gt_cases e y) as [|G]; [done|]. rewrite Ne in Py; [done|]. pose proof (align_down_bounds s). lia. }
    rewrite (align_unique e (q + opsiz)); [done|done|]. unfold opsiz in *. lia.
  - exists (e - (q + opsiz)). assert (q + opsiz + opsiz <= e).
    { destruct (Z.le_gt_cases (q + opsiz + opsiz) e) as [|G]; [done|]. exfalso.
      assert (existsb P (window m (q + opsiz) op_size) = true); [|congruence].
      apply existsb_window. exists e. split; [unfold opsiz in *; lia|done]. }
    split; [lia|]. repeat split; (done || lia).
Qed.

(** The word in which the search ends. *)
Lemma last_split P s e : first_at P s e -> align_down s < align_down e ->
  exists pre post, window m (align_down e) op_size = pre ++ byte_at m e :: post /\
    align_down e + Z.of_nat (length pre) = e /\ Forall (fun b => P b = false) pre.
Proof.
  intros (Bs & Pe & Ne) L. destruct (align_offset e) as (r & Er & _ & Hr).
  exists (window m (align_down e) r), (window m (align_down e + Z.of_nat r + 1) (op_size - r - 1)).
  assert (Eb : byte_at m e = byte_at m (align_down e + Z.of_nat r)) by (by rewrite <- Er).
  rewrite Eb, <- window_split by done. rewrite length_window. split; [done|]. split; [done|].
  apply Forall_window. intros x Hx. apply Ne. destruct (align_down_bounds s) as [Bd As], (align_down_bounds e) as [_ Ae].
  pose proof (aligned_lt _ _ As Ae L). lia.
Qed.

Lemma first_word_or_later P s e : first_at P s e ->
  (s <= e < align_down s + opsiz /\ align_down e = align_down s) \/ (align_down s + opsiz <= e /\ align_down s < align_down e).
Proof.
  intros (Bs & _ & _). destruct (align_down_bounds s) as [Bd As], (align_down_bounds e) as [Be Ae]. pose proof opsiz_pos.
  destruct (Z.lt_ge_cases e (align_down s + opsiz)) as [L|L]; [left|right; lia]. split; [lia|]. apply align_unique; [done|lia].
Qed.
End Memory.

Section Theorems.
Context `{OpT}.
Variable m : memory.
Hypothesis m_ok : good_memory m.

Definition is_zero (b : Z) : bool := b =? 0.

Lemma existsb_zero l : bool_decide (0 ∈ l) = existsb is_zero l.
Proof.
  apply eq_true_iff_eq. rewrite bool_decide_eq_true, existsb_exists. setoid_rewrite <- list_elem_of_In. unfold is_zero. split.
  - intros I. by exists 0.
  - by intros (x & I & ->%Z.eqb_eq).
Qed.

Lemma strlen_spec s e : readable m is_zero s -> first_at m is_zero s e -> e - s < 2 ^ 63 -> __strlen m s = Some (e - s).
Proof.
  intros R F B. unfold __strlen. destruct (align_down_bounds s) as [Bs As]. pose proof opsiz_pos. pose proof opsiz_le.
  rewrite load_word_ok by (apply R; [done|lia|lia]). rewrite bind_ok.
  rewrite find_zero_all_wordm by (by apply window_word).
  destruct (first_mask m m_ok is_zero s _ eq_refl) as [M1 M0].
  change (map zmask (window m (align_down s) op_size)) with (map (mask_of is_zero) (window m (align_down s) op_size)).
  destruct (first_word_or_later m is_zero s e F) as [[Be Ea]|[Be La]]; destruct (F) as (_ & Pe & Ne).
  - destruct (M1 e Be Pe Ne) as [N ->]. by rewrite (proj2 (Z.eqb_neq _ 0) N).
  - rewrite M0 by (intros y Hy; apply Ne; lia). cbn [Z.eqb negb].
    rewrite (scan_loop m is_zero has_zero s e); [|done|done|done|done|done|lia|].
    2: { intros q. rewrite has_zero_spec by (by apply window_word). apply existsb_zero. }
    rewrite bind_ok. destruct (last_split m is_zero s e F La) as (pre & post & Ew & El & Fp).
    pose proof (window_word m m_ok (align_down e)) as W. rewrite Ew in *. apply Z.eqb_eq in Pe. rewrite Pe in *.
    rewrite index_first_zero_spec; [|done|].
    + cbn. f_equal. lia.
    + intros I. by apply (proj1 (list.Forall_forall _ _) Fp) in I.
Qed.

Lemma repeat_wrap c : repeat_bytes (wrap 8 c) = repeat_bytes c /\ is_byte (wrap 8 c).
Proof. unfold repeat_bytes, wrap. rewrite Z.mod_mod by lia. split; [done|]. unfold is_byte. pose proof (Z.mod_pos_bound c (2 ^ 8)). lia. Qed.

Lemma strchrnul_spec s c_in e : let c := wrap 8 c_in in readable m (stops c) s -> first_at m (stops c) s e -> e - s < 2 ^ 63 ->
  __strchrnul m s c_in = Some e.
Proof.
  intros c R F B. unfold __strchrnul. destruct (align_down_bounds s) as [Bs As]. pose proof opsiz_pos. pose proof opsiz_le.
  destruct (repeat_wrap c_in) as [<- Hc]. fold c in Hc |- *.
  rewrite load_word_ok by (apply R; [done|lia|lia]). rewrite bind_ok.
  rewrite find_zero_eq_all_wordm by (try apply window_word; done).
  destruct (first_mask m m_ok (stops c) s _ eq_refl) as [M1 M0].
  change (map (fun b => if stops c b then 128 else 0) (window m (align_down s) op_size)) with (map (mask_of (stops c)) (window m (align_down s) op_size)).
  destruct (first_word_or_later m (stops c) s e F) as [[Be Ea]|[Be La]]; destruct (F) as (_ & Pe & Ne).
  - destruct (M1 e Be Pe Ne) as [N ->]. rewrite (proj2 (Z.eqb_neq _ 0) N). cbn. f_equal. lia.
  - rewrite M0 by (intros y Hy; apply Ne; lia). cbn [Z.eqb negb].
    rewrite (scan_loop m (stops c) (fun w => has_zero_eq w (repeat_bytes c)) s e); [|done|done|done|done|done|lia|].
    2: { intros q. by apply has_zero_eq_spec; [apply window_word|]. }
    rewrite bind_ok. destruct (last_split m (stops c) s e F La) as (pre & post & Ew & El & Fp).
    pose proof (window_word m m_ok (align_down e)) as W. rewrite Ew in *.
    rewrite index_first_zero_eq_spec by done. cbn. f_equal. lia.
Qed.

Lemma load_byte_ok e : mapped m (align_down e) = true -> load_byte m e = Some (byte_at m e).
Proof. unfold load_byte. by intros ->. Qed.

Lemma strchr_spec s c_in e : let c := wrap 8 c_in in readable m (stops c) s -> first_at m (stops c) s e -> e - s < 2 ^ 63 ->
  strchr m s c_in = Some (if byte_at m e =? c then Some e else None).
Proof.
  intros c R F B. unfold strchr. rewrite (strchrnul_spec s c_in e R F B). rewrite bind_ok. rewrite load_byte_ok; [done|].
  destruct (F) as (L & _ & Ne). destruct (align_down_bounds e) as [Be Ae], (align_down_bounds s) as [Bs As]. apply R; [done| |].
  - destruct (Z.le_gt_cases (align_down s) (align_down e)) as [|G]; [done|]. pose proof (aligned_lt _ _ Ae As G). lia.
  - intros y Hy. apply Ne. lia.
Qed.

(** ** Bounded search *)

(** [c] is not in [[s, a)]. *)
Definition none (c s a : Z) : Prop := forall y, s <= y < a -> byte_at m y <> c.

(** The words of [[s, last]] up to the one with the first [c] can be read. *)
Definition readable_to (c s last : Z) : Prop := forall w, w mod opsiz = 0 -> align_down s <= w <= align_down last ->
  none c s w -> mapped m w = true.

Lemma first_or_none c a n : (exists e, a <= e < a + Z.of_nat n /\ byte_at m e = c /\ none c a e) \/ none c a (a + Z.of_nat n).
Proof.
  induction n as [|n [(e & Be & Ee & Ne)|Nn]]; [right; intros y Hy; lia| |].
  - left. exists e. split; [lia|done].
  - destruct (Z.eq_dec (byte_at m (a + Z.of_nat n)) c) as [E|E].
    + left. exists (a + Z.of_nat n). split; [lia|done].
    + right. intros y Hy. destruct (Z.eq_dec y (a + Z.of_nat n)) as [->|]; [done|]. apply Nn. lia.
Qed.

(** What is found in the word at [p], when there is nothing before it. *)
Lemma word_search c p : is_byte c -> 
  (exists e, p <= e < p + opsiz /\ byte_at m e = c /\ none c p e /\ has_eq (wordm (window m p op_size)) (repeat_bytes c) = true /\
     index_first_eq (wordm (window m p op_size)) (repeat_bytes c) = Some (e - p)) \/
  (none c p (p + opsiz) /\ has_eq (wordm (window m p op_size)) (repeat_bytes c) = false).
Proof.
  intros Hc. rewrite has_eq_spec by (try apply window_word; done). destruct (first_or_none c p op_size) as [(e & Be & Ee & Ne)|Nn].
  - left. exists e. split; [done|]. split; [done|]. split; [done|].
    assert (exists k, e = p + Z.of_nat k /\ (k < op_size)%nat) as (k & -> & Hk) by (exists (Z.to_nat (e - p)); lia).
    pose proof (window_word m m_ok p) as W. rewrite (window_split m p op_size k Hk), Ee in W |- *. split.
    + apply bool_decide_eq_true_2. set_solver.
    + rewrite index_first_eq_spec; [rewrite length_window; f_equal; lia|done|done|].
      intros (y & Hy & Ey)%window_elem. by apply (Ne y).
  - right. split; [done|]. apply bool_decide_eq_false_2. intros (y & Hy & Ey)%window_elem. by apply (Nn y).
Qed.

Lemma none_app c s a b : none c s a -> none c a b -> none c s b.
Proof. intros N1 N2 y Hy. destruct (Z.lt_ge_cases y a); [apply N1|apply N2]; lia. Qed.

(** What [memchr] may return. *)
Definition memchr_result (c s last : Z) (r : option Z) : Prop :=
  match r with
  | Some e => s <= e <= last /\ byte_at m e = c /\ none c s e
  | None => none c s (last + 1)
  end.

Lemma memchr_result_clip c s last e : s <= e -> byte_at m e = c -> none c s e ->
  memchr_result c s last (if e <=? last then Some e else None).
Proof.
  intros Bs Ee Ne. destruct (Z.leb_spec e last); cbn; [split; [lia|done]|]. intros y Hy. apply Ne. lia.
Qed.

Lemma memchr_loop c s last : is_byte c -> 0 <= s <= last -> last < 2 ^ 64 -> readable_to c s last ->
  align_down s < align_down last -> none c s (align_down s + opsiz) ->
  exists r, run 64 (fun word_ptr =>
        match load_word m word_ptr with
        | None => inr None
        | Some word =>
          if word_ptr =? align_down last then
            inr (if has_eq word (repeat_bytes c) then
                   i ← index_first_eq word (repeat_bytes c);
                   let ret := word_ptr + i in Some (if ret <=? last then Some ret else None)
                 else Some None)
          else if has_eq word (repeat_bytes c) then
            inr (i ← index_first_eq word (repeat_bytes c); Some (Some (word_ptr + i)))
          else inl (word_ptr + opsiz)
        end) (align_down s + opsiz) = Some r /\ memchr_result c s last r.
Proof.
  intros Hc Bs B64 R L N0. destruct (align_down_bounds s) as [Ds As], (align_down_bounds last) as [Dl Al]. pose proof opsiz_pos.
  pose proof (aligned_lt _ _ As Al L) as L1. destruct (align_next _ As) as [An _].
  apply (run_spec _ (fun n p => p mod opsiz = 0 /\ align_down s + opsiz <= p <= align_down last /\ none c s p /\ n = align_down last - p) _ 64
    (align_down last - (align_down s + opsiz))); [|done|].
  2: { pose proof opsiz_le. lia. }
  intros n p (Ap & Bp & Np & ->). rewrite load_word_ok by (apply R; [done|lia|done]).
  destruct (word_search c p Hc) as [(e & Be & Ee & Ne & -> & ->)|[Nn ->]]; cbn [mbind option_bind].
  - assert (none c s e) by (by apply (none_app c s p)). replace (p + (e - p)) with e by lia.
    destruct (Z.eqb_spec p (align_down last)).
    + apply memchr_result_clip; [lia|done|done].
    + cbn. assert (p + opsiz <= align_down last) by (apply aligned_lt; [done|done|lia]). split; [lia|done].
  - assert (none c s (p + opsiz)) by (by apply (none_app c s p)). destruct (Z.eqb_spec p (align_down last)) as [->|].
    + cbn. intros y Hy. apply (none_app c s (align_down last) (align_down last + opsiz)); [done|done|lia].
    + exists (align_down last - (p + opsiz)). assert (p + opsiz <= align_down last) by (apply aligned_lt; [done|done|lia]).
      split; [lia|]. split; [by apply align_next|]. split; [lia|]. done.
Qed.

Lemma memchr_spec s c_in n : let c := wrap 8 c_in in let last := sadd s (n - 1) in
  0 <= s <= UINTPTR_MAX -> 0 < n -> readable_to c s last ->
  exists r, __memchr m s c_in n = Some r /\ memchr_result c s last r.
Proof.
  intros c last Bs Bn R. unfold __memchr. rewrite (proj2 (Z.eqb_neq n 0)) by lia. cbv zeta. fold last.
  destruct (repeat_wrap c_in) as [<- Hc]. fold c in Hc |- *.
  assert (Bl : s <= last /\ last < 2 ^ 64).
  { unfold last, sadd, UINTPTR_MAX, bits in *. pose proof opsiz_le. pose proof opsiz_pos.
    assert (2 ^ (8 * opsiz) <= 2 ^ 64) by (apply Z.pow_le_mono_r; lia).
    destruct (Z.ltb_spec (2 ^ (8 * opsiz) - 1 - s) (n - 1)); lia. }
  destruct (align_down_bounds s) as [Ds As], (align_down_bounds last) as [Dl Al]. pose proof opsiz_pos.
  assert (Ll : align_down s <= align_down last).
  { destruct (Z.le_gt_cases (align_down s) (align_down last)) as [|G]; [done|]. pose proof (aligned_lt _ _ Al As G). lia. }
  rewrite load_word_ok by (apply R; [done|lia|intros y Hy; lia]). rewrite bind_ok.
  rewrite find_eq_all_wordm by (try apply window_word; done).
  destruct (first_mask m m_ok (fun b => b =? c) s _ eq_refl) as [M1 M0].
  change (map (fun b => if b =? c then 128 else 0) (window m (align_down s) op_size)) with (map (mask_of (fun b => b =? c)) (window m (align_down s) op_size)).
  destruct (align_offset s) as (r & Es & _ & Hr).
  destruct (first_or_none c s (op_size - r)) as [(e & Be & Ee & Ne)|Nn].
  - destruct (M1 e) as [N ->]; [unfold opsiz in *; lia|by apply Z.eqb_eq|intros y Hy; apply Z.eqb_neq; by apply Ne|].
    rewrite (proj2 (Z.eqb_neq _ 0) N). cbn. eexists. split; [reflexivity|]. replace (s + (e - s)) with e by lia.
    apply memchr_result_clip; [lia|done|done].
  - assert (N0 : none c s (align_down s + opsiz)) by (intros y Hy; apply Nn; unfold opsiz in *; lia).
    rewrite M0 by (intros y Hy; apply Z.eqb_neq; by apply N0). cbn [Z.eqb negb].
    destruct (Z.eqb_spec (align_down s) (align_down last)) as [E|E].
    + exists None. split; [done|]. cbn. intros y Hy. apply N0. lia.
    + apply memchr_loop; done || lia.
Qed.

(** A limit beyond the end of the address space is that end for the search, but
    is still what is returned when nothing is found. *)
Lemma strnlen_spec s n : let last := sadd s (n - 1) in
  0 <= s <= UINTPTR_MAX -> 0 < n -> readable_to 0 s last ->
  exists k, __strnlen m s n = Some k /\ 0 <= k <= n /\ none 0 s (Z.min (s + k) (last + 1)) /\
    (k < n -> s + k <= last /\ byte_at m (s + k) = 0).
Proof.
  intros last Bs Bn R. unfold __strnlen. destruct (memchr_spec s 0 n Bs Bn R) as (r & -> & Hr). rewrite bind_ok.
  assert (El : last <= s + (n - 1)) by (unfold last, sadd; destruct (Z.ltb_spec (UINTPTR_MAX - s) (n - 1)); lia).
  fold last in Hr. destruct r as [e|]; cbn in Hr.
  - destruct Hr as (Be & Ee & Ne). exists (e - s). split; [done|]. split; [lia|]. replace (s + (e - s)) with e by lia.
    rewrite Z.min_l by lia. split; [done|]. intros _. split; [lia|done].
  - exists n. split; [done|]. split; [lia|]. split; [|lia]. rewrite Z.min_r by lia. intros y Hy. apply Hr. lia.
Qed.

Lemma rawmemchr_spec s c_in e : let c := wrap 8 c_in in 0 <= s -> e < UINTPTR_MAX - 1 -> readable m (fun b => b =? c) s -> 
  first_at m (fun b => b =? c) s e -> e - s < 2 ^ 63 -> __rawmemchr m s c_in = Some (Some e).
Proof.
  intros c Bs Bm R F B. unfold __rawmemchr. fold c. destruct (Z.eqb_spec c 0) as [E0|E0]; cbn [negb].
  - assert (Ez : (fun b => b =? c) = is_zero) by (by rewrite E0). rewrite Ez in R, F. rewrite (strlen_spec s e R F B), bind_ok. do 2 f_equal. lia.
  - destruct (F) as (L & Pe & Ne). apply Z.eqb_eq in Pe.
    destruct (memchr_spec s c_in UINTPTR_MAX) as (r & -> & Hr); [lia|lia| |].
    + intros w Aw Bw Nw. apply R; [done|lia|]. intros y Hy. apply Z.eqb_neq. by apply Nw.
    + fold c in Hr. assert (El : e < sadd s (UINTPTR_MAX - 1)).
      { unfold sadd. destruct (Z.ltb_spec (UINTPTR_MAX - s) (UINTPTR_MAX - 1)); lia. }
      destruct r as [x|]; cbn in Hr; [|exfalso; apply (Hr e); [lia|done]]. destruct Hr as (Bx & Ex & Nx). do 2 f_equal.
      destruct (Z.lt_trichotomy x e) as [L1|[->|L1]]; [|done|].
      * specialize (Ne x ltac:(lia)). apply Z.eqb_neq in Ne. done.
      * exfalso. apply (Nx e); [lia|done].
Qed.
End Theorems.
