(* ===== verification/StringBack.v ===== *)
(** * Searching backwards: [string/memrchr.c] *)

From S2P Require Import Prelude CInt CLoop StringWord StringFind StringShift StringSearch.

Section Theorems.
Context `{OpT}.
Variable m : memory.
Hypothesis m_ok : good_memory m.

Lemma last_or_none c a n : (exists e, a <= e < a + Z.of_nat n /\ byte_at m e = c /\ none m c (e + 1) (a + Z.of_nat n)) \/ none m c a (a + Z.of_nat n).
Proof.
  induction n as [|n IH]; [right; intros y Hy; lia|].
  destruct (Z.eq_dec (byte_at m (a + Z.of_nat n)) c) as [E|E].
  - left. exists (a + Z.of_nat n). split; [lia|]. split; [done|]. intros y Hy. lia.
  - destruct IH as [(e & Be & Ee & Ne)|Nn].
    + left. exists e. split; [lia|]. split; [done|]. intros y Hy. destruct (Z.eq_dec y (a + Z.of_nat n)) as [->|]; [done|]. apply Ne. lia.
    + right. intros y Hy. destruct (Z.eq_dec y (a + Z.of_nat n)) as [->|]; [done|]. apply Nn. lia.
Qed.

Lemma align_up_last x : align_up x - opsiz = align_down (x - 1).
Proof.
  unfold align_up. pose proof opsiz_pos. destruct (align_down_bounds (x + opsiz - 1)) as [B A]. symmetry. apply align_unique; [|lia].
  by apply align_next.
Qed.

(** The masked last word: its bytes before [x]. *)
Lemma shift_last x (g : Z -> Z) : (forall b, is_byte (g b)) -> let p := align_down (x - 1) in
  exists k, x = p + Z.of_nat k /\ (0 < k <= op_size)%nat /\
    shift_find_last (wordm (map g (window m p op_size))) x = wordm (map g (window m p k) ++ replicate (op_size - k) 0).
Proof.
  intros Hg p. destruct (align_down_bounds (x - 1)) as [B A]. fold p in B, A. pose proof opsiz_pos.
  exists (Z.to_nat (x - p)). rewrite Z2Nat.id by lia. split; [lia|]. split; [unfold opsiz in *; lia|].
  set (k := Z.to_nat (x - p)). assert (Ek : x = p + Z.of_nat k) by lia. assert (Hk : (0 < k <= op_size)%nat) by (unfold opsiz in *; lia).
  assert (W : is_word (map g (window m p op_size))) by (apply map_word; [auto|by apply window_word]).
  destruct (Nat.eq_dec k op_size) as [E|E].
  - assert (x mod opsiz = 0) as M.
    { rewrite Ek, E. change (Z.of_nat op_size) with opsiz. by apply align_next. }
    unfold shift_find_last. rewrite M. cbn [Z.eqb]. rewrite E, Nat.sub_diag. cbn [replicate]. by rewrite app_nil_r.
  - assert (M : x mod opsiz = Z.of_nat k).
    { symmetry. apply (Z.mod_unique _ _ (p / opsiz)); [unfold opsiz in *; lia|]. assert (opsiz <> 0) as Nz by lia. pose proof (Z.div_mod p opsiz Nz). lia. }
    rewrite (shift_find_last_wordm _ x k W M) by lia. rewrite firstn_map, take_window by lia. done.
Qed.

Lemma mask_zeros (g : Z -> Z) a k : (forall y, a <= y < a + Z.of_nat k -> g (byte_at m y) = 0) -> map g (window m a k) = replicate k 0.
Proof.
  intros Hg. pose proof (Forall_window m (fun b => g b = 0) a k Hg) as F. rewrite <- (length_window m a k) at 2.
  clear -F. induction F as [|b l Hb F IH]; [done|]. cbn [map length replicate]. by rewrite Hb, IH.
Qed.

Definition eq_mask (c b : Z) : Z := if b =? c then 128 else 0.

Lemma eq_mask_byte c b : is_byte (eq_mask c b).
Proof. unfold eq_mask, is_byte. destruct (b =? c); lia. Qed.

Lemma last_mask c x : let p := align_down (x - 1) in let k := shift_find_last (wordm (map (eq_mask c) (window m p op_size))) x in
  (forall e, p <= e < x -> byte_at m e = c -> none m c (e + 1) x -> k <> 0 /\ index_last k = Some (e - p)) /\
  (none m c p x -> k = 0).
Proof.
  intros p k. destruct (shift_last x (eq_mask c) (eq_mask_byte c)) as (n & Ex & Hn & Ek). fold p in Ex, Ek. subst k. rewrite Ek.
  split.
  - intros e Be Ee Ne. assert (exists i, e = p + Z.of_nat i /\ (i < n)%nat) as (i & -> & Hi) by (exists (Z.to_nat (e - p)); lia).
    rewrite (window_split m p n i Hi), map_app. cbn [map]. rewrite <- app_assoc. cbn [app].
    rewrite (mask_zeros (eq_mask c) _ (n - i - 1)).
    2: { intros y Hy. unfold eq_mask. rewrite (proj2 (Z.eqb_neq _ _)); [done|]. apply Ne. lia. }
    rewrite <- replicate_add. assert (Em : eq_mask c (byte_at m (p + Z.of_nat i)) = 128) by (unfold eq_mask; by rewrite Ee, Z.eqb_refl).
    rewrite Em.
    assert (I : index_last (wordm (map (eq_mask c) (window m p i) ++ 128 :: replicate (n - i - 1 + (op_size - n)) 0)) = Some (Z.of_nat i)).
    { rewrite index_last_spec; [by rewrite length_map, length_window|unfold is_byte; lia|lia|]. split.
      - apply Forall_app. split; [apply Forall_bytes_map; [intros; apply eq_mask_byte|by apply window_bytes]|].
        constructor; [unfold is_byte; lia|by apply replicate_bytes].
      - rewrite length_app, length_map, length_window. cbn [length]. rewrite length_replicate. lia. }
    split; [|rewrite I; f_equal; lia]. intros E. rewrite E in I. unfold index_last, ctz, clz in I. by destruct little_endian.
  - intros Nn. rewrite (mask_zeros (eq_mask c) p n).
    2: { intros y Hy. unfold eq_mask. rewrite (proj2 (Z.eqb_neq _ _)); [done|]. apply Nn. lia. }
    rewrite <- replicate_add. unfold wordm. rewrite rev_zeros. destruct little_endian; apply lev_zeros.
Qed.

Lemma word_search_last c p : is_byte c ->
  (exists e, p <= e < p + opsiz /\ byte_at m e = c /\ none m c (e + 1) (p + opsiz) /\
     has_eq (wordm (window m p op_size)) (repeat_bytes c) = true /\
     index_last_eq (wordm (window m p op_size)) (repeat_bytes c) = Some (e - p)) \/
  (none m c p (p + opsiz) /\ has_eq (wordm (window m p op_size)) (repeat_bytes c) = false).
Proof.
  intros Hc. rewrite has_eq_spec by (try apply window_word; done). destruct (last_or_none c p op_size) as [(e & Be & Ee & Ne)|Nn].
  - left. exists e. split; [done|]. split; [done|]. split; [done|].
    assert (exists k, e = p + Z.of_nat k /\ (k < op_size)%nat) as (k & -> & Hk) by (exists (Z.to_nat (e - p)); lia).
    pose proof (window_word m m_ok p) as W. rewrite (window_split m p op_size k Hk), Ee in W |- *. split.
    + apply bool_decide_eq_true_2. set_solver.
    + rewrite index_last_eq_spec; [rewrite length_window; f_equal; lia|done|done|].
      intros (y & Hy & Ey)%window_elem. apply (Ne y); [lia|done].
  - right. split; [done|]. apply bool_decide_eq_false_2. intros (y & Hy & Ey)%window_elem. by apply (Nn y).
Qed.

(** The words of [[s, x)] down to the one with the last [c] can be read. *)
Definition readable_down (c s x : Z) : Prop := forall w, w mod opsiz = 0 -> align_down s <= w < x ->
  none m c (w + opsiz) x -> mapped m w = true.

Definition memrchr_result (c s x : Z) (r : option Z) : Prop :=
  match r with
  | Some e => s <= e < x /\ byte_at m e = c /\ none m c (e + 1) x
  | None => none m c s x
  end.

Lemma memrchr_result_clip c s x e : e < x -> byte_at m e = c -> none m c (e + 1) x ->
  memrchr_result c s x (if s <=? e then Some e else None).
Proof.
  intros Bs Ee Ne. destruct (Z.leb_spec s e); cbn; [split; [lia|done]|]. intros y Hy. apply Ne. lia.
Qed.

Lemma memrchr_loop c s x q : is_byte c -> 0 <= s < x -> x < 2 ^ 64 -> readable_down c s x ->
  q = align_down (x - 1) -> align_down s < q -> none m c q x ->
  exists r, run 64 (fun word_ptr =>
        match load_word m word_ptr with
        | None => inr None
        | Some word =>
          if word_ptr =? align_down s then
            inr (if has_eq word (repeat_bytes c) then
                   i ← index_last_eq word (repeat_bytes c);
                   let ret := word_ptr + i in Some (if s <=? ret then Some ret else None)
                 else Some None)
          else if has_eq word (repeat_bytes c) then
            inr (i ← index_last_eq word (repeat_bytes c); Some (Some (word_ptr + i)))
          else inl (word_ptr - opsiz)
        end) (q - opsiz) = Some r /\ memrchr_result c s x r.
Proof.
  intros Hc Bs B64 R Eq L N0. destruct (align_down_bounds s) as [Ds As], (align_down_bounds (x - 1)) as [Dl Al]. rewrite <- Eq in Dl, Al.
  pose proof opsiz_pos. pose proof (aligned_lt _ _ As Al L) as L1.
  apply (run_spec _ (fun n p => p mod opsiz = 0 /\ align_down s <= p /\ p + opsiz <= q /\ none m c (p + opsiz) x /\ n = p - align_down s) _ 64
    (q - opsiz - align_down s)).
  - intros n p (Ap & Bp & Bq & Np & ->). rewrite load_word_ok by (apply R; [done|lia|done]).
    destruct (word_search_last c p Hc) as [(e & Be & Ee & Ne & -> & ->)|[Nn ->]]; cbn [mbind option_bind].
    + assert (none m c (e + 1) x) by (by apply (none_app m c _ (p + opsiz))). replace (p + (e - p)) with e by lia.
      destruct (Z.eqb_spec p (align_down s)).
      * apply memrchr_result_clip; [lia|done|done].
      * cbn. assert (align_down s + opsiz <= p) by (apply aligned_lt; [done|done|lia]). split; [lia|done].
    + assert (Npx : none m c p x) by (by apply (none_app m c _ (p + opsiz))). destruct (Z.eqb_spec p (align_down s)) as [->|].
      * cbn. intros y Hy. apply Npx. lia.
      * exists (p - opsiz - align_down s). assert (align_down s + opsiz <= p) by (apply aligned_lt; [done|done|lia]).
        split; [lia|]. split; [by apply align_next|]. split; [lia|]. split; [lia|]. split; [|lia]. replace (p - opsiz + opsiz) with p by lia. done.
  - split; [by apply align_next|]. split; [lia|]. split; [lia|]. split; [|lia]. by replace (q - opsiz + opsiz) with q by lia.
  - pose proof opsiz_le. lia.
Qed.

Lemma memrchr_spec s c_in n : let c := wrap 8 c_in in let x := s + n in 0 <= s -> 0 < n -> x <= UINTPTR_MAX -> readable_down c s x ->
  exists r, __memrchr m s c_in n = Some r /\ memrchr_result c s x r.
Proof.
  intros c x Bs Bn Bx R. unfold __memrchr. rewrite (proj2 (Z.eqb_neq n 0)) by lia. cbv zeta. fold x.
  destruct (repeat_wrap c_in) as [<- Hc]. fold c in Hc |- *. rewrite align_up_last.
  assert (Bl : x < 2 ^ 64).
  { unfold UINTPTR_MAX, bits in *. pose proof opsiz_le. pose proof opsiz_pos. assert (2 ^ (8 * opsiz) <= 2 ^ 64) by (apply Z.pow_le_mono_r; lia). lia. }
  set (q := align_down (x - 1)). destruct (align_down_bounds s) as [Ds As], (align_down_bounds (x - 1)) as [Dl Al]. fold q in Dl, Al. pose proof opsiz_pos.
  assert (Ll : align_down s <= q).
  { destruct (Z.le_gt_cases (align_down s) q) as [|G]; [done|]. pose proof (aligned_lt _ _ Al As G). lia. }
  rewrite load_word_ok by (apply R; [done|lia|intros y Hy; lia]). rewrite bind_ok.
  rewrite find_eq_all_wordm by (try apply window_word; done).
  change (map (fun b => if b =? c then 128 else 0) (window m q op_size)) with (map (eq_mask c) (window m q op_size)).
  destruct (last_mask c x) as [M1 M0]. fold q in M1, M0.
  destruct (last_or_none c q (Z.to_nat (x - q))) as [(e & Be & Ee & Ne)|Nn]; rewrite Z2Nat.id in * by lia; replace (q + (x - q)) with x in * by lia.
  - destruct (M1 e) as [N ->]; [lia|done|done|]. rewrite (proj2 (Z.eqb_neq _ 0) N). cbn. eexists. split; [reflexivity|]. replace (q + (e - q)) with e by lia.
    apply memrchr_result_clip; [lia|done|done].
  - rewrite M0 by done. cbn [Z.eqb negb]. destruct (Z.eqb_spec q (align_down s)) as [E|E].
    + exists None. split; [done|]. cbn. intros y Hy. apply Nn. lia.
    + apply memrchr_loop; try done; lia.
Qed.
End Theorems.
