(* ===== verification/StringCompare.v ===== *)
(** * Comparing strings by words: [string/strcmp.c] *)

From S2P Require Import Prelude CInt CLoop StringWord StringFind StringShift StringSearch.

Section Code.
Context `{OpT}.

Definition final_cmp (w1 w2 : Z) : option Z :=
  idx ← index_first_zero_ne w1 w2;
  Some (extractbyte w1 idx - extractbyte w2 idx).

Definition strcmp_aligned_loop (m : memory) (x1 x2 w1 : Z) : option Z :=
  w2 ← load_word m x2;
  run 64 (fun '(x1, x2, w1, w2) =>
    if w1 =? w2 then
      if has_zero w1 then inr (Some 0)
      else match load_word m x1, load_word m x2 with
           | Some w1, Some w2 => inl (x1 + opsiz, x2 + opsiz, w1, w2)
           | _, _ => inr None
           end
    else inr (final_cmp w1 w2)) (x1, x2 + opsiz, w1, w2).

(** How the unaligned loop ends: with a result, or by [break]. *)
Inductive loop_exit := Returned (r : Z) | Broken (x1 w1 w2b : Z).

Definition strcmp_unaligned_loop (m : memory) (x1 x2 w1 ofs : Z) : option Z :=
  w2a ← load_word m x2;
  let x2 := x2 + opsiz in
  let sh_1 := ofs * 8 in
  let sh_2 := opsiz * 8 - sh_1 in
  let w2 := MERGE w2a sh_1 (op (-1)) sh_2 in
  if negb (has_zero w2) then
    r ← run 64 (fun '(x1, x2, w1, w2a) =>
      match load_word m x2 with
      | None => inr None
      | Some w2b =>
        let w2 := MERGE w2a sh_1 w2b sh_2 in
        if negb (w1 =? w2) then inr (r ← final_cmp w1 w2; Some (Returned r))
        else if has_zero w2b then inr (Some (Broken x1 w1 w2b))
        else match load_word m x1 with
             | None => inr None
             | Some w1 => inl (x1 + opsiz, x2 + opsiz, w1, w2b)
             end
      end) (x1, x2, w1, w2a);
    match r with
    | Returned r => Some r
    | Broken x1 w1 w2b =>
      if has_zero w1 then Some 0
      else
        w1 ← load_word m x1;
        final_cmp w1 (MERGE w2b sh_1 0 sh_2)
    end
  else final_cmp w1 w2.

(** The loop over the bytes before [p1] is aligned: the new pointers, or a
    result. *)
Fixpoint strcmp_bytes (m : memory) (n : nat) (p1 p2 : Z) : option (Z * Z + Z) :=
  match n with
  | O => Some (inl (p1, p2))
  | S n =>
    c1 ← load_byte m p1;
    c2 ← load_byte m p2;
    let diff := c1 - c2 in
    if (c1 =? 0) || negb (diff =? 0) then Some (inr diff) else strcmp_bytes m n (p1 + 1) (p2 + 1)
  end.

Definition strcmp (m : memory) (p1 p2 : Z) : option Z :=
  let n := op (- p1) mod opsiz in
  r ← strcmp_bytes m (Z.to_nat n) p1 p2;
  match r with
  | inr diff => Some diff
  | inl (p1, p2) =>
    w1 ← load_word m p1;
    let x1 := p1 + opsiz in
    let ofs := p2 mod opsiz in
    if ofs =? 0 then strcmp_aligned_loop m x1 p2 w1 else strcmp_unaligned_loop m x1 (p2 - ofs) w1 ofs
  end.
End Code.

Section Merge.
Context `{OpT}.
Variable m : memory.
Hypothesis m_ok : good_memory m.

(** The two words around an unaligned one. *)
Lemma merged_window q (o : nat) : (o <= op_size)%nat ->
  MERGE (wordm (window m q op_size)) (Z.of_nat o * 8) (wordm (window m (q + opsiz) op_size)) (opsiz * 8 - Z.of_nat o * 8) =
  wordm (window m (q + Z.of_nat o) op_size).
Proof.
  intros Ho. rewrite (MERGE_wordm _ _ o); [|by apply window_word..|done|lia|unfold bits; lia]. f_equal.
  rewrite drop_window, take_window by lia. unfold opsiz.
  replace (q + Z.of_nat op_size) with (q + Z.of_nat o + Z.of_nat (op_size - o)) by lia. rewrite <- window_app. f_equal. lia.
Qed.

(** The end of a word with other bytes behind it. *)
Lemma merged_end q (o : nat) k : (o <= op_size)%nat -> is_word k ->
  let l := window m (q + Z.of_nat o) (op_size - o) ++ take o k in
  MERGE (wordm (window m q op_size)) (Z.of_nat o * 8) (wordm k) (opsiz * 8 - Z.of_nat o * 8) = wordm l /\ is_word l /\
  take (op_size - o) l = window m (q + Z.of_nat o) (op_size - o).
Proof.
  intros Ho Wk. cbn zeta. split; [|split].
  - rewrite (MERGE_wordm _ _ o); [|by apply window_word|done|done|lia|unfold bits; lia]. by rewrite drop_window by lia.
  - destruct Wk as [Fk Lk]. split; [apply Forall_app; split; [by apply window_bytes|by apply Forall_take]|].
    rewrite length_app, length_window, length_take. lia.
  - rewrite <- (length_window m (q + Z.of_nat o) (op_size - o)) at 1. apply take_app_length.
Qed.
End Merge.

Section Theorems.
Context `{OpT}.
Variable m : memory.
Hypothesis m_ok : good_memory m.
Variables (p1 p2 : Z).

(** The first [i] characters are the same and none is the last. *)
Definition same (i : Z) : Prop := forall j, 0 <= j < i -> byte_at m (p1 + j) = byte_at m (p2 + j) /\ byte_at m (p1 + j) <> 0.

(** The comparison is decided at [k]. *)
Definition decided (k : Z) : Prop := byte_at m (p1 + k) = 0 \/ byte_at m (p1 + k) <> byte_at m (p2 + k).

(** The difference of the first characters that differ or are the last. *)
Definition strcmp_result (r : Z) : Prop :=
  exists k, 0 <= k /\ same k /\ decided k /\ r = byte_at m (p1 + k) - byte_at m (p2 + k).

Lemma decided_dec k : {decided k} + {~ decided k}.
Proof. unfold decided. destruct (Z.eq_dec (byte_at m (p1 + k)) 0), (Z.eq_dec (byte_at m (p1 + k)) (byte_at m (p2 + k))); solve [left; auto|right; tauto]. Defined.

Lemma same_next i : same i -> ~ decided i -> same (i + 1).
Proof.
  intros S D j Hj. destruct (Z.eq_dec j i) as [->|]; [|apply S; lia]. unfold decided in D.
  destruct (Z.eq_dec (byte_at m (p1 + i)) (byte_at m (p2 + i))), (Z.eq_dec (byte_at m (p1 + i)) 0); tauto.
Qed.

(** In the next [t] characters. *)
Lemma decided_or_same i (t : nat) : 0 <= i -> same i ->
  (exists k, i <= k < i + Z.of_nat t /\ same k /\ decided k) \/ same (i + Z.of_nat t).
Proof.
  intros Hi Si. induction t as [|t [(k & Bk & Sk & Dk)|St]]; [right; by rewrite Z.add_0_r| |].
  - left. exists k. split; [lia|done].
  - destruct (decided_dec (i + Z.of_nat t)) as [D|D].
    + left. exists (i + Z.of_nat t). split; [lia|done].
    + right. replace (i + Z.of_nat (S t)) with (i + Z.of_nat t + 1) by lia. by apply same_next.
Qed.

(** [final_cmp] on a word of the first string and a word whose first [t] bytes
    are those of the second one, when these decide the comparison. *)
Lemma final_cmp_spec i k (t : nat) l : 0 <= i -> same i -> i <= k < i + Z.of_nat t -> decided k -> same k -> (t <= op_size)%nat -> is_word l ->
  take t l = window m (p2 + i) t ->
  exists r, final_cmp (wordm (window m (p1 + i) op_size)) (wordm l) = Some r /\ strcmp_result r.
Proof.
  intros Hi Si Bk Dk Sk Ht Wl El. exists (byte_at m (p1 + k) - byte_at m (p2 + k)). split; [|exists k; split; [lia|done]].
  assert (exists j, k = i + Z.of_nat j /\ (j < t)%nat) as (j & -> & Hj) by (exists (Z.to_nat (k - i)); lia).
  assert (E1 : window m (p1 + i) op_size = window m (p1 + i) j ++ byte_at m (p1 + (i + Z.of_nat j)) :: window m (p1 + i + Z.of_nat j + 1) (op_size - j - 1)).
  { rewrite (Z.add_assoc p1). by apply window_split; lia. }
  assert (E2 : l = window m (p1 + i) j ++ byte_at m (p2 + (i + Z.of_nat j)) :: (window m (p2 + i + Z.of_nat j + 1) (t - j - 1) ++ drop t l)).
  { rewrite <- (take_drop t l) at 1. rewrite El, (window_split m (p2 + i) t j) by lia. rewrite <- app_assoc. cbn [app]. rewrite (Z.add_assoc p2). f_equal.
    apply window_ext. intros n Hn. rewrite <- !Z.add_assoc. symmetry. apply Sk. lia. }
  unfold final_cmp. pose proof (window_word m m_ok (p1 + i)) as W1. rewrite E1 in W1 |- *. rewrite E2 in Wl |- *.
  set (b := byte_at m (p1 + (i + Z.of_nat j))) in *. set (d := byte_at m (p2 + (i + Z.of_nat j))) in *.
  rewrite index_first_zero_ne_spec; [|done|done| |done].
  - cbn. rewrite length_window. rewrite (extractbyte_wordm _ j b), (extractbyte_wordm _ j d); [done|done| |done|].
    all: apply list_lookup_middle; by rewrite length_window.
  - intros (y & Hy & Ey)%window_elem. destruct (Sk (y - p1) ltac:(lia)) as [_ N]. replace (p1 + (y - p1)) with y in N by lia. done.
Qed.

Hypothesis readable1 : readable m is_zero p1.
Hypothesis readable2 : readable m is_zero p2.
Variables (e1 e2 : Z).
Hypothesis end1 : first_at m is_zero p1 e1.
Hypothesis end2 : first_at m is_zero p2 e2.
Hypothesis bound2 : e2 - p2 < 2 ^ 62.
Hypothesis bound1 : e1 - p1 < 2 ^ 62.

(** Words that may be read: nothing before them is the last character. *)
Lemma load1 w : w mod opsiz = 0 -> align_down p1 <= w -> (forall y, p1 <= y < w -> byte_at m y <> 0) ->
  load_word m w = Some (wordm (window m w op_size)).
Proof. intros A B N. apply load_word_ok. apply readable1; [done|done|]. intros y Hy. apply Z.eqb_neq. by apply N. Qed.

Lemma load2 w : w mod opsiz = 0 -> align_down p2 <= w -> (forall y, p2 <= y < w -> byte_at m y <> 0) ->
  load_word m w = Some (wordm (window m w op_size)).
Proof. intros A B N. apply load_word_ok. apply readable2; [done|done|]. intros y Hy. apply Z.eqb_neq. by apply N. Qed.

Lemma same_nonzero1 i y : same i -> p1 <= y < p1 + i -> byte_at m y <> 0.
Proof. intros S Hy. destruct (S (y - p1) ltac:(lia)) as [_ N]. by replace (p1 + (y - p1)) with y in N by lia. Qed.

Lemma same_nonzero2 i y : same i -> p2 <= y < p2 + i -> byte_at m y <> 0.
Proof.
  intros S Hy. destruct (S (y - p2) ltac:(lia)) as [E N]. replace (p2 + (y - p2)) with y in E by lia. by rewrite <- E.
Qed.

(** No zero before the end. *)
Lemma same_before_end1 i : 0 <= i -> same i -> p1 + i <= e1.
Proof.
  intros Hi S. destruct end1 as (B & Z0 & _). destruct (Z.le_gt_cases (p1 + i) e1) as [|G]; [done|]. exfalso.
  apply Z.eqb_eq in Z0. by apply (same_nonzero1 i e1 S ltac:(lia)).
Qed.

(** The rest of a word whose windows are equal. *)
Lemma windows_same i : 0 <= i -> same i -> window m (p1 + i) op_size = window m (p2 + i) op_size -> 0 ∉ window m (p1 + i) op_size -> same (i + opsiz).
Proof.
  intros Hi S E N j Hj. destruct (Z.lt_ge_cases j i) as [|G]; [apply S; lia|].
  assert (Hk : (Z.to_nat (j - i) < op_size)%nat) by (unfold opsiz in Hj; lia).
  pose proof (window_at m (p1 + i) _ _ Hk) as L1. pose proof (window_at m (p2 + i) _ _ Hk) as L2. rewrite E, L2 in L1.
  rewrite Z2Nat.id in L1 by lia. replace (p1 + i + (j - i)) with (p1 + j) in L1 by lia. replace (p2 + i + (j - i)) with (p2 + j) in L1 by lia.
  injection L1 as L1. split; [done|]. intros Z0. apply N. apply window_elem. exists (p1 + j). split; [unfold opsiz in *; lia|done].
Qed.

Lemma zero_decides i (t : nat) : 0 <= i -> same i -> 0 ∈ window m (p2 + i) t -> exists k, i <= k < i + Z.of_nat t /\ same k /\ decided k.
Proof.
  intros Hi S (y & Hy & Ey)%window_elem. destruct (decided_or_same i t Hi S) as [|St]; [done|].
  exfalso. apply (same_nonzero2 _ y St); [lia|done].
Qed.

Lemma words_differ i : 0 <= i -> same i -> window m (p1 + i) op_size <> window m (p2 + i) op_size ->
  exists r, final_cmp (wordm (window m (p1 + i) op_size)) (wordm (window m (p2 + i) op_size)) = Some r /\ strcmp_result r.
Proof.
  intros Hi Si N. destruct (decided_or_same i op_size Hi Si) as [(k & Bk & Sk & Dk)|St].
  - apply (final_cmp_spec i k op_size); try done; [by apply window_word|]. by rewrite take_window.
  - destruct N. apply window_ext. intros n Hn. rewrite <- !Z.add_assoc. apply St. lia.
Qed.

Lemma equal_zero i : 0 <= i -> same i -> window m (p1 + i) op_size = window m (p2 + i) op_size -> 0 ∈ window m (p1 + i) op_size -> strcmp_result 0.
Proof.
  intros Hi S E Z0. assert (Z2 : 0 ∈ window m (p2 + i) op_size) by (by rewrite <- E).
  destruct (zero_decides i op_size Hi S Z2) as (k & Bk & Sk & Dk). exists k. split; [lia|]. split; [done|]. split; [done|].
  assert (Ek : byte_at m (p1 + k) = byte_at m (p2 + k)); [|lia].
  assert (Hk : (Z.to_nat (k - i) < op_size)%nat) by lia.
  pose proof (window_at m (p1 + i) _ _ Hk) as L1. pose proof (window_at m (p2 + i) _ _ Hk) as L2. rewrite E, L2 in L1. rewrite Z2Nat.id in L1 by lia.
  replace (p1 + i + (k - i)) with (p1 + k) in L1 by lia. replace (p2 + i + (k - i)) with (p2 + k) in L1 by lia. by injection L1 as ->.
Qed.

(** Both pointers are aligned. *)
Lemma aligned_loop_spec i : 0 <= i -> same i -> (p1 + i) mod opsiz = 0 -> (p2 + i) mod opsiz = 0 ->
  align_down p1 <= p1 + i -> align_down p2 <= p2 + i ->
  exists r, strcmp_aligned_loop m (p1 + i + opsiz) (p2 + i) (wordm (window m (p1 + i) op_size)) = Some r /\ strcmp_result r.
Proof.
  intros Hi Si A1 A2 B1 B2. pose proof opsiz_pos as Po. unfold strcmp_aligned_loop.
  rewrite load2 by (done || intros y Hy; apply (same_nonzero2 i y Si); lia). rewrite bind_ok.
  apply (run_spec _ (fun n '(x1, x2, w1, w2) => exists j, i <= j /\ same j /\ (p1 + j) mod opsiz = 0 /\ (p2 + j) mod opsiz = 0 /\
      x1 = p1 + j + opsiz /\ x2 = p2 + j + opsiz /\ w1 = wordm (window m (p1 + j) op_size) /\ w2 = wordm (window m (p2 + j) op_size) /\ n = e1 - (p1 + j))
    _ 64 (e1 - (p1 + i))); [| |lia].
  - intros n [[[x1 x2] w1] w2] (j & Bj & Sj & C1 & C2 & -> & -> & -> & -> & ->).
    destruct (Z.eqb_spec (wordm (window m (p1 + j) op_size)) (wordm (window m (p2 + j) op_size))) as [E|E].
    + apply wordm_inj in E; [|by apply window_word..]. rewrite has_zero_spec by (by apply window_word). case_bool_decide as Z0.
      * by apply (equal_zero j); [lia|..].
      * assert (Sn : same (j + opsiz)) by (by apply windows_same; [lia|..]).
        destruct (align_next _ C1) as [D1 _], (align_next _ C2) as [D2 _].
        rewrite load1 by (done || lia || intros y Hy; apply (same_nonzero1 _ y Sn); lia).
        rewrite load2 by (done || lia || intros y Hy; apply (same_nonzero2 _ y Sn); lia).
        assert (Bn : 0 <= j + opsiz) by lia. pose proof (same_before_end1 _ Bn Sn).
        exists (e1 - (p1 + (j + opsiz))). split; [lia|]. exists (j + opsiz). rewrite !Z.add_assoc. repeat split; (done || lia || by apply Sn).
    + destruct (words_differ j ltac:(lia) Sj) as (r & -> & Hr); [|done]. intros E'. by rewrite E' in E.
  - exists i. repeat split; (done || lia || by apply Si).
Qed.

Section Unaligned.
Variable o : nat.
Hypothesis o_ok : (0 < o < op_size)%nat.

(** Before a round: the characters before [j] are the same, [q] is the word in
    which the second string is, and the rest of that word has no zero. *)
Record at_round (j q : Z) : Prop := {
  ar_pos : 0 <= j;
  ar_same : same j;
  ar_align1 : (p1 + j) mod opsiz = 0;
  ar_align2 : q mod opsiz = 0;
  ar_word : q + Z.of_nat o = p2 + j;
  ar_below1 : align_down p1 <= p1 + j;
  ar_below2 : align_down p2 <= q;
  ar_rest : 0 ∉ window m (q + Z.of_nat o) (op_size - o) }.

Lemma round_nonzero2 j q y : at_round j q -> p2 <= y < q + opsiz -> byte_at m y <> 0.
Proof.
  intros [] Hy Ey. destruct (Z.lt_ge_cases y (p2 + j)) as [L|L]; [by apply (same_nonzero2 j y ar_same0 ltac:(lia))|].
  apply ar_rest0, window_elem. exists y. split; [unfold opsiz in *; lia|done].
Qed.

(** A zero in the next word, when the characters before it are the same. *)
Lemma zero_beyond j q : at_round j q -> 0 ∉ window m (p2 + j) op_size -> 0 ∈ window m (q + opsiz) op_size ->
  0 ∈ window m (q + opsiz + Z.of_nat o) (op_size - o).
Proof.
  intros [] N (y & Hy & Ey)%window_elem. apply window_elem. exists y. split; [|done].
  destruct (Z.lt_ge_cases y (q + opsiz + Z.of_nat o)) as [L|L]; [|unfold opsiz in *; lia].
  exfalso. apply N, window_elem. exists y. split; [unfold opsiz in *; lia|done].
Qed.

(** After the loop was left by [break]. *)
Lemma broken_spec j q : at_round j q -> window m (p1 + j) op_size = window m (p2 + j) op_size -> 0 ∈ window m (q + opsiz) op_size ->
  exists r, (if has_zero (wordm (window m (p1 + j) op_size)) then Some 0
     else w1 ← load_word m (p1 + j + opsiz);
          final_cmp w1 (MERGE (wordm (window m (q + opsiz) op_size)) (Z.of_nat o * 8) 0 (opsiz * 8 - Z.of_nat o * 8))) = Some r /\ strcmp_result r.
Proof.
  intros R E Z0. destruct (R) as [Hj Sj A1 A2 Eq B1 B2 Nr]. pose proof opsiz_pos. rewrite has_zero_spec by (by apply window_word).
  case_bool_decide as Zw.
  - exists 0. split; [done|]. by apply (equal_zero j).
  - assert (Sn : same (j + opsiz)) by (by apply windows_same). destruct (align_next _ A1) as [D1 _].
    rewrite load1 by (done || lia || intros y Hy; apply (same_nonzero1 _ y Sn); lia). rewrite bind_ok.
    rewrite E in Zw. pose proof (zero_beyond j q R Zw Z0) as Zb. replace (q + opsiz + Z.of_nat o) with (p2 + (j + opsiz)) in Zb by lia.
    destruct (zero_decides (j + opsiz) (op_size - o)) as (k & Bk & Sk & Dk); [lia|done|done|].
    assert (W0 : is_word (replicate op_size 0)) by (split; [by apply replicate_bytes|apply length_replicate]).
    destruct (merged_end m m_ok (q + opsiz) o (replicate op_size 0)) as (Em & Wl & Et); [lia|done|].
    assert (E0 : wordm (replicate op_size 0) = 0) by (unfold wordm; rewrite rev_zeros; destruct little_endian; apply lev_zeros).
    rewrite E0 in Em. rewrite Em, <- Z.add_assoc.
    apply (final_cmp_spec (j + opsiz) k (op_size - o)); try done; try lia. rewrite Et. f_equal. lia.
Qed.

Lemma unaligned_loop_spec i q : 0 <= i -> same i -> (p1 + i) mod opsiz = 0 -> q mod opsiz = 0 -> q + Z.of_nat o = p2 + i ->
  align_down p1 <= p1 + i -> align_down p2 <= q ->
  exists r, strcmp_unaligned_loop m (p1 + i + opsiz) q (wordm (window m (p1 + i) op_size)) (Z.of_nat o) = Some r /\ strcmp_result r.
Proof.
  intros Hi Si A1 A2 Eq B1 B2. pose proof opsiz_pos as Po. unfold strcmp_unaligned_loop.
  rewrite load2 by (done || intros y Hy; apply (same_nonzero2 i y Si); lia). rewrite bind_ok. cbv zeta.
  destruct (ones_wordm) as [-> W1]. destruct (merged_end m m_ok q o _ ltac:(lia) W1) as (-> & Wl & Et).
  rewrite has_zero_spec by done. case_bool_decide as Z0; cbn [negb].
  - (* the end of the second string is in its first word *)
    assert (Zw : 0 ∈ window m (p2 + i) (op_size - o)).
    { apply elem_of_app in Z0 as [Z0|Z0]; [by rewrite <- Eq|]. exfalso. rewrite take_replicate in Z0.
      by apply elem_of_replicate in Z0 as [? _]. }
    destruct (zero_decides i (op_size - o) Hi Si Zw) as (k & Bk & Sk & Dk).
    apply (final_cmp_spec i k (op_size - o)); try done; try lia. by rewrite Et, Eq.
  - assert (R0 : at_round i q).
    { constructor; try done. intros Zr. apply Z0, elem_of_app. by left. }
    match goal with |- exists r, (run 64 ?st ?s0 ≫= ?f) = Some r /\ _ =>
      destruct (run_spec st (fun n '(x1, x2, w1, w2a) => exists j q, at_round j q /\ x1 = p1 + j + opsiz /\ x2 = q + opsiz /\
          w1 = wordm (window m (p1 + j) op_size) /\ w2a = wordm (window m q op_size) /\ n = e2 - q)
        (fun x => match x with
                  | Returned r => strcmp_result r
                  | Broken x1 w1 w2b => exists j q, at_round j q /\ x1 = p1 + j + opsiz /\ w1 = wordm (window m (p1 + j) op_size) /\
                      w2b = wordm (window m (q + opsiz) op_size) /\ window m (p1 + j) op_size = window m (p2 + j) op_size /\
                      0 ∈ window m (q + opsiz) op_size
                  end) 64 (e2 - q) s0) as (x & -> & Hx)
    end.
    + intros n [[[x1 x2] w1] w2a] (j & q' & R & -> & -> & -> & -> & ->). destruct (R) as [Hj Sj C1 C2 Eq' D1 D2 Nr].
      destruct (align_next _ C1) as [F1 _], (align_next _ C2) as [F2 _].
      rewrite load2 by (done || lia || intros y Hy; by apply (round_nonzero2 j q' y R)).
      rewrite merged_window, Eq' by (done || lia).
      destruct (Z.eqb_spec (wordm (window m (p1 + j) op_size)) (wordm (window m (p2 + j) op_size))) as [E|E]; cbn [negb].
      * apply wordm_inj in E; [|by apply window_word..]. rewrite has_zero_spec by (by apply window_word). case_bool_decide as Zb.
        { by exists j, q'. }
        assert (N2 : 0 ∉ window m (p2 + j) op_size).
        { intros (y & Hy & Ey)%window_elem. destruct (Z.lt_ge_cases y (q' + opsiz)) as [L|L].
          - apply (round_nonzero2 j q' y R); [lia|done].
          - apply Zb, window_elem. exists y. split; [unfold opsiz in *; lia|done]. }
        assert (Sn : same (j + opsiz)) by (apply windows_same; [done|done|done|by rewrite E]).
        rewrite load1 by (done || lia || intros y Hy; apply (same_nonzero1 _ y Sn); lia).
        assert (Le : q' + opsiz <= e2).
        { destruct end2 as (Be & Ze & _). apply Z.eqb_eq in Ze. destruct (Z.le_gt_cases (q' + opsiz) e2) as [|G]; [done|]. exfalso.
          apply (round_nonzero2 j q' e2 R); [lia|done]. }
        exists (e2 - (q' + opsiz)). split; [lia|]. exists (j + opsiz), (q' + opsiz). rewrite !Z.add_assoc. split; [|done].
        constructor; rewrite ?Z.add_assoc; try done; try lia.
        intros (y & Hy & Ey)%window_elem. apply Zb, window_elem. exists y. split; [unfold opsiz in *; lia|done].
      * destruct (words_differ j Hj Sj) as (r & -> & Hr); [|done]. intros E'. by rewrite E' in E.
    + exists i, q. done.
    + destruct (align_down_bounds p2). pose proof opsiz_le. lia.
    + rewrite bind_ok. destruct x as [r|x1 w1 w2b]; [by exists r|]. destruct Hx as (j & q' & R & -> & -> & -> & E & Zb).
      by apply broken_spec.
Qed.
End Unaligned.

(** The bytes before the first aligned one. *)
Lemma bytes_spec n i : 0 <= i -> same i ->
  exists r, strcmp_bytes m n (p1 + i) (p2 + i) = Some r /\
    match r with
    | inr d => strcmp_result d
    | inl (a1, a2) => exists j, i <= j /\ a1 = p1 + j /\ a2 = p2 + j /\ same j /\ j = i + Z.of_nat n
    end.
Proof.
  revert i. induction n as [|n IH]; intros i Hi Si; cbn [strcmp_bytes].
  { eexists. split; [reflexivity|]. exists i. repeat split; try lia; by apply Si. }
  assert (M : forall p y, readable m is_zero p -> p <= y -> (forall z, p <= z < y -> byte_at m z <> 0) -> load_byte m y = Some (byte_at m y)).
  { intros p y R L N. apply load_byte_ok. destruct (align_down_bounds y) as [By Ay], (align_down_bounds p) as [Bp Ap]. apply R; [done| |].
    - destruct (Z.le_gt_cases (align_down p) (align_down y)) as [|G]; [done|]. pose proof (aligned_lt _ _ Ay Ap G). lia.
    - intros z Hz. apply Z.eqb_neq. apply N. lia. }
  rewrite (M p1 (p1 + i)) by (done || lia || intros z Hz; apply (same_nonzero1 i z Si); lia). rewrite bind_ok.
  rewrite (M p2 (p2 + i)) by (done || lia || intros z Hz; apply (same_nonzero2 i z Si); lia). rewrite bind_ok.
  destruct (Z.eqb_spec (byte_at m (p1 + i)) 0) as [E0|E0]; cbn [orb].
  { eexists. split; [reflexivity|]. exists i. split; [done|]. split; [done|]. split; [by left|done]. }
  destruct (Z.eqb_spec (byte_at m (p1 + i) - byte_at m (p2 + i)) 0) as [E1|E1]; cbn [negb].
  - rewrite <- !Z.add_assoc. destruct (IH (i + 1)) as (r & -> & Hr); [lia|apply same_next; [done|]|].
    { intros [|]; lia. }
    exists r. split; [done|]. destruct r as [[a1 a2]|]; [|done]. destruct Hr as (j & Bj & -> & -> & Sj & Ej). exists j. repeat split; try lia; by apply Sj.
  - eexists. split; [reflexivity|]. exists i. split; [done|]. split; [done|]. split; [right; lia|done].
Qed.

Lemma strcmp_spec : exists r, strcmp m p1 p2 = Some r /\ strcmp_result r.
Proof.
  unfold strcmp. pose proof opsiz_pos as Po.
  assert (S0 : same 0) by (intros j Hj; lia).
  destruct (bytes_spec (Z.to_nat (op (- p1) mod opsiz)) 0 ltac:(lia) S0) as (r & E & Hr). rewrite !Z.add_0_r in E. rewrite E, bind_ok.
  destruct r as [[a1 a2]|d]; [|by exists d]. destruct Hr as (j & Bj & -> & -> & Sj & Ej).
  assert (Em : op (- p1) mod opsiz = (- p1) mod opsiz).
  { unfold op, wrap, bits. apply Z.mod_mod_divide. unfold opsiz. destruct op_size_ok as [->| ->]; [by exists (2 ^ 30)|by exists (2 ^ 61)]. }
  rewrite Em in Ej. pose proof (Z.mod_pos_bound (- p1) opsiz Po). rewrite Z2Nat.id in Ej by lia.
  assert (A1 : (p1 + j) mod opsiz = 0).
  { rewrite Ej, Z.add_0_l, Zplus_mod_idemp_r. replace (p1 + - p1) with 0 by lia. apply Z.mod_0_l. lia. }
  destruct (align_down_bounds p1) as [D1 _], (align_down_bounds p2) as [D2 Ap2].
  rewrite load1 by (done || lia || intros z Hz; apply (same_nonzero1 j z Sj); lia). rewrite bind_ok.
  destruct (Z.eqb_spec ((p2 + j) mod opsiz) 0) as [A2|A2]; [apply aligned_loop_spec; done || lia|].
  destruct (align_offset (p2 + j)) as (o & Eo & Mo & Ho). rewrite Mo.
  assert (E2 : p2 + j - Z.of_nat o = align_down (p2 + j)) by lia. rewrite E2. destruct (align_down_bounds (p2 + j)) as [D3 A3].
  apply unaligned_loop_spec; try done; try lia.
  destruct (Z.le_gt_cases (align_down p2) (align_down (p2 + j))) as [|G]; [done|]. pose proof (aligned_lt _ _ A3 Ap2 G). lia.
Qed.
End Theorems.
