(* ===== verification/StringMemcmp.v ===== *)
(** * Comparing memory by words: [string/memcmp.c]

    The two functions that compare whole words are loops unrolled four times
    that are entered in the middle; the model has their labels as the states of
    a machine.  [junk] is what a variable holds before it is assigned. *)

From S2P Require Import Prelude CInt CLoop StringWord StringFind StringShift StringSearch StringCompare.

Section Code.
Context `{OpT}.
Variables (m : memory) (junk : Z).

(** The first bytes that differ of two different words, in memory order, on a
    little-endian machine. *)
Fixpoint memcmp_bytes (n : nat) (a b : Z) : option Z :=
  match n with
  | O => None
  | S n =>
    let a0 := a mod 256 in
    let b0 := b mod 256 in
    if a0 =? b0 then memcmp_bytes n (a / 256) (b / 256) else Some (sint 32 (op (a0 - b0)))
  end.

Definition CMP_LT_OR_GT (a b : Z) : option Z :=
  if little_endian then memcmp_bytes op_size a b else Some (if b <? a then 1 else -1).

(** [((op_t * ) p)[i]] *)
Definition word (p i : Z) : option Z := load_word m (p + i * opsiz).

Definition OP_T_THRES : Z := 16.

Inductive label := Do4 | Do3 | Do2 | Do1.

(** [memcmp_common_alignment]: the variables. *)
Record common := Common { c_lab : label; c_srcp1 : Z; c_srcp2 : Z; c_len : Z; c_a0 : Z; c_a1 : Z; c_b0 : Z; c_b1 : Z }.

(** [if (a != b) return CMP_LT_OR_GT (a, b);] and what follows. *)
Definition compare_or {S : Type} (a b : Z) (k : S + option Z) : S + option Z :=
  if negb (a =? b) then inr (CMP_LT_OR_GT a b) else k.

(** From a label to the next; [Do4] is the beginning of the loop, and the code
    behind the loop is that of [do0]. *)
Definition common_step (s : common) : common + option Z :=
  let '(Common lab srcp1 srcp2 len a0 a1 b0 b1) := s in
  match lab with
  | Do4 =>
    match word srcp1 0, word srcp2 0 with
    | Some a0, Some b0 => compare_or a1 b1 (inl (Common Do3 srcp1 srcp2 len a0 a1 b0 b1))
    | _, _ => inr None
    end
  | Do3 =>
    match word srcp1 1, word srcp2 1 with
    | Some a1, Some b1 => compare_or a0 b0 (inl (Common Do2 srcp1 srcp2 len a0 a1 b0 b1))
    | _, _ => inr None
    end
  | Do2 =>
    match word srcp1 2, word srcp2 2 with
    | Some a0, Some b0 => compare_or a1 b1 (inl (Common Do1 srcp1 srcp2 len a0 a1 b0 b1))
    | _, _ => inr None
    end
  | Do1 =>
    match word srcp1 3, word srcp2 3 with
    | Some a1, Some b1 =>
      compare_or a0 b0
        (let srcp1 := srcp1 + 4 * opsiz in
         let srcp2 := srcp2 + 4 * opsiz in
         let len := op (len - 4) in
         if negb (len =? 0) then inl (Common Do4 srcp1 srcp2 len a0 a1 b0 b1)
         else compare_or a1 b1 (inr (Some 0)))
    | _, _ => inr None
    end
  end.

Definition memcmp_common_alignment (srcp1 srcp2 len : Z) : option Z :=
  let guard := OP_T_THRES <=? 3 * opsiz in
  a ← (if guard && (len =? 0) then Some 0 else word srcp1 0);
  b ← (if guard && (len =? 0) then Some 0 else word srcp2 0);
  match len mod 4 with
  | 3 => run 64 common_step (Common Do2 (srcp1 - opsiz) (srcp2 - opsiz) (op (len + 1)) junk a junk b)
  | 0 => if guard && (len =? 0) then Some 0
         else run 64 common_step (Common Do3 srcp1 srcp2 len a junk b junk)
  | 1 => let srcp1 := srcp1 + opsiz in
         let srcp2 := srcp2 + opsiz in
         let len := op (len - 1) in
         if guard && (len =? 0) then (if negb (a =? b) then CMP_LT_OR_GT a b else Some 0)
         else run 64 common_step (Common Do4 srcp1 srcp2 len junk a junk b)
  | _ => run 64 common_step (Common Do1 (srcp1 - 2 * opsiz) (srcp2 - 2 * opsiz) (op (len + 2)) a junk b junk)
  end.

(** [memcmp_not_common_alignment]: the variables. *)
Record uncommon := Uncommon {
  u_lab : label; u_srcp1 : Z; u_srcp2 : Z; u_len : Z;
  u_a : Z * Z * Z * Z; u_b : Z * Z * Z * Z }.

Definition uncommon_step (shl shr : Z) (s : uncommon) : uncommon + option Z :=
  let '(Uncommon lab srcp1 srcp2 len (a0, a1, a2, a3) (b0, b1, b2, b3)) := s in
  match lab with
  | Do4 =>
    match word srcp1 0, word srcp2 0 with
    | Some a0, Some b0 =>
      compare_or (MERGE a2 shl a3 shr) b3 (inl (Uncommon Do3 srcp1 srcp2 len (a0, a1, a2, a3) (b0, b1, b2, b3)))
    | _, _ => inr None
    end
  | Do3 =>
    match word srcp1 1, word srcp2 1 with
    | Some a1, Some b1 =>
      compare_or (MERGE a3 shl a0 shr) b0 (inl (Uncommon Do2 srcp1 srcp2 len (a0, a1, a2, a3) (b0, b1, b2, b3)))
    | _, _ => inr None
    end
  | Do2 =>
    match word srcp1 2, word srcp2 2 with
    | Some a2, Some b2 =>
      compare_or (MERGE a0 shl a1 shr) b1 (inl (Uncommon Do1 srcp1 srcp2 len (a0, a1, a2, a3) (b0, b1, b2, b3)))
    | _, _ => inr None
    end
  | Do1 =>
    match word srcp1 3, word srcp2 3 with
    | Some a3, Some b3 =>
      compare_or (MERGE a1 shl a2 shr) b2
        (let srcp1 := srcp1 + 4 * opsiz in
         let srcp2 := srcp2 + 4 * opsiz in
         let len := op (len - 4) in
         if negb (len =? 0) then inl (Uncommon Do4 srcp1 srcp2 len (a0, a1, a2, a3) (b0, b1, b2, b3))
         else compare_or (MERGE a2 shl a3 shr) b3 (inr (Some 0)))
    | _, _ => inr None
    end
  end.

Definition memcmp_not_common_alignment (srcp1 srcp2 len : Z) : option Z :=
  let guard := OP_T_THRES <=? 3 * opsiz in
  let shl := 8 * (srcp1 mod opsiz) in
  let shr := 8 * opsiz - shl in
  let srcp1 := align_down srcp1 in
  if (len mod 4 =? 0) && (guard && (len =? 0)) then Some 0
  else
    x ← word srcp1 0;
    y ← word srcp1 1;
    b ← word srcp2 0;
    match len mod 4 with
    | 3 => run 64 (uncommon_step shl shr)
             (Uncommon Do2 srcp1 (srcp2 - opsiz) (op (len + 1)) (x, y, junk, junk) (junk, b, junk, junk))
    | 0 => run 64 (uncommon_step shl shr)
             (Uncommon Do3 (srcp1 + opsiz) srcp2 len (y, junk, junk, x) (b, junk, junk, junk))
    | 1 => let len := op (len - 1) in
           if guard && (len =? 0) then
             let x := MERGE x shl y shr in if negb (x =? b) then CMP_LT_OR_GT x b else Some 0
           else run 64 (uncommon_step shl shr)
             (Uncommon Do4 (srcp1 + 2 * opsiz) (srcp2 + opsiz) len (junk, junk, x, y) (junk, junk, junk, b))
    | _ => run 64 (uncommon_step shl shr)
             (Uncommon Do1 (srcp1 - opsiz) (srcp2 - 2 * opsiz) (op (len + 2)) (junk, x, y, junk) (junk, junk, b, junk))
    end.

(** The loops over single bytes: a result, or where they end and what is left. *)
Fixpoint memcmp_align (fuel : nat) (srcp1 srcp2 len : Z) : option (Z + Z * Z * Z) :=
  if srcp2 mod opsiz =? 0 then Some (inr (srcp1, srcp2, len))
  else match fuel with
       | O => None
       | S fuel =>
         a0 ← load_byte m srcp1;
         b0 ← load_byte m srcp2;
         let res := op (a0 - b0) in
         if negb (res =? 0) then Some (inl (sint 32 res)) else memcmp_align fuel (srcp1 + 1) (srcp2 + 1) (op (len - 1))
       end.

Definition memcmp_tail (srcp1 srcp2 len : Z) : option Z :=
  run 64 (fun '(srcp1, srcp2, len) =>
    if len =? 0 then inr (Some 0)
    else match load_byte m srcp1, load_byte m srcp2 with
         | Some a0, Some b0 =>
           let res := op (a0 - b0) in
           if negb (res =? 0) then inr (Some (sint 32 res)) else inl (srcp1 + 1, srcp2 + 1, op (len - 1))
         | _, _ => inr None
         end) (srcp1, srcp2, len).

Definition memcmp (s1 s2 len : Z) : option Z :=
  if OP_T_THRES <=? len then
    r ← memcmp_align op_size s1 s2 len;
    match r with
    | inl res => Some res
    | inr (srcp1, srcp2, len) =>
      res ← (if srcp1 mod opsiz =? 0 then memcmp_common_alignment srcp1 srcp2 (len / opsiz)
             else memcmp_not_common_alignment srcp1 srcp2 (len / opsiz));
      if negb (res =? 0) then Some res
      else memcmp_tail (srcp1 + align_down len) (srcp2 + align_down len) (len mod opsiz)
    end
  else memcmp_tail s1 s2 len.
End Code.
