(* ===== verification/StringMemcmpProof.v ===== *)
(** * [memcmp] is the comparison of the first bytes that differ *)

From S2P Require Import Prelude CInt CLoop StringWord StringFind StringShift StringSearch StringCompare StringMemcmp.

(** The first difference of two lists. *)
Lemma first_difference (l k : list Z) : length l = length k -> l <> k ->
  exists pre b d post post', l = pre ++ b :: post /\ k = pre ++ d :: post' /\ b <> d.
Proof.
  revert k. induction l as [|b l IH]; intros [|d k] L N; try done. injection L as L.
  destruct (Z.eq_dec b d) as [->|Ne]; [|by exists [], b, d, l, k].
  destruct (IH k L) as (pre & x & y & post & post' & -> & -> & Nx); [congruence|]. by exists (d :: pre), x, y, post, post'.
Qed.

Section Words.
Context `{OpT}.

Lemma sint_op_diff b d : is_byte b -> is_byte d -> sint 32 (op (b - d)) = b - d.
Proof.
  intros Hb Hd. unfold is_byte in *. unfold sint, op, wrap, bits, opsiz. change (2 ^ (32 - 1)) with (2 ^ 31).
  assert (E : forall w, w = 32 \/ w = 64 -> (((b - d) mod 2 ^ w + 2 ^ 31) mod 2 ^ 32 - 2 ^ 31 = b - d)).
  { intros w Hw. rewrite Zplus_mod. rewrite Z.mod_mod_divide by (destruct Hw as [->| ->]; [by exists 1|by exists (2 ^ 32)]).
    rewrite <- Zplus_mod. rewrite Z.mod_small by lia. lia. }
  apply E. destruct op_size_ok as [->| ->]; [by left|by right].
Qed.

Lemma op_diff_zero b d : is_byte b -> is_byte d -> (op (b - d) =? 0) = (b =? d).
Proof.
  intros Hb Hd. destruct (Z.eqb_spec b d) as [->|Ne]; [by rewrite Z.sub_diag|]. apply Z.eqb_neq. intros E.
  pose proof (sint_op_diff b d Hb Hd) as S. rewrite E in S. change (sint 32 0) with 0 in S. lia.
Qed.

Lemma memcmp_bytes_lev n pre b d post post' : Forall is_byte pre -> is_byte b -> is_byte d -> Forall is_byte post -> Forall is_byte post' ->
  b <> d -> (length pre < n)%nat -> memcmp_bytes n (lev (pre ++ b :: post)) (lev (pre ++ d :: post')) = Some (b - d).
Proof.
  intros Fp Hb Hd F F' Ne. assert (M : forall c l, is_byte c -> (c + 256 * lev l) mod 256 = c /\ (c + 256 * lev l) / 256 = lev l).
  { intros c l Hc. unfold is_byte in Hc. rewrite (Z.mul_comm 256). rewrite Z.mod_add, Z.div_add, Z.mod_small, Z.div_small by lia. done. }
  revert n. induction Fp as [|c pre Hc Fp IH]; intros [|n] L; cbn [length] in L; try lia; cbn [app lev memcmp_bytes].
  - destruct (M b post Hb) as [-> _], (M d post' Hd) as [-> _]. rewrite (proj2 (Z.eqb_neq b d)) by done. by rewrite sint_op_diff.
  - destruct (M c (pre ++ b :: post) Hc) as [-> ->], (M c (pre ++ d :: post') Hc) as [-> ->]. rewrite Z.eqb_refl. apply IH. lia.
Qed.

(** The comparison of two different words. *)
Lemma CMP_spec pre b d post post' : is_word (pre ++ b :: post) -> is_word (pre ++ d :: post') -> b <> d ->
  exists r, CMP_LT_OR_GT (wordm (pre ++ b :: post)) (wordm (pre ++ d :: post')) = Some r /\ Z.sgn r = Z.sgn (b - d).
Proof.
  intros [[Fp [Hb F]%list.Forall_cons]%Forall_app L] [[_ [Hd F']%list.Forall_cons]%Forall_app L'] Ne.
  rewrite length_app in L, L'. cbn [length] in L, L'. unfold CMP_LT_OR_GT, wordm. destruct little_endian.
  - exists (b - d). split; [|done]. apply memcmp_bytes_lev; try done. lia.
  - eexists. split; [reflexivity|]. rewrite !rev_app_distr. cbn [rev]. rewrite <- !app_assoc, !lev_app. cbn [app lev].
    rewrite !length_rev. assert (Lp : length post = length post') by lia. rewrite Lp.
    pose proof (lev_bounds _ (rev_bytes _ F)) as B. pose proof (lev_bounds _ (rev_bytes _ F')) as B'. rewrite length_rev in B, B'. rewrite Lp in B.
    set (P := 256 ^ Z.of_nat (length post')) in *. set (x := lev (rev pre)). unfold is_byte in *.
    change (256 ^ Z.of_nat (length [d])) with 256. change (256 ^ Z.of_nat (length [b])) with 256.
    destruct (Z.ltb_spec (lev (rev post') + P * (d + 256 * 0 + 256 * x)) (lev (rev post) + P * (b + 256 * 0 + 256 * x))); [rewrite (Z.sgn_pos (b - d)) by nia|rewrite (Z.sgn_neg (b - d)) by nia]; done.
Qed.
End Words.

Section Machine.
Context `{OpT}.
Variable m : memory.
Hypothesis m_ok : good_memory m.
Variables (q1 q2 N : Z).

(** The first [i] bytes are equal. *)
Definition eq_to (i : Z) : Prop := forall j, 0 <= j < i -> byte_at m (q1 + j) = byte_at m (q2 + j).

(** What a comparison of [len] bytes may return. *)
Definition memcmp_result (len r : Z) : Prop :=
  (r = 0 /\ eq_to len) \/
  exists k, 0 <= k < len /\ eq_to k /\ byte_at m (q1 + k) <> byte_at m (q2 + k) /\ Z.sgn r = Z.sgn (byte_at m (q1 + k) - byte_at m (q2 + k)).

Definition word1 (t : Z) : Z := wordm (window m (q1 + t * opsiz) op_size).
Definition word2 (t : Z) : Z := wordm (window m (q2 + t * opsiz) op_size).

Lemma eq_to_word t : 0 <= t -> eq_to (t * opsiz) -> word1 t = word2 t -> eq_to ((t + 1) * opsiz).
Proof.
  intros Ht E W j Hj. destruct (Z.lt_ge_cases j (t * opsiz)) as [|G]; [apply E; lia|].
  apply wordm_inj in W; [|by apply window_word..].
  assert (Hk : (Z.to_nat (j - t * opsiz) < op_size)%nat) by (unfold opsiz in *; lia).
  pose proof (window_at m (q1 + t * opsiz) _ _ Hk) as L1. pose proof (window_at m (q2 + t * opsiz) _ _ Hk) as L2.
  rewrite W, L2 in L1. rewrite Z2Nat.id in L1 by lia. replace (q1 + t * opsiz + (j - t * opsiz)) with (q1 + j) in L1 by lia.
  replace (q2 + t * opsiz + (j - t * opsiz)) with (q2 + j) in L1 by lia. by injection L1.
Qed.

Lemma cmp_differ t len : 0 <= t -> (t + 1) * opsiz <= len -> eq_to (t * opsiz) -> word1 t <> word2 t ->
  exists r, CMP_LT_OR_GT (word1 t) (word2 t) = Some r /\ memcmp_result len r.
Proof.
  intros Ht Hl E N0. unfold word1, word2 in *. pose proof opsiz_pos.
  destruct (first_difference (window m (q1 + t * opsiz) op_size) (window m (q2 + t * opsiz) op_size)) as (pre & b & d & post & post' & E1 & E2 & Ne);
    [by rewrite !length_window|congruence|].
  pose proof (window_word m m_ok (q1 + t * opsiz)) as W1. pose proof (window_word m m_ok (q2 + t * opsiz)) as W2.
  assert (Lp : (length pre < op_size)%nat). { destruct W1 as [_ L]. rewrite E1, length_app in L. cbn [length] in L. lia. }
  assert (Ep : forall n, (n < length pre)%nat -> byte_at m (q1 + (t * opsiz + Z.of_nat n)) = byte_at m (q2 + (t * opsiz + Z.of_nat n))).
  { intros n Hn. pose proof (window_at m (q1 + t * opsiz) op_size n ltac:(lia)) as L1. pose proof (window_at m (q2 + t * opsiz) op_size n ltac:(lia)) as L2.
    rewrite E1 in L1. rewrite E2 in L2. rewrite lookup_app_l in L1, L2 by done. rewrite L2, <- !Z.add_assoc in L1. by injection L1 as ->. }
  pose proof (window_at m (q1 + t * opsiz) op_size (length pre) Lp) as B1. pose proof (window_at m (q2 + t * opsiz) op_size (length pre) Lp) as B2.
  rewrite E1, list_lookup_middle in B1 by done. rewrite E2, list_lookup_middle in B2 by done. injection B1 as ->. injection B2 as ->.
  rewrite E1, E2 in *. destruct (CMP_spec pre _ _ post post' W1 W2 Ne) as (r & -> & Hr). exists r. split; [done|]. right.
  exists (t * opsiz + Z.of_nat (length pre)). rewrite !Z.add_assoc. split; [unfold opsiz in *; nia|]. split; [|done].
  intros j Hj. destruct (Z.lt_ge_cases j (t * opsiz)) as [|G]; [apply E; lia|].
  specialize (Ep (Z.to_nat (j - t * opsiz)) ltac:(lia)). rewrite Z2Nat.id in Ep by lia. by replace (t * opsiz + (j - t * opsiz)) with j in Ep by lia.
Qed.

Lemma compare_or_spec {S : Type} t (k : S + option Z) len : 0 <= t -> (t + 1) * opsiz <= len -> eq_to (t * opsiz) ->
  (exists r, compare_or (word1 t) (word2 t) k = inr (Some r) /\ memcmp_result len r) \/
  (compare_or (word1 t) (word2 t) k = k /\ eq_to ((t + 1) * opsiz)).
Proof.
  intros Ht Hl E. unfold compare_or. destruct (Z.eqb_spec (word1 t) (word2 t)) as [W|W]; cbn [negb].
  - right. split; [done|]. by apply eq_to_word.
  - left. destruct (cmp_differ t len Ht Hl E W) as (r & -> & Hr). by exists r.
Qed.

Hypothesis N_ok : 0 <= N /\ N + 2 < 2 ^ bits.

(** What a label has: the bytes before word [t] are equal, word [t] is in the
    variables, and [len] counts from the place of the pointers. *)
Definition label_len (l : label) (t : Z) : Z := N - match l with Do4 => t + 1 | Do3 => t | Do2 => t - 1 | Do1 => t - 2 end.

Record at_label (l : label) (t len : Z) : Prop := {
  al_pos : 0 <= t;
  al_next : t + 1 < N;
  al_eq : eq_to (t * opsiz);
  al_len : len = label_len l t;
  al_mod : len mod 4 = 0 }.

(** The next label, after word [t] was found equal. *)
Lemma next_label l l' t len : at_label l t len -> eq_to ((t + 1) * opsiz) ->
  match l with Do4 => l' = Do3 | Do3 => l' = Do2 | Do2 => l' = Do1 | Do1 => False end -> at_label l' (t + 1) len.
Proof.
  intros [] E Hl. unfold label_len in *. assert (exists q, len = 4 * q) as [q Eq].
  { exists (len / 4). pose proof (Z.div_mod len 4). lia. }
  destruct l; try done; subst l'; constructor; unfold label_len; try done; lia.
Qed.

Lemma loop_label t len : at_label Do1 t len -> eq_to ((t + 1) * opsiz) -> op (len - 4) = len - 4 /\
  (len - 4 <> 0 -> at_label Do4 (t + 1) (len - 4)) /\ (len - 4 = 0 -> t + 2 = N).
Proof.
  intros [] E. unfold label_len in *. assert (exists q, len = 4 * q) as [q Eq].
  { exists (len / 4). pose proof (Z.div_mod len 4). lia. }
  split; [unfold op; apply wrap_small; lia|]. split; [|lia]. intros Ne. constructor; unfold label_len; try done; try lia.
  rewrite Eq. replace (4 * q - 4) with ((q - 1) * 4) by lia. apply Z.mod_mul. lia.
Qed.

Hypothesis map2 : forall t, 0 <= t < N -> mapped m (q2 + t * opsiz) = true.
Lemma word_at2 p i t : p + i * opsiz = q2 + t * opsiz -> 0 <= t < N -> word m p i = Some (word2 t).
Proof. intros E Ht. unfold word. rewrite E. apply load_word_ok. by apply map2. Qed.

Section Common.
Hypothesis map1 : forall t, 0 <= t < N -> mapped m (q1 + t * opsiz) = true.
Lemma word_at1 p i t : p + i * opsiz = q1 + t * opsiz -> 0 <= t < N -> word m p i = Some (word1 t).
Proof. intros E Ht. unfold word. rewrite E. apply load_word_ok. by apply map1. Qed.

(** Where the pointers are, and which variables hold word [t]. *)
Definition common_inv (n : Z) (s : common) : Prop := exists t, n = N - t /\ at_label (c_lab s) t (c_len s) /\
  match c_lab s with
  | Do4 => c_srcp1 s = q1 + (t + 1) * opsiz /\ c_srcp2 s = q2 + (t + 1) * opsiz /\ c_a1 s = word1 t /\ c_b1 s = word2 t
  | Do3 => c_srcp1 s = q1 + t * opsiz /\ c_srcp2 s = q2 + t * opsiz /\ c_a0 s = word1 t /\ c_b0 s = word2 t
  | Do2 => c_srcp1 s = q1 + (t - 1) * opsiz /\ c_srcp2 s = q2 + (t - 1) * opsiz /\ c_a1 s = word1 t /\ c_b1 s = word2 t
  | Do1 => c_srcp1 s = q1 + (t - 2) * opsiz /\ c_srcp2 s = q2 + (t - 2) * opsiz /\ c_a0 s = word1 t /\ c_b0 s = word2 t
  end.

Lemma common_step_spec n s : common_inv n s ->
  match common_step m s with
  | inl s' => exists n', 0 <= n' < n /\ common_inv n' s'
  | inr (Some r) => memcmp_result (N * opsiz) r
  | inr None => False
  end.
Proof.
  destruct s as [lab srcp1 srcp2 len a0 a1 b0 b1]. intros (t & -> & A & V). cbn in A, V. pose proof A as [Ht Hn E _ _]. pose proof opsiz_pos as Po.
  assert (Hl : (t + 1) * opsiz <= N * opsiz) by nia.
  destruct lab; destruct V as (-> & -> & -> & ->); cbn [common_step];
    rewrite (word_at1 _ _ (t + 1)), (word_at2 _ _ (t + 1)) by lia;
    match goal with |- context [compare_or _ _ ?k] => destruct (compare_or_spec t k (N * opsiz) Ht Hl E) as [(r & -> & Hr)|[-> E1]] end;
    try exact Hr; try (exists (N - (t + 1)); split; [lia|]; exists (t + 1); split; [done|]; split; [by eapply next_label|]; repeat split; cbn; lia).
  destruct (loop_label t len A E1) as (-> & L1 & L2). destruct (Z.eqb_spec (len - 4) 0) as [E0|E0]; cbn [negb].
  - specialize (L2 E0). assert (H1 : 0 <= t + 1) by lia. assert (H2 : (t + 1 + 1) * opsiz <= N * opsiz) by nia.
    match goal with |- context [compare_or _ _ ?k] => destruct (compare_or_spec (t + 1) k (N * opsiz) H1 H2 E1) as [(r & -> & Hr)|[-> E2]] end; [done|].
    left. split; [done|]. by replace N with (t + 1 + 1) by lia.
  - exists (N - (t + 1)). split; [lia|]. exists (t + 1). split; [done|]. split; [by apply L1|]. cbn. repeat split; lia.
Qed.

(** Small numbers of words are only compared when the code looks for them. *)
Definition enough : Prop := (OP_T_THRES <=? 3 * opsiz) = true \/ 2 <= N.

Lemma mod4_cases : N mod 4 = 0 \/ N mod 4 = 1 \/ N mod 4 = 2 \/ N mod 4 = 3.
Proof. pose proof (Z.mod_pos_bound N 4). lia. Qed.

Lemma eq_to_0 : eq_to 0.
Proof. intros j Hj. lia. Qed.

(** The label at which the machine is entered. *)
Lemma first_label l len : 1 < N -> len = label_len l 0 -> len mod 4 = 0 -> at_label l 0 len.
Proof. intros Hn E M. constructor; try done; try lia. rewrite Z.mul_0_l. apply eq_to_0. Qed.

Lemma op_small x : 0 <= x < 2 ^ bits -> op x = x.
Proof. apply wrap_small. Qed.

(** One word. *)
Lemma single_word : N = 1 -> exists r, (if negb (word1 0 =? word2 0) then CMP_LT_OR_GT (word1 0) (word2 0) else Some 0) = Some r /\
  memcmp_result (N * opsiz) r.
Proof.
  intros E1. pose proof eq_to_0 as E0. destruct (Z.eqb_spec (word1 0) (word2 0)) as [W|W]; cbn [negb].
  - exists 0. split; [done|]. left. split; [done|]. rewrite E1. by apply (eq_to_word 0).
  - apply (cmp_differ 0); [lia|rewrite E1; lia|done|done].
Qed.

Lemma common_spec junk : enough -> exists r, memcmp_common_alignment m junk q1 q2 N = Some r /\ memcmp_result (N * opsiz) r.
Proof.
  intros G. unfold memcmp_common_alignment. set (guard := OP_T_THRES <=? 3 * opsiz). pose proof opsiz_pos as Po.
  destruct (Z.eq_dec N 0) as [E0|E0].
  { destruct G as [G|G]; [|lia]. fold guard in G. rewrite E0, G. exists 0. split; [done|]. left. split; [done|apply eq_to_0]. }
  rewrite (proj2 (Z.eqb_neq N 0) E0), andb_false_r. rewrite (word_at1 q1 0 0), (word_at2 q2 0 0) by lia. rewrite !bind_ok.
  assert (R : forall s, common_inv (N - 0) s -> exists r, run 64 (common_step m) s = Some r /\ memcmp_result (N * opsiz) r).
  { intros s I. apply (run_spec _ common_inv _ 64 (N - 0)); [apply common_step_spec|done|].
    pose proof opsiz_le. unfold bits in N_ok. assert (2 ^ (8 * opsiz) <= 2 ^ 64) by (apply Z.pow_le_mono_r; lia). lia. }
  pose proof (Z.div_mod N 4 ltac:(lia)) as D.
  destruct mod4_cases as [M|[M|[M|M]]]; rewrite M.
  - apply R. exists 0. split; [done|]. split; [apply first_label; [lia|unfold label_len; cbn [c_len c_lab u_len u_lab]; lia|done]|]. cbn. repeat split; (done || lia).
  - rewrite op_small by lia. destruct (guard && (N - 1 =? 0)) eqn:Eg.
    + apply andb_prop in Eg as [_ Eg%Z.eqb_eq]. by apply single_word; lia.
    + assert (N <> 1). { intros ->. unfold guard in Eg. destruct G as [G|G]; [by rewrite G in Eg|lia]. }
      apply R. exists 0. split; [done|]. split; [apply first_label; [lia|unfold label_len; cbn [c_len c_lab u_len u_lab]; lia|]|cbn; repeat split; (done || lia)].
      replace (N - 1) with (N / 4 * 4) by lia. apply Z.mod_mul. lia.
  - rewrite op_small by lia. apply R. exists 0. split; [done|]. split; [apply first_label; [lia|unfold label_len; cbn [c_len c_lab u_len u_lab]; lia|]|cbn; repeat split; (done || lia)].
    replace (N + 2) with ((N / 4 + 1) * 4) by lia. apply Z.mod_mul. lia.
  - rewrite op_small by lia. apply R. exists 0. split; [done|]. split; [apply first_label; [lia|unfold label_len; cbn [c_len c_lab u_len u_lab]; lia|]|cbn; repeat split; (done || lia)].
    replace (N + 1) with ((N / 4 + 1) * 4) by lia. apply Z.mod_mul. lia.
Qed.
End Common.

Section Uncommon.
(** The first pointer is [o] bytes into the word at [base]. *)
Variables (base : Z) (o : nat).
Hypothesis o_ok : (0 < o < op_size)%nat.
Hypothesis base_ok : base + Z.of_nat o = q1.
Hypothesis map1 : forall t, 0 <= t <= N -> mapped m (base + t * opsiz) = true.

Definition half (t : Z) : Z := wordm (window m (base + t * opsiz) op_size).

Lemma half_at p i t : p + i * opsiz = base + t * opsiz -> 0 <= t <= N -> word m p i = Some (half t).
Proof. intros E Ht. unfold word. rewrite E. apply load_word_ok. by apply map1. Qed.

Abbreviation shl := (8 * Z.of_nat o).
Abbreviation shr := (8 * opsiz - 8 * Z.of_nat o).

Lemma merged t : MERGE (half t) shl (half (t + 1)) shr = word1 t.
Proof.
  unfold half, word1. rewrite !(Z.mul_comm 8). replace (base + (t + 1) * opsiz) with (base + t * opsiz + opsiz) by lia.
  rewrite merged_window by (done || lia). f_equal. f_equal. lia.
Qed.

(** Where the pointers are, and which variables hold the words around word [t]
    of the first block and word [t] of the second. *)
Definition uncommon_inv (n : Z) (s : uncommon) : Prop := exists t, n = N - t /\ at_label (u_lab s) t (u_len s) /\
  let '(a0, a1, a2, a3) := u_a s in
  let '(b0, b1, b2, b3) := u_b s in
  match u_lab s with
  | Do4 => u_srcp1 s = base + (t + 2) * opsiz /\ u_srcp2 s = q2 + (t + 1) * opsiz /\ a2 = half t /\ a3 = half (t + 1) /\ b3 = word2 t
  | Do3 => u_srcp1 s = base + (t + 1) * opsiz /\ u_srcp2 s = q2 + t * opsiz /\ a3 = half t /\ a0 = half (t + 1) /\ b0 = word2 t
  | Do2 => u_srcp1 s = base + t * opsiz /\ u_srcp2 s = q2 + (t - 1) * opsiz /\ a0 = half t /\ a1 = half (t + 1) /\ b1 = word2 t
  | Do1 => u_srcp1 s = base + (t - 1) * opsiz /\ u_srcp2 s = q2 + (t - 2) * opsiz /\ a1 = half t /\ a2 = half (t + 1) /\ b2 = word2 t
  end.

Lemma uncommon_step_spec n s : uncommon_inv n s ->
  match uncommon_step m shl shr s with
  | inl s' => exists n', 0 <= n' < n /\ uncommon_inv n' s'
  | inr (Some r) => memcmp_result (N * opsiz) r
  | inr None => False
  end.
Proof.
  destruct s as [lab srcp1 srcp2 len [[[a0 a1] a2] a3] [[[b0 b1] b2] b3]]. intros (t & -> & A & V). cbn in A, V. pose proof A as [Ht Hn E _ _].
  pose proof opsiz_pos as Po. assert (Hl : (t + 1) * opsiz <= N * opsiz) by nia.
  assert (H2 : half (t + 1 + 1) = half (t + 2)) by (f_equal; lia).
  destruct lab; destruct V as (-> & -> & -> & -> & ->); cbn [uncommon_step];
    rewrite (half_at _ _ (t + 2)), (word_at2 _ _ (t + 1)) by lia; rewrite merged;
    match goal with |- context [compare_or (word1 t) _ ?k] => destruct (compare_or_spec t k (N * opsiz) Ht Hl E) as [(r & -> & Hr)|[-> E1]] end;
    try exact Hr; try (exists (N - (t + 1)); split; [lia|]; exists (t + 1); split; [done|]; split; [by eapply next_label|]; cbn; repeat split; (done || lia)).
  destruct (loop_label t len A E1) as (-> & L1 & L2). destruct (Z.eqb_spec (len - 4) 0) as [E0|E0]; cbn [negb].
  - specialize (L2 E0). assert (Hb : 0 <= t + 1) by lia. assert (Hc : (t + 1 + 1) * opsiz <= N * opsiz) by nia.
    rewrite <- H2, merged.
    match goal with |- context [compare_or _ _ ?k] => destruct (compare_or_spec (t + 1) k (N * opsiz) Hb Hc E1) as [(r & -> & Hr)|[-> E2]] end; [done|].
    left. split; [done|]. by replace N with (t + 1 + 1) by lia.
  - exists (N - (t + 1)). split; [lia|]. exists (t + 1). split; [done|]. split; [by apply L1|]. cbn. repeat split; (done || lia).
Qed.

Lemma uncommon_spec junk : enough -> q1 mod opsiz = Z.of_nat o -> align_down q1 = base ->
  exists r, memcmp_not_common_alignment m junk q1 q2 N = Some r /\ memcmp_result (N * opsiz) r.
Proof.
  intros G Eo Eb. unfold memcmp_not_common_alignment. set (guard := OP_T_THRES <=? 3 * opsiz). pose proof opsiz_pos as Po. rewrite Eo, Eb.
  destruct (Z.eq_dec N 0) as [E0|E0].
  { destruct G as [G|G]; [|lia]. fold guard in G. rewrite E0, G. exists 0. split; [done|]. left. split; [done|apply eq_to_0]. }
  rewrite (proj2 (Z.eqb_neq N 0) E0), !andb_false_r. rewrite (half_at base 0 0), (half_at base 1 1), (word_at2 q2 0 0) by lia. rewrite !bind_ok.
  assert (R : forall s, uncommon_inv (N - 0) s -> exists r, run 64 (uncommon_step m shl shr) s = Some r /\ memcmp_result (N * opsiz) r).
  { intros s I. apply (run_spec _ uncommon_inv _ 64 (N - 0)); [apply uncommon_step_spec|done|].
    pose proof opsiz_le. unfold bits in N_ok. assert (2 ^ (8 * opsiz) <= 2 ^ 64) by (apply Z.pow_le_mono_r; lia). lia. }
  pose proof (Z.div_mod N 4 ltac:(lia)) as D.
  destruct mod4_cases as [M|[M|[M|M]]]; rewrite M.
  - apply R. exists 0. split; [done|]. split; [apply first_label; [lia|unfold label_len; cbn [c_len c_lab u_len u_lab]; lia|done]|]. cbn. repeat split; (done || lia).
  - rewrite op_small by lia. destruct (guard && (N - 1 =? 0)) eqn:Eg.
    + apply andb_prop in Eg as [_ Eg%Z.eqb_eq]. change (half 1) with (half (0 + 1)). rewrite merged. by apply single_word; lia.
    + assert (N <> 1). { intros ->. unfold guard in Eg. destruct G as [G|G]; [by rewrite G in Eg|lia]. }
      apply R. exists 0. split; [done|]. split; [apply first_label; [lia|unfold label_len; cbn [c_len c_lab u_len u_lab]; lia|]|cbn; repeat split; (done || lia)].
      replace (N - 1) with (N / 4 * 4) by lia. apply Z.mod_mul. lia.
  - rewrite op_small by lia. apply R. exists 0. split; [done|]. split; [apply first_label; [lia|unfold label_len; cbn [c_len c_lab u_len u_lab]; lia|]|cbn; repeat split; (done || lia)].
    replace (N + 2) with ((N / 4 + 1) * 4) by lia. apply Z.mod_mul. lia.
  - rewrite op_small by lia. apply R. exists 0. split; [done|]. split; [apply first_label; [lia|unfold label_len; cbn [c_len c_lab u_len u_lab]; lia|]|cbn; repeat split; (done || lia)].
    replace (N + 1) with ((N / 4 + 1) * 4) by lia. apply Z.mod_mul. lia.
Qed.
End Uncommon.
End Machine.

Section Memcmp.
Context `{OpT}.
Variable m : memory.
Hypothesis m_ok : good_memory m.
Variables (p1 p2 L : Z).

(** The words that overlap a block can be read. *)
Definition readable_block (p len : Z) : Prop := forall w, w mod opsiz = 0 -> p - opsiz < w < p + len -> mapped m w = true.

Hypothesis block1 : readable_block p1 L.
Hypothesis block2 : readable_block p2 L.
Hypothesis L_ok : 0 <= L < 2 ^ (bits - 1).

Lemma block_byte p j : readable_block p L -> 0 <= j < L -> load_byte m (p + j) = Some (byte_at m (p + j)).
Proof. intros R Hj. apply load_byte_ok. destruct (align_down_bounds (p + j)) as [B A]. apply R; [done|lia]. Qed.

Abbreviation eq_to := (eq_to m p1 p2).
Abbreviation result := (memcmp_result m p1 p2 L).

Lemma eq_to_next i : eq_to i -> byte_at m (p1 + i) = byte_at m (p2 + i) -> eq_to (i + 1).
Proof. intros E B j Hj. destruct (Z.eq_dec j i) as [->|]; [done|]. apply E. lia. Qed.

Lemma byte_result i : 0 <= i < L -> eq_to i -> byte_at m (p1 + i) <> byte_at m (p2 + i) ->
  result (byte_at m (p1 + i) - byte_at m (p2 + i)).
Proof. intros Hi E N. right. by exists i. Qed.

Lemma bits_64 : 2 ^ (bits - 1) < 2 ^ 64 /\ 2 ^ (bits - 1) + 2 ^ (bits - 1) = 2 ^ bits /\ 2 ^ 31 <= 2 ^ (bits - 1).
Proof. unfold bits, opsiz. by destruct op_size_ok as [->| ->]. Qed.

Lemma tail_spec i : 0 <= i <= L -> eq_to i -> exists r, memcmp_tail m (p1 + i) (p2 + i) (L - i) = Some r /\ result r.
Proof.
  intros Hi E. unfold memcmp_tail. pose proof bits_64.
  apply (run_spec _ (fun n '(a, b, l) => exists j, 0 <= j <= L /\ eq_to j /\ a = p1 + j /\ b = p2 + j /\ l = L - j /\ n = L - j) _ 64 (L - i)).
  - clear i Hi E. intros n [[a b] l] (j & Hj & E & -> & -> & -> & ->). destruct (Z.eqb_spec (L - j) 0) as [E0|E0].
    + left. split; [done|]. by replace L with j by lia.
    + rewrite !block_byte by (done || lia). rewrite op_diff_zero by apply m_ok.
      destruct (Z.eqb_spec (byte_at m (p1 + j)) (byte_at m (p2 + j))) as [Eb|Eb]; cbn [negb].
      * exists (L - (j + 1)). split; [lia|]. exists (j + 1). rewrite op_small by lia. repeat split; try lia. by apply eq_to_next.
      * rewrite sint_op_diff by apply m_ok. apply byte_result; [lia|done|done].
  - exists i. repeat split; (done || lia).
  - lia.
Qed.

Lemma align_spec n i k : 0 <= i -> i + Z.of_nat n < L -> eq_to i -> i <= k <= i + Z.of_nat n -> (p2 + k) mod opsiz = 0 ->
  exists r, memcmp_align m n (p1 + i) (p2 + i) (L - i) = Some r /\
    match r with
    | inl r => result r /\ r <> 0
    | inr (a, b, l) => exists j, i <= j <= k /\ eq_to j /\ a = p1 + j /\ b = p2 + j /\ l = L - j /\ (p2 + j) mod opsiz = 0
    end.
Proof.
  revert i. induction n as [|n IH]; intros i Hi Hn E Hk Ak; cbn [memcmp_align].
  - replace k with i in Ak by lia. rewrite Ak. cbn [Z.eqb]. eexists. split; [reflexivity|]. exists i. repeat split; (done || lia).
  - destruct (Z.eqb_spec ((p2 + i) mod opsiz) 0) as [A|A].
    { eexists. split; [reflexivity|]. exists i. repeat split; (done || lia). }
    rewrite !block_byte, !bind_ok by (done || lia). rewrite op_diff_zero by apply m_ok. pose proof bits_64.
    destruct (Z.eqb_spec (byte_at m (p1 + i)) (byte_at m (p2 + i))) as [Eb|Eb]; cbn [negb].
    + rewrite op_small by lia. rewrite <- !Z.add_assoc. replace (L - i - 1) with (L - (i + 1)) by lia.
      assert (k <> i) by (intros ->; done).
      destruct (IH (i + 1)) as (r & -> & Hr); [lia|lia|by apply eq_to_next|lia|done|].
      exists r. split; [done|]. destruct r as [|[[a b] l]]; [done|]. destruct Hr as (j & Hj & Ej & -> & -> & -> & Aj). exists j. repeat split; (done || lia).
    + rewrite sint_op_diff by apply m_ok. eexists. split; [reflexivity|]. split; [apply byte_result; [lia|done|done]|lia].
Qed.

(** A comparison that begins behind equal bytes. *)
Lemma result_shift j len r : 0 <= j -> eq_to j -> j + len <= L -> memcmp_result m (p1 + j) (p2 + j) len r ->
  (r = 0 /\ eq_to (j + len)) \/ (r <> 0 /\ result r).
Proof.
  intros Hj E Hl [[-> El]|(k & Hk & Ek & N & S)].
  - left. split; [done|]. intros x Hx. destruct (Z.lt_ge_cases x j); [apply E; lia|]. specialize (El (x - j) ltac:(lia)).
    replace (p1 + j + (x - j)) with (p1 + x) in El by lia. by replace (p2 + j + (x - j)) with (p2 + x) in El by lia.
  - right. rewrite <- !Z.add_assoc in N, S. split; [intros ->; cbn in S; lia|]. right. exists (j + k). split; [lia|]. split; [|done].
    intros x Hx. destruct (Z.lt_ge_cases x j); [apply E; lia|]. specialize (Ek (x - j) ltac:(lia)).
    replace (p1 + j + (x - j)) with (p1 + x) in Ek by lia. by replace (p2 + j + (x - j)) with (p2 + x) in Ek by lia.
Qed.

(** The middle part: whole words. *)
Lemma words_spec junk j : 0 <= j < opsiz -> 16 <= L -> (p2 + j) mod opsiz = 0 ->
  let N := (L - j) / opsiz in
  exists r, (if (p1 + j) mod opsiz =? 0 then memcmp_common_alignment m junk (p1 + j) (p2 + j) N
             else memcmp_not_common_alignment m junk (p1 + j) (p2 + j) N) = Some r /\
    memcmp_result m (p1 + j) (p2 + j) (N * opsiz) r.
Proof.
  intros Hj HL A2 N. pose proof opsiz_pos as Po. pose proof opsiz_le as Pl. pose proof bits_64 as B.
  assert (Nz : opsiz <> 0) by lia. pose proof (Z.div_mod (L - j) opsiz Nz) as D. fold N in D. pose proof (Z.mod_pos_bound (L - j) opsiz Po).
  assert (HN : 0 <= N /\ N * opsiz <= L - j) by (split; [apply Z.div_pos; lia|lia]).
  assert (Nb : 0 <= N /\ N + 2 < 2 ^ bits) by nia.
  assert (Ge : enough N).
  { unfold enough, OP_T_THRES, opsiz in *. destruct op_size_ok as [E|E]; rewrite E in *; [right; lia|by left]. }
  assert (Am : forall p t, p mod opsiz = 0 -> (p + t * opsiz) mod opsiz = 0) by (intros p t Hp; by rewrite Z.mod_add).
  assert (M2 : forall t, 0 <= t < N -> mapped m (p2 + j + t * opsiz) = true) by (intros t Ht; apply block2; [by apply Am|nia]).
  destruct (Z.eqb_spec ((p1 + j) mod opsiz) 0) as [A1|A1].
  - apply common_spec; try done. intros t Ht. apply block1; [by apply Am|nia].
  - destruct (align_offset (p1 + j)) as (o & Eo & Mo & Ho). destruct (align_down_bounds (p1 + j)) as [Bd Ad].
    apply (uncommon_spec m m_ok (p1 + j) (p2 + j) N Nb M2 (align_down (p1 + j)) o); try done; [lia|].
    intros t Ht. apply block1; [by apply Am|]. assert (0 < Z.of_nat o) by lia. nia.
Qed.

Lemma memcmp_spec junk : exists r, memcmp m junk p1 p2 L = Some r /\ result r.
Proof.
  unfold memcmp. assert (E0 : eq_to 0) by apply eq_to_0. pose proof opsiz_pos as Po. pose proof opsiz_le as Pl.
  destruct (Z.leb_spec OP_T_THRES L) as [HL|HL]; unfold OP_T_THRES in HL.
  2: { pose proof (tail_spec 0) as T. rewrite !Z.add_0_r, Z.sub_0_r in T. apply T; [lia|done]. }
  set (k := (- p2) mod opsiz). pose proof (Z.mod_pos_bound (- p2) opsiz Po) as Bk. fold k in Bk.
  assert (Ak : (p2 + k) mod opsiz = 0).
  { unfold k. rewrite Zplus_mod_idemp_r. replace (p2 + - p2) with 0 by lia. apply Z.mod_0_l. lia. }
  pose proof (align_spec op_size 0 k) as A. rewrite !Z.add_0_r, Z.sub_0_r in A.
  destruct A as (r & -> & Hr); [lia|unfold opsiz in Pl; lia|done|unfold opsiz in *; lia|done|]. rewrite bind_ok.
  destruct r as [r|[[a b] l]]; [exists r; by destruct Hr|]. destruct Hr as (j & Hj & Ej & -> & -> & -> & Aj).
  destruct (words_spec junk j) as (r & -> & Hr); [lia|lia|done|]. rewrite bind_ok.
  assert (Nz : opsiz <> 0) by lia. pose proof (Z.div_mod (L - j) opsiz Nz) as D. pose proof (Z.mod_pos_bound (L - j) opsiz Po) as Bm.
  destruct (result_shift j ((L - j) / opsiz * opsiz) r) as [[-> E]|[Nr Rr]]; [lia|done|lia|done| |].
  - cbn [Z.eqb negb]. rewrite align_down_eq.
    replace (L - j - (L - j) mod opsiz) with ((L - j) / opsiz * opsiz) by lia. rewrite <- !Z.add_assoc.
    replace ((L - j) mod opsiz) with (L - (j + (L - j) / opsiz * opsiz)) by lia. apply tail_spec; [lia|done].
  - rewrite (proj2 (Z.eqb_neq r 0) Nr). cbn [negb]. by exists r.
Qed.
End Memcmp.
