(* ===== verification/StringTheorems.v ===== *)
(** * The string functions that work on words

    Each result holds for words of four and of eight bytes and for both byte
    orders: the functions give what one that goes byte by byte gives, and they
    read no word that holds none of the bytes they are to look at. *)

From S2P Require Import Prelude CInt CLoop StringWord StringFind StringShift StringSearch StringBack StringCompare StringMemcmp StringMemcmpProof.

Section Search.
Context `{OpT}.
Variable m : memory.
Hypothesis m_ok : good_memory m.

Lemma stops_zero b : stops 0 b = is_zero b.
Proof. unfold stops, is_zero. apply orb_diag. Qed.

(** C19: strlen, strchrnul and strchr find the first byte that is the terminating
    zero or, for the last two, the character converted to unsigned char: strchr
    returns NULL when the zero comes first and a pointer to it when it is the
    zero that is looked for. No word behind the one that holds this byte is read. *)
Theorem strchr_strlen_correct s c_in e : let c := wrap 8 c_in in
  readable m (stops c) s -> first_at m (stops c) s e -> e - s < 2 ^ 63 ->
  __strchrnul m s c_in = Some e /\
  strchr m s c_in = Some (if byte_at m e =? c then Some e else None) /\
  (c = 0 -> __strlen m s = Some (e - s)).
Proof.
  intros c R F B. split; [by apply strchrnul_spec|]. split; [by apply strchr_spec|]. intros E. rewrite E in R, F. apply strlen_spec; [done| | |done].
  - intros w Aw Bw Nw. apply R; [done|done|]. intros y Hy. rewrite stops_zero. by apply Nw.
  - destruct F as (L & P & N). split; [done|]. rewrite stops_zero in P. split; [done|]. intros y Hy. rewrite <- stops_zero. by apply N.
Qed.

(** C31: memchr finds the first of at most n bytes that is the character, or
    NULL when none is; strnlen gives the length of the string, or n if there is
    no zero before.  Both hold for every n, also when s + n is past the end of
    the address space: the search then ends at the last address.  No word behind
    the one with the result is read. *)
Theorem memchr_correct s c_in n : let c := wrap 8 c_in in let last := sadd s (n - 1) in
  0 <= s <= UINTPTR_MAX -> 0 < n -> readable_to m c s last ->
  (exists r, __memchr m s c_in n = Some r /\ memchr_result m c s last r) /\
  (c = 0 ->
     exists k, __strnlen m s n = Some k /\ 0 <= k <= n /\ none m 0 s (Z.min (s + k) (last + 1)) /\
       (k < n -> s + k <= last /\ byte_at m (s + k) = 0)).
Proof.
  intros c last Bs Bn R. split; [by apply memchr_spec|]. intros E. apply strnlen_spec; [done..|]. by rewrite E in R.
Qed.

Lemma readable_zero_down s e c : readable m is_zero s -> first_at m is_zero s e -> readable_down m c s (e + 1).
Proof.
  intros R (L & P & N) w Aw [Bw Bx] _. apply R; [done|done|]. intros y Hy. apply N. lia.
Qed.

(** memrchr finds the last of n bytes that is the character and reads no
    word before the one with the result; strrchr finds the last one of a string,
    the terminating zero included. *)
Theorem memrchr_correct s c_in x : let c := wrap 8 c_in in 0 <= s < x -> x <= UINTPTR_MAX -> readable_down m c s x ->
  (exists r, __memrchr m s c_in (x - s) = Some r /\ memrchr_result m c s x r) /\
  (readable m is_zero s -> first_at m is_zero s (x - 1) -> x - s < 2 ^ 63 ->
     exists r, strrchr m s c_in = Some r /\ memrchr_result m c s x r).
Proof.
  intros c Bs Bx R. assert (M : exists r, __memrchr m s c_in (x - s) = Some r /\ memrchr_result m c s x r).
  { pose proof (memrchr_spec m m_ok s c_in (x - s)) as M. cbv zeta in M. replace (s + (x - s)) with x in M by lia. apply M; (done || lia). }
  split; [done|]. intros Rz F B. unfold strrchr. rewrite (strlen_spec m m_ok s (x - 1)) by (done || lia). rewrite bind_ok.
  by replace (x - 1 - s + 1) with (x - s) by lia.
Qed.

(** C13: strcmp returns the difference of the first bytes at which the strings
    differ, 0 when there are none, wherever the strings start in their words;
    it reads no word behind the one in which a string ends. *)
Theorem strcmp_correct p1 p2 e1 e2 : readable m is_zero p1 -> readable m is_zero p2 ->
  first_at m is_zero p1 e1 -> first_at m is_zero p2 e2 -> e1 - p1 < 2 ^ 62 -> e2 - p2 < 2 ^ 62 ->
  exists r, strcmp m p1 p2 = Some r /\ strcmp_result m p1 p2 r.
Proof. intros R1 R2 F1 F2 B1 B2. by apply (strcmp_spec m m_ok p1 p2 R1 R2 e1 e2). Qed.

(** C9: memcmp returns a number whose sign is that of the difference of the
    first bytes at which the blocks differ, and 0 when they are equal; it reads
    words that hold bytes of the blocks and no others, and the result does not
    depend on what its variables hold before they are assigned. *)
Theorem memcmp_correct junk p1 p2 L : readable_block m p1 L -> readable_block m p2 L -> 0 <= L < 2 ^ (bits - 1) ->
  exists r, memcmp m junk p1 p2 L = Some r /\ memcmp_result m p1 p2 L r.
Proof. intros B1 B2 BL. by apply memcmp_spec. Qed.
End Search.

(** ** Witnesses *)

(** Memory with [l] at the address 4096 and nothing else mapped. *)
Definition memory_of (l : list Z) : memory :=
  Mem (fun a => if (4096 <=? a) && (a <? 4096 + Z.of_nat (length l)) then l !!! Z.to_nat (a - 4096) else 0)
      (fun a => (4096 <=? a) && (a <? 4096 + Z.of_nat (length l))).

Lemma memory_of_ok l : Forall is_byte l -> good_memory (memory_of l).
Proof.
  intros F a. cbn. destruct (_ && _) eqn:E; [|unfold is_byte; lia]. apply andb_true_iff in E as [E1 E2]. apply Z.leb_le in E1. apply Z.ltb_lt in E2.
  apply (proj1 (list.Forall_forall _ _) F). apply list_elem_of_lookup_total_2. lia.
Qed.

(** A search on [memory_of l] can read what it needs. *)
Lemma first_by_check m (P : Z -> bool) s (n : nat) :
  P (byte_at m (s + Z.of_nat n)) = true -> forallb (fun i => negb (P (byte_at m (s + Z.of_nat i)))) (seq 0 n) = true ->
  first_at m P s (s + Z.of_nat n).
Proof.
  intros Pn Hb. split; [lia|]. split; [done|]. intros y Hy. rewrite forallb_forall in Hb.
  specialize (Hb (Z.to_nat (y - s)) ltac:(apply in_seq; lia)). apply negb_true_iff in Hb.
  replace (s + Z.of_nat (Z.to_nat (y - s))) with y in Hb by lia. done.
Qed.

Lemma readable_by_end `{OpT} m (P : Z -> bool) s e : first_at m P s e ->
  (forall w, align_down s <= w <= e -> mapped m w = true) -> readable m P s.
Proof.
  intros (L & Pe & _) Hm w _ Bw Nw. apply Hm. split; [done|]. destruct (Z.le_gt_cases w e) as [|G]; [done|]. rewrite Nw in Pe by lia. done.
Qed.

Lemma mapped_of l a : 4096 <= a < 4096 + Z.of_nat (length l) -> mapped (memory_of l) a = true.
Proof. intros B. cbn. apply andb_true_iff. split; [apply Z.leb_le|apply Z.ltb_lt]; lia. Qed.

(** Three bytes, "memory" and its zero, and bytes up to a multiple of eight. *)
Definition sample : list Z := [1; 2; 3; 109; 101; 109; 111; 114; 121; 0; 109; 7; 7; 7; 7; 7].

Lemma sample_ok : good_memory (memory_of sample).
Proof. apply memory_of_ok. repeat constructor; unfold is_byte; lia. Qed.

(** The first zero from [3] on is at [9], the first "r" at [7]. *)
Lemma sample_zero : first_at (memory_of sample) is_zero 4099 4105.
Proof. by apply (first_by_check _ _ 4099 6). Qed.

Lemma sample_r : first_at (memory_of sample) (stops 114) 4099 4103.
Proof. by apply (first_by_check _ _ 4099 4). Qed.

Lemma sample_mapped a : 4096 <= a < 4112 -> mapped (memory_of sample) a = true.
Proof. intros B. by apply mapped_of. Qed.

Lemma strchr_strlen_witness :
  @strchr op_le64 (memory_of sample) 4099 114 = Some (Some 4103) /\ @__strlen op_be32 (memory_of sample) 4099 = Some 6.
Proof.
  assert (Al : @align_down op_le64 4099 = 4096) by reflexivity. assert (Ab : @align_down op_be32 4099 = 4096) by reflexivity.
  split.
  - pose proof (@strchr_strlen_correct op_le64 (memory_of sample) sample_ok 4099 114 4103) as T. apply T; [|exact sample_r|lia].
    apply (@readable_by_end op_le64 _ _ _ 4103 sample_r). intros w Hw. apply sample_mapped. lia.
  - assert (F0 : first_at (memory_of sample) (stops 0) 4099 4105) by (by apply (first_by_check _ _ 4099 6)).
    pose proof (@strchr_strlen_correct op_be32 (memory_of sample) sample_ok 4099 0 4105) as T. apply T; [|exact F0|lia|reflexivity].
    apply (@readable_by_end op_be32 _ _ _ 4105 F0). intros w Hw. apply sample_mapped. lia.
Defined.

Lemma memchr_witness :
  (exists r, @__memchr op_be32 (memory_of sample) 4099 114 9 = Some r /\ memchr_result (memory_of sample) 114 4099 4107 r) /\
  exists k, @__strnlen op_be32 (memory_of sample) 4099 (2 ^ 32 - 1) = Some k /\ k = 6.
Proof.
  assert (Al : @align_down op_be32 4099 = 4096 /\ @align_down op_be32 (@sadd op_be32 4099 (9 - 1)) = 4104) by (split; reflexivity).
  destruct Al as [A1 A2]. split.
  - pose proof (@memchr_correct op_be32 (memory_of sample) sample_ok 4099 114 9) as T.
    apply T; [by vm_compute|lia|]. intros w _ Bw _. apply sample_mapped. rewrite A1, A2 in Bw. lia.
  - destruct (@memchr_correct op_be32 (memory_of sample) sample_ok 4099 0 (2 ^ 32 - 1)) as [_ H]; [by vm_compute|lia| |].
    + intros w Aw Bw N. apply sample_mapped. rewrite A1 in Bw. destruct (Z.le_gt_cases w 4105); [lia|].
      destruct (N 4105 ltac:(lia)). by vm_compute.
    + destruct (H eq_refl) as (k & E & _). exists k. split; [done|]. vm_compute in E. congruence.
Defined.

Lemma memrchr_witness : exists r, @strrchr op_le64 (memory_of sample) 4099 109 = Some r /\ memrchr_result (memory_of sample) 109 4099 4106 r.
Proof.
  assert (Al : @align_down op_le64 4099 = 4096) by reflexivity.
  assert (R : @readable op_le64 (memory_of sample) is_zero 4099).
  { apply (@readable_by_end op_le64 _ _ _ 4105 sample_zero). intros w Hw. apply sample_mapped. lia. }
  pose proof (@memrchr_correct op_le64 (memory_of sample) sample_ok 4099 109 4106) as T.
  apply T; [lia|by vm_compute|exact (readable_zero_down (memory_of sample) 4099 4105 109 R sample_zero)|exact R|exact sample_zero|lia].
Defined.

Lemma strcmp_witness : exists r, @strcmp op_le64 (memory_of sample) 4101 4099 = Some r /\ strcmp_result (memory_of sample) 4101 4099 r.
Proof.
  assert (Al : @align_down op_le64 4099 = 4096 /\ @align_down op_le64 4101 = 4096) by (split; reflexivity).
  assert (F1 : first_at (memory_of sample) is_zero 4101 4105) by (by apply (first_by_check _ _ 4101 4)).
  apply (@strcmp_correct op_le64 (memory_of sample) sample_ok 4101 4099 4105 4105); [| |exact F1|exact sample_zero|lia|lia].
  - apply (@readable_by_end op_le64 _ _ _ 4105 F1). intros w Hw. apply sample_mapped. lia.
  - apply (@readable_by_end op_le64 _ _ _ 4105 sample_zero). intros w Hw. apply sample_mapped. lia.
Defined.

Lemma memcmp_witness : exists r, @memcmp op_be32 (memory_of (sample ++ sample)) 0 4099 4110 17 = Some r /\
  memcmp_result (memory_of (sample ++ sample)) 4099 4110 17 r.
Proof.
  assert (G : good_memory (memory_of (sample ++ sample))) by (apply memory_of_ok; repeat constructor; unfold is_byte; lia).
  assert (Os : @opsiz op_be32 = 4) by reflexivity.
  apply (@memcmp_correct op_be32 _ G 0 4099 4110 17); [| |split; [lia|by vm_compute]].
  - intros w Aw Bw. rewrite Os in Aw, Bw. apply mapped_of. change (Z.of_nat (length (sample ++ sample))) with 32. 
    split; [|lia]. apply Z.mod_divide in Aw as [k ->]; lia.
  - intros w Aw Bw. rewrite Os in Aw, Bw. apply mapped_of. change (Z.of_nat (length (sample ++ sample))) with 32. lia.
Defined.
