(* ===== verification/StringSpan.v ===== *)
(** * Spans and tokens: [string/strspn.c], [strcspn.c], [strpbrk.c],
      [strtok_r.c], [strtok.c], [strsep.c]

    A set of characters is a table of 256 bytes; the string is looked at four
    bytes at a time from a multiple of four on. *)

From S2P Require Import Prelude CInt CLoop StringWord StringFind StringShift StringSearch.

Section Code.
Context `{OpT}.

(** ** Tables *)

(** [memset] of the four quarters. *)
Definition empty_table : list Z := replicate 256 0.

(** [p[c] = 1] *)
Definition table_set (p : list Z) (c : Z) : list Z := <[Z.to_nat c := 1]> p.
(** [p[c]] *)
Definition table_get (p : list Z) (c : Z) : Z := nth (Z.to_nat c) p 0.

(** [do p[*s++] = 1; while ( *s);] *)
Definition accept_table (m : memory) (accept : Z) : option (list Z) :=
  run 64 (fun '(s, p) =>
    match load_byte m s, load_byte m (s + 1) with
    | Some c, Some next =>
      let p := table_set p c in
      if negb (next =? 0) then inl (s + 1, p) else inr (Some p)
    | _, _ => inr None
    end) (accept, empty_table).

(** [do p[tmp = *s++] = 1; while (tmp);] *)
Definition reject_table (m : memory) (reject : Z) : option (list Z) :=
  run 64 (fun '(s, p) =>
    match load_byte m s with
    | Some tmp =>
      let p := table_set p tmp in
      if negb (tmp =? 0) then inl (s + 1, p) else inr (Some p)
    | None => inr None
    end) (reject, empty_table).

(** ** Spans *)

(** [PTR_ALIGN_DOWN (s, 4)] *)
Definition align4 (s : Z) : Z := Z.land s (- 4).

(** The loop over groups of four bytes: where it stops, and what the table has
    for the bytes there. *)
Definition quads (m : memory) (p : list Z) (stop : Z -> Z -> Z -> Z -> bool) (s : Z) : option (Z * Z * Z * Z * Z) :=
  run 64 (fun s =>
    let s := s + 4 in
    match load_byte m s, load_byte m (s + 1), load_byte m (s + 2), load_byte m (s + 3) with
    | Some b0, Some b1, Some b2, Some b3 =>
      let c0 := table_get p b0 in let c1 := table_get p b1 in
      let c2 := table_get p b2 in let c3 := table_get p b3 in
      if stop c0 c1 c2 c3 then inr (Some (s, c0, c1, c2, c3)) else inl s
    | _, _, _, _ => inr None
    end) s.

(** [for (; *str == *accept; str++);] *)
Definition same_char (m : memory) (str c : Z) : option Z :=
  run 64 (fun s => match load_byte m s with
                   | Some b => if b =? c then inl (s + 1) else inr (Some s)
                   | None => inr None
                   end) str.

(** The four tests before the loop: [Some i] for [return i]. *)
Definition first_four (m : memory) (p : list Z) (stop : Z -> bool) (s : Z) : option (option Z) :=
  b0 ← load_byte m s; if stop (table_get p b0) then Some (Some 0) else
  b1 ← load_byte m (s + 1); if stop (table_get p b1) then Some (Some 1) else
  b2 ← load_byte m (s + 2); if stop (table_get p b2) then Some (Some 2) else
  b3 ← load_byte m (s + 3); if stop (table_get p b3) then Some (Some 3) else
  Some None.

Definition strspn (m : memory) (str accept : Z) : option Z :=
  a0 ← load_byte m accept;
  if a0 =? 0 then Some 0
  else
    a1 ← load_byte m (accept + 1);
    if a1 =? 0 then s ← same_char m str a0; Some (s - str)
    else
      p ← accept_table m accept;
      r ← first_four m p (fun c => c =? 0) str;
      match r with
      | Some i => Some i
      | None =>
        '(s, c0, c1, c2, c3) ← quads m p (fun c0 c1 c2 c3 => Z.land (Z.land (Z.land c0 c1) c2) c3 =? 0) (align4 str);
        let count := s - str in
        Some (if Z.land c0 c1 =? 0 then count + c0 else count + c2 + 2)
      end.

Definition strcspn (m : memory) (str reject : Z) : option Z :=
  r0 ← load_byte m reject;
  short ← (if r0 =? 0 then Some true else r1 ← load_byte m (reject + 1); Some (r1 =? 0));
  if (short : bool) then e ← __strchrnul m str r0; Some (e - str)
  else
    p ← reject_table m reject;
    r ← first_four m p (fun c => negb (c =? 0)) str;
    match r with
    | Some i => Some i
    | None =>
      '(s, c0, c1, c2, c3) ← quads m p (fun c0 c1 c2 c3 => negb (Z.lor (Z.lor (Z.lor c0 c1) c2) c3 =? 0)) (align4 str);
      let count := s - str in
      Some (if negb (Z.lor c0 c1 =? 0) then count - c0 + 1 else count - c2 + 3)
    end.

Definition strpbrk (m : memory) (s accept : Z) : option (option Z) :=
  n ← strcspn m s accept;
  b ← load_byte m (s + n);
  Some (if b =? 0 then None else Some (s + n)).

(** ** Tokens *)

(** [*p = v] *)
Definition store_byte (m : memory) (p v : Z) : option memory :=
  if mapped m (align_down p) then Some (Mem (fun a => if a =? p then v else byte_at m a) (mapped m)) else None.

(** The token, the memory and [*save_ptr]. *)
Definition __strtok_r (m : memory) (s : option Z) (delim save_ptr : Z) : option (option Z * memory * Z) :=
  let s := default save_ptr s in
  b ← load_byte m s;
  if b =? 0 then Some (None, m, s)
  else
    n ← strspn m s delim;
    let s := s + n in
    b ← load_byte m s;
    if b =? 0 then Some (None, m, s)
    else
      n ← strcspn m s delim;
      let end_ := s + n in
      b ← load_byte m end_;
      if b =? 0 then Some (Some s, m, end_)
      else m ← store_byte m end_ 0; Some (Some s, m, end_ + 1).

(** [olds] is the variable that is kept between the calls. *)
Definition strtok (m : memory) (s : option Z) (delim olds : Z) : option (option Z * memory * Z) :=
  __strtok_r m s delim olds.

(** [*stringp] may be [NULL]. *)
Definition __strsep (m : memory) (stringp : option Z) (delim : Z) : option (option Z * memory * option Z) :=
  match stringp with
  | None => Some (None, m, None)
  | Some begin =>
    n ← strcspn m begin delim;
    let end_ := begin + n in
    b ← load_byte m end_;
    if negb (b =? 0) then m ← store_byte m end_ 0; Some (Some begin, m, Some (end_ + 1))
    else Some (Some begin, m, None)
  end.
End Code.

Section Theorems.
Context `{OpT}.
Variable m : memory.
Hypothesis m_ok : good_memory m.

(** The bytes a search looks at can be loaded. *)
Lemma load_search P s e a : readable m P s -> first_at m P s e -> s <= a <= e -> load_byte m a = Some (byte_at m a).
Proof.
  intros R (_ & _ & N) Ha. apply load_byte_ok. destruct (align_down_bounds a) as [Ba Aa], (align_down_bounds s) as [Bs As].
  apply R; [done| |].
  - destruct (Z.le_gt_cases (align_down s) (align_down a)) as [|G]; [done|]. pose proof (aligned_lt _ _ Aa As G). lia.
  - intros y Hy. apply N. lia.
Qed.

(** ** Tables *)

Definition table_of (l : list Z) : list Z := foldl table_set empty_table l.

Lemma table_get_set p c b : length p = 256%nat -> is_byte c -> is_byte b -> table_get (table_set p c) b = if b =? c then 1 else table_get p b.
Proof.
  unfold is_byte, table_get, table_set. intros L Bc Bb. destruct (Z.eqb_spec b c) as [->|N].
  - by rewrite nth_lookup, list_lookup_insert_eq by lia.
  - rewrite !nth_lookup, list_lookup_insert_ne by lia. done.
Qed.

Lemma length_table_fold l p : length p = 256%nat -> length (foldl table_set p l) = 256%nat.
Proof. revert p. induction l as [|c l IH]; intros p L; [done|]. cbn. apply IH. unfold table_set. by rewrite length_insert. Qed.

Lemma table_fold l p b : length p = 256%nat -> Forall is_byte l -> is_byte b ->
  table_get (foldl table_set p l) b = if bool_decide (b ∈ l) then 1 else table_get p b.
Proof.
  revert p. induction l as [|c l IH]; intros p L F Hb; [done|]. inversion F as [|? ? Hc Fl]; subst. cbn [foldl].
  rewrite IH by (try done; unfold table_set; by rewrite length_insert). rewrite table_get_set by done.
  destruct (bool_decide (b ∈ l)) eqn:E1.
  - apply bool_decide_eq_true in E1. rewrite bool_decide_true; [done|]. apply elem_of_cons. by right.
  - apply bool_decide_eq_false in E1. destruct (Z.eqb_spec b c) as [->|N].
    + rewrite bool_decide_true; [done|]. apply elem_of_cons. by left.
    + rewrite bool_decide_false; [done|]. intros [|]%elem_of_cons; done.
Qed.

Lemma table_of_get l b : Forall is_byte l -> is_byte b -> table_get (table_of l) b = b2z (bool_decide (b ∈ l)).
Proof.
  intros F Hb. unfold table_of. rewrite table_fold by done. destruct (bool_decide (b ∈ l)); [done|].
  unfold table_get, empty_table. unfold is_byte in Hb. rewrite nth_lookup, (lookup_replicate_2 256 0) by lia. done.
Qed.

Lemma table_fold_snoc a k : foldl table_set empty_table (window m a (S k)) = table_set (foldl table_set empty_table (window m a k)) (byte_at m (a + Z.of_nat k)).
Proof. replace (S k) with (k + 1)%nat by lia. rewrite window_app, foldl_app, window_cons. done. Qed.

Lemma accept_table_spec a n : readable m is_zero a -> first_at m is_zero a (a + n) -> 0 < n < 2 ^ 63 ->
  accept_table m a = Some (table_of (window m a (Z.to_nat n))).
Proof.
  intros R F Bn. assert (exists r, accept_table m a = Some r /\ r = table_of (window m a (Z.to_nat n))) as (r & -> & ->); [|done].
  apply (run_spec _
    (fun j '(s, p) => exists k, s = a + Z.of_nat k /\ Z.of_nat k < n /\ j = n - Z.of_nat k /\ p = table_of (window m a k))
    (fun p => p = table_of (window m a (Z.to_nat n))) 64 n); [| |lia].
  - intros j [s p] (k & -> & Bk & -> & ->). rewrite !(load_search is_zero a (a + n)) by (done || lia).
    unfold table_of. rewrite <- table_fold_snoc. destruct (Z.eqb_spec (byte_at m (a + Z.of_nat k + 1)) 0) as [E|E]; cbn [negb].
    + assert (n = Z.of_nat k + 1) as ->; [|replace (Z.to_nat (Z.of_nat k + 1)) with (S k) by lia; done].
      destruct F as (_ & _ & N). destruct (Z.eq_dec n (Z.of_nat k + 1)) as [|Ne]; [done|]. specialize (N (a + Z.of_nat k + 1) ltac:(lia)).
      unfold is_zero in N. by rewrite E in N.
    + exists (n - Z.of_nat (S k)). split; [lia|]. exists (S k). split; [lia|]. split; [|done].
      destruct F as (_ & Z0 & _). destruct (Z.eq_dec n (Z.of_nat (S k))) as [->|]; [|lia]. apply Z.eqb_eq in Z0.
      replace (a + Z.of_nat (S k)) with (a + Z.of_nat k + 1) in Z0 by lia. done.
  - exists 0%nat. split; [lia|]. split; [lia|]. split; [lia|done].
Qed.

Lemma reject_table_spec a n : readable m is_zero a -> first_at m is_zero a (a + n) -> 0 <= n < 2 ^ 63 ->
  reject_table m a = Some (table_of (window m a (Z.to_nat (n + 1)))).
Proof.
  intros R F Bn. assert (exists r, reject_table m a = Some r /\ r = table_of (window m a (Z.to_nat (n + 1)))) as (r & -> & ->); [|done].
  apply (run_spec _
    (fun j '(s, p) => exists k, s = a + Z.of_nat k /\ Z.of_nat k <= n /\ j = n - Z.of_nat k /\ p = table_of (window m a k))
    (fun p => p = table_of (window m a (Z.to_nat (n + 1)))) 64 n); [| |lia].
  - intros j [s p] (k & -> & Bk & -> & ->). rewrite !(load_search is_zero a (a + n)) by (done || lia).
    unfold table_of. rewrite <- table_fold_snoc. destruct F as (_ & Z0 & N).
    destruct (Z.eqb_spec (byte_at m (a + Z.of_nat k)) 0) as [E|E]; cbn [negb].
    + assert (n = Z.of_nat k) as ->; [|replace (Z.to_nat (Z.of_nat k + 1)) with (S k) by lia; done].
      destruct (Z.eq_dec n (Z.of_nat k)) as [|Ne]; [done|]. specialize (N (a + Z.of_nat k) ltac:(lia)). unfold is_zero in N. by rewrite E in N.
    + exists (n - Z.of_nat (S k)). apply Z.eqb_eq in Z0. assert (n <> Z.of_nat k) by (intros ->; done). split; [lia|].
      exists (S k). split; [lia|]. split; [lia|done].
  - exists 0%nat. split; [lia|]. split; [lia|]. split; [lia|done].
Qed.

(** ** Groups of four *)

Lemma align4_bounds a : align4 a <= a < align4 a + 4 /\ align4 a mod 4 = 0.
Proof.
  unfold align4. change (- 4) with (Z.lnot (Z.ones 2)). rewrite <- Z.ldiff_land, Z.ldiff_ones_r, Z.shiftl_mul_pow2, Z.shiftr_div_pow2 by lia.
  change (2 ^ 2) with 4. split; [|by apply Z.mod_mul]. pose proof (Z.div_mod a 4 ltac:(lia)). pose proof (Z.mod_pos_bound a 4). lia.
Qed.

Lemma opsiz_mod4 : opsiz mod 4 = 0.
Proof. unfold opsiz. by destruct op_size_ok as [-> | ->]. Qed.

(** The bytes of a group are in one word. *)
Lemma load_quad P s q i : readable m P s -> s <= q -> q mod 4 = 0 -> (forall y, s <= y < q -> P (byte_at m y) = false) ->
  0 <= i < 4 -> load_byte m (q + i) = Some (byte_at m (q + i)).
Proof.
  intros R Bq Aq N Bi. apply load_byte_ok. destruct (align_down_bounds (q + i)) as [Bw Aw], (align_down_bounds s) as [Bs As].
  assert (W : align_down (q + i) <= q).
  { assert (align_down (q + i) mod 4 = 0); [|Z.to_euclidean_division_equations; lia]. pose proof opsiz_mod4 as O4. pose proof opsiz_pos as Po. assert (opsiz <> 0) as Nz by lia.
    apply Z.mod_divide in Aw as [j ->]; [|done]. apply Z.mod_divide in O4 as [k ->]; [|lia]. rewrite Z.mul_assoc. by apply Z.mod_mul. }
  apply R; [done| |].
  - destruct (Z.le_gt_cases (align_down s) (align_down (q + i))) as [|G]; [done|]. pose proof (aligned_lt _ _ Aw As G). lia.
  - intros y Hy. apply N. lia.
Qed.

Lemma quads_spec P p stop s e : readable m P s -> first_at m P s e -> s + 4 <= e -> e - s < 2 ^ 63 ->
  (forall b0 b1 b2 b3, is_byte b0 -> is_byte b1 -> is_byte b2 -> is_byte b3 ->
     stop (table_get p b0) (table_get p b1) (table_get p b2) (table_get p b3) = P b0 || P b1 || P b2 || P b3) ->
  let q := align4 e in s <= q /\
  quads m p stop (align4 s) = Some (q, table_get p (byte_at m q), table_get p (byte_at m (q + 1)),
    table_get p (byte_at m (q + 2)), table_get p (byte_at m (q + 3))).
Proof.
  intros R F L B St q. destruct (F) as (_ & Pe & N). destruct (align4_bounds s) as [Bs As], (align4_bounds e) as [Be Ae]. fold q in Be, Ae.
  assert (s <= q) as Sq by lia. split; [done|].
  assert (exists r, quads m p stop (align4 s) = Some r /\ r = (q, table_get p (byte_at m q), table_get p (byte_at m (q + 1)),
    table_get p (byte_at m (q + 2)), table_get p (byte_at m (q + 3)))) as (r & -> & ->); [|done].
  apply (run_spec _ (fun j t => t mod 4 = 0 /\ align4 s <= t /\ t + 4 <= q /\ j = q - t) _ 64 (q - align4 s)); [| |lia].
  - intros j t (At & Bt & Tq & ->). cbv zeta. assert (At4 : (t + 4) mod 4 = 0) by (Z.to_euclidean_division_equations; lia).
    pose proof (load_quad P s (t + 4) 0 R) as L0. rewrite Z.add_0_r in L0.
    assert (Nt : forall y, s <= y < t + 4 -> P (byte_at m y) = false) by (intros y Hy; apply N; lia).
    rewrite L0, !(load_quad P s (t + 4)) by (done || lia). rewrite St by apply m_ok.
    destruct (P (byte_at m (t + 4)) || P (byte_at m (t + 4 + 1)) || P (byte_at m (t + 4 + 2)) || P (byte_at m (t + 4 + 3))) eqn:Ex.
    + assert (t + 4 = q) as ->; [|done]. destruct (Z.eq_dec (t + 4) q) as [|Ne]; [done|]. exfalso.
      assert (Nq : forall i, 0 <= i < 4 -> P (byte_at m (t + 4 + i)) = false) by (intros i Hi; apply N; Z.to_euclidean_division_equations; lia).
      pose proof (Nq 0 ltac:(lia)) as N0. rewrite Z.add_0_r in N0. rewrite N0, !Nq in Ex by lia. done.
    + exists (q - (t + 4)). split; [lia|]. split; [done|]. split; [lia|]. split; [|lia].
      destruct (Z.eq_dec (t + 4) q) as [Eq|]; [|Z.to_euclidean_division_equations; lia]. exfalso. rewrite Eq in Ex.
      assert (e = q \/ e = q + 1 \/ e = q + 2 \/ e = q + 3) as [E|[E|[E|E]]] by lia; rewrite E in Pe; rewrite Pe in Ex; rewrite ?orb_true_r in Ex; done.
  - split; [done|]. split; [lia|]. split; [Z.to_euclidean_division_equations; lia|done].
Qed.

Lemma first_four_spec P p stop s e : readable m P s -> first_at m P s e ->
  (forall b, is_byte b -> stop (table_get p b) = P b) ->
  first_four m p stop s = Some (if e - s <? 4 then Some (e - s) else None).
Proof.
  intros R F St. destruct (F) as (Bs & Pe & N). unfold first_four.
  assert (Step : forall i, s + i <= e -> 0 <= i -> load_byte m (s + i) = Some (byte_at m (s + i)) /\
    stop (table_get p (byte_at m (s + i))) = (e =? s + i)).
  { intros i Bi Hi. split; [apply (load_search P s e); [done|done|lia]|]. rewrite St by apply m_ok.
    destruct (Z.eqb_spec e (s + i)) as [<-|Ne]; [done|]. apply N. lia. }
  destruct (Step 0) as [L0 S0]; [lia|lia|]. rewrite Z.add_0_r in L0, S0. rewrite L0. cbn [mbind option_bind]. rewrite S0.
  destruct (Z.eqb_spec e s) as [->|]; [by rewrite Z.sub_diag|].
  destruct (Step 1) as [L1 S1]; [lia|lia|]. rewrite L1. cbn [mbind option_bind]. rewrite S1.
  destruct (Z.eqb_spec e (s + 1)) as [->|]; [by replace (s + 1 - s) with 1 by lia|].
  destruct (Step 2) as [L2 S2]; [lia|lia|]. rewrite L2. cbn [mbind option_bind]. rewrite S2.
  destruct (Z.eqb_spec e (s + 2)) as [->|]; [by replace (s + 2 - s) with 2 by lia|].
  destruct (Step 3) as [L3 S3]; [lia|lia|]. rewrite L3. cbn [mbind option_bind]. rewrite S3.
  destruct (Z.eqb_spec e (s + 3)) as [->|]; [by replace (s + 3 - s) with 3 by lia|].
  by rewrite (proj2 (Z.ltb_ge _ _)) by lia.
Qed.

(** ** Spans *)

(** The characters of the string of length [n] at [a], and these with the zero. *)
Definition not_in (a n b : Z) : bool := negb (bool_decide (b ∈ window m a (Z.to_nat n))).
Definition in_or_zero (a n b : Z) : bool := bool_decide (b ∈ window m a (Z.to_nat (n + 1))).

(** A set of characters can be read. *)
Definition char_set (a n : Z) : Prop := readable m is_zero a /\ first_at m is_zero a (a + n) /\ 0 <= n < 2 ^ 63.

Lemma in_or_zero_char a n b : char_set a n -> in_or_zero a n b = negb (not_in a n b) || (b =? 0).
Proof.
  intros (_ & (_ & Z0 & _) & Bn). unfold in_or_zero, not_in. rewrite negb_involutive. replace (Z.to_nat (n + 1)) with (Z.to_nat n + 1)%nat by lia.
  rewrite window_app, window_cons. replace (a + Z.of_nat (Z.to_nat n)) with (a + n) by lia. apply Z.eqb_eq in Z0. rewrite Z0.
  apply eq_true_iff_eq. rewrite orb_true_iff, !bool_decide_eq_true, Z.eqb_eq, elem_of_app, elem_of_cons. cbn. split.
  - intros [|[|E]]; [by left|by right|by apply not_elem_of_nil in E].
  - intros [|]; [by left|by right; left].
Qed.

(** Which of four bytes is the first. *)
Lemma first_of_four (P : Z -> bool) q s e : first_at m P s e -> s <= q -> q <= e < q + 4 ->
  exists k, e = q + k /\ 0 <= k < 4 /\ P (byte_at m (q + k)) = true /\ forall i, 0 <= i < k -> P (byte_at m (q + i)) = false.
Proof. intros (_ & Pe & N) Sq B. exists (e - q). replace (q + (e - q)) with e by lia. split; [lia|]. split; [lia|]. split; [done|]. intros i Hi. apply N. lia. Qed.

Ltac eval_bits := repeat match goal with
  | |- context [Z.land ?x ?y] => let z := eval vm_compute in (Z.land x y) in change (Z.land x y) with z
  | |- context [Z.lor ?x ?y] => let z := eval vm_compute in (Z.lor x y) in change (Z.lor x y) with z
  end.

Lemma strspn_spec str a n e : char_set a n -> readable m (not_in a n) str -> first_at m (not_in a n) str e -> e - str < 2 ^ 63 ->
  strspn m str a = Some (e - str).
Proof.
  intros (Ra & Fa & Bn) Rs Fs Be. destruct (Fa) as (_ & Z0 & Na). destruct (Fs) as (Bs & Pe & Ns). unfold strspn.
  rewrite (load_search is_zero a (a + n) a) by (done || lia). cbn [mbind option_bind]. destruct (Z.eqb_spec (byte_at m a) 0) as [E0|E0].
  { assert (n = 0) as ->.
    { destruct (Z.eq_dec n 0) as [|N0]; [done|]. specialize (Na a ltac:(lia)). unfold is_zero in Na. by rewrite E0 in Na. }
    destruct (Z.eq_dec e str) as [->|]; [f_equal; lia|]. specialize (Ns str ltac:(lia)). done. }
  assert (N0 : 0 < n). { destruct (Z.eq_dec n 0) as [->|]; [|lia]. rewrite Z.add_0_r in Z0. by apply Z.eqb_eq in Z0. }
  rewrite (load_search is_zero a (a + n) (a + 1)) by (done || lia). cbn [mbind option_bind]. destruct (Z.eqb_spec (byte_at m (a + 1)) 0) as [E1|E1].
  { assert (n = 1) as ->.
    { destruct (Z.eq_dec n 1) as [|N1]; [done|]. specialize (Na (a + 1) ltac:(lia)). unfold is_zero in Na. by rewrite E1 in Na. }
    assert (Q : forall b, not_in a 1 b = negb (b =? byte_at m a)).
    { intros b. unfold not_in. f_equal. change (Z.to_nat 1) with 1%nat. rewrite window_cons. apply eq_true_iff_eq. rewrite bool_decide_eq_true, Z.eqb_eq.
      cbn. by rewrite list_elem_of_singleton. }
    assert (exists r, same_char m str (byte_at m a) = Some r /\ r = e) as (r & -> & ->); [|done].
    apply (run_spec _ (fun j s => str <= s <= e /\ j = e - s) _ 64 (e - str)); [|lia|lia]. intros j s [B ->].
    rewrite (load_search (not_in a 1) str e) by (done || lia). destruct (Z.eqb_spec (byte_at m s) (byte_at m a)) as [Es|Es].
    - exists (e - (s + 1)). destruct (Z.eq_dec s e) as [->|]; [|lia]. rewrite Q, Es, Z.eqb_refl in Pe. done.
    - destruct (Z.eq_dec s e) as [|]; [done|]. specialize (Ns s ltac:(lia)). rewrite Q, (proj2 (Z.eqb_neq _ _) Es) in Ns. done. }
  rewrite accept_table_spec with (n := n) by (done || lia). cbn [mbind option_bind]. set (p := table_of (window m a (Z.to_nat n))).
  assert (G : forall b, is_byte b -> table_get p b = b2z (negb (not_in a n b))).
  { intros b Hb. unfold p, not_in. rewrite negb_involutive. apply table_of_get; [by apply window_bytes|done]. }
  rewrite (first_four_spec (not_in a n) p _ str e); [|done|done|]. 2: { intros b Hb. rewrite G by done. by destruct (not_in a n b). }
  cbn [mbind option_bind]. destruct (Z.ltb_spec (e - str) 4) as [|L4]; [done|].
  destruct (quads_spec (not_in a n) p (fun c0 c1 c2 c3 => Z.land (Z.land (Z.land c0 c1) c2) c3 =? 0) str e) as [Sq ->]; [done|done|lia|done| |].
  { intros b0 b1 b2 b3 H0 H1 H2 H3. rewrite !G by done. by destruct (not_in a n b0), (not_in a n b1), (not_in a n b2), (not_in a n b3). }
  cbn [mbind option_bind]. set (q := align4 e) in *. destruct (align4_bounds e) as [Bq _]. fold q in Bq.
  destruct (first_of_four _ q str e Fs Sq Bq) as (k & Ek & Bk & Pk & Nk). rewrite !G by apply m_ok. f_equal.
  assert (k = 0 \/ k = 1 \/ k = 2 \/ k = 3) as [K|[K|[K|K]]] by lia; rewrite K in *; rewrite ?Z.add_0_r in Pk; rewrite ?Pk.
  all: pose proof (Nk 0) as D0; pose proof (Nk 1) as D1; pose proof (Nk 2) as D2; rewrite Z.add_0_r in D0;
    rewrite ?D0, ?D1, ?D2 by lia; destruct (not_in a n (byte_at m (q + 1))); cbn [negb b2z]; eval_bits; cbn [Z.eqb]; lia.
Qed.

Lemma readable_ext P Q s : (forall b, P b = Q b) -> readable m P s -> readable m Q s.
Proof. intros E R w Aw Bw N. apply R; [done|done|]. intros y Hy. rewrite E. by apply N. Qed.

Lemma first_at_ext P Q s e : (forall b, P b = Q b) -> first_at m P s e -> first_at m Q s e.
Proof. intros E (L & Pe & N). split; [done|]. rewrite <- E. split; [done|]. intros y Hy. rewrite <- E. by apply N. Qed.

Lemma strcspn_spec str a n e : char_set a n -> readable m (in_or_zero a n) str -> first_at m (in_or_zero a n) str e -> e - str < 2 ^ 63 ->
  strcspn m str a = Some (e - str).
Proof.
  intros Ca Rs Fs Be. destruct (Ca) as (Ra & Fa & Bn). destruct (Fa) as (_ & Z0 & Na). unfold strcspn.
  rewrite (load_search is_zero a (a + n) a) by (done || lia). cbn [mbind option_bind].
  assert (Sh : (if byte_at m a =? 0 then Some true else r1 ← load_byte m (a + 1); Some (r1 =? 0)) = Some (n <=? 1)).
  { destruct (Z.eqb_spec (byte_at m a) 0) as [E0|E0].
    - destruct (Z.leb_spec n 1); [done|]. specialize (Na a ltac:(lia)). unfold is_zero in Na. by rewrite E0 in Na.
    - assert (0 < n). { destruct (Z.eq_dec n 0) as [->|]; [|lia]. rewrite Z.add_0_r in Z0. by apply Z.eqb_eq in Z0. }
      rewrite (load_search is_zero a (a + n) (a + 1)) by (done || lia). cbn [mbind option_bind]. f_equal. destruct (Z.leb_spec n 1).
      + assert (n = 1) as -> by lia. done.
      + apply (Na (a + 1)). lia. }
  rewrite Sh. cbn [mbind option_bind]. destruct (Z.leb_spec n 1) as [L1|L1].
  { assert (W : wrap 8 (byte_at m a) = byte_at m a) by (apply wrap_small; apply m_ok).
    assert (Q : forall b, in_or_zero a n b = stops (byte_at m a) b).
    { intros b. rewrite in_or_zero_char by done. unfold stops, not_in. rewrite negb_involutive. assert (n = 0 \/ n = 1) as [-> | ->] by lia.
      - rewrite Z.add_0_r in Z0. apply Z.eqb_eq in Z0. rewrite Z0, orb_diag. by rewrite bool_decide_false by (by intros ?%not_elem_of_nil).
      - rewrite orb_comm. f_equal. change (Z.to_nat 1) with 1%nat. rewrite window_cons. apply eq_true_iff_eq. rewrite bool_decide_eq_true, Z.eqb_eq.
        cbn. by rewrite list_elem_of_singleton. }
    rewrite (strchrnul_spec m m_ok str (byte_at m a) e); [done| | |done]; cbv zeta; rewrite W.
    - by apply (readable_ext (in_or_zero a n)).
    - by apply (first_at_ext (in_or_zero a n)). }
  rewrite reject_table_spec with (n := n) by (done || lia). cbn [mbind option_bind]. set (p := table_of (window m a (Z.to_nat (n + 1)))).
  assert (G : forall b, is_byte b -> table_get p b = b2z (in_or_zero a n b)).
  { intros b Hb. apply table_of_get; [by apply window_bytes|done]. }
  rewrite (first_four_spec (in_or_zero a n) p _ str e); [|done|done|]. 2: { intros b Hb. rewrite G by done. by destruct (in_or_zero a n b). }
  cbn [mbind option_bind]. destruct (Z.ltb_spec (e - str) 4) as [|L4]; [done|].
  destruct (quads_spec (in_or_zero a n) p (fun c0 c1 c2 c3 => negb (Z.lor (Z.lor (Z.lor c0 c1) c2) c3 =? 0)) str e) as [Sq ->]; [done|done|lia|done| |].
  { intros b0 b1 b2 b3 H0 H1 H2 H3. rewrite !G by done. by destruct (in_or_zero a n b0), (in_or_zero a n b1), (in_or_zero a n b2), (in_or_zero a n b3). }
  cbn [mbind option_bind]. set (q := align4 e) in *. destruct (align4_bounds e) as [Bq _]. fold q in Bq.
  destruct (first_of_four _ q str e Fs Sq Bq) as (k & Ek & Bk & Pk & Nk). rewrite !G by apply m_ok. f_equal.
  assert (k = 0 \/ k = 1 \/ k = 2 \/ k = 3) as [K|[K|[K|K]]] by lia; rewrite K in *; rewrite ?Z.add_0_r in Pk; rewrite ?Pk.
  all: pose proof (Nk 0) as D0; pose proof (Nk 1) as D1; pose proof (Nk 2) as D2; rewrite Z.add_0_r in D0;
    rewrite ?D0, ?D1, ?D2 by lia; destruct (in_or_zero a n (byte_at m (q + 1))); cbn [negb b2z]; eval_bits; cbn [Z.eqb negb]; lia.
Qed.
End Theorems.
