(* ===== verification/StringTokens.v ===== *)
(** * Tokens

    A string cut by [strtok_r], call after call, yields its tokens: the
    longest parts without a delimiter. *)

From S2P Require Import Prelude CInt CLoop StringWord StringFind StringShift StringSearch StringSpan.

(** ** Tokens of a list *)

Section Tokens.
Variable D : Z -> bool.

Fixpoint tokens (l : list Z) : list (list Z) :=
  match l with
  | [] => []
  | c :: l =>
    if D c then tokens l
    else match l with
         | [] => [[c]]
         | d :: _ => if D d then [c] :: tokens l
                     else match tokens l with t :: ts => (c :: t) :: ts | [] => [[c]] end
         end
  end.

Lemma tokens_delims w r : Forall (fun c => D c = true) w -> tokens (w ++ r) = tokens r.
Proof. induction 1 as [|c w Hc F IH]; [done|]. cbn. by rewrite Hc. Qed.

Lemma tokens_word c w r : Forall (fun c => D c = false) (c :: w) -> match r with [] => True | d :: _ => D d = true end ->
  tokens ((c :: w) ++ r) = (c :: w) :: tokens r.
Proof.
  revert c. induction w as [|c' w IH]; intros c F Hr; inversion F as [|? ? Hc Fw]; subst.
  - cbn. rewrite Hc. destruct r as [|d r]; [done|]. by rewrite Hr.
  - specialize (IH c' Fw Hr). cbn [app] in IH |- *. cbn [tokens]. rewrite Hc. inversion Fw as [|? ? Hc' _]; subst. rewrite Hc'.
    cbn [tokens] in IH. rewrite Hc' in IH. by rewrite IH.
Qed.
End Tokens.

Lemma tokens_ext D1 D2 l : (forall b, D1 b = D2 b) -> tokens D1 l = tokens D2 l.
Proof.
  intros E. induction l as [|c l IH]; [done|]. cbn [tokens]. rewrite E, IH. destruct l as [|d l]; [done|]. by rewrite E.
Qed.

Section Calls.
Context `{OpT}.

(** Calls until there is no token: the tokens and the memory. *)
Fixpoint strtok_all (fuel : nat) (m : memory) (s : option Z) (delim save_ptr : Z) : option (list Z * memory) :=
  match fuel with
  | O => None
  | S fuel =>
    '(t, m, save_ptr) ← __strtok_r m s delim save_ptr;
    match t with
    | None => Some ([], m)
    | Some t => '(ts, m) ← strtok_all fuel m None delim save_ptr; Some (t :: ts, m)
    end
  end.

(** The string of length [L] at [s] can be read and written. *)
Definition buffer (m : memory) (s L : Z) : Prop :=
  first_at m is_zero s (s + L) /\ 0 <= L < 2 ^ 63 /\ forall w, w mod opsiz = 0 -> s - opsiz < w <= s + L -> mapped m w = true.

Definition holds_string (m : memory) (s : Z) (w : list Z) : Prop :=
  window m s (length w) = w /\ byte_at m (s + Z.of_nat (length w)) = 0.

Section Memory.
Variable m : memory.

Lemma buffer_readable s L P : buffer m s L -> P 0 = true -> readable m P s.
Proof.
  intros ((_ & Z0 & _) & BL & R) P0 w Aw Bw N. apply R; [done|]. destruct (align_down_bounds s) as [Bs As]. split; [lia|].
  destruct (Z.le_gt_cases w (s + L)) as [|G]; [done|]. apply Z.eqb_eq in Z0. specialize (N (s + L) ltac:(lia)). rewrite Z0 in N. congruence.
Qed.

Lemma buffer_first s L P : buffer m s L -> P 0 = true -> exists e, first_at m P s e /\ e <= s + L.
Proof.
  intros ((_ & Z0 & _) & BL & _) P0. apply Z.eqb_eq in Z0.
  assert (K : forall k : nat, (exists e, first_at m P s e /\ e <= s + Z.of_nat k) \/ forall y, s <= y <= s + Z.of_nat k -> P (byte_at m y) = false).
  { induction k as [|k IH].
    - destruct (P (byte_at m s)) eqn:E; [left; exists s; split; [split; [lia|split; [done|lia]]|lia]|]. right. intros y Hy. by replace y with s by lia.
    - destruct IH as [(e & F & B)|N]; [left; exists e; split; [done|lia]|]. destruct (P (byte_at m (s + Z.of_nat (S k)))) eqn:E.
      + left. exists (s + Z.of_nat (S k)). split; [|lia]. split; [lia|]. split; [done|]. intros y Hy. apply N. lia.
      + right. intros y Hy. destruct (Z.eq_dec y (s + Z.of_nat (S k))) as [->|]; [done|]. apply N. lia. }
  destruct (K (Z.to_nat L)) as [(e & F & B)|N]; [exists e; split; [done|lia]|]. specialize (N (s + L) ltac:(lia)). rewrite Z0 in N. congruence.
Qed.

(** A later part of a buffer. *)
Lemma buffer_suffix s L e : buffer m s L -> s <= e <= s + L -> buffer m e (s + L - e).
Proof.
  intros ((_ & Z0 & N) & BL & R) Be. replace (e + (s + L - e)) with (s + L) by lia. split; [|split; [lia|]].
  - split; [lia|]. split; [by replace (e + (s + L - e)) with (s + L) by lia|]. intros y Hy. apply N. lia.
  - intros w Aw Bw. apply R; [done|lia].
Qed.

Lemma buffer_load s L a : buffer m s L -> s <= a <= s + L -> load_byte m a = Some (byte_at m a).
Proof. intros B Ha. apply (load_search m is_zero s (s + L)); [by apply (buffer_readable s L)|apply B|done]. Qed.

(** One call: no token, or the token from [e1] to [e2], where the string ends
    or a delimiter is overwritten. *)
Lemma strtok_step s0 d save s L n : good_memory m -> default save s0 = s -> char_set m d n -> buffer m s L ->
  let D b := negb (not_in m d n b) in
  (Forall (fun c => D c = true) (window m s (Z.to_nat L)) /\ __strtok_r m s0 d save = Some (None, m, s + L)) \/
  exists e1 e2, s <= e1 < e2 /\ e2 <= s + L /\ Forall (fun c => D c = true) (window m s (Z.to_nat (e1 - s))) /\
    Forall (fun c => D c = false) (window m e1 (Z.to_nat (e2 - e1))) /\
    ((e2 = s + L /\ __strtok_r m s0 d save = Some (Some e1, m, e2)) \/
     (e2 < s + L /\ D (byte_at m e2) = true /\
      __strtok_r m s0 d save = Some (Some e1, Mem (fun a => if a =? e2 then 0 else byte_at m a) (mapped m), e2 + 1))).
Proof.
  intros G Es Cs B D. unfold __strtok_r. rewrite Es. destruct (B) as ((_ & Z0 & Nz) & BL & Rw).
  rewrite (buffer_load s L s B) by lia. rewrite bind_ok. apply Z.eqb_eq in Z0.
  destruct (Z.eqb_spec (byte_at m s) 0) as [E0|E0].
  { assert (L = 0) as -> by (destruct (Z.eq_dec L 0) as [|N0]; [done|]; specialize (Nz s ltac:(lia)); unfold is_zero in Nz; by rewrite E0 in Nz).
    left. split; [constructor|]. by rewrite Z.add_0_r. }
  assert (P1 : not_in m d n 0 = true).
  { unfold not_in. apply negb_true_iff, bool_decide_eq_false. intros (y & By & Ey)%window_elem. destruct Cs as (_ & (_ & _ & Nd) & Bn).
    specialize (Nd y ltac:(lia)). unfold is_zero in Nd. by rewrite Ey in Nd. }
  assert (P2 : in_or_zero m d n 0 = true) by (rewrite in_or_zero_char by done; apply orb_true_r).
  destruct (buffer_first s L _ B P1) as (e1 & F1 & Be1). destruct (F1) as (Le1 & Pe1 & N1).
  assert (Wd : forall k, 0 <= k <= e1 - s -> Forall (fun c => D c = true) (window m s (Z.to_nat k))).
  { intros k Hk. apply Forall_window. intros x Hx. unfold D. by rewrite N1 by lia. }
  rewrite (strspn_spec m G s d n e1); [|done|by apply (buffer_readable s L)|done|lia]. rewrite bind_ok.
  replace (s + (e1 - s)) with e1 by lia. rewrite (buffer_load s L e1 B) by lia. rewrite bind_ok.
  destruct (Z.eqb_spec (byte_at m e1) 0) as [E1|E1].
  { assert (e1 = s + L) as -> by (destruct (Z.eq_dec e1 (s + L)) as [|N0]; [done|]; specialize (Nz e1 ltac:(lia)); unfold is_zero in Nz; by rewrite E1 in Nz).
    left. split; [|done]. apply Wd. lia. }
  assert (e1 < s + L) by (destruct (Z.eq_dec e1 (s + L)) as [->|]; [done|lia]).
  pose proof (buffer_suffix s L e1 B ltac:(lia)) as B1. destruct (buffer_first e1 _ _ B1 P2) as (e2 & F2 & Be2). destruct (F2) as (Le2 & Pe2 & N2).
  assert (Q : forall x, byte_at m x <> 0 -> in_or_zero m d n (byte_at m x) = D (byte_at m x)).
  { intros x Hx. rewrite in_or_zero_char by done. unfold D. by rewrite (proj2 (Z.eqb_neq _ _) Hx), orb_false_r. }
  assert (e1 < e2).
  { destruct (Z.eq_dec e1 e2) as [<-|]; [|lia]. rewrite Q in Pe2 by done. unfold D in Pe2. by rewrite Pe1 in Pe2. }
  rewrite (strcspn_spec m G e1 d n e2); [|done|by apply (buffer_readable e1 (s + L - e1))|done|lia]. rewrite bind_ok.
  replace (e1 + (e2 - e1)) with e2 by lia. rewrite (buffer_load s L e2 B) by lia. rewrite bind_ok.
  assert (Ww : Forall (fun c => D c = false) (window m e1 (Z.to_nat (e2 - e1)))).
  { apply Forall_window. intros x Hx. rewrite <- Q; [apply N2; lia|]. specialize (Nz x ltac:(lia)). by apply Z.eqb_neq in Nz. }
  right. exists e1, e2. split; [lia|]. split; [lia|]. split; [apply Wd; lia|]. split; [done|].
  destruct (Z.eqb_spec (byte_at m e2) 0) as [E2|E2]; [left|right].
  - split; [|done]. destruct (Z.eq_dec e2 (s + L)) as [|N0]; [done|]. specialize (Nz e2 ltac:(lia)). unfold is_zero in Nz. by rewrite E2 in Nz.
  - assert (e2 < s + L) by (destruct (Z.eq_dec e2 (s + L)) as [->|]; [done|lia]). split; [done|]. split; [by rewrite <- Q|].
    unfold store_byte. rewrite Rw; [done|apply align_down_bounds|]. pose proof (align_down_bounds e2). lia.
Qed.
End Memory.

(** ** All calls *)

Lemma window_agree m1 m2 a n : (forall x, a <= x < a + Z.of_nat n -> byte_at m1 x = byte_at m2 x) -> window m1 a n = window m2 a n.
Proof. intros E. unfold window. apply map_ext_in. intros j [_ Hj]%in_seq. apply E. lia. Qed.

Lemma not_in_agree m1 m2 d n b : (forall x, d <= x <= d + n -> byte_at m1 x = byte_at m2 x) -> not_in m1 d n b = not_in m2 d n b.
Proof. intros E. unfold not_in. rewrite (window_agree m1 m2); [done|]. intros x Hx. apply E. lia. Qed.

(** Changing bytes that are not part of it keeps a set of characters. *)
Lemma char_set_agree m1 m2 d n : (forall x, d <= x <= d + n -> byte_at m1 x = byte_at m2 x) -> mapped m1 = mapped m2 ->
  char_set m1 d n -> char_set m2 d n.
Proof.
  intros E Em (R & (L & Z0 & N) & Bn). split; [|split; [|done]].
  - intros w Aw Bw Nw. rewrite <- Em. apply R; [done|done|]. intros y Hy. destruct (Z.le_gt_cases y (d + n)); [rewrite E by lia; by apply Nw|].
    exfalso. specialize (Nw (d + n) ltac:(lia)). rewrite <- E, Z0 in Nw by lia. done.
  - split; [done|]. rewrite <- E by lia. split; [done|]. intros y Hy. rewrite <- E by lia. by apply N.
Qed.

Lemma window_cut m s a b L : s <= a -> a <= b -> b <= s + L -> window m s (Z.to_nat L) =
  window m s (Z.to_nat (a - s)) ++ window m a (Z.to_nat (b - a)) ++ window m b (Z.to_nat (s + L - b)).
Proof.
  intros H1 H2 H3. replace (Z.to_nat L) with (Z.to_nat (a - s) + (Z.to_nat (b - a) + Z.to_nat (s + L - b)))%nat by lia.
  rewrite !window_app. do 2 f_equal; f_equal; lia.
Qed.

Lemma window_nonempty m a n : 0 < n -> exists w, window m a (Z.to_nat n) = byte_at m a :: w.
Proof. intros Hn. replace (Z.to_nat n) with (S (Z.to_nat (n - 1))) by lia. rewrite window_cons. by eexists. Qed.

Lemma strtok_all_spec fuel : forall m s0 d save s L n, good_memory m -> default save s0 = s -> char_set m d n -> buffer m s L ->
  d + n < s \/ s + L < d -> (Z.to_nat L < fuel)%nat ->
  exists ts m', strtok_all fuel m s0 d save = Some (ts, m') /\ (forall a, ~ s <= a < s + L -> byte_at m' a = byte_at m a) /\
    Forall2 (holds_string m') ts (tokens (fun b => negb (not_in m d n b)) (window m s (Z.to_nat L))).
Proof.
  induction fuel as [|fuel IH]; intros m s0 d save s L n G Es Cs B Dis Fu; [lia|].
  destruct (strtok_step m s0 d save s L n G Es Cs B) as [[F E]|(e1 & e2 & Be1 & Be2 & Fd & Fw & [[El E]|(Lt & De & E)])].
  - exists [], m. cbn [strtok_all]. rewrite E. split; [done|]. split; [done|]. rewrite <- (app_nil_r (window m s _)), tokens_delims by done. constructor.
  - (* the last token *)
    destruct (IH m None d e2 e2 0 n) as (ts & m' & E' & A' & T'); try done; [|lia|lia|].
    { replace 0 with (s + L - e2) by lia. apply buffer_suffix; [done|lia]. }
    exists (e1 :: ts), m'. cbn [strtok_all]. rewrite E. cbn [mbind option_bind]. rewrite E'. split; [done|]. split; [intros a Ha; apply A'; lia|].
    rewrite (window_cut m s e1 e2 L) by lia. rewrite tokens_delims by done. replace (s + L - e2) with 0 by lia.
    destruct (window_nonempty m e1 (e2 - e1)) as [w Ew]; [lia|]. rewrite Ew in *. rewrite tokens_word by done. constructor; [|done].
    rewrite <- Ew. split; rewrite length_window.
    + apply window_agree. intros x Hx. apply A'. lia.
    + replace (e1 + Z.of_nat (Z.to_nat (e2 - e1))) with e2 by lia. rewrite A' by lia. destruct B as ((_ & Z0 & _) & _). rewrite El. by apply Z.eqb_eq.
  - set (m1 := Mem (fun a => if a =? e2 then 0 else byte_at m a) (mapped m)) in *.
    assert (A1 : forall x, x <> e2 -> byte_at m1 x = byte_at m x) by (intros x Hx; cbn; by rewrite (proj2 (Z.eqb_neq _ _) Hx)).
    destruct (IH m1 None d (e2 + 1) (e2 + 1) (s + L - (e2 + 1)) n) as (ts & m' & E' & A' & T'); try done.
    + intros a. cbn. destruct (a =? e2); [by unfold is_byte|apply G].
    + apply (char_set_agree m); [|done|done]. intros x Hx. symmetry. apply A1. lia.
    + destruct (buffer_suffix m s L (e2 + 1) B) as ((_ & Z0 & N) & BL & Rw); [lia|]. split; [|done].
      split; [lia|]. rewrite A1 by lia. split; [done|]. intros y Hy. rewrite A1 by lia. by apply N.
    + lia.
    + lia.
    + exists (e1 :: ts), m'. cbn [strtok_all]. rewrite E. cbn [mbind option_bind]. rewrite E'. split; [done|].
      split; [intros a Ha; rewrite A' by lia; apply A1; lia|].
      rewrite (window_cut m s e1 e2 L) by lia. rewrite tokens_delims by done.
      destruct (window_nonempty m e2 (s + L - e2)) as [r Er]; [lia|].
      assert (Hr : window m e2 (Z.to_nat (s + L - e2)) = [byte_at m e2] ++ window m1 (e2 + 1) (Z.to_nat (s + L - (e2 + 1)))).
      { replace (Z.to_nat (s + L - e2)) with (S (Z.to_nat (s + L - (e2 + 1)))) by lia. rewrite window_cons. cbn. f_equal.
        apply window_agree. intros x Hx. symmetry. apply A1. lia. }
      destruct (window_nonempty m e1 (e2 - e1)) as [w Ew]; [lia|]. rewrite Ew in *. rewrite tokens_word; [|done|by rewrite Er]. rewrite Hr, tokens_delims by (by constructor).
      constructor.
      * rewrite <- Ew. split; rewrite length_window.
        -- apply window_agree. intros x Hx. rewrite A' by lia. apply A1. lia.
        -- replace (e1 + Z.of_nat (Z.to_nat (e2 - e1))) with e2 by lia. rewrite A' by lia. cbn. by rewrite Z.eqb_refl.
      * assert (Ed : forall b, not_in m1 d n b = not_in m d n b) by (intros b; apply not_in_agree; intros x Hx; apply A1; lia).
        rewrite (tokens_ext _ (fun b => negb (not_in m1 d n b))) in *; [done|]. intros b. by rewrite Ed.
Qed.

(** C14: strtok_r, called with a string and then with NULL until it returns NULL,
    yields the tokens of the string in order, the longest parts without a
    delimiter: each result points to one of them, ended by a zero, when all calls
    are done, and no byte outside the string is changed. It reads no word that
    holds none of the bytes of the two strings. *)
Theorem strtok_correct m s L d n save : good_memory m -> char_set m d n -> buffer m s L -> d + n < s \/ s + L < d ->
  exists ts m', strtok_all (S (Z.to_nat L)) m (Some s) d save = Some (ts, m') /\
    (forall a, ~ s <= a < s + L -> byte_at m' a = byte_at m a) /\
    Forall2 (holds_string m') ts (tokens (fun b => bool_decide (b ∈ window m d (Z.to_nat n))) (window m s (Z.to_nat L))).
Proof.
  intros G Cs B Dis. destruct (strtok_all_spec (S (Z.to_nat L)) m (Some s) d save s L n) as (ts & m' & E & A & T); try done; [lia|].
  exists ts, m'. split; [done|]. split; [done|]. rewrite (tokens_ext _ (fun b => negb (not_in m d n b))); [done|]. intros b. unfold not_in. by rewrite negb_involutive.
Qed.

(** C33: strspn and strcspn, with their tables and four bytes at a time, give the
    length of the longest beginning of characters in and not in the set;
    strpbrk points to the end of the latter or is NULL at the end of the string;
    strsep replaces the delimiter there by a zero and moves behind it, or sets
    the pointer to NULL. *)
Theorem strspn_correct m str L a n : good_memory m -> char_set m a n -> buffer m str L ->
  (forall e, first_at m (not_in m a n) str e -> strspn m str a = Some (e - str)) /\
  (forall e, first_at m (in_or_zero m a n) str e ->
     strcspn m str a = Some (e - str) /\
     strpbrk m str a = Some (if byte_at m e =? 0 then None else Some e) /\
     __strsep m (Some str) a =
       Some (if byte_at m e =? 0 then (Some str, m, None)
             else (Some str, Mem (fun x => if x =? e then 0 else byte_at m x) (mapped m), Some (e + 1)))).
Proof.
  intros G Cs B. destruct (B) as ((_ & Z0 & Nz) & BL & Rw). apply Z.eqb_eq in Z0.
  assert (P1 : not_in m a n 0 = true).
  { unfold not_in. apply negb_true_iff, bool_decide_eq_false. intros (y & By & Ey)%window_elem. destruct Cs as (_ & (_ & _ & Nd) & Bn).
    specialize (Nd y ltac:(lia)). unfold is_zero in Nd. by rewrite Ey in Nd. }
  assert (P2 : in_or_zero m a n 0 = true) by (rewrite in_or_zero_char by done; apply orb_true_r).
  assert (Le : forall P e, P 0 = true -> first_at m P str e -> e <= str + L).
  { intros P e P0 (_ & _ & N). destruct (Z.le_gt_cases e (str + L)) as [|Gt]; [done|]. specialize (N (str + L) ltac:(lia)). rewrite Z0 in N. congruence. }
  split.
  - intros e F. apply strspn_spec with (n := n); [done|done|by apply (buffer_readable m str L)|done|]. pose proof (Le _ _ P1 F). lia.
  - intros e F. pose proof (Le _ _ P2 F). destruct (F) as (Ls & _).
    assert (E : strcspn m str a = Some (e - str)) by (apply strcspn_spec with (n := n); [done|done|by apply (buffer_readable m str L)|done|lia]).
    split; [done|]. unfold strpbrk, __strsep. rewrite E, !bind_ok. replace (str + (e - str)) with e by lia.
    rewrite (buffer_load m str L e B) by lia. rewrite !bind_ok. split; [by destruct (byte_at m e =? 0)|].
    destruct (Z.eqb_spec (byte_at m e) 0); cbn [negb]; [done|]. unfold store_byte. rewrite Rw; [done|apply align_down_bounds|].
    pose proof (align_down_bounds e). lia.
Qed.
End Calls.

(** ** Witnesses *)

(** At 4096 the string ", a,bc" with its zero, at 4112 the delimiters ", ". *)
Definition token_bytes : list Z := [44; 32; 97; 44; 98; 99; 0; 7; 7; 7; 7; 7; 7; 7; 7; 7; 44; 32; 0; 7; 7; 7; 7; 7].

Definition token_memory : memory :=
  Mem (fun a => if (4096 <=? a) && (a <? 4120) then nth (Z.to_nat (a - 4096)) token_bytes 0 else 0) (fun a => (4096 <=? a) && (a <? 4120)).

Lemma token_memory_ok : good_memory token_memory.
Proof.
  intros a. unfold token_memory. cbn [byte_at]. destruct (_ && _); [|unfold is_byte; lia]. assert (F : Forall is_byte token_bytes) by (repeat constructor; unfold is_byte; lia).
  destruct (nth_in_or_default (Z.to_nat (a - 4096)) token_bytes 0) as [I|E]; [|rewrite E; unfold is_byte; lia].
  apply list_elem_of_In in I. by apply (proj1 (list.Forall_forall _ _) F).
Qed.

Lemma token_mapped a : 4096 <= a < 4120 -> mapped token_memory a = true.
Proof. intros B. cbn. apply andb_true_iff. split; [apply Z.leb_le|apply Z.ltb_lt]; lia. Qed.

Lemma zero_at s (k : nat) : byte_at token_memory (s + Z.of_nat k) = 0 ->
  forallb (fun i => negb (is_zero (byte_at token_memory (s + Z.of_nat i)))) (seq 0 k) = true ->
  first_at token_memory is_zero s (s + Z.of_nat k).
Proof.
  intros Z0 F. split; [lia|]. split; [by apply Z.eqb_eq|]. intros y Hy. rewrite forallb_forall in F.
  specialize (F (Z.to_nat (y - s)) ltac:(apply in_seq; lia)). apply negb_true_iff in F. by replace (s + Z.of_nat (Z.to_nat (y - s))) with y in F by lia.
Qed.

Lemma token_set : @char_set op_le64 token_memory 4112 2.
Proof.
  assert (F : first_at token_memory is_zero 4112 (4112 + 2)) by (by apply (zero_at 4112 2)).
  split; [|split; [exact F|lia]]. intros w Aw Bw N. apply token_mapped. change (@align_down op_le64 4112) with 4112 in Bw.
  destruct F as (_ & Z0 & _). destruct (Z.le_gt_cases w 4114) as [|G]; [lia|]. rewrite N in Z0 by lia. done.
Qed.

Lemma token_buffer : @buffer op_le64 token_memory 4096 6.
Proof.
  split; [by apply (zero_at 4096 6)|]. split; [lia|]. intros w Aw Bw. change (@opsiz op_le64) with 8 in *. apply token_mapped.
  Z.to_euclidean_division_equations. lia.
Qed.

Lemma strtok_witness : exists ts m', @strtok_all op_le64 7 token_memory (Some 4096) 4112 0 = Some (ts, m') /\
  Forall2 (holds_string m') ts [[97]; [98; 99]].
Proof.
  destruct (@strtok_correct op_le64 token_memory 4096 6 4112 2 0 token_memory_ok token_set token_buffer ltac:(right; lia)) as (ts & m' & E & _ & T).
  exists ts, m'. split; [exact E|exact T].
Defined.

Lemma strspn_witness : @strspn op_le64 token_memory 4096 4112 = Some 2.
Proof.
  destruct (@strspn_correct op_le64 token_memory 4096 6 4112 2 token_memory_ok token_set token_buffer) as [S _].
  apply (S 4098). split; [lia|]. split; [reflexivity|]. intros y Hy. assert (y = 4096 \/ y = 4097) as [-> | ->] by lia; reflexivity.
Defined.
