(* ===== verification/Interleave.v ===== *)
(** * Threads that share an object

    Each thread is at a point of the code ([pc]) and takes one atomic action at
    a time; the scheduler chooses the thread, and [choice] is whatever the
    action does not determine by itself: the value a relaxed load returns, a
    weak compare-and-exchange that fails, a signal.  Threads may sleep on the
    futex of the object; an action may wake one of them, which the kernel
    chooses, or all.  An execution yields the list of its events. *)

From S2P Require Import Prelude.

(** Who is woken by an action. *)
Inductive wakes := Nobody | One | Everybody.

Class Machine := {
  pc : Type;
  shared : Type;
  choice : Type;
  event : Type;
  (** One action: the next point, the object, who is woken, and the events. *)
  action : choice -> pc -> shared -> option (pc * shared * wakes * list event);
  asleep : pc -> bool;
  woken : pc -> pc;
  woken_awake : forall x, asleep (woken x) = false }.

Section Pool.
Context `{Machine}.

Record pool := Pool { threads : list pc; obj : shared }.

(** [futex_wake (..., 1, ...)]: one thread that sleeps, if there is one. *)
Definition wake_one (w : option nat) (l : list pc) : option (list pc) :=
  match w with
  | Some j => x ← l !! j; if asleep x then Some (<[j := woken x]> l) else None
  | None => if existsb asleep l then None else Some l
  end.

(** [futex_wake (..., INT_MAX, ...)] *)
Definition wake_all (l : list pc) : list pc := map (fun x => if asleep x then woken x else x) l.

Definition wake (k : wakes) (w : option nat) (l : list pc) : option (list pc) :=
  match k with
  | Nobody => Some l
  | One => wake_one w l
  | Everybody => Some (wake_all l)
  end.

Definition pool_step (i : nat) (c : choice) (w : option nat) (p : pool) : option (pool * list event) :=
  x ← threads p !! i;
  '(y, s, k, ev) ← action c x (obj p);
  l ← wake k w (<[i := y]> (threads p));
  Some (Pool l s, ev).

(** The states an execution may be in, with the events up to there. *)
Inductive reach (p0 : pool) : pool -> list event -> Prop :=
| reach_start : reach p0 p0 []
| reach_step p tr i c w p' ev : reach p0 p tr -> pool_step i c w p = Some (p', ev) -> reach p0 p' (tr ++ ev).

Lemma reach_trans p0 p1 p2 tr1 tr2 : reach p0 p1 tr1 -> reach p1 p2 tr2 -> reach p0 p2 (tr1 ++ tr2).
Proof.
  intros R1. induction 1 as [|p tr i c w p' ev R2 IH E]; [by rewrite app_nil_r|]. rewrite app_assoc. by apply (reach_step _ p _ i c w).
Qed.

(** A run by a given schedule. *)
Fixpoint exec (sched : list (nat * choice * option nat)) (p : pool) (tr : list event) : option (pool * list event) :=
  match sched with
  | [] => Some (p, tr)
  | (i, c, w) :: sched => '(p, ev) ← pool_step i c w p; exec sched p (tr ++ ev)
  end.

Lemma exec_reach sched p0 p tr p' tr' : reach p0 p tr -> exec sched p tr = Some (p', tr') -> reach p0 p' tr'.
Proof.
  revert p tr. induction sched as [|[[i c] w] sched IH]; intros p tr R E; cbn in E; [by injection E as <- <-|].
  destruct (pool_step i c w p) as [[p1 ev]|] eqn:Es; [|done]. cbn in E. apply (IH p1 (tr ++ ev)); [|done]. by apply (reach_step _ p _ i c w).
Qed.

(** ** Counting threads *)

Fixpoint count (f : pc -> bool) (l : list pc) : Z :=
  match l with
  | [] => 0
  | x :: l => b2z (f x) + count f l
  end.

Lemma count_bounds f l : 0 <= count f l <= Z.of_nat (length l).
Proof. induction l as [|x l IH]; [done|]. cbn [count length]. pose proof (b2z_bounds (f x)). lia. Qed.

Lemma count_threads_insert f l i x y : l !! i = Some x -> count f (<[i := y]> l) = count f l - b2z (f x) + b2z (f y).
Proof.
  revert i. induction l as [|z l IH]; intros [|i] E; cbn in E; try done.
  - injection E as ->. cbn. lia.
  - change (<[S i := y]> (z :: l)) with (z :: <[i := y]> l). cbn [count]. rewrite (IH i E). lia.
Qed.

Lemma count_none f l : existsb f l = false -> count f l = 0.
Proof. induction l as [|x l IH]; [done|]. cbn. intros [-> E]%orb_false_iff. by rewrite IH. Qed.

Lemma count_pos f l i x : l !! i = Some x -> f x = true -> 0 < count f l.
Proof.
  intros E F. revert i E. induction l as [|z l IH]; intros [|i] E; cbn in E; try done.
  - injection E as ->. cbn [count]. rewrite F. pose proof (count_bounds f l). cbn. lia.
  - cbn [count]. pose proof (b2z_bounds (f z)). specialize (IH i E). lia.
Qed.

Lemma count_exists f l : 0 < count f l -> exists i x, l !! i = Some x /\ f x = true.
Proof.
  induction l as [|z l IH]; [done|]. cbn [count]. destruct (f z) eqn:E; intros P.
  - by exists 0%nat, z.
  - destruct (IH P) as (i & x & Ei & Ex). by exists (S i), x.
Qed.

Lemma count_replicate f n x : f x = false -> count f (replicate n x) = 0.
Proof. intros E. induction n as [|n IH]; [done|]. cbn. by rewrite E, IH. Qed.

Lemma count_wake_all f l : (forall z, asleep z = true -> f (woken z) = f z) -> count f (wake_all l) = count f l.
Proof.
  intros Hf. induction l as [|x l IH]; [done|]. cbn [wake_all map count]. fold (wake_all l). rewrite IH. destruct (asleep x) eqn:A; [by rewrite Hf|done].
Qed.

Lemma wake_all_awake l : count asleep (wake_all l) = 0.
Proof.
  induction l as [|x l IH]; [done|]. cbn [wake_all map count]. fold (wake_all l). rewrite IH. destruct (asleep x) eqn:A; [by rewrite woken_awake|by rewrite A].
Qed.

(** What a step does to the counts: the thread that acts moves from [x] to
    [y], and perhaps a sleeper [z] or all sleepers are woken. *)
Lemma pool_step_counts i c w p p' ev : pool_step i c w p = Some (p', ev) ->
  exists x y k, threads p !! i = Some x /\ action c x (obj p) = Some (y, obj p', k, ev) /\
    length (threads p') = length (threads p) /\
    ((k = Nobody \/ k = One /\ count asleep (threads p') = 0) /\
       (forall f, count f (threads p') = count f (threads p) - b2z (f x) + b2z (f y)) \/
     k = One /\ (exists z, asleep z = true /\
       forall f, count f (threads p') = count f (threads p) - b2z (f x) + b2z (f y) - b2z (f z) + b2z (f (woken z))) \/
     k = Everybody /\ count asleep (threads p') = 0 /\
       (forall f, (forall z, asleep z = true -> f (woken z) = f z) ->
          count f (threads p') = count f (threads p) - b2z (f x) + b2z (f y))).
Proof.
  unfold pool_step. intros E. destruct (threads p !! i) as [x|] eqn:Ex; [|done]. cbn in E.
  destruct (action c x (obj p)) as [[[[y s] k] ev']|] eqn:Ea; [|done]. cbn in E. exists x, y, k.
  destruct (wake k w (<[i:=y]> (threads p))) as [l|] eqn:El; [|done]. cbn in E. injection E as <- <-.
  split; [done|]. split; [done|]. cbn [threads obj]. destruct k; cbn in El.
  - injection El as <-. rewrite length_insert. split; [done|]. left. split; [by left|]. intros f. by apply count_threads_insert.
  - destruct w as [j|]; cbn in El.
    + destruct (<[i:=y]> (threads p) !! j) as [z|] eqn:Ej; [|done]. cbn in El. destruct (asleep z) eqn:Az; [|done]. injection El as <-.
      rewrite !length_insert. split; [done|]. right; left. split; [done|]. exists z. split; [done|].
      intros f. by rewrite (count_threads_insert f _ j z), (count_threads_insert f _ i x) by done.
    + destruct (existsb asleep (<[i:=y]> (threads p))) eqn:Ae; [done|]. injection El as <-. rewrite length_insert. split; [done|].
      left. split; [right; split; [done|by apply count_none]|]. intros f. by apply count_threads_insert.
  - injection El as <-. unfold wake_all at 1. rewrite length_map, length_insert. split; [done|]. right; right. split; [done|].
    split; [apply wake_all_awake|]. intros f Hf. rewrite count_wake_all by done. by apply count_threads_insert.
Qed.

(** A property of all threads that the action of one, the change of the object
    and being woken preserve. *)
Lemma pool_step_Forall (P : shared -> pc -> Prop) i c w p p' ev : (forall s z, P s z -> P s (woken z)) ->
  pool_step i c w p = Some (p', ev) -> Forall (P (obj p)) (threads p) ->
  (forall x y k, threads p !! i = Some x -> P (obj p) x -> action c x (obj p) = Some (y, obj p', k, ev) ->
     P (obj p') y /\ forall z, P (obj p) z -> P (obj p') z) ->
  Forall (P (obj p')) (threads p').
Proof.
  unfold pool_step. intros Kw E F K. destruct (threads p !! i) as [x|] eqn:Ex; [|done]. cbn in E.
  destruct (action c x (obj p)) as [[[[y s] k] ev']|] eqn:Ea; [|done]. cbn in E.
  destruct (wake k w (<[i:=y]> (threads p))) as [l|] eqn:El; [|done]. cbn in E. injection E as <- <-. cbn [threads obj] in *.
  destruct (K x y k) as [Py Kz]; [done|by apply (Forall_lookup_1 _ _ _ _ F Ex)|done|].
  assert (Fi : Forall (P s) (<[i:=y]> (threads p))).
  { apply Forall_insert; [|done]. by apply (list.Forall_impl _ _ _ F). }
  destruct k; cbn in El; [by injection El as <-| |].
  - destruct w as [j|]; cbn in El.
    + destruct (<[i:=y]> (threads p) !! j) as [z|] eqn:Ej; [|done]. cbn in El. destruct (asleep z); [|done]. injection El as <-.
      apply Forall_insert; [done|]. apply Kw. by apply (Forall_lookup_1 _ _ _ _ Fi Ej).
    + destruct (existsb asleep _); [done|]. by injection El as <-.
  - injection El as <-. unfold wake_all. apply Forall_map. apply (list.Forall_impl _ _ _ Fi). intros z Hz. unfold compose. destruct (asleep z); [by apply Kw|done].
Qed.
End Pool.
