(* ===== verification/Semaphore.v ===== *)
(** * Semaphores: [nptl/sem_post.c], [sem_waitcommon.c], [sem_wait.c],
      [sem_timedwait.c], [sem_clockwait.c], [sem_init.c], [sem_getvalue.c]

    The version for machines with 64-bit atomic operations: one variable holds
    the number of tokens in its low half and that of the waiters in its high
    half.  The points of the code between two accesses to it are the states of
    a thread; a thread may start any call when it is in none.

    A relaxed load, also that of a compare-and-exchange that fails, may return
    any value the variable has had; an operation that changes the variable reads
    the last one.  The kernel compares and sleeps in one action.  A cancellation
    is acted upon while the thread is in the system call or, since the wrapper
    leaves cancellation asynchronous around it, just before or after. *)

From S2P Require Import Prelude CInt Interleave.

Definition SEM_NWAITERS_SHIFT : Z := 32.
Definition SEM_VALUE_MASK : Z := 2 ^ 32 - 1.
Definition SEM_VALUE_MAX : Z := 2147483647.

(** [data], the values it has had, and [private]. *)
Record new_sem := NewSem { data : Z; past : list Z; private : bool }.

Inductive sem_errno := EAGAIN | EINVAL | EOVERFLOW | ETIMEDOUT | EINTR.

Definition PTHREAD_PROCESS_PRIVATE : Z := 0.
Definition PTHREAD_PROCESS_SHARED : Z := 1.

(** [None] for the result [0]. *)
Definition futex_supports_pshared (pshared : Z) : option sem_errno :=
  if pshared =? PTHREAD_PROCESS_PRIVATE then None
  else if pshared =? PTHREAD_PROCESS_SHARED then None
  else Some EINVAL.

Definition __new_sem_init (pshared value : Z) : sem_errno + new_sem :=
  if SEM_VALUE_MAX <? value then inl EINVAL
  else
    let pshared := if negb (pshared =? 0) then PTHREAD_PROCESS_SHARED else PTHREAD_PROCESS_PRIVATE in
    match futex_supports_pshared pshared with
    | Some err => inl err
    | None => inr (NewSem value [value] (pshared =? PTHREAD_PROCESS_PRIVATE))
    end.

Inductive sem_call :=
| Sem_post
| Sem_wait
| Sem_trywait
| Sem_timedwait (tv_sec tv_nsec : Z)
| Sem_clockwait (clock_supported : bool) (tv_sec tv_nsec : Z)
| Sem_getvalue.

(** [abstime] is [NULL] or its seconds. *)
Inductive point :=
| Idle
| Post_load
| Post_cas (d : Z)
| Post_wake (d : Z)
| Fast_load (definitive_result : bool) (abstime : option Z)
| Fast_cas (definitive_result : bool) (abstime : option Z) (d : Z)
| Slow_add (abstime : option Z)
| Slow_loop (abstime : option Z) (d : Z)
| Slow_futex (abstime : option Z)
| Slow_asleep (abstime : option Z)
| Slow_return (abstime : option Z)
| Slow_reload (abstime : option Z)
| Slow_fail (err : sem_errno)
| Cleanup
| Cancelled
| Value_load.

Inductive schoice :=
| Call (c : sem_call)
| Step                     (** the only thing the code can do *)
| Value (d : Z)            (** a load returns [d] *)
| Spurious                 (** a sleeper wakes by itself *)
| Interrupt (err : sem_errno)  (** a timeout or a signal *)
| Cancel.

Inductive sevent :=
| Posted                   (** a token was added: [sem_post] succeeds *)
| Taken                    (** a token was taken: a wait succeeds *)
| Failed (err : sem_errno)     (** a call returns [-1] *)
| Got (v : Z)              (** [sem_getvalue] stores [v] *)
| Cancelled_awake.         (** a waiter that does not sleep is cancelled *)

(** ** Atomic operations *)

Definition set_data (d : Z) (s : new_sem) : new_sem := NewSem d (d :: past s) (private s).

Definition atomic_load (c : schoice) (s : new_sem) : option Z :=
  match c with Value d => if bool_decide (d ∈ past s) then Some d else None | _ => None end.

(** The new variable, or the value read when the exchange fails. *)
Definition atomic_compare_exchange_weak (c : schoice) (expected new : Z) (s : new_sem) : option (new_sem + Z) :=
  match c with
  | Step => if data s =? expected then Some (inl (set_data new s)) else None
  | _ => inr <$> atomic_load c s
  end.

Definition atomic_fetch_add (v : Z) (s : new_sem) : Z * new_sem := (data s, set_data (wrap 64 (data s + v)) s).

(** ** The code between two points *)

Definition out : Type := point * new_sem * wakes * list sevent.

Definition go (x : point) (s : new_sem) : option out := Some (x, s, Nobody, []).
Definition sem_return (s : new_sem) (e : sevent) : option out := Some (Idle, s, Nobody, [e]).

Definition valid_nanoseconds (ns : Z) : bool := (0 <=? ns) && (ns <? 1000000000).

Definition start (c : sem_call) (s : new_sem) : option out :=
  match c with
  | Sem_post => go Post_load s
  | Sem_wait => go (Fast_load false None) s
  | Sem_trywait => go (Fast_load true None) s
  | Sem_timedwait tv_sec tv_nsec =>
    if negb (valid_nanoseconds tv_nsec) then sem_return s (Failed EINVAL) else go (Fast_load false (Some tv_sec)) s
  | Sem_clockwait clock_supported tv_sec tv_nsec =>
    if negb clock_supported then sem_return s (Failed EINVAL)
    else if negb (valid_nanoseconds tv_nsec) then sem_return s (Failed EINVAL) else go (Fast_load false (Some tv_sec)) s
  | Sem_getvalue => go Value_load s
  end.

(** [__new_sem_post] from the test in its loop on. *)
Definition post_cas (c : schoice) (d : Z) (s : new_sem) : option out :=
  if Z.land d SEM_VALUE_MASK =? SEM_VALUE_MAX then sem_return s (Failed EOVERFLOW)
  else
    r ← atomic_compare_exchange_weak c d (wrap 64 (d + 1)) s;
    match r with
    | inl s => Some (Post_wake d, s, Nobody, [Posted])
    | inr d => go (Post_cas d) s
    end.

Definition post_wake (d : Z) (s : new_sem) : option out :=
  Some (Idle, s, if 0 <? Z.shiftr d SEM_NWAITERS_SHIFT then One else Nobody, []).

(** What follows when [__new_sem_wait_fast] returns [-1]. *)
Definition fast_failed (definitive_result : bool) (abstime : option Z) (s : new_sem) : option out :=
  if definitive_result then sem_return s (Failed EAGAIN) else go (Slow_add abstime) s.

Definition fast_cas (c : schoice) (definitive_result : bool) (abstime : option Z) (d : Z) (s : new_sem) : option out :=
  if Z.land d SEM_VALUE_MASK =? 0 then fast_failed definitive_result abstime s
  else
    r ← atomic_compare_exchange_weak c d (wrap 64 (d - 1)) s;
    match r with
    | inl s => sem_return s Taken
    | inr d => if definitive_result then go (Fast_cas true abstime d) s else fast_failed definitive_result abstime s
    end.

(** The loop of [__new_sem_wait_slow64]. *)
Definition slow_loop (c : schoice) (abstime : option Z) (d : Z) (s : new_sem) : option out :=
  if Z.land d SEM_VALUE_MASK =? 0 then go (Slow_futex abstime) s
  else
    r ← atomic_compare_exchange_weak c d (wrap 64 (d - 1 - Z.shiftl 1 SEM_NWAITERS_SHIFT)) s;
    match r with
    | inl s => sem_return s Taken
    | inr d => go (Slow_loop abstime d) s
    end.

(** A time before the epoch is over without asking the kernel. *)
Definition refused (abstime : option Z) : bool := match abstime with Some t => t <? 0 | None => false end.

(** [do_futex_wait]; the futex is the low half of [data].  The third error that
    the caller forwards, [EOVERFLOW], is for a kernel without the system call
    with 64-bit times and does not occur on machines with 64-bit atomics. *)
Definition slow_futex (c : schoice) (abstime : option Z) (s : new_sem) : option out :=
  match c with
  | Step =>
    if refused abstime then go (Slow_fail ETIMEDOUT) s
    else if wrap 32 (data s) =? 0 then go (Slow_asleep abstime) s else go (Slow_return abstime) s
  | Cancel => Some (Cleanup, s, Nobody, [Cancelled_awake])
  | _ => None
  end.

Definition slow_asleep (c : schoice) (abstime : option Z) (s : new_sem) : option out :=
  match c with
  | Spurious => go (Slow_return abstime) s
  | Interrupt EINTR => go (Slow_fail EINTR) s
  | Interrupt ETIMEDOUT => match abstime with Some _ => go (Slow_fail ETIMEDOUT) s | None => None end
  | Cancel => go Cleanup s
  | _ => None
  end.

(** Stop being a waiter: also [__sem_wait_cleanup]. *)
Definition remove_waiter (s : new_sem) : new_sem := (atomic_fetch_add (- Z.shiftl 1 SEM_NWAITERS_SHIFT) s).2.

Definition sem_action (c : schoice) (x : point) (s : new_sem) : option out :=
  match x with
  | Idle => match c with Call f => start f s | _ => None end
  | Post_load => d ← atomic_load c s; go (Post_cas d) s
  | Post_cas d => post_cas c d s
  | Post_wake d => match c with Step => post_wake d s | _ => None end
  | Fast_load definitive abstime => d ← atomic_load c s; go (Fast_cas definitive abstime d) s
  | Fast_cas definitive abstime d => fast_cas c definitive abstime d s
  | Slow_add abstime =>
    match c with
    | Step => let '(d, s) := atomic_fetch_add (Z.shiftl 1 SEM_NWAITERS_SHIFT) s in go (Slow_loop abstime d) s
    | _ => None
    end
  | Slow_loop abstime d => slow_loop c abstime d s
  | Slow_futex abstime => slow_futex c abstime s
  | Slow_asleep abstime => slow_asleep c abstime s
  | Slow_return abstime =>
    match c with
    | Step => go (Slow_reload abstime) s
    | Cancel => Some (Cleanup, s, Nobody, [Cancelled_awake])
    | _ => None
    end
  | Slow_reload abstime => d ← atomic_load c s; go (Slow_loop abstime d) s
  | Slow_fail err => match c with Step => sem_return (remove_waiter s) (Failed err) | _ => None end
  | Cleanup => match c with Step => go Cancelled (remove_waiter s) | _ => None end
  | Cancelled => None
  | Value_load => d ← atomic_load c s; sem_return s (Got (Z.land d SEM_VALUE_MASK))
  end.

Definition sleeping (x : point) : bool := match x with Slow_asleep _ => true | _ => false end.
Definition wake_up (x : point) : point := match x with Slow_asleep t => Slow_return t | _ => x end.

Lemma wake_up_awake x : sleeping (wake_up x) = false.
Proof. by destruct x. Qed.

#[export] Instance semaphore : Machine := {|
  pc := point; shared := new_sem; choice := schoice; event := sevent;
  action := sem_action; asleep := sleeping; woken := wake_up; woken_awake := wake_up_awake |}.

(** A semaphore in the hands of [n] threads. *)
Definition sem_pool (n : nat) (s : new_sem) : pool := Pool (replicate n Idle) s.
