(* ===== verification/SemaphoreTheorems.v ===== *)
(** * What semaphores promise

    Tokens are neither made nor lost, whatever the interleaving; the waiters
    are counted; no thread sleeps while there is a token nobody is about to
    take or to announce. *)

From S2P Require Import Prelude CInt Interleave Semaphore.

(** ** The two halves of [data] *)

Definition sem_value (s : new_sem) : Z := data s mod 2 ^ 32.
Definition nwaiters (s : new_sem) : Z := data s / 2 ^ 32.

Lemma value_mask d : Z.land d SEM_VALUE_MASK = d mod 2 ^ 32.
Proof. unfold SEM_VALUE_MASK. change (2 ^ 32 - 1) with (Z.ones 32). by apply Z.land_ones. Qed.

Lemma waiters_shift d : Z.shiftr d SEM_NWAITERS_SHIFT = d / 2 ^ 32.
Proof. by apply Z.shiftr_div_pow2. Qed.

(** The points at which a thread is counted as a waiter. *)
Definition registered (x : point) : bool :=
  match x with
  | Slow_loop _ _ | Slow_futex _ | Slow_asleep _ | Slow_return _ | Slow_reload _ | Slow_fail _ | Cleanup => true
  | _ => false
  end.

(** Waiters that are awake and may still take a token. *)
Definition trying (x : point) : bool :=
  match x with
  | Slow_loop t _ | Slow_futex t | Slow_return t | Slow_reload t => negb (refused t)
  | _ => false
  end.

(** Posters that are about to wake a waiter. *)
Definition waking (x : point) : bool := match x with Post_wake d => 0 <? Z.shiftr d SEM_NWAITERS_SHIFT | _ => false end.

Fixpoint events (f : sevent -> bool) (tr : list sevent) : Z :=
  match tr with [] => 0 | e :: tr => b2z (f e) + events f tr end.

Definition posted (e : sevent) : bool := match e with Posted => true | _ => false end.
Definition taken (e : sevent) : bool := match e with Taken => true | _ => false end.

Lemma events_app f l k : events f (l ++ k) = events f l + events f k.
Proof. induction l as [|e l IH]; [done|]. cbn [events app]. lia. Qed.

(** ** One action *)

(** The number of waiters and of tokens stay in their halves. *)
Record halves (n v : Z) (s : new_sem) : Prop := Halves {
  h_data : data s = n * 2 ^ 32 + v; h_n : 0 <= n < 2 ^ 32; h_v : 0 <= v <= SEM_VALUE_MAX; h_past : data s ∈ past s }.

Lemma halves_value n v s : halves n v s -> sem_value s = v /\ nwaiters s = n.
Proof.
  intros [E Bn Bv _]. unfold sem_value, nwaiters, SEM_VALUE_MAX in *. rewrite E. rewrite Z.add_comm, Z.mod_add, Z.mod_small by lia.
  split; [done|]. rewrite Z.div_add, Z.div_small by lia. lia.
Qed.

Lemma halves_set n v s d : d = n * 2 ^ 32 + v -> 0 <= n < 2 ^ 32 -> 0 <= v <= SEM_VALUE_MAX -> halves n v (set_data (wrap 64 d) s).
Proof.
  intros E Bn Bv. unfold SEM_VALUE_MAX in Bv. rewrite wrap_small by lia. constructor; [done|done|done|]. apply elem_of_cons. by left.
Qed.

(** A load or an exchange that fails changes nothing; an exchange that succeeds
    read the last value. *)
Lemma cas_cases c e new s r : atomic_compare_exchange_weak c e new s = Some r ->
  (r = inl (set_data new s) /\ data s = e) \/ exists d, r = inr d /\ d ∈ past s.
Proof.
  assert (L : forall d, atomic_load c s = Some d -> d ∈ past s).
  { intros d E. destruct c; try done. cbn in E. destruct (bool_decide (d0 ∈ past s)) eqn:B; [|done]. injection E as <-. by apply bool_decide_eq_true in B. }
  unfold atomic_compare_exchange_weak. intros E.
  assert (forall o, inr <$> o = Some r -> o = atomic_load c s -> exists d, r = inr d /\ d ∈ past s) as F.
  { intros o Eo ->. destruct (atomic_load c s) as [d|] eqn:El; [|done]. injection Eo as <-. exists d. split; [done|by apply L]. }
  destruct c; try (right; by apply (F _ E)). left. destruct (Z.eqb_spec (data s) e); [|done]. by injection E as <-.
Qed.

Lemma load_past c s d : atomic_load c s = Some d -> d ∈ past s.
Proof. destruct c; try done. cbn. destruct (bool_decide (d0 ∈ past s)) eqn:B; [|done]. intros [= <-]. by apply bool_decide_eq_true in B. Qed.

(** Case analysis of an action. *)
Ltac sem_cases E :=
  repeat match type of E with
  | Some (_, _, (if ?k then _ else _), _) = Some _ => let K := fresh "K" in destruct k eqn:K
  | Some _ = Some _ => injection E as <- <- <- <-
  | None = Some _ => discriminate E
  | context [match ?c with Call _ => _ | _ => _ end] => destruct c; try discriminate E
  | (_ ← atomic_compare_exchange_weak ?c ?e ?n ?s; _) = Some _ =>
      let R := fresh "R" in destruct (atomic_compare_exchange_weak c e n s) as [[?s'|?d']|] eqn:R; cbn [mbind option_bind] in E; try discriminate E;
      apply cas_cases in R as [[[= ->] ?Hd]|(?d'' & [=] & ?Hp)]; subst
  | (_ ← atomic_load ?c ?s; _) = Some _ =>
      let R := fresh "R" in destruct (atomic_load c s) as [?d'|] eqn:R; cbn [mbind option_bind] in E; [apply load_past in R|discriminate E]
  | (if ?b then _ else _) = Some _ => let B := fresh "B" in destruct b eqn:B
  | (match ?x with _ => _ end) = Some _ => destruct x; try discriminate E
  | sem_return _ _ = Some _ => unfold sem_return in E
  | go _ _ = Some _ => unfold go in E
  end.

(** What an action does to the counters of the semaphore. *)
Lemma action_halves c x s y s' w ev n v : sem_action c x s = Some (y, s', w, ev) -> halves n v s ->
  let n' := n - b2z (registered x) + b2z (registered y) in 0 <= n' < 2 ^ 32 ->
  exists v', v' + events taken ev = v + events posted ev /\ halves n' v' s'.
Proof.
  intros E Hs n' Bn'. destruct (Hs) as [Ed Bn Bv Hp].
  assert (Same : s' = s -> n' = n -> events taken ev = 0 -> events posted ev = 0 ->
    exists v', v' + events taken ev = v + events posted ev /\ halves n' v' s').
  { intros -> -> -> ->. exists v. split; [lia|done]. }
  assert (Sh : Z.shiftl 1 SEM_NWAITERS_SHIFT = 2 ^ 32) by done.
  destruct x; cbn [sem_action] in E;
    unfold start, post_cas, post_wake, fast_cas, fast_failed, slow_loop, slow_futex, slow_asleep, remove_waiter, atomic_fetch_add in E;
    rewrite ?value_mask, ?Sh in E.
  all: sem_cases E; cbn [registered b2z] in n'; try (apply Same; (done || lia)); subst n'; clear Same;
    destruct (halves_value n v s Hs) as [Ev _]; unfold sem_value in Ev; rewrite ?Ev in *; cbn [events taken posted b2z snd].
  - apply Z.eqb_neq in B. exists (v + 1). split; [lia|]. apply halves_set; unfold SEM_VALUE_MAX in *; lia.
  - apply Z.eqb_neq in B. exists (v - 1). split; [lia|]. apply halves_set; unfold SEM_VALUE_MAX in *; lia.
  - exists v. split; [lia|]. apply halves_set; lia.
  - apply Z.eqb_neq in B. exists (v - 1). split; [lia|]. apply halves_set; unfold SEM_VALUE_MAX in *; lia.
  - exists v. split; [lia|]. apply halves_set; lia.
  - exists v. split; [lia|]. apply halves_set; lia.
Qed.

(** Only a loaded value can be an old one: what [past] holds was [data]. *)
Lemma action_past c x s y s' w ev : sem_action c x s = Some (y, s', w, ev) -> past s' = past s \/ past s' = data s' :: past s.
Proof.
  intros E. destruct x; cbn [sem_action] in E;
    unfold start, post_cas, post_wake, fast_cas, fast_failed, slow_loop, slow_futex, slow_asleep, remove_waiter, atomic_fetch_add in E.
  all: sem_cases E; solve [by left|by right].
Qed.

(** ** Executions *)

Section Execution.
Variables (n : nat) (s0 : new_sem) (v0 : Z).
Hypothesis n_ok : Z.of_nat n < 2 ^ 32.
Hypothesis s0_ok : halves 0 v0 s0.

Lemma reach_length p tr : reach (sem_pool n s0) p tr -> length (threads p) = n.
Proof.
  induction 1 as [|p tr i c w p' ev R IH E]; [apply length_replicate|].
  apply pool_step_counts in E as (x & y & wakes & _ & _ & El & _). by rewrite El.
Qed.

(** A sleeper that is woken stays a waiter. *)
Lemma woken_registered z : sleeping z = true -> b2z (registered z) = b2z (registered (wake_up z)).
Proof. by destruct z. Qed.

Lemma reach_halves p tr : reach (sem_pool n s0) p tr ->
  exists v, v + events taken tr = v0 + events posted tr /\ halves (count registered (threads p)) v (obj p).
Proof.
  induction 1 as [|p tr i c w p' ev R IH E].
  - exists v0. split; [done|]. assert (count registered (threads (sem_pool n s0)) = 0) as -> by exact (count_replicate (registered : pc -> bool) n Idle eq_refl). done.
  - destruct IH as (v & Ev & Hv). pose proof (reach_length _ _ (reach_step _ _ _ _ _ _ _ _ R E)) as Ln.
    pose proof (count_bounds registered (threads p')) as Bc. rewrite Ln in Bc.
    apply pool_step_counts in E as (x & y & wakes & Ex & Ea & _ & Cs).
    assert (Ec : count registered (threads p') = count registered (threads p) - b2z (registered x) + b2z (registered y)).
    { destruct Cs as [[_ Cs]|[(_ & z & Az & Cs)|(_ & _ & Cs)]]; rewrite Cs; [done| |done|]; [|by intros []]. pose proof (woken_registered z Az). cbn [woken semaphore]. lia. }
    destruct (action_halves _ _ _ _ _ _ _ _ _ Ea Hv) as (v' & Ev' & Hv'); [rewrite <- Ec; lia|].
    exists v'. rewrite !events_app, Ec. split; [lia|done].
Qed.

(** Every value [data] has had is that of an earlier state. *)
Lemma reach_past p tr d : past s0 = [data s0] -> reach (sem_pool n s0) p tr -> d ∈ past (obj p) ->
  exists p1 tr1 tr2, reach (sem_pool n s0) p1 tr1 /\ tr = tr1 ++ tr2 /\ data (obj p1) = d.
Proof.
  intros E0. induction 1 as [|p tr i c w p' ev R IH E]; intros Hd.
  - cbn in Hd. rewrite E0 in Hd. apply list_elem_of_singleton in Hd as ->. exists (sem_pool n s0), [], []. split; [apply reach_start|done].
  - pose proof (reach_step _ _ _ _ _ _ _ _ R E) as R'. apply pool_step_counts in E as (x & y & wakes & _ & Ea & _ & _).
    apply action_past in Ea as [Ep|Ep]; rewrite Ep in Hd.
    2: apply elem_of_cons in Hd as [->|Hd]; [by exists p', (tr ++ ev), []; rewrite app_nil_r|].
    all: destruct (IH Hd) as (p1 & tr1 & tr2 & R1 & -> & E1); exists p1, tr1, (tr2 ++ ev); by rewrite app_assoc.
Qed.

(** The value a thread remembers was loaded, and what the system call reported
    to it. *)
Definition remembers (s : new_sem) (x : point) : Prop :=
  match x with
  | Post_cas d | Fast_cas _ _ d => d ∈ past s
  | Slow_fail err => err = ETIMEDOUT \/ err = EINTR
  | _ => True
  end.

(** What an event tells about the value. *)
Definition shown (d : Z) (e : sevent) : Prop :=
  match e with
  | Failed EAGAIN => d mod 2 ^ 32 = 0
  | Failed EOVERFLOW => d mod 2 ^ 32 = SEM_VALUE_MAX
  | Got v => d mod 2 ^ 32 = v
  | _ => True
  end.

Lemma action_shown c x s y s' w ev : sem_action c x s = Some (y, s', w, ev) -> remembers s x -> data s ∈ past s ->
  remembers s' y /\ (forall z, remembers s z -> remembers s' z) /\ forall e, e ∈ ev -> exists d, d ∈ past s /\ shown d e.
Proof.
  intros E Hx Hd.
  assert (M : forall z, remembers s z -> remembers s' z).
  { apply action_past in E as [Ep|Ep]; intros [] Hz; cbn in *; rewrite ?Ep; try apply elem_of_cons; auto. }
  assert (One : forall d e, shown d e -> d ∈ past s -> forall e', e' ∈ [e] -> exists d, d ∈ past s /\ shown d e').
  { intros d e Hs Hp e' ->%list_elem_of_singleton. by exists d. }
  assert (Nil : forall e, e ∈ [] -> exists d, d ∈ past s /\ shown d e) by (by intros e ?%not_elem_of_nil).
  destruct x; cbn [sem_action] in E;
    unfold start, post_cas, post_wake, fast_cas, fast_failed, slow_loop, slow_futex, slow_asleep, remove_waiter, atomic_fetch_add in E.
  all: sem_cases E; (split; [first [done|by left|by right]|]); (split; [exact M|]); try exact Nil; rewrite ?value_mask in *.
  all: try (apply (One (data s)); done); cbn in Hx.
  - apply (One d); [by apply Z.eqb_eq|done].
  - apply (One d); [by apply Z.eqb_eq|done].
  - apply (One (data s)); [by destruct Hx as [-> | ->]|done].
  - by apply (One d').
Qed.

Lemma reach_remembers p tr : reach (sem_pool n s0) p tr -> Forall (remembers (obj p)) (threads p).
Proof.
  induction 1 as [|p tr i c w p' ev R IH E]; [by apply Forall_replicate|].
  destruct (reach_halves _ _ R) as (v & _ & Hv). apply (@pool_step_Forall semaphore remembers i c w p p' ev); [|done|done|].
  - intros s [] Hz; try done.
  - intros x y wakes _ Hx Ea. destruct (action_shown _ _ _ _ _ _ _ Ea Hx) as (Hy & M & _); [apply Hv|]. by split.
Qed.

Lemma reach_shown p tr e : reach (sem_pool n s0) p tr -> e ∈ tr -> exists d, d ∈ past (obj p) /\ shown d e.
Proof.
  induction 1 as [|p tr i c w p' ev R IH E]; intros He; [by apply not_elem_of_nil in He|].
  destruct (reach_halves _ _ R) as (v & _ & Hv). pose proof (reach_remembers _ _ R) as F.
  apply pool_step_counts in E as (x & y & wakes & Ex & Ea & _ & _).
  assert (Up : forall d, d ∈ past (obj p) -> d ∈ past (obj p')).
  { intros d Hd. apply action_past in Ea as [-> | ->]; [done|]. apply elem_of_cons. by right. }
  assert (K : exists d, d ∈ past (obj p) /\ shown d e).
  { apply elem_of_app in He as [He|He]; [by apply IH|]. apply (action_shown _ _ _ _ _ _ _ Ea); [|apply Hv|done]. by apply (Forall_lookup_1 _ _ _ _ F Ex). }
  destruct K as (d & Hd & Hs). exists d. split; [by apply Up|done].
Qed.
(** ** Waking *)

Definition awake_cancel (e : sevent) : bool := match e with Cancelled_awake => true | _ => false end.

(** A thread whose time is over before it starts never sleeps. *)
Definition refused_sleeper (x : point) : bool := match x with Slow_asleep t => refused t | _ => false end.

(** A token is about to be taken or announced: an action keeps the balance
    between tokens and threads that know of them when there are waiters. *)
Lemma action_balance c x s y s' w ev k v v' : sem_action c x s = Some (y, s', w, ev) ->
  halves k v s -> v' + events taken ev = v + events posted ev -> events awake_cancel ev = 0 ->
  w = (if waking x then One else Nobody) /\ refused_sleeper y = false /\ (sleeping y = true -> v' = 0) /\
  (sleeping y = false -> 0 < k -> v' - v <= b2z (waking y) + b2z (trying y) - b2z (trying x)).
Proof.
  intros E Hs Ev Hc. destruct x; cbn [sem_action] in E;
    unfold start, post_cas, post_wake, fast_cas, fast_failed, slow_loop, slow_futex, slow_asleep, remove_waiter, atomic_fetch_add in E.
  all: sem_cases E; cbn [events taken posted awake_cancel b2z] in Ev, Hc; try lia.
  all: destruct (halves_value k v s Hs) as [Vv Vn]; cbn [trying waking sleeping refused_sleeper]; (split; [by rewrite ?K|]); (split; [done|]); (split; [try done|]).
  all: intros Sy; try discriminate Sy; try intros Hk; rewrite ?waiters_shift; cbn [b2z]; try lia.
  all: try (pose proof (b2z_bounds (negb (refused abstime))); lia).
  - unfold nwaiters in Vn. rewrite Vn, (proj2 (Z.ltb_lt 0 k) Hk). cbn. lia.
  - rewrite B. cbn. lia.
  - apply Z.eqb_eq in B0. unfold sem_value in Vv. unfold wrap in B0. lia.
Qed.

Lemma reach_balance p tr : reach (sem_pool n s0) p tr -> events awake_cancel tr = 0 ->
  count refused_sleeper (threads p) = 0 /\
  (0 < count sleeping (threads p) -> sem_value (obj p) <= count waking (threads p) + count trying (threads p)).
Proof.
  induction 1 as [|p tr i c w p' ev R IH E]; intros Hc.
  - split; [exact (count_replicate (refused_sleeper : pc -> bool) n Idle eq_refl)|].
    intros A. pose proof (count_replicate (sleeping : pc -> bool) n Idle eq_refl) as A0. exfalso. apply (Z.lt_irrefl 0). rewrite <- A0 at 2. exact A.
  - rewrite events_app in Hc. assert (Pos : forall l, 0 <= events awake_cancel l).
    { induction l as [|e l IHl]; [done|]. cbn [events]. pose proof (b2z_bounds (awake_cancel e)). lia. }
    pose proof (Pos tr). pose proof (Pos ev). destruct IH as [IHr IHb]; [lia|].
    destruct (reach_halves _ _ R) as (v & Ev & Hv). destruct (reach_halves _ _ (reach_step _ _ _ _ _ _ _ _ R E)) as (v' & Ev' & Hv').
    rewrite !events_app in Ev'. rewrite (proj1 (halves_value _ _ _ Hv)) in IHb. rewrite (proj1 (halves_value _ _ _ Hv')).
    apply pool_step_counts in E as (x & y & wakes & Ex & Ea & _ & Cs).
    destruct (action_balance _ _ _ _ _ _ _ _ _ v' Ea Hv) as (Ew & Ry & Sy & By); [lia|lia|].
    assert (Reg : forall l, count sleeping l <= count registered l).
    { clear. induction l as [|z l IHl]; [done|]. cbn [count]. destruct z; cbn; lia. }
    pose proof (Reg (threads p)) as Rp. pose proof (count_bounds waking (threads p')). pose proof (count_bounds trying (threads p')).
    pose proof (count_bounds refused_sleeper (threads p')) as Br. pose proof (b2z_bounds (refused_sleeper x)). pose proof (b2z_bounds (sleeping x)).
    destruct Cs as [[[Wf|[_ A0]] Cs]|[(Wt & z & Az & Cs)|(We & _)]]; [| | |by rewrite We in Ew; destruct (waking x)].
    + rewrite (Cs refused_sleeper), Ry in Br |- *. cbn [b2z] in *. split; [lia|]. intros A.
      destruct (sleeping y) eqn:Ys; [rewrite Sy by done; lia|]. rewrite (Cs sleeping), Ys in A. cbn [b2z] in A.
      rewrite (Cs waking), (Cs trying). rewrite Wf in Ew. destruct (waking x); [done|]. cbn [b2z]. specialize (By eq_refl ltac:(lia)). specialize (IHb ltac:(lia)). lia.
    + rewrite (Cs refused_sleeper), Ry in Br |- *. cbn [b2z] in *. split; [lia|]. intros A. change (asleep : pc -> bool) with sleeping in A0. lia.
    + rewrite Wt in Ew. destruct (waking x) eqn:Wx; [|done]. destruct x; try discriminate Wx. destruct z as [| | | | | | | | |t| | | | | |]; try discriminate Az.
      cbn [waking] in Wx. cbn [action semaphore sem_action] in Ea. destruct c; try discriminate Ea. unfold post_wake in Ea. rewrite Wx in Ea. injection Ea as <- _ _ _. cbn [b2z refused_sleeper waking trying sleeping woken semaphore wake_up] in *.
      rewrite (Cs refused_sleeper) in Br |- *. rewrite (Cs waking), (Cs trying), (Cs sleeping). cbn [b2z refused_sleeper waking trying sleeping woken semaphore wake_up] in *.
      pose proof (b2z_bounds (refused t)). split; [lia|]. intros A.
      specialize (IHb ltac:(lia)). specialize (By eq_refl ltac:(lia)). rewrite Wx. destruct (refused t); cbn [b2z negb] in *; lia.
Qed.
End Execution.

(** ** Theorems *)

Lemma init_halves pshared value s : 0 <= value -> __new_sem_init pshared value = inr s -> halves 0 value s /\ past s = [data s].
Proof.
  intros Bv. unfold __new_sem_init. destruct (Z.ltb_spec SEM_VALUE_MAX value); [done|]. destruct (negb (pshared =? 0)); cbn; intros [= <-].
  all: split; [|done]; constructor; cbn; [lia|lia|lia|by apply elem_of_cons; left].
Qed.

(** C3: Tokens are conserved. However the calls of fewer than 2^32 threads are
    interleaved, whatever old values relaxed loads return, whichever weak
    exchanges fail and whoever is woken, interrupted, timed out or cancelled: the
    value of the semaphore is the initial one plus the number of posts minus
    that of successful waits, it stays between 0 and SEM_VALUE_MAX, and the
    high half of the variable is the number of threads registered as waiters. *)
Theorem sem_tokens_conserved n pshared value s p tr : Z.of_nat n < 2 ^ 32 -> 0 <= value ->
  __new_sem_init pshared value = inr s -> reach (sem_pool n s) p tr ->
  sem_value (obj p) = value + events posted tr - events taken tr /\
  0 <= sem_value (obj p) <= SEM_VALUE_MAX /\
  nwaiters (obj p) = count registered (threads p).
Proof.
  intros Hn Hv E R. destruct (init_halves _ _ _ Hv E) as [H0 _]. destruct (reach_halves n s value Hn H0 p tr R) as (v & Ev & Hh).
  destruct (halves_value _ _ _ Hh) as [-> ->]. split; [lia|]. split; [apply Hh|done].
Qed.

(** C10: No wake-up is lost. Unless a waiter was cancelled while it was awake,
    a state with a token and a thread asleep on the futex has a thread that is
    about to wake a sleeper or an awake waiter that will try to take a token:
    the semaphore never rests with a token and a sleeper. *)
Theorem sem_no_lost_wakeup n pshared value s p tr : Z.of_nat n < 2 ^ 32 -> 0 <= value ->
  __new_sem_init pshared value = inr s -> reach (sem_pool n s) p tr -> events awake_cancel tr = 0 ->
  0 < sem_value (obj p) -> 0 < count sleeping (threads p) ->
  exists i x, threads p !! i = Some x /\ (waking x || trying x) = true.
Proof.
  intros Hn Hv E R Hc Vp Sp. destruct (init_halves _ _ _ Hv E) as [H0 _]. destruct (reach_balance n s value Hn H0 p tr R Hc) as [_ B].
  specialize (B Sp). pose proof (count_bounds waking (threads p)). pose proof (count_bounds trying (threads p)).
  destruct (Z.lt_ge_cases 0 (@count semaphore waking (threads p))) as [L|L]; [|assert (0 < @count semaphore trying (threads p)) as L' by lia].
  - destruct (@count_exists semaphore waking _ L) as (i & x & Ex & Fx). exists i, x. split; [done|]. by rewrite Fx.
  - destruct (@count_exists semaphore trying _ L') as (i & x & Ex & Fx). exists i, x. split; [done|]. by rewrite Fx, orb_true_r.
Qed.

(** The results that tell about the value tell a value the semaphore had:
    sem_trywait fails with EAGAIN only if there was a moment without a token,
    sem_post with EOVERFLOW only if there was one with SEM_VALUE_MAX, and
    sem_getvalue stores the value of some moment. *)
Theorem sem_results_observed n pshared value s p tr e : Z.of_nat n < 2 ^ 32 -> 0 <= value ->
  __new_sem_init pshared value = inr s -> reach (sem_pool n s) p tr -> e ∈ tr ->
  exists p1 tr1 tr2, reach (sem_pool n s) p1 tr1 /\ tr = tr1 ++ tr2 /\
    match e with
    | Failed EAGAIN => sem_value (obj p1) = 0
    | Failed EOVERFLOW => sem_value (obj p1) = SEM_VALUE_MAX
    | Got v => sem_value (obj p1) = v
    | _ => True
    end.
Proof.
  intros Hn Hv E R He. destruct (init_halves _ _ _ Hv E) as [H0 Hp]. destruct (reach_shown n s value Hn H0 p tr e R He) as (d & Hd & Hs).
  destruct (reach_past n s p tr d Hp R Hd) as (p1 & tr1 & tr2 & R1 & -> & <-). exists p1, tr1, tr2. split; [done|]. split; [done|]. by destruct e as [| |[]| |].
Qed.

(** ** Executions, step by step *)

Definition sem0 : new_sem := NewSem 0 [0] true.

Definition sched_wait (i : nat) : list (nat * schoice * option nat) :=
  [(i, Call Sem_wait, None); (i, Value 0, None); (i, Step, None); (i, Step, None); (i, Step, None); (i, Step, None)].

(** Two threads wait, the third posts and wakes the first one, which takes the
    token. *)
Definition sched_pass : list (nat * schoice * option nat) :=
  sched_wait 0 ++ sched_wait 1 ++
  [(2%nat, Call Sem_post, None); (2%nat, Value (2 * 2 ^ 32), None); (2%nat, Step, None); (2%nat, Step, Some 0%nat);
   (0%nat, Step, None); (0%nat, Value (2 * 2 ^ 32 + 1), None); (0%nat, Step, None)].

Lemma run_reach sched n s p tr : exec sched (sem_pool n s) [] = Some (p, tr) -> reach (sem_pool n s) p tr.
Proof. intros E. exact (exec_reach sched _ _ _ _ _ (reach_start _) E). Qed.

Definition pass_past : list Z := [2 ^ 32; 2 * 2 ^ 32 + 1; 2 * 2 ^ 32; 2 ^ 32; 0].

(** The state behind [sched_pass], and the one before the first thread runs
    again. *)
Definition passed : pool := Pool [Idle; Slow_asleep None; Idle] (NewSem (2 ^ 32) pass_past true).
Definition announced : pool := Pool [Slow_return None; Slow_asleep None; Idle] (NewSem (2 * 2 ^ 32 + 1) (drop 1 pass_past) true).

Lemma passed_reach : reach (sem_pool 3 sem0) passed [Posted; Taken].
Proof. apply (run_reach sched_pass). vm_cast_no_check (@eq_refl (option (pool * list event)) (Some (passed, [Posted; Taken]))). Qed.

Lemma announced_reach : reach (sem_pool 3 sem0) announced [Posted].
Proof. apply (run_reach (take 16 sched_pass)). vm_cast_no_check (@eq_refl (option (pool * list event)) (Some (announced, [Posted]))). Qed.

Lemma sem_tokens_witness : sem_value (obj passed) = 0 + 1 - 1 /\ nwaiters (obj passed) = 1.
Proof.
  destruct (sem_tokens_conserved 3 0 0 sem0 passed [Posted; Taken] eq_refl (Z.le_refl 0) eq_refl passed_reach) as (V & _ & N).
  split; [exact V|exact N].
Defined.

Lemma sem_no_lost_wakeup_witness : exists i x, threads announced !! i = Some x /\ (waking x || trying x) = true.
Proof. exact (sem_no_lost_wakeup 3 0 0 sem0 announced [Posted] eq_refl (Z.le_refl 0) eq_refl announced_reach eq_refl eq_refl eq_refl). Defined.

Definition refused_try : list (nat * schoice * option nat) := [(0%nat, Call Sem_trywait, None); (0%nat, Value 0, None); (0%nat, Step, None)].

Lemma refused_reach : reach (sem_pool 1 sem0) (sem_pool 1 sem0) [Failed EAGAIN].
Proof. apply (run_reach refused_try). vm_cast_no_check (@eq_refl (option (pool * list event)) (Some (sem_pool 1 sem0, [Failed EAGAIN]))). Qed.

Lemma sem_results_witness : exists p1 tr1 tr2, reach (sem_pool 1 sem0) p1 tr1 /\ [Failed EAGAIN] = tr1 ++ tr2 /\ sem_value (obj p1) = 0.
Proof.
  assert (I : Failed EAGAIN ∈ [Failed EAGAIN]) by (by apply elem_of_cons; left).
  exact (sem_results_observed 1 0 0 sem0 _ _ (Failed EAGAIN) eq_refl (Z.le_refl 0) eq_refl refused_reach I).
Defined.

Definition lost : pool := Pool [Cancelled; Slow_asleep None; Idle] (NewSem (2 ^ 32 + 1) (2 ^ 32 + 1 :: drop 1 pass_past) true).

(** C38: A cancellation can lose a wake-up. The first of two sleepers is woken
    by a post and cancelled before the wrapper of the system call disables
    asynchronous cancellation: the clean-up handler does not pass the wake-up on,
    and the second one stays asleep although there is a token and no thread
    is about to do anything. *)
Theorem sem_cancel_loses_wakeup : exists p tr, reach (sem_pool 3 sem0) p tr /\
  threads p = [Cancelled; Slow_asleep None; Idle] /\ sem_value (obj p) = 1.
Proof.
  exists lost, [Posted; Cancelled_awake]. split; [|done]. apply (run_reach (take 16 sched_pass ++ [(0%nat, Cancel, None); (0%nat, Step, None)])).
  vm_cast_no_check (@eq_refl (option (pool * list event)) (Some (lost, [Posted; Cancelled_awake]))).
Qed.
