(* ===== verification/LowLevelLock.v ===== *)
(** * Low-level locks: [sysdeps/nptl/lowlevellock.h], [nptl/lowlevellock.c]

    The lock is an [int]: 0 when it is free, 1 when it is held, 2 when it is
    held and there may be waiters.  The points of the code between two accesses
    are the states of a thread, as for semaphores; a thread that holds the lock
    may release it at any time, the others may try to get it. *)

From S2P Require Import Prelude Interleave.

(** The lock and the values it has had. *)
Record lll := Lll { futex : Z; values : list Z }.

Definition LLL_LOCK_INITIALIZER : Z := 0.

Inductive lpoint :=
| Outside
| Lock_cas
| Wait_load
| Wait_exchange
| Wait_futex
| Wait_asleep
| Owner
| Unlock_wake.

Inductive lchoice :=
| Lock | Cond_lock | Trylock | Cond_trylock | Unlock   (** what the thread calls *)
| Next                     (** the only thing the code can do *)
| Loaded (v : Z)           (** a load returns [v] *)
| Interrupted.             (** a sleeper wakes by itself *)

Inductive levent := Acquired | Busy | Released.

Definition set_lock (v : Z) (s : lll) : lll := Lll v (v :: values s).

(** Whether the exchange is made, and the lock. *)
Definition atomic_compare_and_exchange (new old : Z) (s : lll) : bool * lll :=
  if futex s =? old then (true, set_lock new s) else (false, s).

Definition atomic_exchange (v : Z) (s : lll) : Z * lll := (futex s, set_lock v s).

Definition lout : Type := lpoint * lll * wakes * list levent.

Definition lll_trylock (s : lll) : lout :=
  let '(ok, s) := atomic_compare_and_exchange 1 0 s in
  if ok then (Owner, s, Nobody, [Acquired]) else (Outside, s, Nobody, [Busy]).

Definition lll_cond_trylock (s : lll) : lout :=
  let '(ok, s) := atomic_compare_and_exchange 2 0 s in
  if ok then (Owner, s, Nobody, [Acquired]) else (Outside, s, Nobody, [Busy]).

Definition lll_lock (s : lll) : lout :=
  let '(ok, s) := atomic_compare_and_exchange 1 0 s in
  if ok then (Owner, s, Nobody, [Acquired]) else (Wait_load, s, Nobody, []).

Definition lll_cond_lock (s : lll) : lout :=
  let '(old, s) := atomic_exchange 2 s in
  if negb (old =? 0) then (Wait_load, s, Nobody, []) else (Owner, s, Nobody, [Acquired]).

(** [__lll_lock_wait]: the loop is entered at its label when the load returned
    2. *)
Definition lock_wait_load (v : Z) (s : lll) : lout :=
  if v =? 2 then (Wait_futex, s, Nobody, []) else (Wait_exchange, s, Nobody, []).

Definition lock_wait_exchange (s : lll) : lout :=
  let '(old, s) := atomic_exchange 2 s in
  if negb (old =? 0) then (Wait_futex, s, Nobody, []) else (Owner, s, Nobody, [Acquired]).

(** [futex_wait (futex, 2)]: the kernel compares and sleeps in one action. *)
Definition lock_futex_wait (s : lll) : lout :=
  if futex s =? 2 then (Wait_asleep, s, Nobody, []) else (Wait_exchange, s, Nobody, []).

Definition lll_unlock (s : lll) : lout :=
  let '(oldval, s) := atomic_exchange 0 s in
  if 1 <? oldval then (Unlock_wake, s, Nobody, [Released]) else (Outside, s, Nobody, [Released]).

Definition lll_action (c : lchoice) (x : lpoint) (s : lll) : option lout :=
  match x, c with
  | Outside, Lock => Some (Lock_cas, s, Nobody, [])
  | Outside, Cond_lock => Some (lll_cond_lock s)
  | Outside, Trylock => Some (lll_trylock s)
  | Outside, Cond_trylock => Some (lll_cond_trylock s)
  | Lock_cas, Next => Some (lll_lock s)
  | Wait_load, Loaded v => if bool_decide (v ∈ values s) then Some (lock_wait_load v s) else None
  | Wait_exchange, Next => Some (lock_wait_exchange s)
  | Wait_futex, Next => Some (lock_futex_wait s)
  | Wait_asleep, Interrupted => Some (Wait_exchange, s, Nobody, [])
  | Owner, Unlock => Some (lll_unlock s)
  | Unlock_wake, Next => Some (Outside, s, One, [])
  | _, _ => None
  end.

Definition lock_asleep (x : lpoint) : bool := match x with Wait_asleep => true | _ => false end.
Definition lock_woken (x : lpoint) : lpoint := match x with Wait_asleep => Wait_exchange | _ => x end.

Lemma lock_woken_awake x : lock_asleep (lock_woken x) = false.
Proof. by destruct x. Qed.

#[export] Instance low_level_lock : Machine := {|
  pc := lpoint; shared := lll; choice := lchoice; event := levent;
  action := lll_action; asleep := lock_asleep; woken := lock_woken; woken_awake := lock_woken_awake |}.

(** A free lock in the hands of [n] threads. *)
Definition lock_pool (n : nat) : pool :=
  Pool (replicate n Outside) (Lll LLL_LOCK_INITIALIZER [LLL_LOCK_INITIALIZER]).

(** ** Invariants *)

Definition owner (x : lpoint) : bool := match x with Owner => true | _ => false end.

(** Awake threads that will try to get the lock or to sleep again. *)
Definition contending (x : lpoint) : bool := match x with Wait_load | Wait_exchange | Wait_futex => true | _ => false end.

(** Threads that are about to wake a sleeper. *)
Definition releasing (x : lpoint) : bool := match x with Unlock_wake => true | _ => false end.

(** What an action does: it takes the lock only when it is free, it gives back
    only what it has, and it leaves 2 behind whenever it may sleep. *)
Lemma action_lock c x s y s' w ev : lll_action c x s = Some (y, s', w, ev) -> 0 <= futex s <= 2 ->
  (owner x = true -> futex s <> 0) ->
  0 <= futex s' <= 2 /\
  b2z (negb (futex s' =? 0)) - b2z (negb (futex s =? 0)) = b2z (owner y) - b2z (owner x) /\
  w = (if releasing x then One else Nobody) /\
  (lock_asleep y = true -> futex s' = 2) /\
  (futex s = 2 -> futex s' = 2 \/ releasing y = true) /\
  (contending x = true -> futex s' = 2 \/ contending y = true) /\
  (lock_asleep x = true -> contending y = true) /\ (releasing x = true -> s' = s).
Proof.
  intros E B O. destruct x, c; try discriminate E; cbn in E.
  all: unfold lll_cond_lock, lll_trylock, lll_cond_trylock, lll_lock, lock_wait_load, lock_wait_exchange, lock_futex_wait, lll_unlock,
         atomic_exchange, atomic_compare_and_exchange in E.
  all: repeat match type of E with
       | context [bool_decide ?P] => destruct (bool_decide P); [|discriminate E]
       | context [?a =? ?b] => destruct (Z.eqb_spec a b)
       | context [?a <? ?b] => destruct (Z.ltb_spec a b)
       end; cbn in E; injection E as <- <- <- <-; cbn [set_lock futex owner releasing contending lock_asleep b2z negb] in *.
  all: repeat match goal with |- context [?a =? ?b] => destruct (Z.eqb_spec a b) end; cbn [b2z negb].
  all: try specialize (O eq_refl).
  all: repeat split; intros; try discriminate; try lia; auto.
Qed.

(** The state of the lock says whether there is an owner, and a sleeper is not
    forgotten. *)
Record lock_ok (p : @pool low_level_lock) : Prop := LockOk {
  ok_range : 0 <= futex (obj p) <= 2;
  ok_owner : count owner (threads p) = b2z (negb (futex (obj p) =? 0));
  ok_sleep : 0 < count lock_asleep (threads p) ->
    futex (obj p) = 2 \/ 0 < count releasing (threads p) \/ 0 < count contending (threads p) }.

Lemma reach_lock_ok n p tr : reach (lock_pool n) p tr -> lock_ok p.
Proof.
  induction 1 as [|p tr i c w p' ev R IH E].
  - constructor; [done|exact (@count_replicate low_level_lock owner n Outside eq_refl)|].
    intros A. exfalso. apply (Z.lt_irrefl 0). rewrite <- (@count_replicate low_level_lock lock_asleep n Outside eq_refl) at 2. exact A.
  - destruct IH as [B O S]. apply pool_step_counts in E as (x & y & wakes & Ex & Ea & _ & Cs).
    assert (Ox : owner x = true -> futex (obj p) <> 0).
    { intros Hx Z0. rewrite Z0 in O. cbn in O. pose proof (@count_pos low_level_lock owner _ _ _ Ex Hx). lia. }
    destruct (action_lock _ _ _ _ _ _ _ Ea B Ox) as (B' & Od & Ew & Hs & H2 & Hc & Ha & _).
    pose proof (@count_bounds low_level_lock contending (threads p)). pose proof (@count_bounds low_level_lock releasing (threads p)).
    pose proof (b2z_bounds (contending x)). pose proof (b2z_bounds (contending y)). pose proof (b2z_bounds (releasing y)).
    destruct Cs as [[[Wf|[_ A0]] Cs]|[(Wt & z & Az & Cs)|(We & _)]]; [| | |by rewrite We in Ew; destruct (releasing x)].
    + constructor; [done|rewrite Cs; lia|]. rewrite (Cs lock_asleep), (Cs releasing), (Cs contending). rewrite Wf in Ew. destruct (releasing x); [done|]. cbn [b2z]. intros A.
      destruct (lock_asleep y) eqn:Ys; [left; by apply Hs|]. destruct (contending y) eqn:Yc; [right; right; cbn [b2z]|].
      { pose proof (@count_pos low_level_lock contending _ _ _ Ex) as Cx. destruct (contending x); cbn [b2z]; [specialize (Cx eq_refl)|]; lia. }
      destruct (lock_asleep x) eqn:Xs; [by specialize (Ha eq_refl)|]. destruct (S ltac:(cbn [b2z] in A; lia)) as [F2|[Rp|Cp]].
      * destruct (H2 F2) as [F|Yr]; [by left|]. right; left. rewrite Yr. cbn. lia.
      * right; left. lia.
      * destruct (contending x) eqn:Xc; [destruct (Hc eq_refl); [by left|done]|]. right; right. cbn. lia.
    + constructor; [done|rewrite Cs; lia|]. intros A. change (count asleep (threads p')) with (count lock_asleep (threads p')) in A0. lia.
    + rewrite Wt in Ew. destruct x; try discriminate Ew. destruct z; try discriminate Az. cbn [woken low_level_lock lock_woken] in Cs.
      constructor; [done|rewrite Cs; cbn [owner b2z] in *; lia|]. intros _. right; right. rewrite (Cs contending). cbn [contending b2z] in *. lia.
Qed.

(** C15: Low-level locks exclude each other. In every interleaving of lock,
    trylock, the variants for condition variables and unlock by any number of
    threads, at most one thread holds the lock, and the lock word is 0 exactly
    when none does. *)
Theorem lll_mutual_exclusion n p tr : reach (lock_pool n) p tr ->
  0 <= futex (obj p) <= 2 /\ count owner (threads p) <= 1 /\ (futex (obj p) = 0 <-> count owner (threads p) = 0).
Proof.
  intros R. destruct (reach_lock_ok n p tr R) as [B O _]. split; [done|]. rewrite O.
  destruct (Z.eqb_spec (futex (obj p)) 0); cbn; (split; [lia|]); split; (done || lia).
Qed.

(** C32: No thread is left sleeping on a free lock. While a thread sleeps, the
    lock is held and marked so that its release wakes a sleeper, or a thread is
    about to wake one, or an awake thread will try again to get the lock; if
    no thread holds the lock one of the last two is the case. *)
Theorem lll_no_lost_wakeup n p tr : reach (lock_pool n) p tr -> 0 < count lock_asleep (threads p) ->
  (futex (obj p) = 2 /\ exists i, threads p !! i = Some Owner) \/
  exists i x, threads p !! i = Some x /\ (releasing x || contending x) = true.
Proof.
  intros R A. destruct (reach_lock_ok n p tr R) as [B O S]. destruct (S A) as [F|[Rp|Cp]].
  - left. split; [done|]. rewrite F in O. cbn in O. destruct (@count_exists low_level_lock owner (threads p)) as (i & x & Ex & Ox); [lia|].
    exists i. by destruct x.
  - right. destruct (@count_exists low_level_lock releasing _ Rp) as (i & x & Ex & Hx). exists i, x. by rewrite Hx.
  - right. destruct (@count_exists low_level_lock contending _ Cp) as (i & x & Ex & Hx). exists i, x. by rewrite Hx, orb_true_r.
Qed.

(** ** An execution *)

(** The first thread gets the lock, the second one sleeps, the first one
    releases it. *)
Definition contention : list (nat * lchoice * option nat) :=
  [(0%nat, Lock, None); (0%nat, Next, None); (1%nat, Lock, None); (1%nat, Next, None); (1%nat, Loaded 1, None); (1%nat, Next, None);
   (1%nat, Next, None); (0%nat, Unlock, None)].

Definition contended : pool := Pool [Unlock_wake; Wait_asleep] (Lll 0 [0; 2; 1; 0]).

Lemma contended_reach : reach (lock_pool 2) contended [Acquired; Released].
Proof.
  apply (@exec_reach low_level_lock contention _ (lock_pool 2) []); [apply reach_start|].
  vm_cast_no_check (@eq_refl (option (pool * list event)) (Some (contended, [Acquired; Released]))).
Qed.

Lemma lll_mutual_exclusion_witness : 0 <= futex (obj contended) <= 2 /\ count owner (threads contended) <= 1 /\
  (futex (obj contended) = 0 <-> count owner (threads contended) = 0).
Proof. exact (lll_mutual_exclusion 2 contended [Acquired; Released] contended_reach). Defined.

Lemma lll_no_lost_wakeup_witness : (futex (obj contended) = 2 /\ exists i, threads contended !! i = Some Owner) \/
  exists i x, threads contended !! i = Some x /\ (releasing x || contending x) = true.
Proof. exact (lll_no_lost_wakeup 2 contended [Acquired; Released] contended_reach eq_refl). Defined.
