(* ===== verification/PthreadOnce.v ===== *)
(** * One-time initialization: [nptl/pthread_once.c]

    The control word is 0, or says that the routine is running, with the fork
    generation of the process, or that it has run.  The points of the code
    between two accesses are the states of a thread.  The routine itself is an
    action that returns or is cut short by a cancellation or an exception. *)

From S2P Require Import Prelude CInt Interleave.

Definition PTHREAD_ONCE_INPROGRESS : Z := 1.
Definition PTHREAD_ONCE_DONE : Z := 2.
Definition PTHREAD_ONCE_FORK_GEN_INCR : Z := 4.

(** The control word, the values it has had in this process, and the fork
    generation. *)
Record once := Once { once_control : Z; once_values : list Z; fork_generation : Z }.

Inductive opoint :=
| Out_of_once
| Once_load
| Slow_acquire
| Once_cas (val : Z)
| Once_futex
| Once_asleep
| Init_routine
| Once_wake
| Clear_wake
| Once_cancelled.

Inductive ochoice :=
| Call_once
| Advance                  (** the only thing the code can do *)
| Acquire (val : Z)        (** a load returns [val] *)
| Wake_early               (** a sleeper wakes by itself *)
| Cut_short.               (** the routine does not return *)

Inductive oevent := Started | Finished | Aborted | Returned.

Definition set_once (v : Z) (s : once) : once := Once v (v :: once_values s) (fork_generation s).

Definition once_load (c : ochoice) (s : once) : option Z :=
  match c with Acquire v => if bool_decide (v ∈ once_values s) then Some v else None | _ => None end.

Definition oout : Type := opoint * once * wakes * list oevent.

(** An [int]; the generation is an [unsigned long]. *)
Definition newval (s : once) : Z := sint 32 (Z.lor (fork_generation s) PTHREAD_ONCE_INPROGRESS).

Definition done_bit (val : Z) : bool := negb (Z.land val PTHREAD_ONCE_DONE =? 0).

(** [___pthread_once] *)
Definition once_fast (val : Z) (s : once) : option oout :=
  if done_bit val then Some (Out_of_once, s, Nobody, [Returned]) else Some (Slow_acquire, s, Nobody, []).

(** [__pthread_once_slow]: from the test for the end of the initialization to
    the futex or the routine.  The weak exchange may fail. *)
Definition once_cas (c : ochoice) (val : Z) (s : once) : option oout :=
  if done_bit val then Some (Out_of_once, s, Nobody, [Returned])
  else
    match c with
    | Advance =>
      if once_control s =? val then
        let s' := set_once (newval s) s in
        if negb (Z.land val PTHREAD_ONCE_INPROGRESS =? 0) && (val =? newval s) then Some (Once_futex, s', Nobody, [])
        else Some (Init_routine, s', Nobody, [Started])
      else None
    | _ => v ← once_load c s; Some (Once_cas v, s, Nobody, [])
    end.

(** [futex_wait_simple (once_control, newval)] and the next round. *)
Definition once_futex (s : once) : option oout :=
  if once_control s =? newval s then Some (Once_asleep, s, Nobody, []) else Some (Slow_acquire, s, Nobody, []).

(** The routine returns, or [clear_once_control] is run. *)
Definition once_init (c : ochoice) (s : once) : option oout :=
  match c with
  | Advance => Some (Once_wake, set_once PTHREAD_ONCE_DONE s, Nobody, [Finished])
  | Cut_short => Some (Clear_wake, set_once 0 s, Nobody, [Aborted])
  | _ => None
  end.

Definition once_action (c : ochoice) (x : opoint) (s : once) : option oout :=
  match x with
  | Out_of_once => match c with Call_once => Some (Once_load, s, Nobody, []) | _ => None end
  | Once_load => v ← once_load c s; once_fast v s
  | Slow_acquire => v ← once_load c s; Some (Once_cas v, s, Nobody, [])
  | Once_cas val => once_cas c val s
  | Once_futex => match c with Advance => once_futex s | _ => None end
  | Once_asleep => match c with Wake_early => Some (Slow_acquire, s, Nobody, []) | _ => None end
  | Init_routine => once_init c s
  | Once_wake => match c with Advance => Some (Out_of_once, s, Everybody, [Returned]) | _ => None end
  | Clear_wake => match c with Advance => Some (Once_cancelled, s, Everybody, []) | _ => None end
  | Once_cancelled => None
  end.

Definition once_asleep (x : opoint) : bool := match x with Once_asleep => true | _ => false end.
Definition once_woken (x : opoint) : opoint := match x with Once_asleep => Slow_acquire | _ => x end.

Lemma once_woken_awake x : once_asleep (once_woken x) = false.
Proof. by destruct x. Qed.

#[export] Instance one_time : Machine := {|
  pc := opoint; shared := once; choice := ochoice; event := oevent;
  action := once_action; asleep := once_asleep; woken := once_woken; woken_awake := once_woken_awake |}.

(** [n] threads of a process of the generation [4 * g]; the word is 0, or a
    routine was running in the parent when it forked. *)
Definition once_pool (n : nat) (g word : Z) : @pool one_time :=
  Pool (replicate n Out_of_once) (Once word [word] (PTHREAD_ONCE_FORK_GEN_INCR * g)).

(** ** The bits of the word *)

Lemma in_progress_form g : exists h, newval (Once 0 [] (PTHREAD_ONCE_FORK_GEN_INCR * g)) = 4 * h + 1.
Proof.
  unfold newval, PTHREAD_ONCE_FORK_GEN_INCR, PTHREAD_ONCE_INPROGRESS. cbn [fork_generation].
  assert (Z.lor (4 * g) 1 = 4 * g + 1) as ->.
  { replace (4 * g) with (g * 2 ^ 2) by lia. by apply lor_mul_pow2_add. }
  unfold sint. exists (g - 2 ^ 30 * ((4 * g + 1 + 2 ^ (32 - 1)) / 2 ^ 32)). rewrite Z.mod_eq by lia. lia.
Qed.

Lemma testbit_1 h r : 0 <= r < 2 -> Z.testbit (4 * h + r) 1 = false.
Proof.
  intros Br. replace (4 * h + r) with (r + h * 2 ^ 2) by lia. rewrite <- (Z.mod_pow2_bits_low _ 2 1) by lia. rewrite Z.mod_add, Z.mod_small by lia.
  assert (r = 0 \/ r = 1) as [-> | ->] by lia; done.
Qed.

Lemma in_progress_bits h : done_bit (4 * h + 1) = false /\ Z.land (4 * h + 1) PTHREAD_ONCE_INPROGRESS = 1.
Proof.
  split.
  - unfold done_bit. assert (Z.land (4 * h + 1) PTHREAD_ONCE_DONE = 0) as ->; [|done]. apply Z.bits_inj'. intros n Hn. rewrite Z.land_spec, Z.bits_0.
    destruct (Z.eq_dec n 1) as [->|N]; [by rewrite testbit_1|]. apply andb_false_iff. right. change PTHREAD_ONCE_DONE with (2 ^ 1).
    apply Z.pow2_bits_false. lia.
  - change PTHREAD_ONCE_INPROGRESS with (Z.ones 1). rewrite Z.land_ones by lia. replace (4 * h + 1) with (1 + (2 * h) * 2 ^ 1) by lia. by rewrite Z.mod_add.
Qed.

(** ** Invariants *)

Fixpoint oevents (f : oevent -> bool) (tr : list oevent) : Z :=
  match tr with [] => 0 | e :: tr => b2z (f e) + oevents f tr end.

Definition started (e : oevent) : bool := match e with Started => true | _ => false end.
Definition finished (e : oevent) : bool := match e with Finished => true | _ => false end.
Definition aborted (e : oevent) : bool := match e with Aborted => true | _ => false end.
Definition returned (e : oevent) : bool := match e with Returned => true | _ => false end.

Lemma oevents_app f l k : oevents f (l ++ k) = oevents f l + oevents f k.
Proof. induction l as [|e l IH]; [done|]. cbn [oevents app]. lia. Qed.

Definition running (x : opoint) : bool := match x with Init_routine => true | _ => false end.
Definition leaving (x : opoint) : bool := match x with Once_wake => true | _ => false end.
Definition announcing (x : opoint) : bool := match x with Once_wake | Clear_wake => true | _ => false end.

(** The value a thread tries to replace was loaded. *)
Definition loaded (s : once) (x : opoint) : Prop := match x with Once_cas v => v ∈ once_values s | _ => True end.

Section Execution.
Variables (n : nat) (g w0 N : Z).
Hypothesis N_def : N = newval (Once 0 [] (PTHREAD_ONCE_FORK_GEN_INCR * g)).
Hypothesis w0_ok : w0 = 0 \/ exists h, w0 = 4 * h + 1 /\ w0 <> N.

(** The words that occur. *)
Definition word_ok (v : Z) : Prop := v = 0 \/ v = N \/ v = PTHREAD_ONCE_DONE \/ v = w0.

Lemma N_bits : done_bit N = false /\ Z.land N PTHREAD_ONCE_INPROGRESS = 1 /\ N <> 0 /\ N <> PTHREAD_ONCE_DONE.
Proof.
  destruct (in_progress_form g) as [h Eh]. rewrite N_def, Eh. destruct (in_progress_bits h) as [D P]. split; [done|]. split; [done|].
  unfold PTHREAD_ONCE_DONE. lia.
Qed.

Lemma word_not_done v : word_ok v -> done_bit v = false <-> v <> PTHREAD_ONCE_DONE.
Proof.
  intros W. destruct N_bits as (DN & _ & _ & N2). assert (D2 : done_bit PTHREAD_ONCE_DONE = true) by done. split; [by intros D ->|]. intros Nd.
  destruct W as [-> | [-> | [-> | ->]]]; [done|done|done|]. destruct w0_ok as [->|(h & -> & _)]; [done|]. apply in_progress_bits.
Qed.

(** Another thread is running the routine exactly if the word says so. *)
Lemma word_running v : word_ok v -> v <> PTHREAD_ONCE_DONE ->
  (negb (Z.land v PTHREAD_ONCE_INPROGRESS =? 0) && (v =? N)) = (v =? N).
Proof.
  intros W Nd. destruct (Z.eqb_spec v N) as [->|]; [|by rewrite andb_false_r]. destruct N_bits as (_ & -> & _). done.
Qed.

Record once_state (s : once) : Prop := OnceState {
  os_new : newval s = N;
  os_cur : once_control s ∈ once_values s;
  os_words : forall v, v ∈ once_values s -> word_ok v;
  os_done : PTHREAD_ONCE_DONE ∈ once_values s -> once_control s = PTHREAD_ONCE_DONE }.

Lemma set_once_state v s : once_state s -> word_ok v -> (v <> PTHREAD_ONCE_DONE -> once_control s <> PTHREAD_ONCE_DONE) ->
  once_state (set_once v s).
Proof.
  intros [Hn Hc Hw Hd] Wv Nd. constructor; [done| | |].
  - apply elem_of_cons. by left.
  - intros u [->|Hu]%elem_of_cons; [done|by apply Hw].
  - cbn. intros [E|Hu]%elem_of_cons; [done|]. destruct (Z.eq_dec v PTHREAD_ONCE_DONE) as [|Nv]; [done|]. by destruct (Nd Nv (Hd Hu)).
Qed.

Lemma once_load_in c s v : once_load c s = Some v -> v ∈ once_values s.
Proof. destruct c; try done. cbn. destruct (bool_decide (val ∈ once_values s)) eqn:B; [|done]. intros [= <-]. by apply bool_decide_eq_true in B. Qed.

(** What an action does. *)
Record once_effect (x y : opoint) (s s' : once) (k : wakes) (ev : list oevent) : Prop := OnceEffect {
  oe_state : once_state s';
  oe_loaded : loaded s' y;
  oe_values : forall v, v ∈ once_values s -> v ∈ once_values s';
  oe_running : b2z (once_control s' =? N) - b2z (once_control s =? N) = b2z (running y) - b2z (running x);
  oe_finished : b2z (once_control s' =? PTHREAD_ONCE_DONE) - b2z (once_control s =? PTHREAD_ONCE_DONE) = oevents finished ev;
  oe_started : oevents started ev = oevents finished ev + oevents aborted ev + b2z (running y) - b2z (running x);
  oe_returned : 0 < oevents returned ev -> once_control s' = PTHREAD_ONCE_DONE;
  oe_leaving : leaving y = true -> once_control s' = PTHREAD_ONCE_DONE;
  oe_done : once_control s = PTHREAD_ONCE_DONE -> once_control s' = PTHREAD_ONCE_DONE;
  oe_wakes : k = if announcing x then Everybody else Nobody;
  oe_asleep : once_asleep y = true -> once_control s' = N;
  oe_kept : once_control s = N -> once_control s' = N \/ announcing y = true }.

(** An action that does not write. *)
Lemma effect_same x y s ev : once_state s -> loaded s y -> running x = running y ->
  oevents finished ev = 0 -> oevents started ev = 0 -> oevents aborted ev = 0 ->
  (0 < oevents returned ev -> once_control s = PTHREAD_ONCE_DONE) -> leaving y = false -> (once_asleep y = true -> once_control s = N) ->
  once_effect x y s s (if announcing x then Everybody else Nobody) ev.
Proof. intros Hs Hl Hr Hf Hst Ha Hre Hle Has. constructor; auto; rewrite ?Hf, ?Hst, ?Ha, ?Hr; try lia. by rewrite Hle. Qed.

Lemma done_loaded v s : once_state s -> v ∈ once_values s -> done_bit v = true -> once_control s = PTHREAD_ONCE_DONE.
Proof.
  intros Hs Hv D. assert (v = PTHREAD_ONCE_DONE) as ->; [|by apply (os_done s Hs)].
  destruct (Z.eq_dec v PTHREAD_ONCE_DONE) as [|Nd]; [done|]. apply word_not_done in Nd; [congruence|by apply (os_words s Hs)].
Qed.

Lemma cas_effect c val s y s' k ev : once_cas c val s = Some (y, s', k, ev) -> once_state s -> val ∈ once_values s ->
  once_effect (Once_cas val) y s s' k ev.
Proof.
  intros E Hs Hv. unfold once_cas in E. destruct (done_bit val) eqn:D.
  { injection E as <- <- <- <-. apply (effect_same (Once_cas val)); try done. intros _. by apply (done_loaded val). }
  pose proof (proj1 (word_not_done val (os_words s Hs val Hv)) D) as Nd. destruct N_bits as (_ & _ & _ & N2).
  assert (Fail : forall v, v ∈ once_values s -> once_effect (Once_cas val) (Once_cas v) s s Nobody []).
  { intros v Hl. by apply (effect_same (Once_cas val)). }
  assert (Ld : forall o, (v ← o; Some (Once_cas v, s, Nobody, [])) = Some (y, s', k, ev) -> o = once_load c s -> once_effect (Once_cas val) y s s' k ev).
  { intros o Eo ->. destruct (once_load c s) as [v|] eqn:El; [|done]. cbn in Eo. injection Eo as <- <- <- <-. apply Fail. by apply once_load_in in El. }
  destruct c; try (by apply (Ld _ E)). destruct (Z.eqb_spec (once_control s) val) as [Ec|]; [|done].
  rewrite (os_new s Hs), (word_running val (os_words s Hs val Hv) Nd) in E.
  assert (S' : once_state (set_once N s)).
  { apply set_once_state; [done|by right; left|]. intros _. by rewrite Ec. }
  destruct (Z.eqb_spec val N) as [->|Nv]; injection E as <- <- <- <-; constructor; try done; cbn [set_once once_control once_values].
  all: try (intros v Hl; apply elem_of_cons; by right).
  all: rewrite ?Ec, ?Z.eqb_refl, ?(proj2 (Z.eqb_neq _ _) N2), ?(proj2 (Z.eqb_neq _ _) Nd), ?(proj2 (Z.eqb_neq _ _) Nv); try done; try lia; auto.
Qed.

Lemma action_once c x s y s' k ev : once_action c x s = Some (y, s', k, ev) -> once_state s -> loaded s x ->
  (running x = true -> once_control s = N) -> (leaving x = true -> once_control s = PTHREAD_ONCE_DONE) ->
  once_effect x y s s' k ev.
Proof.
  intros E Hs Hl Hr Hd. destruct N_bits as (_ & _ & N0 & N2). destruct x; cbn [once_action] in E.
  - destruct c; try done. injection E as <- <- <- <-. by apply (effect_same Out_of_once).
  - destruct (once_load c s) as [v|] eqn:El; [|done]. cbn in E. apply once_load_in in El. unfold once_fast in E.
    destruct (done_bit v) eqn:D; injection E as <- <- <- <-; apply (effect_same Once_load); try done. intros _. by apply (done_loaded v).
  - destruct (once_load c s) as [v|] eqn:El; [|done]. cbn in E. apply once_load_in in El. injection E as <- <- <- <-. by apply (effect_same Slow_acquire).
  - by apply (cas_effect c).
  - destruct c; try done. unfold once_futex in E. rewrite (os_new s Hs) in E.
    destruct (Z.eqb_spec (once_control s) N); injection E as <- <- <- <-; by apply (effect_same Once_futex).
  - destruct c; try done. injection E as <- <- <- <-. by apply (effect_same Once_asleep).
  - specialize (Hr eq_refl). destruct c; try done; injection E as <- <- <- <-; constructor; try done; cbn [set_once once_control once_values].
    all: try (intros v Hv; apply elem_of_cons; by right).
    all: try (apply set_once_state; [done|unfold word_ok; auto|rewrite Hr; auto]); try (intros _; by right).
    all: rewrite Hr, ?Z.eqb_refl; rewrite ?(proj2 (Z.eqb_neq N PTHREAD_ONCE_DONE)), ?(proj2 (Z.eqb_neq PTHREAD_ONCE_DONE N)), ?(proj2 (Z.eqb_neq 0 N)) by lia; done.
  - destruct c; try done. injection E as <- <- <- <-. apply (effect_same Once_wake); try done. intros _. by apply Hd.
  - destruct c; try done. injection E as <- <- <- <-. by apply (effect_same Clear_wake).
  - done.
Qed.

(** What holds in every execution. *)
Record once_inv (p : @pool one_time) (tr : list oevent) : Prop := OnceInv {
  oi_state : once_state (obj p);
  oi_loaded : Forall (loaded (obj p)) (threads p);
  oi_running : @count one_time running (threads p) = b2z (once_control (obj p) =? N);
  oi_finished : oevents finished tr = b2z (once_control (obj p) =? PTHREAD_ONCE_DONE);
  oi_started : oevents started tr = oevents finished tr + oevents aborted tr + @count one_time running (threads p);
  oi_returned : 0 < oevents returned tr -> once_control (obj p) = PTHREAD_ONCE_DONE;
  oi_leaving : 0 < @count one_time leaving (threads p) -> once_control (obj p) = PTHREAD_ONCE_DONE;
  oi_asleep : 0 < @count one_time once_asleep (threads p) ->
    once_control (obj p) = N \/ 0 < @count one_time announcing (threads p) }.

Lemma oevents_nonneg f tr : 0 <= oevents f tr.
Proof. induction tr as [|e tr IH]; [done|]. cbn [oevents]. pose proof (b2z_bounds (f e)). lia. Qed.

(** The counts after a step: all sleepers are awake, or none was woken. *)
Lemma once_counts i c w (p p' : @pool one_time) ev : pool_step i c w p = Some (p', ev) ->
  exists x y k, threads p !! i = Some x /\ once_action c x (obj p) = Some (y, obj p', k, ev) /\
    (k <> One -> forall f, (forall z, once_asleep z = true -> f (once_woken z) = f z) ->
       @count one_time f (threads p') = @count one_time f (threads p) - b2z (f x) + b2z (f y)) /\
    (k = Nobody -> forall f, @count one_time f (threads p') = @count one_time f (threads p) - b2z (f x) + b2z (f y)) /\
    (k = Everybody -> @count one_time once_asleep (threads p') = 0).
Proof.
  intros E. apply pool_step_counts in E as (x & y & k & Ex & Ea & _ & Cs). exists x, y, k. split; [done|]. split; [done|].
  destruct Cs as [[K Cs]|[(-> & _)|(-> & A & Cs)]]; [| |done].
  - split; [intros _ f _; apply Cs|]. split; [intros _; apply Cs|]. intros ->. by destruct K as [|[]].
  - done.
Qed.

Lemma once_start : once_inv (once_pool n g w0) [].
Proof.
  destruct N_bits as (_ & _ & N0 & N2). assert (W0 : w0 <> N /\ w0 <> PTHREAD_ONCE_DONE).
  { destruct w0_ok as [->|(h & -> & Nh)]; [done|]. split; [done|]. unfold PTHREAD_ONCE_DONE. lia. }
  assert (Cz : forall f, f Out_of_once = false -> @count one_time f (threads (once_pool n g w0)) = 0).
  { intros f Hf. exact (@count_replicate one_time f n Out_of_once Hf). }
  constructor; rewrite ?Cz by done; cbn [obj once_pool once_control oevents]; try lia.
  - constructor; [by rewrite N_def|by apply elem_of_cons; left| |].
    + intros v ->%list_elem_of_singleton. by do 3 right.
    + cbn. intros E%list_elem_of_singleton. by destruct W0.
  - by apply Forall_replicate.
  - by rewrite (proj2 (Z.eqb_neq _ _) (proj1 W0)).
  - by rewrite (proj2 (Z.eqb_neq _ _) (proj2 W0)).
Qed.

Lemma once_preserved i c w p p' tr ev : once_inv p tr -> pool_step i c w p = Some (p', ev) -> once_inv p' (tr ++ ev).
Proof.
  intros [Is Il Ir If Ist Ire Ile Ia] E. pose proof (once_counts _ _ _ _ _ _ E) as (x & y & k & Ex & Ea & Cs & Cn & Ce).
  assert (Hx : loaded (obj p) x) by (by apply (Forall_lookup_1 _ _ _ _ Il Ex)).
  assert (Effect : forall x y k, threads p !! i = Some x -> once_action c x (obj p) = Some (y, obj p', k, ev) -> loaded (obj p) x -> once_effect x y (obj p) (obj p') k ev).
  { intros x1 y1 k1 Ex1 Ea1 Hx1. apply (action_once c); try done.
    - intros Rx. pose proof (@count_pos one_time running _ _ _ Ex1 Rx) as Cp. rewrite Ir in Cp. by destruct (Z.eqb_spec (once_control (obj p)) N).
    - intros Lx. apply Ile. by apply (@count_pos one_time leaving _ _ _ Ex1). }
  pose proof (Effect x y k Ex Ea Hx) as [Es El Ev Er Ef Est Ere Ele Ed Ek Eas Ekept].
  assert (Nk : k <> One) by (rewrite Ek; by destruct (announcing x)).
  assert (Fr : @count one_time running (threads p') = @count one_time running (threads p) - b2z (running x) + b2z (running y)).
  { apply (Cs Nk). by intros []. }
  assert (Fl : @count one_time leaving (threads p') = @count one_time leaving (threads p) - b2z (leaving x) + b2z (leaving y)).
  { apply (Cs Nk). by intros []. }
  pose proof (oevents_nonneg returned tr). pose proof (oevents_nonneg returned ev). pose proof (b2z_bounds (leaving x)).
  constructor; rewrite ?oevents_app; [done| |lia|lia|lia| | |].
  - apply (@pool_step_Forall one_time loaded i c w p p' ev); [by intros s []|done|done|]. intros x1 y1 k1 Ex1 Hx1 Ea1.
    destruct (Effect x1 y1 k1 Ex1 Ea1 Hx1). split; [done|]. intros []; try done. apply oe_values0.
  - intros Rp. destruct (Z.lt_ge_cases 0 (oevents returned ev)); [by apply Ere|]. apply Ed, Ire. lia.
  - intros Lp. destruct (leaving y) eqn:Ly; [by apply Ele|]. apply Ed, Ile. rewrite Fl in Lp. cbn [b2z] in Lp. lia.
  - intros Ap. destruct (announcing x) eqn:Ax; [rewrite (Ce Ek) in Ap; lia|]. rewrite (Cn Ek) in Ap. rewrite (Cn Ek), Ax. cbn [b2z].
    pose proof (b2z_bounds (announcing y)). pose proof (b2z_bounds (once_asleep x)). destruct (once_asleep y) eqn:Ay; [left; by apply Eas|].
    destruct (Ia ltac:(cbn [b2z] in Ap; lia)) as [Ic|Ic]; [|right; lia]. destruct (Ekept Ic) as [|Yn]; [by left|]. right. rewrite Yn.
    pose proof (@count_bounds one_time announcing (threads p)). cbn. lia.
Qed.

Lemma reach_once p tr : reach (once_pool n g w0) p tr -> once_inv p tr.
Proof. induction 1 as [|p tr i c w p' ev R IH E]; [apply once_start|]. by apply (once_preserved i c w p). Qed.
End Execution.

(** ** Theorems *)

(** The word a process may find: nothing was begun, or the routine was running
    in a process of another generation when that forked. *)
Definition fresh_word (g w0 : Z) : Prop :=
  w0 = 0 \/ exists h, w0 = 4 * h + 1 /\ w0 <> newval (Once 0 [] (PTHREAD_ONCE_FORK_GEN_INCR * g)).

(** C16: pthread_once runs the routine once. In every interleaving, also in a
    child forked while the parent was running the routine: at most one thread
    runs it at a time, it is completed at most once, it is begun again only if
    it was cut short, and a call returns only after it has been completed. *)
Theorem pthread_once_correct n g w0 p tr : fresh_word g w0 -> reach (once_pool n g w0) p tr ->
  @count one_time running (threads p) <= 1 /\
  oevents started tr = oevents finished tr + oevents aborted tr + @count one_time running (threads p) /\
  oevents finished tr + @count one_time running (threads p) <= 1 /\
  (0 < oevents returned tr -> oevents finished tr = 1).
Proof.
  intros W R. destruct (reach_once n g w0 _ eq_refl W p tr R) as [_ _ Ir If Ist Ire _ _].
  pose proof (N_bits g _ eq_refl) as (_ & _ & _ & N2). rewrite Ir, If in *.
  assert (Le : b2z (once_control (obj p) =? PTHREAD_ONCE_DONE) +
    b2z (once_control (obj p) =? newval (Once 0 [] (PTHREAD_ONCE_FORK_GEN_INCR * g))) <= 1).
  { destruct (Z.eqb_spec (once_control (obj p)) PTHREAD_ONCE_DONE) as [E|]; [|cbn; apply b2z_bounds].
    rewrite E, (proj2 (Z.eqb_neq _ _)); [done|]. by apply not_eq_sym. }
  split; [apply b2z_bounds|]. split; [lia|]. split; [done|]. intros Rp. by rewrite (Ire Rp).
Qed.

(** No caller of pthread_once sleeps for ever. While a thread sleeps, the
    routine is running or a thread is about to wake all sleepers. *)
Theorem pthread_once_no_lost_wakeup n g w0 p tr : fresh_word g w0 -> reach (once_pool n g w0) p tr ->
  0 < @count one_time once_asleep (threads p) ->
  exists i x, threads p !! i = Some x /\ (running x || announcing x) = true.
Proof.
  intros W R A. destruct (reach_once n g w0 _ eq_refl W p tr R) as [_ _ Ir _ _ _ _ Ia]. destruct (Ia A) as [E|Cp].
  - rewrite E, Z.eqb_refl in Ir. destruct (@count_exists one_time running (threads p)) as (i & x & Ex & Hx); [rewrite Ir; done|].
    exists i, x. by rewrite Hx.
  - destruct (@count_exists one_time announcing _ Cp) as (i & x & Ex & Hx). exists i, x. by rewrite Hx, orb_true_r.
Qed.

(** ** An execution *)

(** In a child of the second generation whose parent was initializing, a thread
    begins, another one sleeps, and the routine returns. *)
Definition once_sched : list (nat * ochoice * option nat) :=
  [(0%nat, Call_once, None); (0%nat, Acquire 1, None); (0%nat, Acquire 1, None); (0%nat, Advance, None);
   (1%nat, Call_once, None); (1%nat, Acquire 5, None); (1%nat, Acquire 5, None); (1%nat, Advance, None); (1%nat, Advance, None);
   (0%nat, Advance, None)].

Definition once_late : @pool one_time := Pool [Once_wake; Once_asleep] (Once 2 [2; 5; 5; 1] 4).

Lemma once_late_reach : reach (once_pool 2 1 1) once_late [Started; Finished].
Proof.
  apply (@exec_reach one_time once_sched _ (once_pool 2 1 1) []); [apply reach_start|].
  vm_cast_no_check (@eq_refl (option (@pool one_time * list oevent)) (Some (once_late, [Started; Finished]))).
Qed.

Lemma fresh_1 : fresh_word 1 1.
Proof. right. exists 0. split; [reflexivity|]. intros E. vm_compute in E. discriminate E. Qed.

Lemma pthread_once_witness : oevents started [Started; Finished] = 1 + 0 + 0 /\ oevents finished [Started; Finished] + 0 <= 1.
Proof.
  destruct (pthread_once_correct 2 1 1 once_late [Started; Finished] fresh_1 once_late_reach) as (_ & S & F & _).
  split; [exact S|exact F].
Defined.

Lemma pthread_once_no_lost_wakeup_witness : exists i x, threads once_late !! i = Some x /\ (running x || announcing x) = true.
Proof. exact (pthread_once_no_lost_wakeup 2 1 1 once_late [Started; Finished] fresh_1 once_late_reach eq_refl). Defined.
